(* ===== verification/_CoqProject ===== *)
-Q . S2P
Prelude.v
GoStrings.v
GoJson.v
Evm.v
JsonRpc.v
Head.v
MemoryStore.v
World.v
HeadJson.v
Redis.v
RedisStore.v
SharedStore.v
SharedLaws.v
SharedProperties.v
RedisSim.v
Redaction.v
Upstream.v
Chain.v
Validation.v
RequestCache.v
Receipts.v
Coordinator.v
Observers.v
Transform.v
Router.v
Activity.v
Leadership.v
Leases.v
Typing.v
Liveness.v
Fence.v
Gateway.v
Serve.v
Subscriptions.v
Websocket.v
Delivery.v
Streams.v
QuickNode.v
Duration.v
Config.v
Telemetry.v
Endpoints.v
Admin.v
Main.v
