(* ===== verification/Prelude.v ===== *)
(** * Verification of RPC Proxy

    RPC Proxy answers JSON-RPC reads of EVM and Solana chains from several providers
    that lag behind one another.  A coordinator accepts one head per chain and puts it
    in a store shared by all instances; every read is pinned to an accepted head, sent
    to a provider that can serve it, checked, and discarded if the chain was
    reorganised meanwhile.  The claim the program stands for is "consistent data or an
    error": this development models the code under src/internal/ and src/cmd/ and
    proves what that claim rests on.

    ** Parts

    The files follow the program's packages; each names the Go lines its definitions
    translate in a comment [go: file:first-last symbol], relative to src/internal/
    (src/ for cmd/).

    - Strings, JSON and quantities.  [GoStrings] and [GoJson] model what is used of Go's
      strings, strconv and encoding/json (a byte-by-byte scanner of JSON texts, quoting,
      field matching).  [Evm] is utils/evm.go; [JsonRpc] is jsonrpc/jsonrpc.go and
      errors.go: envelopes, validation, responses, error values.
    - The accepted head.  [Head] has the data of head/types.go and the store's interface:
      class [HeadStore] with the operations, class [HeadStoreLaws] with what they promise
      (what a snapshot shows of a chain, that an epoch never goes back, that recovery
      changes it, that a publication of another epoch is refused).  [MemoryStore] is the
      in-process store of head/types.go.  [HeadJson] follows a head through its JSON text.
    - The shared store.  [Redis] has the commands and the values the scripts of
      head/redis.go use and the five Lua scripts, statement by statement; [RedisStore] is
      the methods of RedisStore around them.  [SharedStore] and [SharedLaws] show that the
      scripts act on one chain as the operations of an abstract view and that RedisStore
      keeps [HeadStoreLaws]; [SharedProperties] states the results; [RedisSim] has a
      keyspace, a cjson and a client they run on.
    - The outside.  [World] has errors, contexts, the clock, the HTTP transport and
      golang.org/x/sync's single-flight groups as classes on a type of worlds [W].
    - Providers.  [Upstream] is upstream/client.go: a call with its semaphore, the failure
      circuit, the score, the status; [Redaction] is how credentials are kept out of error
      texts there and in telemetry/telemetry.go.  [Chain] is chain/runtime.go: header
      parsing, candidates, blocks by hash and by height, block references, the
      availability cache.  [Validation] is the startup validation of the same file.
    - Caches.  [RequestCache] is services/requestcache/cache.go: an LRU list with byte
      bounds, loading through single flights.  [Receipts] is services/receipts/receipts.go:
      whether a block is on the accepted chain.
    - Accepting heads.  [Coordinator] is the decisions of coordinator/coordinator.go:
      polling a provider, selecting the freshest head, verifying a transition, handling
      an observation (publish, begin a reorg, finish one, wait).  [Observers] is the
      rounds of polling and coordinator/subscription.go, the provider subscriptions.
      [Leadership] is Run, runLeader, maintainLease and emitHeadAges: the goroutines of a
      leader as steps of a schedule; [Leases] instantiates its laws for both stores.
      [Typing] says what a well-formed accepted head is and that a coordinator keeps the
      store so.
    - Answering requests.  [Transform] is gateway/transform.go: rewriting a request against
      a snapshot of accepted heads.  [Router] is gateway/router.go and verification.go:
      trying candidates and checking what they answer.  [Gateway] is gateway/cache.go and
      [process] of router.go: caching, guards, response headers.  [Fence] is
      gateway/reorg.go: the last look at the store.  [Serve] is [ServeRPC] of router.go:
      an HTTP envelope from body to reply.  [Activity] and [Liveness] prove that a
      relation kept by the primitives is kept by requests and validation, and that
      routing ends.
    - Sessions.  [Subscriptions] is the handlers of gateway/websocket.go, one message and
      one round of the event loop at a time; [Websocket] interleaves the reader, the writer
      and the pump of a session step by step.  [Delivery] follows the pump back to the
      store: class [StreamLaws] is what a store promises readers of its stream, and
      [Streams] shows that both stores keep it.
    - The edges.  [Endpoints] is the two public handlers, NewGateway and gateway/clients.go;
      [Admin] is gateway/admin.go; [Telemetry] is telemetry/telemetry.go with the
      lines of the logger.  [Config] is config/config.go, [Duration] how it reads durations
      (time.ParseDuration); [QuickNode] is services/quicknode/endpoints.go.
      [Main] is cmd/rpc-proxy/main.go.

    ** How the code is translated

    A Go function that touches anything shared becomes a function that takes a world
    and returns one; [let*] threads it, [let?] threads errors ([result]).  The state of
    clients, runtimes, coordinators, caches, telemetry and the store are components of the
    world reached through classes ([Clients], [Runtimes], [Coordinators], [Caches],
    [Collectors], [HeadStore]).  Nothing is assumed of what the primitives of [World] do to
    those components, so the properties hold whatever other goroutines do during an
    exchange, a wait or a shared call.  Where the order of goroutines matters to the code
    itself it is explicit: the order in which the items of a batch or the probes of a
    validation run is a parameter ([schedule]), the goroutines of a leader and of a
    WebSocket session are steps of a list of events ([leader_event], [ws_event]), and the
    properties are for every list.  A WebSocket message is handled in one step: the
    session's lock is held while a subscription is registered and its reply queued; the
    reply to an unsubscription may in fact come after notifications the pump queues
    meanwhile.

    The laws a property needs are named classes: [HeadStoreLaws], [SingleFlightLaws],
    [BlockReaderLaws], [ClockLaws], [StartupLaws], [NetUrlLaws], [RedisLaws], [CjsonLaws],
    [RedisClientLaws], [LeaseLaws], [LeaderActivity], [TypedWorld], [CollectorLaws], [ProcessLaws],
    [YamlLaws], [StreamLaws]; each has an instance the witnesses run on.

    Unsigned 64-bit integers are [Z] in range with [u64_add] and [u64_sub] where the
    code does not guard; instants and durations are [Z] nanoseconds; floats are the
    primitive IEEE operations of [SpecFloat].  Maps the code ranges over are ranged in
    an order given by a parameter ([range_order]) or by the order of a list.

    Parameters, because they are outside the repository's code: the HTTP transport and
    the clock, single-flight groups, SHA-256 of cache keys, printing of floats and
    instants, parsing of URLs, the texts of encoding/json errors, random bytes, the
    environment, the Redis server ([Redis.Redis]) with its client and the cjson library of
    its scripts, the sockets of provider subscriptions, the Datadog clients, the YAML
    decoder ([YamlDecoder]), the operating system and the HTTP server ([Host]).

    Recursion.  [route] takes fuel for its attempts: [Liveness.route_terminates] shows
    that some amount is always enough under the deadline every request has.  Parent walks
    ([ancestor], [follow_parents], [close_gap], [collect_ancestors], [find_common],
    [expand_loop]) recurse on the number of steps the code bounds itself by: a height
    difference or the configured reorg depth.  [evict] recurses on the length of the
    recency list.  [components] of a
    duration take the length of its text.  [eventLoop], the steps of leaders and sessions and the runs of store
    and cache operations are for any number of rounds.

    ** What is proved

    - Pinning ([Transform]): what leaves the transformer names an accepted block, carries
      boundary checks or a minimum slot, or is refused; writes and unknown methods never
      leave.  Block references resolve to ancestors of the accepted head ([Chain]).
    - Checking ([Router]): an answer that is passed on satisfies the check of its method;
      receipts stay under the head of the request, cached or not ([Gateway]).
    - Fencing ([Fence], [Serve]): if the answers of an envelope are delivered, the store
      was at the reorg epoch of the snapshot they were made for after the last of them.
    - The stores: the in-process store refines its abstract view, the epoch never goes
      back and changes with every replaced branch ([MemoryStore]); the scripts refine the
      same view, a token that lost its lease is refused, readers of the stream miss
      nothing or are told, and both stores agree on publications ([SharedProperties]).  A
      head written as JSON is read back ([HeadJson]).
    - Accepting heads: whatever is published is the same head, a verified descendant, or
      the outcome of a recorded reorg with a common ancestor in reach ([Coordinator]); what
      polling and subscriptions report is what providers said ([Observers]); a leader whose
      lease is gone changes no accepted head, and stops ([Leadership]); every accepted head
      is well typed, and its header is a block that names it ([Typing]).
    - Caching ([RequestCache], [Receipts]): the cache refines a bounded LRU list; a result
      is one loaded for the same key; inclusion is shown by parent links.
    - Delivery: one reply per request that wants one, in order ([Serve]); a session takes
      the events the store accepted after its checkpoint, all and in order, and what it
      announces of them forms a chain without gaps or repetitions ([Delivery],
      [Subscriptions]); each subscriber of a session gets a contiguous stretch of them,
      after the reply that names its subscription, whatever the interleaving ([Websocket]).
    - Providers ([Upstream], [Chain], [Validation]): the circuit, the ranking, what a call
      returns, what an upstream has shown before it is used.
    - Secrets and labels: error texts show neither URLs nor credentials, and redacting is
      idempotent ([Redaction]); clients cannot create metric series and no value of a log
      line shows a secret ([Endpoints], [Telemetry]); QuickNode credentials stay on the
      configured account's hosts ([QuickNode]).
    - Configuration ([Config]): a file that loads is one document whose durations are
      [int64], completed and accepted by [Validate], which accepts exactly the settings the
      other parts rely on.
    - Operation: an instance is ready exactly when it can serve every chain ([Admin]); the
      process closes what it opens and starts each chain once ([Main], [Telemetry]).
    - Termination ([Liveness]), and the round trip of quantities ([Evm]).

    ** What is not modelled

    - Redis beyond one server that executes scripts atomically: failover, eviction of
      keys, and counters of 10^14 and more, which Lua would print as floats.
    - The calls to telemetry from inside the other parts: submitting a metric or finishing
      a span changes nothing they read; and which lines they log.
    - The texts of encoding/json errors, and the encoding of responses and of the status
      page, which are left as data ([Serve], [Admin]).
    - Sessions that start before the first head is accepted: the shared store checks for
      trimmed entries only after a checkpoint, so [Delivery] claims no gaplessness there.
    - Pings and the closing handshake of WebSocket connections, the parsing of command
      lines, YAML itself, and HTTP servers below the handlers. *)

From stdpp Require Export base numbers list gmap strings pretty sorting.
From Stdlib Require Export ZArith Lia.

#[export] Set Default Proof Using "Type".

(** ** Results of fallible Go functions

    A Go function returning [(T, error)] becomes a function into
    [result E T]; exactly one of the two is ever looked at by its callers. *)

Inductive result (E A : Type) : Type :=
| Err (e : E)
| Ok (a : A).

Arguments Err {E A} e.
Arguments Ok {E A} a.

Declare Scope go_scope.
Delimit Scope go_scope with go.

Definition result_bind {E A B} (m : result E A) (k : A → result E B) : result E B :=
  match m with Err e => Err e | Ok a => k a end.

Definition result_map_err {E F A} (f : E → F) (m : result E A) : result F A :=
  match m with Err e => Err (f e) | Ok a => Ok a end.

Definition is_ok {E A} (m : result E A) : bool :=
  match m with Err _ => false | Ok _ => true end.

Notation "'let?' x ':=' m 'in' k" := (result_bind m (λ x, k))
  (at level 10, x pattern, m at level 100, k at level 200,
   format "'[v' 'let?'  x  ':='  m  'in' '//' k ']'") : go_scope.

#[global] Open Scope go_scope.

Lemma result_bind_Ok {E A B} (m : result E A) (k : A → result E B) b :
  result_bind m k = Ok b ↔ ∃ a, m = Ok a ∧ k a = Ok b.
Proof.
  destruct m as [e|a]; simpl; split.
  - done.
  - by intros (a & [=] & _).
  - eauto.
  - by intros (a' & [= <-] & ?).
Qed.

(** ** Machine integers

    A Go [uint64] is a [Z] in [0, 2^64); additions and subtractions that the
    code does not guard are written with [u64_add] and [u64_sub]. *)

Definition two64 : Z := 18446744073709551616.

Definition u64_wf (z : Z) : Prop := (0 ≤ z < two64)%Z.

Definition u64_add (a b : Z) : Z := ((a + b) mod two64)%Z.

Definition u64_sub (a b : Z) : Z := ((a - b) mod two64)%Z.

Lemma u64_add_wf a b : u64_wf (u64_add a b).
Proof. unfold u64_wf, u64_add, two64. apply Z.mod_pos_bound. lia. Qed.

Lemma u64_sub_wf a b : u64_wf (u64_sub a b).
Proof. unfold u64_wf, u64_sub, two64. apply Z.mod_pos_bound. lia. Qed.

Lemma u64_add_small a b : (0 ≤ a + b < two64)%Z → u64_add a b = (a + b)%Z.
Proof. apply Z.mod_small. Qed.

Lemma u64_sub_small a b : u64_wf a → (0 ≤ b ≤ a)%Z → u64_sub a b = (a - b)%Z.
Proof. unfold u64_wf, u64_sub. intros. apply Z.mod_small. lia. Qed.

(** [x + 1 == y] in [uint64] arithmetic with both sides in range. *)
Lemma u64_succ_eq a b :
  u64_wf a → u64_wf b → u64_add a 1 = b → (b = a + 1 ∨ b = 0 ∧ a = two64 - 1)%Z.
Proof.
  unfold u64_wf, u64_add, two64. intros Ha Hb <-.
  destruct (decide (a = 18446744073709551615)%Z) as [->|].
  - right. split; [reflexivity|lia].
  - left. apply Z.mod_small. lia.
Qed.

Create HintDb u64 discriminated.
#[export] Hint Resolve u64_add_wf u64_sub_wf : u64.
#[export] Hint Unfold u64_wf : u64.

Ltac u64_lia := unfold u64_wf, two64 in *; lia.

(** ** State passing

    Effectful code threads a state [S]: [let* '(x, s) := m in k] reads like the
    Go statement it models, with the store or network after the call in [s]. *)

Notation "'let*' p ':=' m 'in' k" := (match m with p => k end)
  (at level 10, p pattern, m at level 100, k at level 200,
   format "'[v' 'let*'  p  ':='  m  'in' '//' k ']'") : go_scope.

(** ** Reachability

    Every transition system of the development is closed with stdpp's [rtc];
    an invariant preserved by the step relation holds of every reachable state. *)

Lemma rtc_preserved {A} (R : relation A) (P : A → Prop) :
  (∀ x y, R x y → P x → P y) → ∀ x y, rtc R x y → P x → P y.
Proof. intros Hstep x y H. induction H; eauto. Qed.

Lemma rtc_monotone {A} (R : relation A) (Q : relation A) `{!PreOrder Q} :
  (∀ x y, R x y → Q x y) → ∀ x y, rtc R x y → Q x y.
Proof. intros Hstep x y H. induction H; [reflexivity|etrans; eauto]. Qed.

(** For witnesses: evaluate the result of an effectful call, not its world. *)
Lemma pair_fst {A B} (p : A * B) a : p.1 = a → p = (a, p.2).
Proof. destruct p. by intros <-. Qed.

Lemma triple_eta {A B C} (p : A * B * C) b : p.1.2 = b → p = (p.1.1, b, p.2).
Proof. destruct p as [[a b'] c]. by intros <-. Qed.

(** ** Stable sorting

    [sort.SliceStable] with a strict weak order [less]: an insertion sort that
    keeps equivalent elements in their order. *)

Fixpoint insert_stable {A} (less : A → A → bool) (x : A) (l : list A) : list A :=
  match l with
  | [] => [x]
  | y :: r => if less y x then y :: insert_stable less x r else x :: l
  end.

Definition stable_sort {A} (less : A → A → bool) (l : list A) : list A :=
  foldr (insert_stable less) [] l.

Lemma insert_stable_perm {A} (less : A → A → bool) x l : insert_stable less x l ≡ₚ x :: l.
Proof.
  induction l as [|y r IH]; [done|]. simpl. destruct (less y x); [|done].
  rewrite IH. apply Permutation_swap.
Qed.

Lemma stable_sort_perm {A} (less : A → A → bool) l : stable_sort less l ≡ₚ l.
Proof.
  induction l as [|x l IH]; [done|]. simpl. by rewrite insert_stable_perm, IH.
Qed.

(** With [less] the strict part of a total preorder, the result is ordered and
    elements of equal rank keep their order. *)
Section stable_sort.
  Context {A : Type} (less : A → A → bool) (rank : A → Z).
  Hypothesis less_rank : ∀ x y, less x y = (rank x <? rank y)%Z.

Lemma insert_stable_sorted x l :
    StronglySorted (λ a b, rank a ≤ rank b)%Z l →
    StronglySorted (λ a b, rank a ≤ rank b)%Z (insert_stable less x l).
  Proof using less_rank.
    induction 1 as [|y l Hl IH Hy]; simpl; [by repeat constructor|].
    rewrite less_rank. destruct (Z.ltb_spec (rank y) (rank x)).
    - constructor; [done|]. rewrite insert_stable_perm. constructor; [lia|done].
    - constructor; [by constructor|]. constructor; [lia|].
      eapply Forall_impl; [done|]. simpl. lia.
  Qed.

Lemma stable_sort_sorted l : StronglySorted (λ a b, rank a ≤ rank b)%Z (stable_sort less l).
  Proof using less_rank.
    induction l as [|x l IH]; simpl; [constructor|]. by apply insert_stable_sorted.
  Qed.

Lemma insert_stable_rank x l k :
    StronglySorted (λ a b, rank a ≤ rank b)%Z l →
    filter (λ y, rank y = k) (insert_stable less x l) = filter (λ y, rank y = k) (x :: l).
  Proof using less_rank.
    induction 1 as [|y l Hl IH Hy]; [done|]. simpl insert_stable. rewrite less_rank.
    destruct (Z.ltb_spec (rank y) (rank x)); [|done].
    rewrite filter_cons, IH, !filter_cons. repeat case_decide; try done. lia.
  Qed.

Lemma stable_sort_rank l k :
    filter (λ y, rank y = k) (stable_sort less l) = filter (λ y, rank y = k) l.
  Proof using less_rank.
    induction l as [|x l IH]; [done|]. simpl.
    rewrite insert_stable_rank by apply stable_sort_sorted. rewrite !filter_cons, IH. done.
  Qed.
End stable_sort.

Lemma elem_of_stable_sort {A} (less : A → A → bool) l x : x ∈ stable_sort less l ↔ x ∈ l.
Proof. by rewrite stable_sort_perm. Qed.

(** ** Booleans of the source as propositions *)

Lemma bool_decide_true_iff (P : Prop) `{Decision P} : bool_decide P = true ↔ P.
Proof. apply bool_decide_eq_true. Qed.

(** Turn boolean connectives and comparisons in the context into propositions. *)
Ltac bool_to_prop :=
  repeat match goal with
  | H : (_ && _) = true |- _ => apply andb_true_iff in H; destruct H
  | H : (_ && _) = false |- _ => apply andb_false_iff in H
  | H : (_ || _) = true |- _ => apply orb_true_iff in H
  | H : (_ || _) = false |- _ => apply orb_false_iff in H; destruct H
  | H : negb _ = true |- _ => apply negb_true_iff in H
  | H : negb _ = false |- _ => apply negb_false_iff in H
  | H : (_ <? _)%Z = true |- _ => apply Z.ltb_lt in H
  | H : (_ <? _)%Z = false |- _ => apply Z.ltb_ge in H
  | H : (_ <=? _)%Z = true |- _ => apply Z.leb_le in H
  | H : (_ <=? _)%Z = false |- _ => apply Z.leb_gt in H
  | H : (_ =? _)%Z = true |- _ => apply Z.eqb_eq in H
  | H : (_ =? _)%Z = false |- _ => apply Z.eqb_neq in H
  | H : bool_decide _ = true |- _ => apply bool_decide_eq_true in H
  | H : bool_decide _ = false |- _ => apply bool_decide_eq_false in H
  | H : String.eqb _ _ = true |- _ => apply String.eqb_eq in H
  | H : String.eqb _ _ = false |- _ => apply String.eqb_neq in H
  end.

(** Case-split the [match] or [if] the goal (or [H]) is stuck on. *)
Ltac split_match :=
  match goal with
  | |- context [match ?x with _ => _ end] => destruct x eqn:?
  end.

Ltac split_match_in H :=
  match type of H with
  | context [match ?x with _ => _ end] => destruct x eqn:?
  end.
