(* ===== verification/GoStrings.v ===== *)
(** * The Go string and byte functions the program uses

    A Go [string] and a [[]byte] are both a [string] of bytes here.  The program
    only compares folded strings with ASCII ones (hex hashes, JSON field names)
    and only searches lowered strings for ASCII fragments.  [EqualFold] and
    [ToLowerText] are exact for these uses: besides the ASCII letters they map the
    few other runes that fold, or lower, to an ASCII letter.  Every other byte
    stays as it is. *)

From S2P Require Import Prelude.
From Stdlib Require Import Ascii.

Definition byte_val (c : ascii) : N := N_of_ascii c.

Definition in_range (lo hi : N) (c : ascii) : bool :=
  (lo <=? byte_val c)%N && (byte_val c <=? hi)%N.

(** ** Case folding *)

Definition lower_ascii (c : ascii) : ascii :=
  if in_range 65 90 c then ascii_of_N (byte_val c + 32) else c.

Fixpoint ToLower (s : string) : string :=
  match s with
  | EmptyString => EmptyString
  | String c r => String (lower_ascii c) (ToLower r)
  end.

(** [strings.ToLower]: besides A-Z, the Kelvin sign U+212A lowers to [k] and
    U+0130 to [i]. *)
Fixpoint ToLowerText (s : string) : string :=
  match s with
  | EmptyString => EmptyString
  | String a (String b (String c r as r2) as r1) =>
      if (byte_val a =? 226)%N && (byte_val b =? 132)%N && (byte_val c =? 170)%N
      then String (ascii_of_N 107) (ToLowerText r)
      else if (byte_val a =? 196)%N && (byte_val b =? 176)%N
      then String (ascii_of_N 105) (ToLowerText r2)
      else String (lower_ascii a) (ToLowerText r1)
  | String a (String b EmptyString as r1) =>
      if (byte_val a =? 196)%N && (byte_val b =? 176)%N then String (ascii_of_N 105) EmptyString
      else String (lower_ascii a) (ToLowerText r1)
  | String a r => String (lower_ascii a) (ToLowerText r)
  end.

(** Simple case folding: besides A-Z, the Kelvin sign folds to [k] and the long
    s U+017F to [s]. *)
Fixpoint fold_text (s : string) : string :=
  match s with
  | EmptyString => EmptyString
  | String a (String b (String c r as r2) as r1) =>
      if (byte_val a =? 226)%N && (byte_val b =? 132)%N && (byte_val c =? 170)%N
      then String (ascii_of_N 107) (fold_text r)
      else if (byte_val a =? 197)%N && (byte_val b =? 191)%N
      then String (ascii_of_N 115) (fold_text r2)
      else String (lower_ascii a) (fold_text r1)
  | String a (String b EmptyString as r1) =>
      if (byte_val a =? 197)%N && (byte_val b =? 191)%N then String (ascii_of_N 115) EmptyString
      else String (lower_ascii a) (fold_text r1)
  | String a r => String (lower_ascii a) (fold_text r)
  end.

Definition EqualFold (s t : string) : bool := String.eqb (fold_text s) (fold_text t).

(** [EqualFold] as an equivalence, for setoid rewriting. *)
Definition fold_eq : relation string := λ s t, EqualFold s t = true.

#[export] Instance fold_eq_equivalence : Equivalence fold_eq.
Proof.
  unfold fold_eq, EqualFold. split.
  - intros s. apply String.eqb_refl.
  - intros s t. rewrite !String.eqb_eq. done.
  - intros s t u. rewrite !String.eqb_eq. congruence.
Qed.

#[export] Instance EqualFold_proper : Proper (fold_eq ==> fold_eq ==> eq) EqualFold.
Proof.
  unfold fold_eq, EqualFold. intros s s' Hs t t' Ht.
  rewrite String.eqb_eq in Hs, Ht. by rewrite Hs, Ht.
Qed.

Lemma EqualFold_refl s : EqualFold s s = true.
Proof. apply String.eqb_refl. Qed.

Lemma EqualFold_sym s t : EqualFold s t = EqualFold t s.
Proof. apply String.eqb_sym. Qed.

Lemma EqualFold_trans s t u :
  EqualFold s t = true → EqualFold t u = true → EqualFold s u = true.
Proof. intros H1 H2. exact (transitivity (R:=fold_eq) H1 H2). Qed.

(** ** Substrings *)

Definition HasPrefix (s p : string) : bool := String.prefix p s.

Fixpoint Contains (s sub : string) : bool :=
  String.prefix sub s
  || match s with EmptyString => false | String _ r => Contains r sub end.

Fixpoint drop_bytes (n : nat) (s : string) : string :=
  match n, s with
  | S k, String _ r => drop_bytes k r
  | _, _ => s
  end.

Fixpoint take_bytes (n : nat) (s : string) : string :=
  match n, s with
  | S k, String c r => String c (take_bytes k r)
  | _, _ => EmptyString
  end.

Lemma string_app_cons c s t : String c s +:+ t = String c (s +:+ t).
Proof. reflexivity. Qed.

Lemma string_app_nil_l t : "" +:+ t = t.
Proof. reflexivity. Qed.

Lemma string_app_assoc s t u : (s +:+ t) +:+ u = s +:+ t +:+ u.
Proof.
  induction s as [|c s IH]; [done|]. by rewrite !string_app_cons, IH.
Qed.

Lemma drop_bytes_app s t : drop_bytes (String.length s) (s +:+ t) = t.
Proof. by induction s. Qed.

Lemma take_bytes_app s t : take_bytes (String.length s) (s +:+ t) = s.
Proof. induction s as [|c s IH]; [by destruct t|]. rewrite string_app_cons. simpl. by rewrite IH. Qed.

Lemma take_drop_bytes n s : take_bytes n s +:+ drop_bytes n s = s.
Proof.
  revert s. induction n as [|n IH]; intros s; [done|]. destruct s as [|c s]; [done|].
  simpl. by rewrite string_app_cons, IH.
Qed.

Lemma string_app_nil_r s : s +:+ "" = s.
Proof. induction s as [|c s IH]; [done|]. by rewrite string_app_cons, IH. Qed.

Lemma string_length_app s t : String.length (s +:+ t) = (String.length s + String.length t)%nat.
Proof. induction s as [|c s IH]; [done|]. rewrite string_app_cons. cbn. by rewrite IH. Qed.

(** [len(s)] of Go, an [int]. *)
Definition len (s : string) : Z := Z.of_nat (String.length s).

Lemma len_nonneg s : (0 ≤ len s)%Z.
Proof. unfold len. lia. Qed.

(** ** [bytes.TrimSpace] / [strings.TrimSpace]

    White space is Unicode's: the ASCII six, U+0085, U+00A0, U+1680,
    U+2000..200A, U+2028, U+2029, U+202F, U+205F and U+3000 in UTF-8. *)

Definition ascii_space (c : ascii) : bool :=
  in_range 9 13 c || (byte_val c =? 32)%N.

Definition space2 (a b : ascii) : bool :=
  (byte_val a =? 194)%N && ((byte_val b =? 133)%N || (byte_val b =? 160)%N).

Definition space3 (a b c : ascii) : bool :=
  match byte_val a, byte_val b, byte_val c with
  | 225, 154, 128 => true
  | 226, 128, z => (in_range 128 138 c || (z =? 168) || (z =? 169) || (z =? 175))%N
  | 226, 129, 159 => true
  | 227, 128, 128 => true
  | _, _, _ => false
  end%N.

(** [rev] selects the reading direction: right trimming reads the bytes of a
    multi-byte space from its last to its first. *)
Fixpoint trim_from (rev : bool) (s : string) : string :=
  match s with
  | EmptyString => EmptyString
  | String a r =>
      if ascii_space a then trim_from rev r else
      match r with
      | EmptyString => s
      | String b r2 =>
          if (if rev then space2 b a else space2 a b) then trim_from rev r2 else
          match r2 with
          | EmptyString => s
          | String c r3 =>
              if (if rev then space3 c b a else space3 a b c) then trim_from rev r3 else s
          end
      end
  end.

Definition TrimSpace (s : string) : string :=
  String.rev (trim_from true (String.rev (trim_from false s))).

(** ** Digits and [strconv.ParseUint] *)

Definition digit_val (c : ascii) : option Z :=
  if in_range 48 57 c then Some (Z.of_N (byte_val c) - 48)%Z
  else if in_range 97 102 c then Some (Z.of_N (byte_val c) - 87)%Z
  else if in_range 65 70 c then Some (Z.of_N (byte_val c) - 55)%Z
  else None.

Fixpoint parse_digits (base : Z) (s : string) (acc : Z) : option Z :=
  match s with
  | EmptyString => Some acc
  | String c r =>
      match digit_val c with
      | Some d => if (d <? base)%Z then parse_digits base r (acc * base + d)%Z else None
      | None => None
      end
  end.

(** [strconv.ParseUint(s, base, 64)] for an explicit base of at most 16. *)
Definition ParseUint (base : Z) (s : string) : option Z :=
  match s with
  | EmptyString => None
  | _ => match parse_digits base s 0 with
         | Some n => if (n <? two64)%Z then Some n else None
         | None => None
         end
  end.

Lemma digit_val_nonneg c d : digit_val c = Some d → (0 ≤ d < 16)%Z.
Proof.
  unfold digit_val, in_range. intros H.
  repeat case_match; simplify_eq; bool_to_prop;
    repeat match goal with
    | H : (_ <=? _)%N = true |- _ => apply N.leb_le in H
    end; lia.
Qed.

Lemma parse_digits_app base s t acc :
  parse_digits base (s +:+ t) acc =
  match parse_digits base s acc with Some n => parse_digits base t n | None => None end.
Proof.
  revert acc. induction s as [|c s IH]; intros acc; [done|]. simpl.
  destruct (digit_val c); [|done]. by case_match.
Qed.

Lemma parse_digits_nonneg base s acc n :
  (0 ≤ base)%Z → (0 ≤ acc)%Z → parse_digits base s acc = Some n → (0 ≤ n)%Z.
Proof.
  intros Hb. revert acc. induction s as [|c s IH]; simpl; intros acc Ha H; [naive_solver|].
  destruct (digit_val c) as [d|] eqn:Hd; [|done]. apply digit_val_nonneg in Hd.
  case_match; [|done]. eapply IH, H. nia.
Qed.

Lemma ParseUint_wf base s n : (0 ≤ base)%Z → ParseUint base s = Some n → u64_wf n.
Proof.
  unfold ParseUint, u64_wf. intros Hb H. destruct s; [done|].
  destruct (parse_digits _ _ _) as [m|] eqn:Hp; [|done].
  apply parse_digits_nonneg in Hp; [|lia..].
  case_match; simplify_eq. bool_to_prop. lia.
Qed.

(** ** [fmt.Sprintf("%x", n)] on [uint64]

    Sixteen digits are enough for 64 bits; [hex_digits_parse] proves it. *)

Definition hex_digit (d : Z) : ascii :=
  if (d <? 10)%Z then ascii_of_N (Z.to_N (48 + d)) else ascii_of_N (Z.to_N (87 + d)).

Fixpoint hex_digits (fuel : nat) (n : Z) : string :=
  match fuel with
  | O => EmptyString
  | S f =>
      if (n <? 16)%Z then String (hex_digit n) EmptyString
      else hex_digits f (n / 16) +:+ String (hex_digit (n mod 16)) EmptyString
  end.

Definition FormatHex (n : Z) : string := hex_digits 16 n.

Lemma hex_digit_val d : (0 ≤ d < 16)%Z → digit_val (hex_digit d) = Some d.
Proof.
  intros H.
  assert (d = 0 ∨ d = 1 ∨ d = 2 ∨ d = 3 ∨ d = 4 ∨ d = 5 ∨ d = 6 ∨ d = 7 ∨ d = 8 ∨ d = 9 ∨
          d = 10 ∨ d = 11 ∨ d = 12 ∨ d = 13 ∨ d = 14 ∨ d = 15)%Z as Hd by lia.
  by destruct_or! Hd; subst.
Qed.

Lemma hex_digits_parse fuel n :
  (0 < fuel)%nat → (0 ≤ n < 16 ^ Z.of_nat fuel)%Z →
  parse_digits 16 (hex_digits fuel n) 0 = Some n.
Proof.
  revert n. induction fuel as [|[|f] IH]; intros n Hf Hn; [lia| |].
  - simpl. change (16 ^ Z.of_nat 1)%Z with 16%Z in Hn.
    destruct (Z.ltb_spec n 16); [|lia].
    simpl. rewrite hex_digit_val by lia.
    destruct (Z.ltb_spec n 16); [done|lia].
  - remember (S f) as k. simpl. destruct (Z.ltb_spec n 16).
    + simpl. rewrite hex_digit_val by lia.
      destruct (Z.ltb_spec n 16); [done|lia].
    + rewrite parse_digits_app, IH; [|lia|].
      * pose proof (Z.mod_pos_bound n 16 ltac:(lia)).
        simpl. rewrite hex_digit_val by done.
        destruct (Z.ltb_spec (n mod 16) 16); [|lia]. f_equal.
        pose proof (Z.div_mod n 16). lia.
      * split; [apply Z.div_pos; lia|].
        apply Z.div_lt_upper_bound; [lia|].
        rewrite Nat2Z.inj_succ, Z.pow_succ_r in Hn by lia. lia.
Qed.

Lemma hex_digits_cons fuel n :
  (0 < fuel)%nat → ∃ c r, hex_digits fuel n = String c r.
Proof.
  destruct fuel as [|f]; [lia|]. intros _. revert n.
  induction f as [|f IH]; intros n; simpl; [case_match; eauto|].
  case_match; [eauto|].
  destruct (IH (n / 16)%Z) as (c & r & Hc). simpl in Hc. rewrite Hc.
  eexists _, _. reflexivity.
Qed.

Lemma ParseUint_FormatHex n : u64_wf n → ParseUint 16 (FormatHex n) = Some n.
Proof.
  intros Hn. unfold ParseUint, FormatHex.
  destruct (hex_digits_cons 16 n) as (c & r & Hc); [lia|].
  rewrite Hc, <- Hc, hex_digits_parse; [|lia|unfold u64_wf, two64 in Hn; simpl; lia].
  destruct (Z.ltb_spec n two64); [done|u64_lia].
Qed.

(** ** [hex.DecodeString]: only whether it fails matters to the program *)

Fixpoint all_hex (s : string) : bool :=
  match s with
  | EmptyString => true
  | String c r => match digit_val c with Some _ => all_hex r | None => false end
  end.

Definition hex_DecodeString_ok (s : string) : bool :=
  Nat.even (String.length s) && all_hex s.

(** ** [strings.Join] *)

Fixpoint Join (l : list string) (sep : string) : string :=
  match l with
  | [] => EmptyString
  | [x] => x
  | x :: r => x +:+ sep +:+ Join r sep
  end.

(** ** [strings.Split], [strings.HasSuffix] and [strings.TrimSuffix] *)

(** Splitting at a one-byte separator. *)
Fixpoint Split (s : string) (sep : ascii) : list string :=
  match s with
  | EmptyString => [EmptyString]
  | String c r =>
      if Ascii.eqb c sep then EmptyString :: Split r sep
      else match Split r sep with
           | x :: l => String c x :: l
           | [] => [String c EmptyString]
           end
  end.

Definition HasSuffix (s t : string) : bool :=
  (String.length t <=? String.length s)%nat
  && String.eqb (drop_bytes (String.length s - String.length t) s) t.

Definition TrimSuffix (s t : string) : string :=
  if HasSuffix s t then take_bytes (String.length s - String.length t) s else s.

(** Every byte of the string is of a kind. *)
Fixpoint all_bytes (p : ascii → bool) (s : string) : bool :=
  match s with
  | EmptyString => true
  | String c r => p c && all_bytes p r
  end.

Lemma all_bytes_app p s t : all_bytes p (s +:+ t) = all_bytes p s && all_bytes p t.
Proof. induction s as [|c s IH]; [done|]. rewrite string_app_cons. simpl. by rewrite IH, andb_assoc. Qed.

Lemma all_bytes_impl p q s : (∀ c, p c = true → q c = true) → all_bytes p s = true → all_bytes q s = true.
Proof.
  intros Hpq. induction s as [|c s IH]; [done|]. simpl. rewrite !andb_true_iff. intros [Hc Hs]. auto.
Qed.

(** ** Readable JSON in examples: a single quote stands for a double quote *)

Definition dquote : ascii := ascii_of_N 34.

Fixpoint js (s : string) : string :=
  match s with
  | EmptyString => EmptyString
  | String c r => String (if (byte_val c =? 39)%N then dquote else c) (js r)
  end.
