(* ===== verification/GoJson.v ===== *)
(** * encoding/json, as far as the program uses it

    A [json.RawMessage] is the byte string it is in Go; the empty string is the
    nil message.  Validation is Go's scanner: a state machine fed one byte at a
    time with a stack of open containers, at most 10000 deep.  Arrays and
    objects are taken apart into the raw slices of their elements, exactly as
    decoding into [[]json.RawMessage] and [map[string]json.RawMessage] does, so
    nested values are decoded by decoding the slice again.

    Struct field names match case-insensitively over ASCII.  [Marshal] compacts
    the raw messages it embeds and escapes HTML characters, as Go does. *)

From S2P Require Import Prelude GoStrings.
From Stdlib Require Import Ascii.

Abbreviation RawMessage := string.

(** ** The scanner *)

Inductive frame := FObjectKey | FObjectValue | FArrayValue.

Inductive sstate :=
| SBeginValue | SBeginValueOrEmpty | SBeginStringOrEmpty | SBeginString
| SInString | SEsc | SEscU (left : nat)
| SNeg | S0 | S1 | SDot | SDot0 | SExp | SExpSign | SExp0
| SLit (rest : string)
| SEndValue | SEndTop.

Record scanner := mk_scanner { sc_state : sstate; sc_stack : list frame }.

Definition json_space (c : ascii) : bool :=
  match byte_val c with 32 | 9 | 13 | 10 => true | _ => false end%N.

Definition is_digit (c : ascii) : bool := in_range 48 57 c.

Definition is_char (n : N) (c : ascii) : bool := (byte_val c =? n)%N.

Definition max_nesting : nat := Z.to_nat 10000.

Definition push_frame (f : frame) (next : sstate) (st : list frame) : option scanner :=
  if (Z.of_nat (length st) <? 10000)%Z then Some (mk_scanner next (f :: st)) else None.

Definition pop_frame (st : list frame) : scanner :=
  match st with
  | [] | [_] => mk_scanner SEndTop []
  | _ :: r => mk_scanner SEndValue r
  end.

(** [stateEndValue]: the byte after a complete value. *)
Definition step_end_value (st : list frame) (c : ascii) : option scanner :=
  match st with
  | [] => if json_space c then Some (mk_scanner SEndTop []) else None
  | f :: r =>
      if json_space c then Some (mk_scanner SEndValue st) else
      match f with
      | FObjectKey => if is_char 58 c then Some (mk_scanner SBeginValue (FObjectValue :: r)) else None
      | FObjectValue =>
          if is_char 44 c then Some (mk_scanner SBeginString (FObjectKey :: r))
          else if is_char 125 c then Some (pop_frame st) else None
      | FArrayValue =>
          if is_char 44 c then Some (mk_scanner SBeginValue st)
          else if is_char 93 c then Some (pop_frame st) else None
      end
  end.

(** [stateBeginValue]. *)
Definition step_begin_value (st : list frame) (c : ascii) : option scanner :=
  let go s := Some (mk_scanner s st) in
  if json_space c then go SBeginValue
  else if is_char 123 c then push_frame FObjectKey SBeginStringOrEmpty st
  else if is_char 91 c then push_frame FArrayValue SBeginValueOrEmpty st
  else if is_char 34 c then go SInString
  else if is_char 45 c then go SNeg
  else if is_char 48 c then go S0
  else if is_char 116 c then go (SLit "rue")
  else if is_char 102 c then go (SLit "alse")
  else if is_char 110 c then go (SLit "ull")
  else if in_range 49 57 c then go S1
  else None.

Definition step_begin_string (st : list frame) (c : ascii) : option scanner :=
  if json_space c then Some (mk_scanner SBeginString st)
  else if is_char 34 c then Some (mk_scanner SInString st) else None.

(** After the digits of a number: an exponent, or the end of the value. *)
Definition step_exp_or_end (st : list frame) (c : ascii) : option scanner :=
  if is_char 101 c || is_char 69 c then Some (mk_scanner SExp st)
  else step_end_value st c.

Definition step (s : scanner) (c : ascii) : option scanner :=
  let st := sc_stack s in
  let go s' := Some (mk_scanner s' st) in
  match sc_state s with
  | SBeginValue => step_begin_value st c
  | SBeginValueOrEmpty =>
      if json_space c then go SBeginValueOrEmpty
      else if is_char 93 c then step_end_value st c
      else step_begin_value st c
  | SBeginStringOrEmpty =>
      if json_space c then go SBeginStringOrEmpty
      else if is_char 125 c then
        match st with
        | _ :: r => step_end_value (FObjectValue :: r) c
        | [] => None
        end
      else step_begin_string st c
  | SBeginString => step_begin_string st c
  | SInString =>
      if is_char 34 c then go SEndValue
      else if is_char 92 c then go SEsc
      else if (byte_val c <? 32)%N then None else go SInString
  | SEsc =>
      match byte_val c with
      | 98 | 102 | 110 | 114 | 116 | 92 | 47 | 34 => go SInString
      | 117 => go (SEscU 4)
      | _ => None
      end%N
  | SEscU n =>
      match digit_val c with
      | Some _ => match n with
                  | S (S k) => go (SEscU (S k))
                  | _ => go SInString
                  end
      | None => None
      end
  | SNeg => if is_char 48 c then go S0 else if in_range 49 57 c then go S1 else None
  | S1 => if is_digit c then go S1
          else if is_char 46 c then go SDot else step_exp_or_end st c
  | S0 => if is_char 46 c then go SDot else step_exp_or_end st c
  | SDot => if is_digit c then go SDot0 else None
  | SDot0 => if is_digit c then go SDot0 else step_exp_or_end st c
  | SExp => if is_char 43 c || is_char 45 c then go SExpSign
            else if is_digit c then go SExp0 else None
  | SExpSign => if is_digit c then go SExp0 else None
  | SExp0 => if is_digit c then go SExp0 else step_end_value st c
  | SLit (String d r) =>
      if Ascii.eqb c d then (if String.eqb r EmptyString then go SEndValue else go (SLit r))
      else None
  | SLit EmptyString => None
  | SEndValue => step_end_value st c
  | SEndTop => if json_space c then go SEndTop else None
  end.

Fixpoint run (s : scanner) (t : string) : option scanner :=
  match t with
  | EmptyString => Some s
  | String c r => match step s c with Some s' => run s' r | None => None end
  end.

Definition scanner_init : scanner := mk_scanner SBeginValue [].

Definition space_char : ascii := ascii_of_N 32.

Definition is_end_top (s : scanner) : bool :=
  match sc_state s with SEndTop => true | _ => false end.

(** [scanner.eof]: a trailing blank must complete the value. *)
Definition Valid (t : string) : bool :=
  match run scanner_init t with
  | Some s => is_end_top s || match step s space_char with
                              | Some s' => is_end_top s'
                              | None => false
                              end
  | None => false
  end.

(** ** UTF-8 *)

Definition chr (n : N) : ascii := ascii_of_N n.

Definition cont_byte (c : ascii) : bool := in_range 128 191 c.

Definition utf8_encode (n : N) : string :=
  (if n <? 128 then String (chr n) EmptyString
   else if n <? 2048 then
     String (chr (192 + n / 64)) (String (chr (128 + n mod 64)) EmptyString)
   else if n <? 65536 then
     String (chr (224 + n / 4096))
       (String (chr (128 + n / 64 mod 64)) (String (chr (128 + n mod 64)) EmptyString))
   else
     String (chr (240 + n / 262144))
       (String (chr (128 + n / 4096 mod 64))
          (String (chr (128 + n / 64 mod 64)) (String (chr (128 + n mod 64)) EmptyString))))%N.

(** Is [a b], [a b c] or [a b c d] the UTF-8 encoding of one rune? *)
Definition utf8_2 (a b : ascii) : bool := in_range 194 223 a && cont_byte b.

Definition utf8_3 (a b c : ascii) : bool :=
  cont_byte c &&
  ((is_char 224 a && in_range 160 191 b)
   || (in_range 225 236 a && cont_byte b)
   || (is_char 237 a && in_range 128 159 b)
   || (in_range 238 239 a && cont_byte b)).

Definition utf8_4 (a b c d : ascii) : bool :=
  cont_byte c && cont_byte d &&
  ((is_char 240 a && in_range 144 191 b)
   || (in_range 241 243 a && cont_byte b)
   || (is_char 244 a && in_range 128 143 b)).

Definition replacement : string := utf8_encode 65533.

Definition hex4 (a b c d : ascii) : N :=
  match digit_val a, digit_val b, digit_val c, digit_val d with
  | Some x, Some y, Some z, Some w => Z.to_N (((x * 16 + y) * 16 + z) * 16 + w)
  | _, _, _, _ => 0
  end.

(** ** String literals *)

Definition simple_escape (e : ascii) : ascii :=
  match byte_val e with
  | 98 => chr 8 | 102 => chr 12 | 110 => chr 10 | 114 => chr 13 | 116 => chr 9
  | _ => e
  end%N.

Definition high_surrogate (n : N) : bool := ((55296 <=? n) && (n <? 56320))%N.

Definition low_surrogate (n : N) : bool := ((56320 <=? n) && (n <? 57344))%N.

(** The contents of a valid string literal, decoded: escapes are resolved,
    lone surrogates and invalid UTF-8 become U+FFFD. *)
Fixpoint unquote (s : string) : string :=
  match s with
  | EmptyString => EmptyString
  | String c r =>
      if is_char 92 c then
        match r with
        | String e r2 =>
            if is_char 117 e then
              match r2 with
              | String h1 (String h2 (String h3 (String h4 r3))) =>
                  let u := hex4 h1 h2 h3 h4 in
                  if high_surrogate u || low_surrogate u then
                    match r3 with
                    | String b (String x (String l1 (String l2 (String l3 (String l4 r4))))) =>
                        let v := hex4 l1 l2 l3 l4 in
                        if is_char 92 b && is_char 117 x && high_surrogate u && low_surrogate v
                        then utf8_encode ((u - 55296) * 1024 + (v - 56320) + 65536) +:+ unquote r4
                        else replacement +:+ unquote r3
                    | _ => replacement +:+ unquote r3
                    end
                  else utf8_encode u +:+ unquote r3
              | _ => EmptyString
              end
            else String (simple_escape e) (unquote r2)
        | EmptyString => EmptyString
        end
      else if (byte_val c <? 128)%N then String c (unquote r)
      else
        match r with
        | EmptyString => replacement
        | String b r2 =>
            if utf8_2 c b then String c (String b (unquote r2)) else
            match r2 with
            | EmptyString => replacement +:+ unquote r
            | String d r3 =>
                if utf8_3 c b d then String c (String b (String d (unquote r3))) else
                match r3 with
                | EmptyString => replacement +:+ unquote r
                | String e r4 =>
                    if utf8_4 c b d e
                    then String c (String b (String d (String e (unquote r4))))
                    else replacement +:+ unquote r
                end
            end
        end
  end.

(** [\u00XX] for a byte. *)
Definition u00 (c : ascii) : string :=
  "\u00" +:+ String (hex_digit (Z.of_N (byte_val c) / 16))
               (String (hex_digit (Z.of_N (byte_val c) mod 16)) EmptyString).

Definition html_char (c : ascii) : bool := is_char 60 c || is_char 62 c || is_char 38 c.

Definition quote_byte (c : ascii) : string :=
  match byte_val c with
  | 34 => String (chr 92) (String c EmptyString)
  | 92 => String (chr 92) (String c EmptyString)
  | 8 => "\b" | 12 => "\f" | 10 => "\n" | 13 => "\r" | 9 => "\t"
  | _ => if (byte_val c <? 32)%N || html_char c then u00 c else String c EmptyString
  end%N.

(** U+2028 and U+2029 are escaped on output. *)
Definition line_separator (a b c : ascii) : bool :=
  is_char 226 a && is_char 128 b && (is_char 168 c || is_char 169 c).

Definition quote_separator (c : ascii) : string :=
  if is_char 168 c then "\u2028" else "\u2029".

Fixpoint quote_body (s : string) : string :=
  match s with
  | EmptyString => EmptyString
  | String c r =>
      if (byte_val c <? 128)%N then quote_byte c +:+ quote_body r
      else
        match r with
        | EmptyString => "\ufffd"
        | String b r2 =>
            if utf8_2 c b then String c (String b (quote_body r2)) else
            match r2 with
            | EmptyString => "\ufffd" +:+ quote_body r
            | String d r3 =>
                if line_separator c b d then quote_separator d +:+ quote_body r3
                else if utf8_3 c b d then String c (String b (String d (quote_body r3))) else
                match r3 with
                | EmptyString => "\ufffd" +:+ quote_body r
                | String e r4 =>
                    if utf8_4 c b d e
                    then String c (String b (String d (String e (quote_body r4))))
                    else "\ufffd" +:+ quote_body r
                end
            end
        end
  end.

(** [json.Marshal] of a Go string. *)
Definition Marshal_string (s : string) : RawMessage :=
  String dquote (quote_body s +:+ String dquote EmptyString).

Definition Marshal_bool (b : bool) : RawMessage := if b then "true" else "false".

(** ** Raw slices of arrays and objects *)

Fixpoint trim_json_left (s : string) : string :=
  match s with
  | String c r => if json_space c then trim_json_left r else s
  | EmptyString => EmptyString
  end.

Definition trim_json (s : string) : string :=
  String.rev (trim_json_left (String.rev (trim_json_left s))).

(** Cut [s] at every [sep] outside strings and nested containers; [cur] is the
    current slice, reversed. *)
Fixpoint split_top (sep : N) (depth : nat) (in_str esc : bool) (cur : string)
    (s : string) : list string :=
  match s with
  | EmptyString => [String.rev cur]
  | String c r =>
      let k d i e := split_top sep d i e (String c cur) r in
      if in_str then
        if esc then k depth true false
        else if is_char 92 c then k depth true true
        else if is_char 34 c then k depth false false
        else k depth true false
      else if is_char 34 c then k depth true false
      else if is_char 123 c || is_char 91 c then k (S depth) false false
      else if is_char 125 c || is_char 93 c then k (pred depth) false false
      else match depth with
           | O => if is_char sep c
                  then String.rev cur :: split_top sep O false false EmptyString r
                  else k O false false
           | _ => k depth false false
           end
  end.

(** The text between the brackets of a valid container. *)
Definition interior (s : string) : string :=
  take_bytes (String.length s - 2) (drop_bytes 1 s).

Definition elements (s : string) : list RawMessage :=
  match trim_json (interior s) with
  | EmptyString => []
  | body => trim_json <$> split_top 44 0 false false EmptyString body
  end.

Definition string_literal (s : string) : string := unquote (interior s).

Definition member (s : RawMessage) : string * RawMessage :=
  match split_top 58 0 false false EmptyString s with
  | k :: v :: _ => (string_literal (trim_json k), trim_json v)
  | _ => (EmptyString, EmptyString)
  end.

Inductive jvalue :=
| JNull
| JBool (b : bool)
| JNumber (literal : string)
| JString (s : string)
| JArray (elems : list RawMessage)
| JObject (members : list (string * RawMessage)).

(** One level of decoding; [None] is a syntax error. *)
Definition decode (t : RawMessage) : option jvalue :=
  if Valid t then
    let v := trim_json t in
    match v with
    | EmptyString => None
    | String c _ =>
        Some (if is_char 110 c then JNull
              else if is_char 116 c then JBool true
              else if is_char 102 c then JBool false
              else if is_char 34 c then JString (string_literal v)
              else if is_char 91 c then JArray (elements v)
              else if is_char 123 c then JObject (member <$> elements v)
              else JNumber v)
    end
  else None.

(** ** Decoding into Go types

    [None] is a decoding error.  JSON [null] leaves the target as it was. *)

(** Into [[]json.RawMessage]; [Some None] is the nil slice. *)
Definition Unmarshal_slice (t : RawMessage) : option (option (list RawMessage)) :=
  match decode t with
  | Some JNull => Some None
  | Some (JArray l) => Some (Some l)
  | _ => None
  end.

(** Into [map[string]json.RawMessage]: a repeated key keeps its last value. *)
Definition Unmarshal_map (t : RawMessage) : option (option (gmap string RawMessage)) :=
  match decode t with
  | Some JNull => Some None
  | Some (JObject l) => Some (Some (fold_left (λ m '(k, v), <[k := v]> m) l ∅))
  | _ => None
  end.

Definition Unmarshal_string (cur : string) (t : RawMessage) : option string :=
  match decode t with
  | Some JNull => Some cur
  | Some (JString s) => Some s
  | _ => None
  end.

Definition Unmarshal_bool (cur : bool) (t : RawMessage) : option bool :=
  match decode t with
  | Some JNull => Some cur
  | Some (JBool b) => Some b
  | _ => None
  end.

(** Into [*bool]. *)
Definition Unmarshal_bool_ptr (cur : option bool) (t : RawMessage) : option (option bool) :=
  match decode t with
  | Some JNull => Some None
  | Some (JBool b) => Some (Some b)
  | _ => None
  end.

(** Into [*uint64]: only plain decimal literals in range are integers. *)
Definition Unmarshal_uint64_ptr (cur : option Z) (t : RawMessage) : option (option Z) :=
  match decode t with
  | Some JNull => Some None
  | Some (JNumber l) => Some <$> ParseUint 10 l
  | _ => None
  end.

Definition Unmarshal_uint64 (cur : Z) (t : RawMessage) : option Z :=
  match decode t with
  | Some JNull => Some cur
  | Some (JNumber l) => ParseUint 10 l
  | _ => None
  end.

(** Into [json.RawMessage]. *)
Definition Unmarshal_raw (cur : RawMessage) (t : RawMessage) : option RawMessage :=
  if Valid t then Some (trim_json t) else None.

(** The members of the JSON object a struct is decoded from, in order. *)
Definition Unmarshal_struct (t : RawMessage) : option (list (string * RawMessage)) :=
  match decode t with
  | Some JNull => Some []
  | Some (JObject l) => Some l
  | _ => None
  end.

(** The struct field [name]: every member whose key folds to it is decoded in
    turn, and one that does not fit fails the decoding. *)
Definition field {A} (dec : A → RawMessage → option A) (zero : A) (name : string)
    (members : list (string * RawMessage)) : option A :=
  fold_left (λ acc '(k, v),
    if EqualFold k name then match acc with Some a => dec a v | None => None end else acc)
    members (Some zero).

(** ** Encoding *)

(** [json.Compact] with HTML escaping, applied to embedded raw messages. *)
Fixpoint compact_from (in_str esc : bool) (s : string) : string :=
  match s with
  | EmptyString => EmptyString
  | String c r =>
      if html_char c then u00 c +:+ compact_from in_str false r
      else
        let out rest := String c rest in
        if in_str then
          if esc then out (compact_from true false r)
          else if is_char 92 c then out (compact_from true true r)
          else if is_char 34 c then out (compact_from false false r)
          else match r with
               | String b (String d r3) =>
                   if line_separator c b d then quote_separator d +:+ compact_from true false r3
                   else out (compact_from true false r)
               | _ => out (compact_from true false r)
               end
        else if json_space c then compact_from false false r
        else out (compact_from (is_char 34 c) false r)
  end.

(** [json.Marshal] of a raw message: nil is [null], invalid text is an error. *)
Definition Marshal_raw (t : RawMessage) : option RawMessage :=
  match t with
  | EmptyString => Some "null"
  | _ => if Valid t then Some (compact_from false false t) else None
  end.

Definition wrap_json (l r : string) (body : string) : RawMessage := l +:+ body +:+ r.

(** [json.Marshal] of a non-nil [[]json.RawMessage]. *)
Definition Marshal_slice (l : list RawMessage) : option RawMessage :=
  (λ l', wrap_json "[" "]" (Join l' ",")) <$> mapM Marshal_raw l.

Definition Marshal_member (kv : string * RawMessage) : option string :=
  (λ v, Marshal_string kv.1 +:+ ":" +:+ v) <$> Marshal_raw kv.2.

(** [json.Marshal] of a map: the keys come sorted. *)
Definition Marshal_map (m : gmap string RawMessage) : option RawMessage :=
  (λ l, wrap_json "{" "}" (Join l ",")) <$>
    mapM Marshal_member (merge_sort (λ a b, String.le a.1 b.1) (map_to_list m)).

(** The raw message spelling JSON [null]. *)
Definition is_null_text (t : RawMessage) : bool := String.eqb (TrimSpace t) "null".
