(* ===== verification/Evm.v ===== *)
(** * EVM quantities and hashes — internal/utils/evm.go *)

From S2P Require Import Prelude GoStrings.
From Stdlib Require Import Ascii.

(** ** Definitions *)

Inductive quantity_error := QuantityNotPrefixed | QuantityLeadingZero | QuantityParse.

#[export] Instance quantity_error_eq_dec : EqDecision quantity_error.
Proof. solve_decision. Defined.

(** The third byte is '0'. *)
Definition third_is_zero (s : string) : bool :=
  match drop_bytes 2 s with
  | String c _ => (byte_val c =? 48)%N
  | EmptyString => false
  end.

(* go: utils/evm.go:13-25 ParseEVMQuantity *)
Definition ParseEVMQuantity (quantity : string) : result quantity_error Z :=
  if negb (HasPrefix quantity "0x") || (len quantity <? 3)%Z then Err QuantityNotPrefixed
  else if (3 <? len quantity)%Z && third_is_zero quantity then Err QuantityLeadingZero
  else match ParseUint 16 (drop_bytes 2 quantity) with
       | None => Err QuantityParse
       | Some parsedQuantity => Ok parsedQuantity
       end.

(* go: utils/evm.go:27-30 FormatEVMQuantity *)
Definition FormatEVMQuantity (number : Z) : string := "0x" +:+ FormatHex number.

(* go: utils/evm.go:32-39 IsEVMHash *)
Definition IsEVMHash (hash : string) : bool :=
  if negb (len hash =? 66)%Z || negb (HasPrefix hash "0x") then false
  else hex_DecodeString_ok (drop_bytes 2 hash).

(** ** Lemmas *)

Lemma ParseEVMQuantity_wf q n : ParseEVMQuantity q = Ok n → u64_wf n.
Proof.
  unfold ParseEVMQuantity. intros H.
  destruct (negb _ || _); [done|]. destruct (_ && _); [done|].
  destruct (ParseUint _ _) eqn:Hp; simplify_eq. by eapply ParseUint_wf in Hp.
Qed.

#[export] Hint Resolve ParseEVMQuantity_wf : u64.

Lemma prefix_app s t : String.prefix s (s +:+ t) = true.
Proof.
  induction s as [|c s IH]; [by destruct t|]. unfold String.app in *. simpl.
  destruct (ascii_dec c c); done.
Qed.

Lemma prefix_split p s : String.prefix p s = true → s = p +:+ drop_bytes (String.length p) s.
Proof.
  revert s. induction p as [|c p IH]; intros s H; [by destruct s|].
  destruct s as [|d s]; simpl in *; [done|].
  destruct (ascii_dec c d) as [->|]; [|done].
  rewrite (IH s) at 1 by done. reflexivity.
Qed.

Lemma HasPrefix_0x q : HasPrefix q "0x" = true → q = "0x" +:+ drop_bytes 2 q.
Proof. apply prefix_split. Qed.

Lemma digit_val_lower c : digit_val (lower_ascii c) = digit_val c.
Proof. by destruct c as [[] [] [] [] [] [] [] []]. Qed.

Lemma hex_digit_of_val c d : digit_val c = Some d → hex_digit d = lower_ascii c.
Proof. intros H. by destruct c as [[] [] [] [] [] [] [] []]; compute in H; simplify_eq. Qed.

Lemma string_snoc_ind (P : string → Prop) :
  P "" → (∀ s c, P s → P (s +:+ String c "")) → ∀ s, P s.
Proof.
  intros H0 Hs s. rewrite <- (String.string_of_list_ascii_of_string s).
  induction (String.list_ascii_of_string s) as [|c l IH] using rev_ind; [done|].
  assert (String.string_of_list_ascii (l ++ [c]) = String.string_of_list_ascii l +:+ String c "") as ->.
  { clear. induction l as [|d l IH]; [done|]. cbn. by rewrite IH, string_app_cons. }
  by apply Hs.
Qed.

Lemma ToLower_app s t : ToLower (s +:+ t) = ToLower s +:+ ToLower t.
Proof. induction s as [|c s IH]; [done|]. rewrite string_app_cons. cbn. by rewrite IH. Qed.

(** A digit string without a leading zero is at least [16 ^ (length - 1)]. *)
Lemma parse_digits_lower_bound s acc n :
  (0 ≤ acc)%Z → parse_digits 16 s acc = Some n →
  (acc * 16 ^ Z.of_nat (String.length s) ≤ n)%Z.
Proof.
  revert acc. induction s as [|c s IH]; intros acc Ha H.
  - simpl in *. simplify_eq. lia.
  - cbn [parse_digits String.length] in *. destruct (digit_val c) as [d|] eqn:Hd; [|done].
    apply digit_val_nonneg in Hd. destruct (_ <? _)%Z; [|done].
    apply IH in H; [|lia]. rewrite Nat2Z.inj_succ, Z.pow_succ_r by lia.
    pose proof (Z.pow_nonneg 16 (Z.of_nat (String.length s))). nia.
Qed.

(** Formatting the value of a digit string gives its lower-case digits back. *)
Lemma hex_digits_of_parse s : ∀ fuel n,
  (String.length s ≤ fuel)%nat → s ≠ "" →
  (∀ c r, s = String c r → r ≠ "" → byte_val c ≠ 48%N) →
  parse_digits 16 s 0 = Some n → hex_digits fuel n = ToLower s.
Proof.
  induction s as [|s c IH] using string_snoc_ind; [done|]. intros fuel n Hf _ Hz H.
  rewrite string_length_app in Hf. cbn in Hf.
  rewrite parse_digits_app in H. destruct (parse_digits 16 s 0) as [m|] eqn:Hm; [|done].
  cbn in H. destruct (digit_val c) as [d|] eqn:Hd; [|done].
  destruct (Z.ltb_spec d 16) as [Hd16|]; [|done]. simplify_eq.
  pose proof (digit_val_nonneg _ _ Hd).
  destruct fuel as [|fuel]; [lia|]. simpl.
  destruct s as [|c0 r0].
  - simpl in Hm. simplify_eq. replace (0 * 16 + d)%Z with d by lia.
    destruct (Z.ltb_spec d 16); [|lia]. by rewrite (hex_digit_of_val _ _ Hd).
  - assert (1 ≤ m)%Z as Hm1.
    { cbn in Hm. destruct (digit_val c0) as [d0|] eqn:Hd0; [|done].
      pose proof (digit_val_nonneg _ _ Hd0) as Hr.
      destruct (d0 <? 16)%Z; [|done].
      apply parse_digits_lower_bound in Hm; [|lia].
      assert (d0 ≠ 0)%Z.
      { intros ->. apply (Hz c0 (r0 +:+ String c "")); [done|by destruct r0|].
        clear -Hd0. by destruct c0 as [[] [] [] [] [] [] [] []]; compute in Hd0. }
      pose proof (Z.pow_pos_nonneg 16 (Z.of_nat (String.length r0))). nia. }
    destruct (Z.ltb_spec (m * 16 + d) 16); [lia|].
    replace ((m * 16 + d) / 16)%Z with m by (rewrite Z.div_add_l, Z.div_small; lia).
    replace ((m * 16 + d) mod 16)%Z with d
      by (rewrite Z.add_comm, Z.mod_add, Z.mod_small; lia).
    rewrite (IH fuel m), ToLower_app; [|lia|done| |done].
    + f_equal. by rewrite (hex_digit_of_val _ _ Hd).
    + intros c' r' [= -> ->] Hr. apply (Hz c' (r' +:+ String c "")); [done|by destruct r'].
Qed.

Lemma FormatHex_cons n : ∃ c r, FormatHex n = String c r.
Proof. apply hex_digits_cons. lia. Qed.

(** The first digit of a value of two or more digits is not zero. *)
Lemma hex_digits_head fuel n c d r :
  (0 ≤ n)%Z → (n < 16 ^ Z.of_nat fuel)%Z →
  hex_digits fuel n = String c (String d r) → byte_val c ≠ 48%N.
Proof.
  revert n c d r. induction fuel as [|f IH]; intros n c d r Hn Hlt H; [done|].
  simpl in H. destruct (Z.ltb_spec n 16); [done|].
  rewrite Nat2Z.inj_succ, Z.pow_succ_r in Hlt by lia.
  assert (1 ≤ n / 16 < 16 ^ Z.of_nat f)%Z as [Hq1 Hq2].
  { split; [apply Z.div_le_lower_bound; lia|apply Z.div_lt_upper_bound; lia]. }
  destruct (hex_digits f (n / 16)) as [|c1 [|d1 r1]] eqn:Hh.
  - destruct f; [simpl in Hq2; lia|]. destruct (hex_digits_cons (S f) (n / 16)) as (?&?&?); [lia|].
    congruence.
  - cbn in H. simplify_eq. destruct f as [|f]; [done|]. simpl in Hh.
    destruct (Z.ltb_spec (n / 16) 16) as [Hs|Hs].
    + injection Hh as <-. injection H as <- <- <-. intros Hc.
      assert (digit_val (hex_digit (n / 16)) = Some 0%Z) as Hv.
      { unfold digit_val, in_range. by rewrite Hc. }
      rewrite hex_digit_val in Hv by lia. injection Hv as Hv. lia.
    + destruct (hex_digits f (n / 16 / 16)) as [|? [|]] eqn:He; cbn in Hh; simplify_eq.
      destruct f; [|by destruct (hex_digits_cons (S f) (n / 16 / 16)) as (?&?&?); [lia|congruence]].
      change (16 ^ Z.of_nat 1)%Z with 16%Z in Hq2. lia.
  - rewrite !string_app_cons in H. injection H as <- <- _.
    apply (IH (n / 16)%Z c1 d1 r1); [lia|done|done].
Qed.

Lemma Parse_Format n : u64_wf n → ParseEVMQuantity (FormatEVMQuantity n) = Ok n.
Proof.
  intros Hn. unfold ParseEVMQuantity, FormatEVMQuantity, HasPrefix.
  rewrite prefix_app. destruct (FormatHex_cons n) as (c & r & Hc).
  assert (drop_bytes 2 ("0x" +:+ FormatHex n) = FormatHex n) as Hdrop by done.
  unfold third_is_zero. rewrite Hdrop.
  assert ((len ("0x" +:+ FormatHex n) <? 3)%Z = false) as ->.
  { rewrite Hc. unfold len. apply Z.ltb_ge. rewrite string_length_app. simpl. lia. }
  destruct (_ && _) eqn:Hz.
  - exfalso. bool_to_prop. destruct r as [|d r].
    + rewrite Hc in H. done.
    + rewrite Hc in H0. apply (hex_digits_head 16 n c d r); [u64_lia|u64_lia|done|].
      by apply N.eqb_eq.
  - simpl. by rewrite ParseUint_FormatHex.
Qed.

Lemma Parse_canonical q n : ParseEVMQuantity q = Ok n → ToLower q = FormatEVMQuantity n.
Proof.
  unfold ParseEVMQuantity, FormatEVMQuantity, FormatHex. intros H.
  destruct (HasPrefix q "0x") eqn:Hp; [|done]. apply HasPrefix_0x in Hp.
  destruct (len q <? 3)%Z eqn:Hl; [done|]. cbn [negb orb] in H.
  destruct (_ && _) eqn:Hz; [done|].
  destruct (ParseUint _ _) as [m|] eqn:Hm; [|done]. injection H as <-.
  rewrite Hp, ToLower_app. change (ToLower "0x") with "0x". f_equal. symmetry.
  assert (String.length q = 2 + String.length (drop_bytes 2 q))%nat as Hlen
    by (rewrite Hp at 1; by rewrite string_length_app).
  assert (third_is_zero q = false ∨ String.length (drop_bytes 2 q) = 1)%nat as Hz'.
  { unfold len in *. bool_to_prop. destruct Hz as [Hz|]; [|by left]. right. bool_to_prop. lia. }
  unfold third_is_zero in Hz'. unfold ParseUint in Hm.
  destruct (drop_bytes 2 q) as [|c r] eqn:Hd; [done|].
  destruct (parse_digits 16 (String c r) 0) as [k|] eqn:Hk; [|done].
  destruct (Z.ltb_spec k two64) as [Hlt|]; [|done]. injection Hm as <-.
  assert (∀ c' r', String c r = String c' r' → r' ≠ "" → byte_val c' ≠ 48%N) as Hhead.
  { intros ? ? [= <- <-] Hr. destruct Hz' as [Hz'|Hz'].
    - by apply N.eqb_neq.
    - simpl in Hz'. by destruct r. }
  apply hex_digits_of_parse; [|done|done|done].
  destruct r as [|d r]; [simpl; lia|].
  specialize (Hhead c (String d r) eq_refl ltac:(done)).
  cbn [parse_digits] in Hk. destruct (digit_val c) as [v|] eqn:Hv; [|done].
  pose proof (digit_val_nonneg _ _ Hv). destruct (v <? 16)%Z; [|done].
  assert (v ≠ 0)%Z.
  { intros ->. clear -Hv Hhead. by destruct c as [[] [] [] [] [] [] [] []]; compute in Hv. }
  fold (parse_digits 16 (String d r) (0 * 16 + v)) in Hk.
  apply (parse_digits_lower_bound (String d r)) in Hk; [|lia].
  destruct (decide (String.length (String d r) ≤ 15)%nat); [simpl in *; lia|].
  assert (16 ^ 16 ≤ 16 ^ Z.of_nat (String.length (String d r)))%Z
    by (apply Z.pow_le_mono_r; lia).
  unfold two64 in *. lia.
Qed.

Lemma IsEVMHash_length h : IsEVMHash h = true → String.length h = 66%nat.
Proof.
  unfold IsEVMHash, len. destruct (_ =? _)%Z eqn:H; [|done]. intros _. bool_to_prop. lia.
Qed.

(** ** Properties *)

(** C30: formatting a [uint64] as an EVM quantity and parsing it back is the
    identity; conversely a quantity that parses denotes a [uint64] and is, up to
    letter case, exactly the canonical spelling of its value. *)
Theorem quantity_codec :
  (∀ n, u64_wf n → ParseEVMQuantity (FormatEVMQuantity n) = Ok n) ∧
  (∀ q n, ParseEVMQuantity q = Ok n → u64_wf n ∧ ToLower q = FormatEVMQuantity n).
Proof.
  split; [apply Parse_Format|].
  intros q n H. split; [by eapply ParseEVMQuantity_wf|by apply Parse_canonical].
Qed.

Example quantity_codec_witness :
  ParseEVMQuantity (FormatEVMQuantity 18446744073709551615) = Ok 18446744073709551615%Z ∧
  ToLower "0xFfE" = FormatEVMQuantity 4094.
Proof.
  split.
  - apply (proj1 quantity_codec). split; [lia|reflexivity].
  - apply (proj2 quantity_codec). reflexivity.
Defined.

Example parse_rejects :
  ParseEVMQuantity "0x" = Err QuantityNotPrefixed ∧
  ParseEVMQuantity "0x01" = Err QuantityLeadingZero ∧
  ParseEVMQuantity "0x0" = Ok 0%Z ∧
  ParseEVMQuantity "0x10000000000000000" = Err QuantityParse.
Proof. repeat split. Qed.
