(* ===== verification/JsonRpc.v ===== *)
(** * JSON-RPC envelopes and errors — internal/jsonrpc *)

From S2P Require Import Prelude GoStrings GoJson.
From Stdlib Require Import Ascii.

(** ** Error data

    The [any] of [Error.Data]: what the program itself puts there (strings and
    string-keyed maps) and what decoding an upstream's JSON yields.  A number
    is kept as the text [fmt] prints for it. *)

Inductive any :=
| ANil
| AStr (s : string)
| ABool (b : bool)
| ANum (text : string)
| AList (l : list any)
| AMap (l : list (string * any)).

(* go: jsonrpc/jsonrpc.go:41-46 Error *)
Record Error := mkError { Code : Z; Message : string; Data : any }.

(** ** Error constructors — errors.go *)

Definition CodeParseError : Z := -32700.
Definition CodeInvalidRequest : Z := -32600.
Definition CodeMethodNotFound : Z := -32601.
Definition CodeInvalidParams : Z := -32602.
Definition CodeInternalError : Z := -32603.
Definition CodeConsistencyUnavailable : Z := -32070.
Definition CodeUnsupportedConsistency : Z := -32071.
Definition CodeWritesDisabled : Z := -32072.
Definition CodeChainUnavailable : Z := -32073.

(* go: jsonrpc/errors.go:15-18 ParseError *)
Definition ParseError (detail : string) : Error := mkError CodeParseError "Parse error" (AStr detail).

(* go: jsonrpc/errors.go:20-23 InvalidRequest *)
Definition InvalidRequest (detail : string) : Error :=
  mkError CodeInvalidRequest "Invalid Request" (AStr detail).

(* go: jsonrpc/errors.go:25-28 MethodNotFound *)
Definition MethodNotFound (method : string) : Error :=
  mkError CodeMethodNotFound "Method not found" (AMap [("method", AStr method)]).

(* go: jsonrpc/errors.go:30-33 InvalidParams *)
Definition InvalidParams (detail : string) : Error :=
  mkError CodeInvalidParams "Invalid params" (AStr detail).

(* go: jsonrpc/errors.go:35-38 InternalError *)
Definition InternalError (detail : string) : Error :=
  mkError CodeInternalError "Internal error" (AStr detail).

(* go: jsonrpc/errors.go:40-43 ConsistencyUnavailable *)
Definition ConsistencyUnavailable (details : any) : Error :=
  mkError CodeConsistencyUnavailable "Consistent head is unavailable" details.

(* go: jsonrpc/errors.go:45-48 UnsupportedConsistency *)
Definition UnsupportedConsistency (method detail : string) : Error :=
  mkError CodeUnsupportedConsistency
    "Method cannot be served with the configured consistency guarantee"
    (AMap [("method", AStr method); ("detail", AStr detail)]).

(* go: jsonrpc/errors.go:50-53 WritesDisabled *)
Definition WritesDisabled (method : string) : Error :=
  mkError CodeWritesDisabled "Writes are disabled" (AMap [("method", AStr method)]).

(* go: jsonrpc/errors.go:55-58 ChainUnavailable *)
Definition ChainUnavailable (chain : string) : Error :=
  mkError CodeChainUnavailable "Chain is unavailable" (AMap [("chain", AStr chain)]).

(** ** Requests and responses — jsonrpc.go *)

Definition Version : string := "2.0".

(* go: jsonrpc/jsonrpc.go:11-17 Request *)
Record Request := mkRequest {
  req_JSONRPC : string;
  req_ID : RawMessage;
  req_Method : string;
  req_Params : RawMessage
}.

Definition zero_Request : Request := mkRequest "" "" "" "".

(* go: jsonrpc/jsonrpc.go:33-39 Response *)
Record Response := mkResponse {
  res_JSONRPC : string;
  res_ID : RawMessage;
  res_Result : RawMessage;
  res_Error : option Error
}.

(* go: jsonrpc/jsonrpc.go:19-20 Request.IsNotification *)
Definition IsNotification (r : Request) : bool := (len (req_ID r) =? 0)%Z.

(* go: jsonrpc/jsonrpc.go:71-77 validID *)
Definition validID (id : RawMessage) : bool :=
  let id := TrimSpace id in
  if negb (Valid id) then false else
  match id with
  | String c _ =>
      is_char 34 c || is_char 45 c || in_range 48 57 c || String.eqb id "null"
  | EmptyString => false
  end.

(* go: jsonrpc/jsonrpc.go:64-69 idOrNull *)
Definition idOrNull (id : RawMessage) : RawMessage := if negb (validID id) then "null" else id.

(* go: jsonrpc/jsonrpc.go:22-31 Request.Validate *)
Definition Validate (r : Request) : option Error :=
  if negb (String.eqb (req_JSONRPC r) Version) || String.eqb (req_Method r) ""
  then Some (InvalidRequest "jsonrpc must be 2.0 and method must be a string")
  else if (0 <? len (req_ID r))%Z && negb (validID (req_ID r))
  then Some (InvalidRequest "id must be a string, number, or null")
  else None.

(* go: jsonrpc/jsonrpc.go:51-57 Success *)
Definition Success (requestID upstreamResponse : RawMessage) : Response :=
  let upstreamResponse := if String.eqb upstreamResponse "" then "null" else upstreamResponse in
  mkResponse Version (idOrNull requestID) upstreamResponse None.

(* go: jsonrpc/jsonrpc.go:59-62 Failure *)
Definition Failure (requestID : RawMessage) (rpcErr : Error) : Response :=
  mkResponse Version (idOrNull requestID) "" (Some rpcErr).

(** Decoding into a [Request]; [None] is a decoding error. *)
Definition Unmarshal_Request (t : RawMessage) : option Request :=
  ms ← Unmarshal_struct t;
  version ← field Unmarshal_string "" "jsonrpc" ms;
  id ← field Unmarshal_raw "" "id" ms;
  method ← field Unmarshal_string "" "method" ms;
  params ← field Unmarshal_raw "" "params" ms;
  Some (mkRequest version id method params).

Section parsing.
  (** The text of the error [json.Unmarshal] returns; only ever reported. *)
  Variable unmarshal_error : RawMessage → string.

  (* go: jsonrpc/jsonrpc.go:79-115 ParseEnvelope *)
Definition ParseEnvelope (body : string) (maxBatch : Z)
      : list Request * bool * option Error :=
    let trimmedBody := TrimSpace body in
    match trimmedBody with
    | EmptyString => ([], false, Some (ParseError "empty request body"))
    | String c _ =>
        if is_char 91 c then
          match Unmarshal_slice trimmedBody with
          | None => ([], true, Some (ParseError (unmarshal_error trimmedBody)))
          | Some rawRequests =>
              let rawRequests := default [] rawRequests in
              if (Z.of_nat (length rawRequests) =? 0)%Z then
                ([], true, Some (InvalidRequest "batch must not be empty"))
              else if (maxBatch <? Z.of_nat (length rawRequests))%Z then
                ([], true, Some (InvalidRequest "batch exceeds configured limit"))
              else
                ((λ encoded, default zero_Request (Unmarshal_Request encoded)) <$> rawRequests,
                 true, None)
          end
        else
          match Unmarshal_Request trimmedBody with
          | None =>
              if Valid trimmedBody
              then ([], false, Some (InvalidRequest (unmarshal_error trimmedBody)))
              else ([], false, Some (ParseError (unmarshal_error trimmedBody)))
          | Some request => ([request], false, None)
          end
    end.
End parsing.

(* go: jsonrpc/jsonrpc.go:117-127 ParseParams *)
Definition ParseParams (encodedParameters : RawMessage) : result Error (list RawMessage) :=
  if (len encodedParameters =? 0)%Z || is_null_text encodedParameters then Ok []
  else match Unmarshal_slice encodedParameters with
       | None => Err (InvalidParams "positional parameters are required")
       | Some parameters => Ok (default [] parameters)
       end.

(* go: jsonrpc/jsonrpc.go:129-136 MarshalParams *)
Definition MarshalParams (parameters : list RawMessage) : option RawMessage :=
  Marshal_slice parameters.

(** The typed arguments are given already encoded; a call without arguments
    marshals the nil slice. *)
(* go: jsonrpc/jsonrpc.go:138-145 MarshalCallParams *)
Definition MarshalCallParams (arguments : list RawMessage) : option RawMessage :=
  match arguments with
  | [] => Some "null"
  | _ => Marshal_slice arguments
  end.

(** ** Lemmas *)

Lemma validID_null : validID "null" = true.
Proof. reflexivity. Qed.

Lemma validID_idOrNull id : validID (idOrNull id) = true.
Proof. unfold idOrNull. destruct (validID id) eqn:H; [done|reflexivity]. Qed.

Lemma idOrNull_idemp id : idOrNull (idOrNull id) = idOrNull id.
Proof. unfold idOrNull at 1. by rewrite validID_idOrNull. Qed.

(** ** Properties *)

(** The request parser accepts exactly one request outside a batch and
    between one and [maxBatch] requests in a batch, one per array element, an
    undecodable element becoming the empty request that fails validation; a
    rejected body yields no request and a parse or invalid-request error. *)
Lemma parse_envelope_shape (unmarshal_error : RawMessage → string) body maxBatch :
  match ParseEnvelope unmarshal_error body maxBatch with
  | (requests, false, None) => ∃ r, requests = [r] ∧ Unmarshal_Request (TrimSpace body) = Some r
  | (requests, true, None) =>
      ∃ elems, Unmarshal_slice (TrimSpace body) = Some (Some elems) ∧
        length requests = length elems ∧ (1 ≤ Z.of_nat (length requests) ≤ maxBatch)%Z ∧
        ∀ i e, elems !! i = Some e → Unmarshal_Request e = None →
          ∃ r, requests !! i = Some r ∧ Validate r ≠ None
  | (requests, _, Some e) =>
      requests = [] ∧ (Code e = CodeParseError ∨ Code e = CodeInvalidRequest)
  end.
Proof.
  unfold ParseEnvelope. destruct (TrimSpace body) as [|c r] eqn:Ht; [by split; [|left]|].
  destruct (is_char 91 c) eqn:Hc; [|repeat case_match; naive_solver].
  destruct (Unmarshal_slice _) as [elems|] eqn:Hu; [|by split; [|left]].
  destruct (_ =? _)%Z eqn:H0; [by split; [|right]|].
  destruct (_ <? _)%Z eqn:Hm; [by split; [|right]|].
  bool_to_prop. rewrite length_fmap. destruct elems as [elems|]; [|done]. simpl in *.
  exists elems. split_and!; [done|done|lia|lia|].
  intros i e Hi He. rewrite list_lookup_fmap, Hi. simpl. rewrite He. by eexists.
Qed.

(** Every response carries the protocol version and an id that is a valid
    JSON-RPC id, the request's own whenever that was one, and exactly one of a
    result and an error. *)
Lemma responses_well_formed id payload e :
  (res_JSONRPC (Success id payload) = Version ∧ res_JSONRPC (Failure id e) = Version) ∧
  (res_ID (Success id payload) = res_ID (Failure id e) ∧
   validID (res_ID (Failure id e)) = true ∧
   (validID id = true → res_ID (Failure id e) = id)) ∧
  (res_Error (Success id payload) = None ∧ res_Result (Success id payload) ≠ "" ∧
   res_Error (Failure id e) = Some e ∧ res_Result (Failure id e) = "").
Proof.
  split_and!; try done.
  - apply validID_idOrNull.
  - unfold Failure, idOrNull. simpl. by intros ->.
  - unfold Success. simpl. destruct (String.eqb payload "") eqn:H; [done|]. by bool_to_prop.
Qed.

Example responses_well_formed_witness :
  res_ID (Failure (js "'a'") (ParseError "")) = js "'a'".
Proof.
  apply (proj2 (proj2 (proj1 (proj2 (responses_well_formed (js "'a'") "" (ParseError "")))))).
  reflexivity.
Defined.

Example envelope_batch :
  ParseEnvelope (λ _, "") (js "[{'jsonrpc':'2.0','id':1,'method':'eth_chainId'}, 7]") 10 =
  ([mkRequest "2.0" "1" "eth_chainId" ""; zero_Request], true, None).
Proof. reflexivity. Qed.

Example call_without_arguments : MarshalCallParams [] = Some "null".
Proof. reflexivity. Qed.
