(* ===== verification/Head.v ===== *)
(** * Accepted heads and the store interface — internal/head/types.go

    The record types shared by the coordinator and the gateway, and the [Store]
    interface as a type class: operations, plus the laws its clients rely on. *)

From S2P Require Import Prelude GoStrings GoJson.

(** ** Heads *)

Definition Latest : string := "latest".
Definition Safe : string := "safe".
Definition Finalized : string := "finalized".
Definition Processed : string := "processed".
Definition Confirmed : string := "confirmed".

(** A [time.Time] is a count of nanoseconds; the zero time is 0. *)
(* go: head/types.go:28-45 Head *)
Record Head := mkHead {
  Chain : string;
  Family : string;
  Commitment : string;
  Number : Z;
  Hash : string;
  ParentHash : string;
  Generation : Z;
  ReorgEpoch : Z;
  ReorgPending : bool;
  ObservedAt : Z;
  ChangedAt : Z;
  Origin : string;
  Header : RawMessage
}.

Definition zero_Head : Head := mkHead "" "" "" 0 "" "" 0 0 false 0 0 "" "".

#[export] Instance Head_eq_dec : EqDecision Head.
Proof. solve_decision. Defined.

(** Field assignments. *)
Definition with_Commitment (c : string) (h : Head) : Head :=
  mkHead (Chain h) (Family h) c (Number h) (Hash h) (ParentHash h) (Generation h)
    (ReorgEpoch h) (ReorgPending h) (ObservedAt h) (ChangedAt h) (Origin h) (Header h).

Definition with_Number (n : Z) (h : Head) : Head :=
  mkHead (Chain h) (Family h) (Commitment h) n (Hash h) (ParentHash h) (Generation h)
    (ReorgEpoch h) (ReorgPending h) (ObservedAt h) (ChangedAt h) (Origin h) (Header h).

Definition with_Generation (g : Z) (h : Head) : Head :=
  mkHead (Chain h) (Family h) (Commitment h) (Number h) (Hash h) (ParentHash h) g
    (ReorgEpoch h) (ReorgPending h) (ObservedAt h) (ChangedAt h) (Origin h) (Header h).

Definition with_Reorg (epoch : Z) (pending : bool) (h : Head) : Head :=
  mkHead (Chain h) (Family h) (Commitment h) (Number h) (Hash h) (ParentHash h) (Generation h)
    epoch pending (ObservedAt h) (ChangedAt h) (Origin h) (Header h).

Definition with_ObservedAt (t : Z) (h : Head) : Head :=
  mkHead (Chain h) (Family h) (Commitment h) (Number h) (Hash h) (ParentHash h) (Generation h)
    (ReorgEpoch h) (ReorgPending h) t (ChangedAt h) (Origin h) (Header h).

Definition with_ChangedAt (t : Z) (h : Head) : Head :=
  mkHead (Chain h) (Family h) (Commitment h) (Number h) (Hash h) (ParentHash h) (Generation h)
    (ReorgEpoch h) (ReorgPending h) (ObservedAt h) t (Origin h) (Header h).

Definition with_Header (header : RawMessage) (h : Head) : Head :=
  mkHead (Chain h) (Family h) (Commitment h) (Number h) (Hash h) (ParentHash h) (Generation h)
    (ReorgEpoch h) (ReorgPending h) (ObservedAt h) (ChangedAt h) (Origin h) header.

(* go: head/types.go:47-53 Head.Identity *)
Definition Identity (h : Head) : string :=
  if negb (String.eqb (Hash h) "") then Hash h
  else Commitment h +:+ ":" +:+ pretty (Number h).

(* go: head/types.go:55-56 Head.IsZero *)
Definition IsZero (h : Head) : bool :=
  (Number h =? 0)%Z && String.eqb (Hash h) "" && negb (String.eqb (Family h) "solana").

(** [time.Time.IsZero]. *)
Definition time_IsZero (t : Z) : bool := (t =? 0)%Z.

(* go: head/types.go:58-62 Snapshot *)
Record Snapshot := mkSnapshot { sn_Chain : string; sn_Heads : gmap string Head }.

(** The second component is the [ok] of the map lookup; an absent head reads as
    the zero head. *)
(* go: head/types.go:64-68 Snapshot.Get *)
Definition Get (s : Snapshot) (commitment : string) : Head * bool :=
  match sn_Heads s !! commitment with
  | Some h => (h, true)
  | None => (zero_Head, false)
  end.

(* go: head/types.go:70-74 Event *)
Record Event := mkEvent { ev_ID : string; ev_Head : Head }.

Inductive store_error :=
| ErrLeadershipLost
| ErrStreamGap
| ErrReorgFence
| StoreFailure (message : string).

#[export] Instance store_error_eq_dec : EqDecision store_error.
Proof. solve_decision. Defined.

(** Lost leadership, or a store that could not be asked. *)
Definition lost_or_failed {A} (res : result store_error A) : Prop :=
  res = Err ErrLeadershipLost ∨ ∃ m, res = Err (StoreFailure m).

(** ** The store interface

    The operations the coordinator and the gateway call.  The first argument
    is the store's clock; the store is passed in and returned. *)
(* go: head/types.go:76-88 Store *)
Class HeadStore (S : Type) := {
  store_Acquire : Z → string → string → Z → S → result store_error (string * bool) * S;
  store_Renew : Z → string → string → Z → S → result store_error bool * S;
  store_Release : string → string → S → result store_error unit * S;
  store_Publish : Z → string → Head → S → result store_error Head * S;
  store_BeginReorg : Z → string → string → S → result store_error Head * S;
  store_Snapshot : string → S → result store_error Snapshot * S;
  store_StreamStart : string → S → result store_error Event * S
}.

(** How the accepted latest head of an EVM chain may evolve: the epoch never
    decreases, and the head cannot become pending without a new epoch. *)
Definition epoch_le (h h' : Head) : Prop :=
  (ReorgEpoch h ≤ ReorgEpoch h')%Z ∧
  (ReorgPending h = false → ReorgPending h' = true → (ReorgEpoch h < ReorgEpoch h')%Z) ∧
  (Generation h ≤ Generation h')%Z.

#[export] Instance epoch_le_preorder : PreOrder epoch_le.
Proof.
  split.
  - intros h. split_and!; [lia|congruence|lia].
  - intros h1 h2 h3 (H1 & P1 & G1) (H2 & P2 & G2). split_and!; [lia| |lia].
    intros Hp1 Hp3. destruct (ReorgPending h2) eqn:Hp2.
    + specialize (P1 Hp1 eq_refl). lia.
    + specialize (P2 eq_refl Hp3). lia.
Qed.

(** A head of an EVM chain that names a block. *)
Definition head_wf (h : Head) : Prop := u64_wf (Number h) ∧ Hash h ≠ "".

(** The same head but for its embedded header, which a store may re-encode. *)
Definition same_head (h h' : Head) : Prop := with_Header "" h = with_Header "" h'.

(** What the store promises its clients.  [st_latest] is the abstract state of
    a chain, its accepted latest head, and [st_le] relates a store to itself
    after any activity, by any client: the laws hold however calls interleave.
    An operation takes effect at a moment between its call and its return.
    [st_room] tells that the counters of a chain are not exhausted. *)
Class HeadStoreLaws (S : Type) `{HeadStore S} := {
  st_wf : S → Prop;
  st_latest : S → string → option Head;
  st_le : relation S;
  st_room : S → string → Prop;
  st_le_preorder :: PreOrder st_le;
  st_wf_le s s' : st_le s s' → st_wf s → st_wf s';
  (** The accepted head never disappears and its epoch only grows. *)
  st_mono s s' chain h :
    st_wf s → st_le s s' → st_latest s chain = Some h → Family h = "evm" →
    ∃ h', st_latest s' chain = Some h' ∧ Family h' = "evm" ∧ epoch_le h h';
  (** A snapshot shows the accepted head. *)
  st_snapshot chain s sn s' :
    store_Snapshot chain s = (Ok sn, s') →
    ∃ s1, st_le s s1 ∧ st_latest s1 chain = sn_Heads sn !! Latest ∧ st_le s1 s';
  (** Reorg recovery marks the accepted head pending, under a new epoch unless
      it was pending already. *)
  st_begin now chain token s h s' :
    st_wf s → store_BeginReorg now chain token s = (Ok h, s') →
    ∃ s1 s2 h1, st_le s s1 ∧ st_latest s1 chain = Some h1 ∧
      (st_room s1 chain →
       st_le s1 s2 ∧ st_le s2 s' ∧ st_latest s2 chain = Some h ∧
       same_head h (with_Reorg (if ReorgPending h1 then ReorgEpoch h1 else u64_add (ReorgEpoch h1) 1)
                      true h1));
  (** A publication acknowledges the epoch in force and ends the recovery. *)
  st_publishable : Head → Prop;
  st_publish now token h s h' s' :
    st_wf s → st_publishable h → Family h = "evm" → Commitment h = Latest →
    store_Publish now token h s = (Ok h', s') →
    ∃ s1 s2, st_le s s1 ∧
      (st_room s1 (Chain h) →
       ReorgEpoch h = from_option ReorgEpoch 0%Z (st_latest s1 (Chain h)) ∧
       st_le s1 s2 ∧ st_le s2 s' ∧ st_latest s2 (Chain h) = Some h' ∧
       ReorgPending h' = false ∧ ReorgEpoch h' = ReorgEpoch h ∧ Hash h' = Hash h ∧ Number h' = Number h)
}.

(** ** A store inside a larger state

    When the store is one component of a world, its operations and its laws
    carry over along the accessors. *)

Section lift.
  Context {S W : Type} `{HeadStoreLaws S}.
  Context (get_store : W → S) (set_store : S → W → W).
  Hypothesis get_set : ∀ s w, get_store (set_store s w) = s.

Definition lift_op {A} (op : S → A * S) (w : W) : A * W :=
    let* (a, s) := op (get_store w) in (a, set_store s w).

Definition lift_store : HeadStore W := {|
    store_Acquire now chain owner ttl := lift_op (store_Acquire now chain owner ttl);
    store_Renew now chain token ttl := lift_op (store_Renew now chain token ttl);
    store_Release chain token := lift_op (store_Release chain token);
    store_Publish now token h := lift_op (store_Publish now token h);
    store_BeginReorg now chain token := lift_op (store_BeginReorg now chain token);
    store_Snapshot chain := lift_op (store_Snapshot chain);
    store_StreamStart chain := lift_op (store_StreamStart chain)
  |}.

Lemma lift_op_inv {A} (op : S → A * S) w a w' :
    lift_op op w = (a, w') → op (get_store w) = (a, get_store w').
  Proof using get_set.
    unfold lift_op. destruct (op (get_store w)) as [a1 s1]. intros [= -> <-]. by rewrite get_set.
  Qed.

Definition lift_store_laws : @HeadStoreLaws W lift_store.
  Proof using get_set H0.
    refine {| st_wf := λ w, st_wf (get_store w); st_latest := λ w, st_latest (get_store w);
              st_le := λ w w', st_le (get_store w) (get_store w');
              st_room := λ w, st_room (get_store w); st_publishable := st_publishable |}.
    - split; [intros w; reflexivity|]. intros x y z Hxy Hyz. by etrans.
    - intros s s'. apply st_wf_le.
    - intros s s' chain h. apply st_mono.
    - intros chain w sn w' Hs. apply lift_op_inv in Hs. apply st_snapshot in Hs as (s1 & Hs).
      exists (set_store s1 w). by rewrite get_set.
    - intros now chain token w h w' Hw Hs. apply lift_op_inv in Hs.
      apply st_begin in Hs as (s1 & s2 & h1 & Hs); [|done].
      exists (set_store s1 w), (set_store s2 w), h1. by rewrite !get_set.
    - intros now token h w h' w' Hw Hp Hf Hc Hs. apply lift_op_inv in Hs.
      apply st_publish in Hs as (s1 & s2 & Hs); [|done..].
      exists (set_store s1 w), (set_store s2 w). by rewrite !get_set.
  Defined.
End lift.
