(* ===== verification/MemoryStore.v ===== *)
(** * The in-process head store — internal/head/types.go, [MemoryStore]

    Every operation holds the store's mutex, so it is one transition of the
    state below.  [time.Now()] is read once per operation and passed in. *)

From S2P Require Import Prelude GoStrings GoJson Head.

(** ** State *)

(* go: head/types.go:100-103 memoryLeader *)
Record memoryLeader := mkLeader { ld_token : string; ld_expires : Z }.

Definition zero_leader : memoryLeader := mkLeader "" 0.

(** [notify] counts the channels closed so far: a waiter wakes up when the
    channel it holds is closed. *)
(* go: head/types.go:90-98 MemoryStore *)
Record MemoryStore := mkStore {
  ms_heads : gmap string (gmap string Head);
  ms_leaders : gmap string memoryLeader;
  ms_events : gmap string (list Event);
  ms_notify : nat;
  ms_gen : gmap string Z
}.

(* go: head/types.go:105-111 NewMemoryStore *)
Definition NewMemoryStore : MemoryStore := mkStore ∅ ∅ ∅ 0 ∅.

Definition leader_of (m : MemoryStore) (chain : string) : memoryLeader :=
  default zero_leader (ms_leaders m !! chain).

Definition gen_of (m : MemoryStore) (chain : string) : Z := default 0%Z (ms_gen m !! chain).

Definition heads_of (m : MemoryStore) (chain : string) : gmap string Head :=
  default ∅ (ms_heads m !! chain).

Definition events_of (m : MemoryStore) (chain : string) : list Event :=
  default [] (ms_events m !! chain).

(** [fmt.Sprintf("%s:%d", owner, generation)]. *)
Definition leader_token (owner : string) (generation : Z) : string :=
  owner +:+ ":" +:+ pretty generation.

(** [fmt.Sprintf("%d-0", generation)]. *)
Definition event_id (generation : Z) : string := pretty generation +:+ "-0".

(** ** Leadership *)

(* go: head/types.go:113-125 MemoryStore.Acquire *)
Definition Acquire (now : Z) (chain owner : string) (ttl : Z) (m : MemoryStore)
    : result store_error (string * bool) * MemoryStore :=
  let current := leader_of m chain in
  if negb (String.eqb (ld_token current) "") && (now <? ld_expires current)%Z
  then (Ok ("", false), m)
  else
    let generation := u64_add (gen_of m chain) 1 in
    let token := leader_token owner generation in
    (Ok (token, true),
     mkStore (ms_heads m) (<[chain := mkLeader token (now + ttl)]> (ms_leaders m))
       (ms_events m) (ms_notify m) (<[chain := generation]> (ms_gen m))).

(* go: head/types.go:127-138 MemoryStore.Renew *)
Definition Renew (now : Z) (chain token : string) (ttl : Z) (m : MemoryStore)
    : result store_error bool * MemoryStore :=
  let current := leader_of m chain in
  if negb (String.eqb (ld_token current) token) || (ld_expires current <? now)%Z
  then (Ok false, m)
  else
    (Ok true,
     mkStore (ms_heads m) (<[chain := mkLeader (ld_token current) (now + ttl)]> (ms_leaders m))
       (ms_events m) (ms_notify m) (ms_gen m)).

(* go: head/types.go:140-148 MemoryStore.Release *)
Definition Release (chain token : string) (m : MemoryStore)
    : result store_error unit * MemoryStore :=
  if String.eqb (ld_token (leader_of m chain)) token
  then (Ok (), mkStore (ms_heads m) (delete chain (ms_leaders m)) (ms_events m) (ms_notify m)
                 (ms_gen m))
  else (Ok (), m).

(** ** Publication *)

(** Appending to the chain's retained stream. *)
Definition append_event (chain : string) (h : Head) (events : gmap string (list Event))
    : gmap string (list Event) :=
  <[chain := default [] (events !! chain) ++ [mkEvent (event_id (Generation h)) h]]> events.

Definition is_evm_latest (h : Head) : bool :=
  String.eqb (Family h) "evm" && String.eqb (Commitment h) Latest.

(** Storing [h], waking the waiters. *)
Definition put_head (h : Head) (heads : gmap string (gmap string Head)) (m : MemoryStore)
    (events : gmap string (list Event)) (gens : gmap string Z) : MemoryStore :=
  mkStore (<[Chain h := <[Commitment h := h]> (default ∅ (heads !! Chain h))]> heads)
    (ms_leaders m) events (S (ms_notify m)) gens.

(** The map of a chain's heads is created before the fence is checked. *)
Definition ensure_heads (chain : string) (m : MemoryStore) : gmap string (gmap string Head) :=
  match ms_heads m !! chain with
  | None => <[chain := ∅]> (ms_heads m)
  | Some _ => ms_heads m
  end.

Definition stamp_ChangedAt (h : Head) : Head :=
  if time_IsZero (ChangedAt h) then with_ChangedAt (ObservedAt h) h else h.

(* go: head/types.go:150-183 MemoryStore.Publish *)
Definition Publish (now : Z) (token : string) (acceptedHead : Head) (m : MemoryStore)
    : result store_error Head * MemoryStore :=
  let chain := Chain acceptedHead in
  let leader := leader_of m chain in
  if negb (String.eqb (ld_token leader) token) || (ld_expires leader <? now)%Z
  then (Err ErrLeadershipLost, m)
  else
    let heads := ensure_heads chain m in
    let stored := default ∅ (heads !! chain) !! Commitment acceptedHead in
    let previous := default zero_Head stored in
    if is_evm_latest acceptedHead
       && (ReorgPending acceptedHead
           || negb (ReorgEpoch acceptedHead =? ReorgEpoch previous)%Z)
    then (Err ErrReorgFence,
          mkStore heads (ms_leaders m) (ms_events m) (ms_notify m) (ms_gen m))
    else if bool_decide (is_Some stored)
            && String.eqb (Identity previous) (Identity acceptedHead)
    then
      let h := with_ChangedAt (ChangedAt previous)
                 (with_Generation (Generation previous) acceptedHead) in
      (Ok h, put_head h heads m (ms_events m) (ms_gen m))
    else
      let generation := u64_add (gen_of m chain) 1 in
      let h := with_Generation generation (stamp_ChangedAt acceptedHead) in
      let events := if is_evm_latest h then append_event chain h (ms_events m)
                    else ms_events m in
      (Ok h, put_head h heads m events (<[chain := generation]> (ms_gen m))).

(* go: head/types.go:185-203 MemoryStore.BeginReorg *)
Definition BeginReorg (now : Z) (chain token : string) (m : MemoryStore)
    : result store_error Head * MemoryStore :=
  let leader := leader_of m chain in
  if negb (String.eqb (ld_token leader) token) || negb (now <? ld_expires leader)%Z
  then (Err ErrLeadershipLost, m)
  else
    let stored := heads_of m chain !! Latest in
    let current := default zero_Head stored in
    if negb (bool_decide (is_Some stored)) || negb (String.eqb (Family current) "evm")
       || IsZero current
    then (Err ErrReorgFence, m)
    else if negb (ReorgPending current) then
      let current := with_Reorg (u64_add (ReorgEpoch current) 1) true current in
      (Ok current,
       mkStore (<[chain := <[Latest := current]> (heads_of m chain)]> (ms_heads m))
         (ms_leaders m) (ms_events m) (ms_notify m) (ms_gen m))
    else (Ok current, m).

(** Unfenced; used to set up tests and embedded stores, never by the proxy. *)
(* go: head/types.go:205-225 MemoryStore.Set *)
Definition Set_ (acceptedHead : Head) (m : MemoryStore) : Head * MemoryStore :=
  let chain := Chain acceptedHead in
  let heads := ensure_heads chain m in
  let generation := u64_add (gen_of m chain) 1 in
  let h := stamp_ChangedAt (with_Generation generation acceptedHead) in
  let events := if is_evm_latest h then append_event chain h (ms_events m) else ms_events m in
  (h, put_head h heads m events (<[chain := generation]> (ms_gen m))).

(** ** Reading *)

(** The copy loop inserts every commitment of the chain. *)
(* go: head/types.go:227-236 MemoryStore.Snapshot *)
Definition Snapshot_ (chain : string) (m : MemoryStore)
    : result store_error Snapshot * MemoryStore :=
  (Ok (mkSnapshot chain (heads_of m chain)), m).

(* go: head/types.go:244-253 MemoryStore.StreamStart *)
Definition StreamStart (chain : string) (m : MemoryStore)
    : result store_error Event * MemoryStore :=
  match last (events_of m chain) with
  | None => (Ok (mkEvent "0-0" zero_Head), m)
  | Some e => (Ok e, m)
  end.

(* go: head/types.go:238-242 MemoryStore.StreamCursor *)
Definition StreamCursor (chain : string) (m : MemoryStore)
    : result store_error string * MemoryStore :=
  let* (checkpoint, m) := StreamStart chain m in
  (match checkpoint with Ok e => Ok (ev_ID e) | Err e => Err e end, m).

(** The events after the first one called [afterCursor]. *)
Fixpoint after_cursor (afterCursor : string) (events : list Event) : option (list Event) :=
  match events with
  | [] => None
  | e :: r => if String.eqb (ev_ID e) afterCursor then Some r else after_cursor afterCursor r
  end.

Definition retained_after (afterCursor : string) (events : list Event) : option (list Event) :=
  match after_cursor afterCursor events with
  | Some r => Some r
  | None => if String.eqb afterCursor "0-0" then Some events else None
  end.

(** At most [count] of them when [count] is positive. *)
Definition page (count : Z) (events : list Event) : list Event :=
  if (0 <? count)%Z && (count <? Z.of_nat (length events))%Z
  then take (Z.to_nat count) events else events.

(** What ends a wait: the caller's context, the timer, or a publication, after
    which the loop looks at the store again. *)
Inductive wakeup :=
| Canceled (err : string)
| TimedOut
| Notified (store : MemoryStore).

(** [None]: still waiting after the given wake-ups. *)
(* go: head/types.go:255-294 MemoryStore.ReadEvents *)
Fixpoint ReadEvents (chain afterCursor : string) (count : Z) (m : MemoryStore)
    (wakeups : list wakeup) : option (result store_error (list Event)) :=
  match retained_after afterCursor (events_of m chain) with
  | None => Some (Err ErrStreamGap)
  | Some (e :: r) => Some (Ok (page count (e :: r)))
  | Some [] =>
      match wakeups with
      | [] => None
      | Canceled err :: _ => Some (Err (StoreFailure err))
      | TimedOut :: _ => Some (Ok [])
      | Notified m' :: ws => ReadEvents chain afterCursor count m' ws
      end
  end.

#[export] Instance MemoryStore_HeadStore : HeadStore MemoryStore := {
  store_Acquire := Acquire;
  store_Renew := Renew;
  store_Release := Release;
  store_Publish := Publish;
  store_BeginReorg := BeginReorg;
  store_Snapshot := Snapshot_;
  store_StreamStart := StreamStart
}.

(** ** The abstract view of one chain

    All state is per chain.  [view] collects a chain's share of the maps, and
    the operations below act on it alone: the concrete operations refine them
    and leave every other chain's view untouched. *)

Record chain_view := mkView {
  v_heads : gmap string Head;
  v_leader : memoryLeader;
  v_events : list Event;
  v_gen : Z
}.

Definition view (m : MemoryStore) (chain : string) : chain_view :=
  mkView (heads_of m chain) (leader_of m chain) (events_of m chain) (gen_of m chain).

Inductive store_op :=
| OpAcquire (now : Z) (chain owner : string) (ttl : Z)
| OpRenew (now : Z) (chain token : string) (ttl : Z)
| OpRelease (chain token : string)
| OpPublish (now : Z) (token : string) (h : Head)
| OpBeginReorg (now : Z) (chain token : string).

Definition op_chain (op : store_op) : string :=
  match op with
  | OpAcquire _ c _ _ | OpRenew _ c _ _ | OpRelease c _ | OpBeginReorg _ c _ => c
  | OpPublish _ _ h => Chain h
  end.

Definition exec (op : store_op) (m : MemoryStore) : MemoryStore :=
  match op with
  | OpAcquire now c o ttl => (Acquire now c o ttl m).2
  | OpRenew now c t ttl => (Renew now c t ttl m).2
  | OpRelease c t => (Release c t m).2
  | OpPublish now t h => (Publish now t h m).2
  | OpBeginReorg now c t => (BeginReorg now c t m).2
  end.

Definition owns (now : Z) (token : string) (v : chain_view) : bool :=
  String.eqb (ld_token (v_leader v)) token && (now <=? ld_expires (v_leader v))%Z.

Definition fence_open (h : Head) (v : chain_view) : bool :=
  negb (is_evm_latest h)
  || (negb (ReorgPending h)
      && (ReorgEpoch h =? from_option ReorgEpoch 0 (v_heads v !! Commitment h))%Z).

(** The head [Publish] stores, and whether it is a new stream item. *)
Definition accept (h : Head) (v : chain_view) : Head * bool :=
  match v_heads v !! Commitment h with
  | Some p => if String.eqb (Identity p) (Identity h)
              then (with_ChangedAt (ChangedAt p) (with_Generation (Generation p) h), false)
              else (with_Generation (u64_add (v_gen v) 1) (stamp_ChangedAt h), true)
  | None => (with_Generation (u64_add (v_gen v) 1) (stamp_ChangedAt h), true)
  end.

Definition accept_view (h : Head) (v : chain_view) : chain_view :=
  let* (h', fresh) := accept h v in
  mkView (<[Commitment h := h']> (v_heads v)) (v_leader v)
    (if fresh && is_evm_latest h then v_events v ++ [mkEvent (event_id (Generation h')) h']
     else v_events v)
    (if fresh then u64_add (v_gen v) 1 else v_gen v).

Definition begin_head (current : Head) : Head :=
  if ReorgPending current then current
  else with_Reorg (u64_add (ReorgEpoch current) 1) true current.

Definition exec_view (op : store_op) (v : chain_view) : chain_view :=
  match op with
  | OpAcquire now _ o ttl =>
      if negb (String.eqb (ld_token (v_leader v)) "") && (now <? ld_expires (v_leader v))%Z
      then v
      else let g := u64_add (v_gen v) 1 in
           mkView (v_heads v) (mkLeader (leader_token o g) (now + ttl)) (v_events v) g
  | OpRenew now _ t ttl =>
      if owns now t v
      then mkView (v_heads v) (mkLeader t (now + ttl)) (v_events v) (v_gen v) else v
  | OpRelease _ t =>
      if String.eqb (ld_token (v_leader v)) t
      then mkView (v_heads v) zero_leader (v_events v) (v_gen v) else v
  | OpPublish now t h =>
      if owns now t v && fence_open h v then accept_view h v else v
  | OpBeginReorg now _ t =>
      if String.eqb (ld_token (v_leader v)) t && (now <? ld_expires (v_leader v))%Z then
        match v_heads v !! Latest with
        | Some current =>
            if String.eqb (Family current) "evm" && negb (IsZero current)
            then mkView (<[Latest := begin_head current]> (v_heads v)) (v_leader v)
                   (v_events v) (v_gen v)
            else v
        | None => v
        end
      else v
  end.

(** ** Refinement lemmas *)

Lemma ensure_heads_lookup chain m c : default ∅ (ensure_heads chain m !! c) = heads_of m c.
Proof.
  unfold ensure_heads, heads_of. destruct (ms_heads m !! chain) eqn:H; [done|].
  destruct (decide (chain = c)) as [->|].
  - by rewrite lookup_insert_eq, H.
  - by rewrite lookup_insert_ne.
Qed.

Lemma view_put_head h heads m events gens c :
  (∀ c, default ∅ (heads !! c) = heads_of m c) →
  view (put_head h heads m events gens) c =
  mkView (if decide (Chain h = c) then <[Commitment h := h]> (heads_of m c) else heads_of m c)
    (leader_of m c) (default [] (events !! c)) (default 0%Z (gens !! c)).
Proof.
  intros Hh. unfold view, put_head, heads_of, events_of, gen_of, leader_of. simpl. f_equal.
  case_decide as Hc; subst.
  - rewrite lookup_insert_eq. simpl. f_equal. apply Hh.
  - rewrite lookup_insert_ne by done. apply Hh.
Qed.

Lemma is_evm_latest_fields h h' :
  Family h = Family h' → Commitment h = Commitment h' → is_evm_latest h = is_evm_latest h'.
Proof. unfold is_evm_latest. by intros -> ->. Qed.

Lemma stamp_ChangedAt_fields h :
  Family (stamp_ChangedAt h) = Family h ∧ Commitment (stamp_ChangedAt h) = Commitment h ∧
  Chain (stamp_ChangedAt h) = Chain h ∧ Identity (stamp_ChangedAt h) = Identity h ∧
  ReorgEpoch (stamp_ChangedAt h) = ReorgEpoch h ∧ ReorgPending (stamp_ChangedAt h) = ReorgPending h ∧
  Hash (stamp_ChangedAt h) = Hash h ∧ Number (stamp_ChangedAt h) = Number h.
Proof. unfold stamp_ChangedAt. by destruct (time_IsZero _). Qed.

Lemma accept_fields h v h' fresh :
  accept h v = (h', fresh) →
  Family h' = Family h ∧ Commitment h' = Commitment h ∧ Chain h' = Chain h ∧
  Identity h' = Identity h ∧ ReorgEpoch h' = ReorgEpoch h ∧ ReorgPending h' = ReorgPending h ∧
  Hash h' = Hash h ∧ Number h' = Number h.
Proof.
  unfold accept. intros H. pose proof (stamp_ChangedAt_fields h) as Hs.
  destruct (v_heads v !! Commitment h); [destruct (String.eqb _ _)|]; simplify_eq; try done.
Qed.

Lemma owns_guard now token leader heads events gen :
  negb (String.eqb (ld_token leader) token) || (ld_expires leader <? now)%Z =
  negb (owns now token (mkView heads leader events gen)).
Proof.
  unfold owns. simpl. rewrite negb_andb. f_equal. apply Z.ltb_antisym.
Qed.

Lemma fence_guard h v :
  is_evm_latest h && (ReorgPending h
    || negb (ReorgEpoch h =? ReorgEpoch (default zero_Head (v_heads v !! Commitment h)))%Z) =
  negb (fence_open h v).
Proof.
  unfold fence_open. rewrite negb_orb, negb_involutive, negb_andb, negb_involutive.
  do 2 f_equal. by destruct (v_heads v !! Commitment h).
Qed.

Lemma default_insert {A} (m : gmap string A) k x (d : A) c :
  default d (<[k := x]> m !! c) = if decide (k = c) then x else default d (m !! c).
Proof.
  case_decide as Hc; subst; [by rewrite lookup_insert_eq|by rewrite lookup_insert_ne].
Qed.

(** [Publish] in terms of the view of its chain. *)
Lemma Publish_eq now token h m :
  Publish now token h m =
  if owns now token (view m (Chain h)) then
    if fence_open h (view m (Chain h)) then
      let* (h', fresh) := accept h (view m (Chain h)) in
      (Ok h', put_head h' (ensure_heads (Chain h) m) m
         (if fresh && is_evm_latest h then append_event (Chain h) h' (ms_events m) else ms_events m)
         (if fresh then <[Chain h := u64_add (gen_of m (Chain h)) 1]> (ms_gen m) else ms_gen m))
    else (Err ErrReorgFence, mkStore (ensure_heads (Chain h) m) (ms_leaders m) (ms_events m)
                               (ms_notify m) (ms_gen m))
  else (Err ErrLeadershipLost, m).
Proof.
  unfold Publish. rewrite (owns_guard now token _ (heads_of m (Chain h))
    (events_of m (Chain h)) (gen_of m (Chain h))).
  fold (view m (Chain h)). destruct (owns now token (view m (Chain h))); [|done]. cbn [negb].
  rewrite ensure_heads_lookup. change (heads_of m (Chain h)) with (v_heads (view m (Chain h))).
  rewrite fence_guard. destruct (fence_open h (view m (Chain h))); [|done]. cbn [negb].
  unfold accept. cbn [v_heads view v_gen].
  assert (is_evm_latest (with_Generation (u64_add (gen_of m (Chain h)) 1) (stamp_ChangedAt h))
    = is_evm_latest h) as -> by (apply is_evm_latest_fields; simpl; apply stamp_ChangedAt_fields).
  destruct (heads_of m (Chain h) !! Commitment h) as [p|]; simpl; [|done].
  by destruct (String.eqb _ _).
Qed.

Lemma Publish_result now token h m :
  (Publish now token h m).1 =
  if owns now token (view m (Chain h)) then
    if fence_open h (view m (Chain h)) then Ok (accept h (view m (Chain h))).1
    else Err ErrReorgFence
  else Err ErrLeadershipLost.
Proof. rewrite Publish_eq. by repeat case_match. Qed.

Lemma Publish_view now token h m c :
  view (Publish now token h m).2 c =
  if decide (Chain h = c) then exec_view (OpPublish now token h) (view m c) else view m c.
Proof.
  rewrite Publish_eq. destruct (owns now token (view m (Chain h))) eqn:Ho;
    [|by case_decide; subst; simpl; [rewrite Ho|]].
  destruct (fence_open h (view m (Chain h))) eqn:Hf.
  - destruct (accept h (view m (Chain h))) as [h' fresh] eqn:Ha.
    pose proof (accept_fields _ _ _ _ Ha) as (_ & Hcm & Hch & _).
    cbn [snd]. rewrite view_put_head, Hch, Hcm by apply ensure_heads_lookup.
    case_decide as Hc; subst.
    + simpl. rewrite Ho, Hf. unfold accept_view. rewrite Ha. cbn [andb].
      f_equal; destruct fresh; simpl; try done.
      * destruct (is_evm_latest h); [|done]. unfold append_event. by rewrite lookup_insert_eq.
      * by rewrite lookup_insert_eq.
    + unfold view, events_of, gen_of. f_equal; destruct fresh; simpl; try done.
      * destruct (is_evm_latest h); [|done]. unfold append_event. by rewrite lookup_insert_ne.
      * by rewrite lookup_insert_ne.
  - assert (view (mkStore (ensure_heads (Chain h) m) (ms_leaders m) (ms_events m) (ms_notify m)
        (ms_gen m)) c = view m c) as Hv.
    { unfold view, heads_of at 1. simpl. by rewrite ensure_heads_lookup. }
    cbn [snd]. rewrite Hv. case_decide; subst; [|done]. simpl. by rewrite Ho, Hf.
Qed.

Lemma BeginReorg_eq now chain token m :
  BeginReorg now chain token m =
  let v := view m chain in
  if String.eqb (ld_token (v_leader v)) token && (now <? ld_expires (v_leader v))%Z then
    match v_heads v !! Latest with
    | Some current =>
        if String.eqb (Family current) "evm" && negb (IsZero current)
        then (Ok (begin_head current),
              if ReorgPending current then m
              else mkStore (<[chain := <[Latest := begin_head current]> (heads_of m chain)]>
                              (ms_heads m))
                     (ms_leaders m) (ms_events m) (ms_notify m) (ms_gen m))
        else (Err ErrReorgFence, m)
    | None => (Err ErrReorgFence, m)
    end
  else (Err ErrLeadershipLost, m).
Proof.
  unfold BeginReorg. rewrite <- negb_andb. cbn [v_leader view v_heads].
  destruct (_ && _); [|done]. cbn [negb].
  destruct (heads_of m chain !! Latest) as [cur|]; [|done]. simpl.
  rewrite <- (negb_involutive (IsZero cur)) at 1. rewrite <- negb_andb.
  destruct (String.eqb (Family cur) "evm" && negb (IsZero cur)); [|done]. cbn [negb].
  unfold begin_head. by destruct (ReorgPending cur).
Qed.

Lemma BeginReorg_view now chain token m c :
  view (BeginReorg now chain token m).2 c =
  if decide (chain = c) then exec_view (OpBeginReorg now chain token) (view m c) else view m c.
Proof.
  rewrite BeginReorg_eq. cbn [exec_view]. case_decide as Hc; subst; [|].
  - destruct (_ && _) eqn:Hg; [|done].
    destruct (v_heads (view m c) !! Latest) as [cur|] eqn:Hcur; [|done].
    destruct (_ && negb _); [|done]. cbn [snd].
    assert (view m c = mkView (v_heads (view m c)) (v_leader (view m c)) (v_events (view m c))
              (v_gen (view m c))) as Hv by done.
    unfold begin_head at 1. destruct (ReorgPending cur) eqn:Hp.
    + rewrite Hv at 1. f_equal. unfold begin_head. rewrite Hp. by rewrite insert_id.
    + unfold view at 1, heads_of at 1. cbn [ms_heads]. rewrite lookup_insert_eq. cbn [default from_option].
      unfold begin_head. by rewrite Hp.
  - destruct (_ && _); [|done]. destruct (v_heads _ !! _); [|done].
    destruct (_ && _); [|done]. cbn [snd]. destruct (ReorgPending _); [done|].
    unfold view, heads_of at 1. cbn [ms_heads]. by rewrite lookup_insert_ne.
Qed.

Lemma view_set_leaders m leaders gens c :
  view (mkStore (ms_heads m) leaders (ms_events m) (ms_notify m) gens) c =
  mkView (heads_of m c) (default zero_leader (leaders !! c)) (events_of m c)
    (default 0%Z (gens !! c)).
Proof. done. Qed.

(** Every operation acts on its chain's view as its abstract counterpart does,
    and on no other chain's. *)
Lemma exec_refines op m c :
  view (exec op m) c = if decide (op_chain op = c) then exec_view op (view m c) else view m c.
Proof.
  destruct op as [now ch o ttl|now ch t ttl|ch t|now t h|now ch t]; cbn [exec op_chain].
  - unfold Acquire. cbn [exec_view]. destruct (_ && _) eqn:Hg.
    + case_decide as Hc; subst; [|done]. cbn [v_leader view]. by rewrite Hg.
    + cbn [snd]. rewrite view_set_leaders, !default_insert.
      case_decide as Hc; subst; [|done]. cbn [v_leader view v_heads v_gen v_events]. by rewrite Hg.
  - unfold Renew. cbn [exec_view]. rewrite (owns_guard now t _ (heads_of m ch) (events_of m ch) (gen_of m ch)).
    fold (view m ch). destruct (owns now t (view m ch)) eqn:Ho; cbn [negb snd].
    + rewrite view_set_leaders, default_insert. case_decide as Hc; subst; [|done].
      rewrite Ho. cbn [v_heads v_events v_gen view]. do 2 f_equal.
      unfold owns in Ho. by bool_to_prop.
    + case_decide as Hc; subst; [|done]. by rewrite Ho.
  - unfold Release. cbn [exec_view]. destruct (String.eqb _ t) eqn:He; cbn [snd].
    + rewrite view_set_leaders. case_decide as Hc; subst.
      * cbn [v_leader view]. by rewrite He, lookup_delete_eq.
      * by rewrite lookup_delete_ne.
    + case_decide as Hc; subst; [|done]. cbn [v_leader view]. by rewrite He.
  - apply Publish_view.
  - apply BeginReorg_view.
Qed.

(** ** The invariant *)

Definition event_generation (e : Event) : Z := Generation (ev_Head e).

(** A run of the store: every publisher of a chain uses the family configured
    for it, and the two [uint64] counters have not been exhausted. *)
Section runs.
Context (chain_family : string → string).

Definition stream_wf (v : chain_view) : Prop :=
  StronglySorted (λ e e', (event_generation e < event_generation e')%Z) (v_events v) ∧
  Forall (λ e, ev_ID e = event_id (event_generation e) ∧
               (1 ≤ event_generation e ≤ v_gen v)%Z) (v_events v).

Definition heads_wf (chain : string) (v : chain_view) : Prop :=
  ∀ c h, v_heads v !! c = Some h →
    Chain h = chain ∧ Commitment h = c ∧ Family h = chain_family chain ∧
    (1 ≤ Generation h ≤ v_gen v)%Z ∧ u64_wf (ReorgEpoch h).

(** The stream of an EVM chain ends with its accepted head. *)
Definition tip_wf (v : chain_view) : Prop :=
  ∀ h, v_heads v !! Latest = Some h → Family h = "evm" →
    ∃ e, last (v_events v) = Some e ∧
      event_generation e = Generation h ∧ Identity (ev_Head e) = Identity h.

Definition leader_wf (v : chain_view) : Prop :=
  ld_token (v_leader v) = "" ∨
  ∃ owner g, ld_token (v_leader v) = leader_token owner g ∧ (1 ≤ g ≤ v_gen v)%Z.

Record view_wf (chain : string) (v : chain_view) : Prop := {
  wf_gen : u64_wf (v_gen v);
  wf_leader : leader_wf v;
  wf_heads : heads_wf chain v;
  wf_stream : stream_wf v;
  wf_tip : tip_wf v
}.

Definition store_wf (m : MemoryStore) : Prop := ∀ chain, view_wf chain (view m chain).

Definition op_ok (op : store_op) (v : chain_view) : Prop :=
  match op with
  | OpAcquire _ _ _ _ => (v_gen v < two64 - 1)%Z
  | OpPublish _ _ h =>
      (v_gen v < two64 - 1)%Z ∧ Family h = chain_family (Chain h) ∧ u64_wf (ReorgEpoch h)
  | OpBeginReorg _ _ _ =>
      ∀ h, v_heads v !! Latest = Some h → (ReorgEpoch h < two64 - 1)%Z
  | _ => True
  end.

Inductive store_step (m : MemoryStore) : MemoryStore → Prop :=
| store_step_exec op : op_ok op (view m (op_chain op)) → store_step m (exec op m).

Lemma view_wf_weaken chain v v' :
  view_wf chain v → v_heads v' = v_heads v → v_events v' = v_events v →
  (v_gen v ≤ v_gen v')%Z → u64_wf (v_gen v') → leader_wf v' → view_wf chain v'.
Proof.
  intros [Hg Hl Hh [Hs Hf] Ht] Eh Ee Hle Hg' Hl'. split; [done|done| | |].
  - intros c h. rewrite Eh. intros H. destruct (Hh c h H) as (?&?&?&?&?). split_and!; try done; lia.
  - split; [by rewrite Ee|]. rewrite Ee. eapply Forall_impl; [done|].
    simpl. intros e [? ?]. split; [done|lia].
  - intros h. rewrite Eh, Ee. apply Ht.
Qed.

Lemma leader_token_ne_empty owner g : leader_token owner g ≠ "".
Proof. unfold leader_token. by destruct owner. Qed.

Lemma accept_cases h v h' fresh :
  accept h v = (h', fresh) →
  if fresh then Generation h' = u64_add (v_gen v) 1
  else ∃ p, v_heads v !! Commitment h = Some p ∧ Identity p = Identity h ∧
            Generation h' = Generation p.
Proof.
  unfold accept. destruct (v_heads v !! Commitment h) as [p|].
  - destruct (String.eqb _ _) eqn:He; intros; simplify_eq; [|done].
    bool_to_prop. by exists p.
  - intros. by simplify_eq.
Qed.

Lemma accept_view_wf chain h v :
  view_wf chain v → Chain h = chain → Family h = chain_family chain →
  u64_wf (ReorgEpoch h) → (v_gen v < two64 - 1)%Z → view_wf chain (accept_view h v).
Proof.
  intros [Hg Hl Hh [Hs Hf] Ht] Hch Hfam Hep Hroom. unfold accept_view.
  destruct (accept h v) as [h' fresh] eqn:Ha.
  pose proof (accept_fields _ _ _ _ Ha) as (F1 & F2 & F3 & F4 & F5 & _).
  pose proof (accept_cases _ _ _ _ Ha) as Hc.
  assert (u64_add (v_gen v) 1 = v_gen v + 1)%Z as Hinc by (apply u64_add_small; u64_lia).
  assert (v_gen v ≤ (if fresh then u64_add (v_gen v) 1 else v_gen v))%Z as Hle
    by (destruct fresh; lia).
  assert (1 ≤ Generation h' ≤ (if fresh then u64_add (v_gen v) 1 else v_gen v))%Z as Hgen.
  { destruct fresh; [u64_lia|]. destruct Hc as (p & Hp & _ & ->).
    by destruct (Hh _ _ Hp) as (_ & _ & _ & ? & _). }
  split; simpl.
  - destruct fresh; [apply u64_add_wf|done].
  - destruct Hl as [|(o & g & ? & ?)]; [by left|right]. exists o, g. simpl. split; [done|lia].
  - intros c x. simpl. rewrite lookup_insert. case_decide as Hd; intros; simplify_eq.
    + split_and!; try congruence; simpl; lia || by rewrite F5.
    + simpl in *. destruct (Hh c x) as (?&?&?&?&?); [done|]. split_and!; try done; simpl; lia.
  - destruct (fresh && is_evm_latest h) eqn:Hfe.
    + apply andb_true_iff in Hfe as [-> _]. split.
      * apply StronglySorted_app_2; simpl; [|done|repeat constructor].
        intros e e' He He'. apply list_elem_of_singleton in He' as ->.
        rewrite Forall_forall in Hf. destruct (Hf e He) as [_ ?]. unfold event_generation in *.
        simpl. lia.
      * apply Forall_app. split.
        -- eapply Forall_impl; [done|]. simpl. intros e [? ?]. split; [done|lia].
        -- repeat constructor; simpl; unfold event_generation; simpl; lia.
    + split; [done|]. eapply Forall_impl; [done|]. simpl. intros e [? ?]. split; [done|lia].
  - intros x Hx Hev. simpl in *. rewrite lookup_insert in Hx. case_decide as Hd.
    + injection Hx as <-. destruct fresh.
      * assert (is_evm_latest h = true) as ->.
        { unfold is_evm_latest. rewrite Hd, <- F1, Hev. done. }
        cbn [andb]. rewrite last_snoc. eexists. split; [done|]. done.
      * destruct Hc as (p & Hp & Hid & Hgp). rewrite Hd in Hp.
        destruct (Hh _ _ Hp) as (_ & _ & Hfp & _).
        destruct (Ht p Hp) as (e & ? & ? & ?); [congruence|].
        exists e. simpl. split_and!; [done|congruence|congruence].
    + destruct (Ht x Hx Hev) as (e & He & ? & ?).
      assert (fresh && is_evm_latest h = false) as ->; [|by exists e].
      apply andb_false_intro2. unfold is_evm_latest.
      destruct (String.eqb (Commitment h) Latest) eqn:Hcl; [by bool_to_prop|].
      by rewrite andb_false_r.
Qed.

Lemma begin_head_fields h :
  Chain (begin_head h) = Chain h ∧ Commitment (begin_head h) = Commitment h ∧
  Family (begin_head h) = Family h ∧ Generation (begin_head h) = Generation h ∧
  Identity (begin_head h) = Identity h.
Proof. unfold begin_head. by destruct (ReorgPending h). Qed.

Lemma begin_view_wf chain v current :
  view_wf chain v → v_heads v !! Latest = Some current →
  view_wf chain (mkView (<[Latest := begin_head current]> (v_heads v)) (v_leader v)
                   (v_events v) (v_gen v)).
Proof.
  intros [Hg Hl Hh Hst Ht] Hcur.
  pose proof (begin_head_fields current) as (B1 & B2 & B3 & B4 & B5).
  destruct (Hh _ _ Hcur) as (C1 & C2 & C3 & C4 & C5).
  split; simpl; [done|done| |done|].
  - intros c h. simpl. rewrite lookup_insert. case_decide as Hc; intros; simplify_eq.
    + split_and!; try congruence; [lia|lia|]. unfold begin_head.
      destruct (ReorgPending current); [done|]. apply u64_add_wf.
    + by apply Hh.
  - intros h. simpl. rewrite lookup_insert_eq. intros [= <-] Hev. rewrite B4, B5.
    apply Ht; [done|congruence].
Qed.

Lemma exec_view_wf op v :
  view_wf (op_chain op) v → op_ok op v → view_wf (op_chain op) (exec_view op v).
Proof.
  intros Hw Hok. pose proof (wf_gen _ _ Hw) as Hg. pose proof (wf_leader _ _ Hw) as Hl.
  destruct op as [now ch o ttl|now ch t ttl|ch t|now t h|now ch t]; simpl in *.
  - destruct (_ && _); [done|].
    assert (u64_add (v_gen v) 1 = v_gen v + 1)%Z as Hinc by (apply u64_add_small; u64_lia).
    eapply view_wf_weaken; [done|done|done|simpl; lia|apply u64_add_wf|].
    right. exists o, (u64_add (v_gen v) 1). simpl. split; [done|u64_lia].
  - destruct (owns now t v) eqn:Ho; [|done]. unfold owns in Ho. bool_to_prop.
    eapply view_wf_weaken; [done|done|done|simpl; lia|done|].
    unfold leader_wf in *. simpl. subst t. done.
  - destruct (String.eqb _ _); [|done].
    eapply view_wf_weaken; [done|done|done|simpl; lia|done|by left].
  - destruct (_ && _); [|done]. destruct Hok as (? & ? & ?).
    by apply accept_view_wf.
  - destruct (_ && _); [|done]. destruct (v_heads v !! Latest) as [cur|] eqn:Hc; [|done].
    destruct (_ && _); [|done]. by apply begin_view_wf.
Qed.

Lemma store_step_wf m m' : store_step m m' → store_wf m → store_wf m'.
Proof.
  intros [op Hok] Hw chain. rewrite exec_refines. case_decide as Hc; [|by apply Hw].
  subst chain. by apply exec_view_wf.
Qed.

Lemma NewMemoryStore_wf : store_wf NewMemoryStore.
Proof.
  intros chain. split; unfold view; simpl.
  - unfold gen_of. simpl. rewrite lookup_empty. simpl. u64_lia.
  - by left.
  - intros c h. done.
  - split; constructor.
  - intros h. done.
Qed.

Lemma store_run_wf m m' : rtc store_step m m' → store_wf m → store_wf m'.
Proof. apply rtc_preserved, store_step_wf. Qed.

(** ** Fencing tokens *)

Fixpoint no_colon (s : string) : Prop :=
  match s with
  | EmptyString => True
  | String c r => GoStrings.byte_val c ≠ 58%N ∧ no_colon r
  end.

Lemma colon_split s s' d d' :
  no_colon d → no_colon d' → s +:+ ":" +:+ d = s' +:+ ":" +:+ d' → d = d'.
Proof.
  assert (∀ r x y, no_colon x → x ≠ r +:+ ":" +:+ y) as Hno.
  { induction r as [|c r IH]; intros x y Hx ->.
    - by destruct Hx.
    - rewrite string_app_cons in Hx. destruct Hx as [_ Hx]. by eapply IH. }
  intros Hd Hd'. revert s'. induction s as [|c s IH]; intros [|c' s'] H.
  - by injection H.
  - rewrite string_app_cons, string_app_nil_l in H. injection H as <- H. by apply Hno in H.
  - rewrite string_app_cons, string_app_nil_l in H. injection H as -> H. symmetry in H.
    by apply Hno in H.
  - rewrite !string_app_cons in H. injection H as -> H. by eapply IH.
Qed.

Lemma pretty_N_no_colon (n : N) : no_colon (pretty n).
Proof.
  unfold pretty, pretty_N. case_decide; [by split; [|exact I]|].
  assert (∀ s, no_colon s → no_colon (pretty_N_go n s)) as Hgo; [|by apply Hgo].
  clear. induction (N.lt_wf_0 n) as [n _ IH]; intros s Hs.
  destruct (decide (0 < n)%N) as [Hn|Hn].
  - rewrite pretty_N_go_step by done. apply IH; [by apply N.div_lt|].
    split; [|done]. pose proof (N.mod_lt n 10 ltac:(lia)) as Hlt. revert Hlt.
    generalize (n `mod` 10)%N. intros d Hd.
    assert (d = 0 ∨ d = 1 ∨ d = 2 ∨ d = 3 ∨ d = 4 ∨ d = 5 ∨ d = 6 ∨ d = 7 ∨ d = 8 ∨ d = 9)%N
      as Hd' by lia. by destruct_or! Hd'; subst.
  - by assert (n = 0)%N as -> by lia.
Qed.

Lemma pretty_Z_no_colon (z : Z) : no_colon (pretty z).
Proof.
  unfold pretty, pretty_Z. destruct z as [|p|p].
  - by split; [|exact I].
  - apply (pretty_N_no_colon (Npos p)).
  - split; [done|]. apply (pretty_N_no_colon (Npos p)).
Qed.

Lemma leader_token_inj o o' g g' : leader_token o g = leader_token o' g' → g = g'.
Proof.
  intros H. apply colon_split in H; [|apply pretty_Z_no_colon..]. by apply (inj pretty).
Qed.

(** All tokens in force come from acquisitions numbered above [G]. *)
Definition issued_above (G : Z) (v : chain_view) : Prop :=
  (G ≤ v_gen v)%Z ∧
  (ld_token (v_leader v) = "" ∨
   ∃ owner g, ld_token (v_leader v) = leader_token owner g ∧ (G < g)%Z).

Lemma accept_view_leader h v :
  v_leader (accept_view h v) = v_leader v.
Proof. unfold accept_view. by destruct (accept h v). Qed.

Lemma accept_view_gen h v :
  u64_wf (v_gen v) → (v_gen v < two64 - 1)%Z → (v_gen v ≤ v_gen (accept_view h v))%Z.
Proof.
  intros Hg Hr. unfold accept_view. destruct (accept h v) as [h' [|]]; simpl; [|done].
  rewrite u64_add_small; u64_lia.
Qed.

Lemma exec_view_issued_above G op v :
  u64_wf (v_gen v) → op_ok op v → issued_above G v → issued_above G (exec_view op v).
Proof.
  intros Hg Hok [HG Hl]. destruct op as [now ch o ttl|now ch t ttl|ch t|now t h|now ch t]; simpl in *.
  - destruct (_ && _); [done|].
    assert (u64_add (v_gen v) 1 = v_gen v + 1)%Z as -> by (apply u64_add_small; u64_lia).
    split; simpl; [lia|]. right. exists o, (v_gen v + 1)%Z. split; [done|lia].
  - destruct (owns now t v) eqn:Ho; [|done]. unfold owns in Ho. bool_to_prop. by subst t.
  - destruct (String.eqb _ _); [|done]. split; [done|by left].
  - destruct (_ && _); [|done]. destruct Hok as (? & _).
    split; rewrite ?accept_view_leader; [|done].
    etrans; [done|]. by apply accept_view_gen.
  - destruct (_ && _); [|done]. destruct (v_heads v !! Latest); [|done]. by destruct (_ && _).
Qed.

Lemma run_issued_above G chain m m' :
  rtc store_step m m' → store_wf m → issued_above G (view m chain) →
  issued_above G (view m' chain).
Proof.
  intros Hrun Hw H.
  assert (∀ x y, store_step x y → store_wf x ∧ issued_above G (view x chain) →
    store_wf y ∧ issued_above G (view y chain)) as Hpres; last first.
  { by apply (rtc_preserved _ _ Hpres _ _ Hrun (conj Hw H)). }
  clear. intros m m' Hstep [Hw H]. split; [by eapply store_step_wf|]. destruct Hstep as [op Hok]. rewrite exec_refines. case_decide as Hc; [|done]. subst chain.
  apply exec_view_issued_above; [apply Hw|done|done].
Qed.

Lemma exec_view_gen_le op v :
  u64_wf (v_gen v) → op_ok op v → (v_gen v ≤ v_gen (exec_view op v))%Z.
Proof.
  intros Hg Hok. destruct op as [now ch o ttl|now ch t ttl|ch t|now t h|now ch t]; simpl in *.
  - destruct (_ && _); [done|]. simpl. rewrite u64_add_small; u64_lia.
  - by destruct (owns _ _ _).
  - by destruct (String.eqb _ _).
  - destruct (_ && _); [|done]. apply accept_view_gen; [done|apply Hok].
  - destruct (_ && _); [|done]. destruct (v_heads v !! Latest); [|done]. by destruct (_ && _).
Qed.

Lemma run_gen_le chain m m' :
  rtc store_step m m' → store_wf m → (v_gen (view m chain) ≤ v_gen (view m' chain))%Z.
Proof.
  induction 1 as [|m m1 m' Hstep Hrun IH]; intros Hw; [done|].
  etrans; [|apply IH; by eapply store_step_wf]. destruct Hstep as [op Hok].
  rewrite exec_refines. case_decide as Hc; [|done]. subst chain.
  apply exec_view_gen_le; [apply Hw|done].
Qed.

Lemma acquire_token now chain owner ttl m t m' :
  Acquire now chain owner ttl m = (Ok (t, true), m') →
  t = leader_token owner (u64_add (gen_of m chain) 1) ∧
  v_leader (view m' chain) = mkLeader t (now + ttl) ∧
  v_gen (view m' chain) = u64_add (gen_of m chain) 1.
Proof.
  unfold Acquire. destruct (_ && _); [done|]. intros [= <- <-].
  unfold view, leader_of, gen_of. simpl. by rewrite !lookup_insert_eq.
Qed.

Lemma stale_token_refused G owner g v :
  issued_above G v → (0 ≤ g ≤ G)%Z → ld_token (v_leader v) ≠ leader_token owner g.
Proof.
  intros [_ [->|(o & g' & -> & ?)]] Hg Heq.
  - symmetry in Heq. by apply leader_token_ne_empty in Heq.
  - apply leader_token_inj in Heq. lia.
Qed.

(** ** Evolution of the accepted head *)

Lemma accept_generation_le chain h v h' fresh p :
  view_wf chain v → (v_gen v < two64 - 1)%Z → accept h v = (h', fresh) →
  v_heads v !! Commitment h = Some p → (Generation p ≤ Generation h')%Z.
Proof.
  intros Hw Hr Ha Hp. pose proof (accept_cases _ _ _ _ Ha) as Hc.
  destruct (wf_heads _ _ Hw _ _ Hp) as (_ & _ & _ & Hg & _). pose proof (wf_gen _ _ Hw).
  destruct fresh.
  - rewrite Hc, u64_add_small; u64_lia.
  - destruct Hc as (p' & Hp' & _ & ->). simplify_eq. lia.
Qed.

Lemma begin_head_epoch_le h :
  (ReorgEpoch h < two64 - 1)%Z → u64_wf (ReorgEpoch h) → epoch_le h (begin_head h).
Proof.
  intros Hr Hwf. unfold begin_head. destruct (ReorgPending h) eqn:Hp; [done|].
  assert (u64_add (ReorgEpoch h) 1 = ReorgEpoch h + 1)%Z as E by (apply u64_add_small; u64_lia).
  split_and!; simpl; rewrite ?E; lia.
Qed.

Lemma exec_view_epoch_le op v h :
  view_wf (op_chain op) v → op_ok op v → v_heads v !! Latest = Some h → Family h = "evm" →
  ∃ h', v_heads (exec_view op v) !! Latest = Some h' ∧ Family h' = "evm" ∧ epoch_le h h'.
Proof.
  intros Hw Hok Hh Hev. assert (epoch_le h h) as Hrefl by done.
  destruct op as [now ch o ttl|now ch t ttl|ch t|now t x|now ch t]; simpl in *.
  - destruct (_ && _); simpl; eauto.
  - destruct (owns _ _ _); simpl; eauto.
  - destruct (String.eqb _ _); simpl; eauto.
  - destruct (owns now t v && fence_open x v) eqn:Hg; [|by eauto]. bool_to_prop.
    destruct Hok as (Hr & Hfam & _). unfold accept_view.
    destruct (accept x v) as [x' fresh] eqn:Ha. simpl.
    pose proof (accept_fields _ _ _ _ Ha) as (F1 & F2 & F3 & F4 & F5 & F6 & _).
    rewrite lookup_insert. case_decide as Hd; [|by eauto].
    exists x'. destruct (wf_heads _ _ Hw _ _ Hh) as (_ & _ & Hf & _).
    assert (is_evm_latest x = true) as Hx.
    { unfold is_evm_latest. rewrite Hd, Hfam, <- Hf, Hev. done. }
    unfold fence_open in H0. rewrite Hx, Hd, Hh in H0. simpl in H0. bool_to_prop.
    split; [done|]. split; [congruence|]. rewrite <- Hd in Hh.
    pose proof (accept_generation_le _ _ _ _ _ _ Hw Hr Ha Hh) as Hle.
    split_and!; [lia|congruence|done].
  - destruct (_ && _); [|by eauto]. rewrite Hh. destruct (_ && _); [|by eauto].
    exists (begin_head h). simpl. rewrite lookup_insert_eq.
    destruct (begin_head_fields h) as (_ & _ & -> & _). split_and!; [done|done|].
    destruct (wf_heads _ _ Hw _ _ Hh) as (_ & _ & _ & _ & ?).
    by apply begin_head_epoch_le; [apply Hok|].
Qed.

Definition latest_of (m : MemoryStore) (chain : string) : option Head :=
  v_heads (view m chain) !! Latest.

Lemma run_epoch_le m m' chain h :
  rtc store_step m m' → store_wf m → latest_of m chain = Some h → Family h = "evm" →
  ∃ h', latest_of m' chain = Some h' ∧ Family h' = "evm" ∧ epoch_le h h'.
Proof.
  intros Hrun. revert h. induction Hrun as [|m m1 m' Hstep Hrun IH]; intros h Hw Hh Hev; [by exists h|].
  assert (∃ h1, latest_of m1 chain = Some h1 ∧ Family h1 = "evm" ∧ epoch_le h h1)
    as (h1 & Hh1 & Hev1 & Hle1).
  { destruct Hstep as [op Hok]. unfold latest_of. rewrite exec_refines.
    case_decide as Hc; [|by exists h]. subst chain. by apply exec_view_epoch_le. }
  destruct (IH h1) as (h' & ? & ? & ?); [by eapply store_step_wf|done|done|].
  exists h'. split_and!; [done|done|by etrans].
Qed.

(** The counters of the chain are not exhausted. *)
Definition chain_room (m : MemoryStore) (chain : string) : Prop :=
  (gen_of m chain < two64 - 1)%Z ∧
  ∀ h, latest_of m chain = Some h → (ReorgEpoch h < two64 - 1)%Z.

#[export] Instance MemoryStore_laws : HeadStoreLaws MemoryStore.
Proof using chain_family.
  refine {| st_wf := store_wf; st_latest := latest_of; st_le := rtc store_step; st_room := chain_room;
            st_publishable h := Family h = chain_family (Chain h) ∧ u64_wf (ReorgEpoch h) |}.
  - intros m m'. apply store_run_wf.
  - intros m m' chain h Hw Hle. by apply run_epoch_le.
  - intros chain m sn m' [= <- <-]. by exists m.
  - intros now chain token m h m' Hw H. simpl in H.
    pose proof (BeginReorg_view now chain token m chain) as Hv.
    pose proof (store_step_exec m (OpBeginReorg now chain token)) as Hstep. simpl in Hstep.
    rewrite H in Hv, Hstep. rewrite decide_True in Hv by done. simpl in Hv, Hstep.
    rewrite BeginReorg_eq in H. simpl in H.
    destruct (_ && _) eqn:Hg; [|done]. destruct (heads_of m chain !! Latest) as [cur|] eqn:Hcur; [|done].
    destruct (_ && negb _) eqn:Hf; [|done]. injection H as <- Hm.
    exists m, m', cur. split; [done|]. split; [done|]. intros [_ Hroom]. split_and!; [|done| |].
    + apply rtc_once, Hstep. intros h [= <-]. by apply Hroom.
    + unfold latest_of. rewrite Hv. simpl. by rewrite lookup_insert_eq.
    + unfold begin_head, same_head. destruct (ReorgPending cur) eqn:Hp; [|done].
      clear -Hp. destruct cur. simpl in *. by subst.
  - intros now token h m h' m' Hw Hok Hev Hcm H. simpl in H.
    pose proof (Publish_result now token h m) as Hr. pose proof (Publish_view now token h m (Chain h)) as Hv.
    pose proof (store_step_exec m (OpPublish now token h)) as Hstep. simpl in Hstep.
    rewrite H in Hr, Hv, Hstep. rewrite decide_True in Hv by done. simpl in Hr, Hv, Hstep.
    destruct (owns _ _ _); [|done]. destruct (fence_open _ _) eqn:Hf; [|done].
    injection Hr as Hr. simpl in Hv. unfold accept_view in Hv.
    destruct (accept h (view m (Chain h))) as [x fresh] eqn:Ha. simpl in Hr. subst x.
    pose proof (accept_fields _ _ _ _ Ha) as (F1 & F2 & F3 & F4 & F5 & F6 & F7 & F8).
    unfold fence_open, is_evm_latest in Hf. rewrite Hev, Hcm in Hf. simpl in Hf. bool_to_prop.
    exists m, m'. split; [done|]. intros [Hroom _].
    destruct Hok as [Hfam Hepoch].
    split_and!; [done|by apply rtc_once, Hstep|done| |congruence|done|done|done].
    unfold latest_of. rewrite Hv. simpl. by rewrite Hcm, lookup_insert_eq.
Defined.
End runs.

(** ** Stream reading *)

Lemma after_cursor_split c pre e post :
  ev_ID e = c → (∀ x, x ∈ pre → ev_ID x ≠ c) → after_cursor c (pre ++ e :: post) = Some post.
Proof.
  intros <- Hpre. induction pre as [|x pre IH]; simpl; [by rewrite String.eqb_refl|].
  destruct (String.eqb (ev_ID x) (ev_ID e)) eqn:He.
  - bool_to_prop. exfalso. apply (Hpre x); [left|done].
  - apply IH. intros y Hy. apply Hpre. by right.
Qed.

Lemma event_id_inj g g' : event_id g = event_id g' → g = g'.
Proof.
  unfold event_id. intros H.
  assert (∀ a b : string, a +:+ "-0" = b +:+ "-0" → a = b) as Hinj.
  { clear. induction a as [|c a IH]; intros [|d b]; rewrite ?string_app_cons, ?string_app_nil_l;
      intros H; [done|..].
    - destruct b as [|? [|]]; rewrite ?string_app_cons in H; by injection H.
    - destruct a as [|? [|]]; rewrite ?string_app_cons in H; by injection H.
    - injection H as -> H. by rewrite (IH b). }
  apply Hinj in H. by apply (inj pretty).
Qed.

Lemma stream_wf_before v pre e post :
  stream_wf v → v_events v = pre ++ e :: post → ∀ x, x ∈ pre → ev_ID x ≠ ev_ID e.
Proof.
  intros [Hs Hf] He x Hx Heq. rewrite He in Hs, Hf. rewrite Forall_forall in Hf.
  destruct (Hf x) as [Hix _]; [set_solver|]. destruct (Hf e) as [Hie _]; [set_solver|].
  rewrite Hix, Hie in Heq. apply event_id_inj in Heq.
  assert (event_generation x < event_generation e)%Z; [|lia].
  apply (StronglySorted_app_1_elem_of _ _ _ x e Hs); set_solver.
Qed.

Lemma no_event_zero v e : stream_wf v → e ∈ v_events v → ev_ID e ≠ "0-0".
Proof.
  intros [_ Hf] He Hid. rewrite Forall_forall in Hf. destruct (Hf e He) as [Hi Hg].
  rewrite Hi in Hid. change "0-0" with (event_id 0) in Hid. apply event_id_inj in Hid. lia.
Qed.

Lemma after_cursor_absent c l : (∀ x, x ∈ l → ev_ID x ≠ c) → after_cursor c l = None.
Proof.
  induction l as [|x l IH]; intros H; simpl; [done|].
  destruct (String.eqb _ _) eqn:He; [bool_to_prop; exfalso; by apply (H x); [left|]|].
  apply IH. intros y Hy. apply H. by right.
Qed.

(** The cursor of a reader that has consumed [pre]. *)
Definition cursor_after (pre : list Event) : string :=
  match last pre with Some e => ev_ID e | None => "0-0" end.

Lemma retained_after_prefix v pre post :
  stream_wf v → v_events v = pre ++ post →
  retained_after (cursor_after pre) (v_events v) = Some post.
Proof.
  intros Hs He. unfold retained_after, cursor_after.
  destruct (last pre) as [e|] eqn:Hl.
  - apply last_Some in Hl as [pre' ->]. rewrite <- app_assoc in He. simpl in He.
    rewrite He, (after_cursor_split _ pre' e post); [done|done|].
    by eapply stream_wf_before.
  - apply last_None in Hl as ->. simpl in He. rewrite after_cursor_absent; [by rewrite He|].
    intros x Hx. by eapply no_event_zero.
Qed.

Lemma page_prefix count l :
  (0 < count)%Z → l ≠ [] → ∃ p r, page count l = p ∧ l = p ++ r ∧ p ≠ [].
Proof.
  intros Hc Hl. unfold page. destruct (_ && _).
  - exists (take (Z.to_nat count) l), (drop (Z.to_nat count) l).
    split_and!; [done|by rewrite take_drop|].
    destruct l; [done|]. destruct (Z.to_nat count) eqn:E; [lia|done].
  - exists l, []. by rewrite app_nil_r.
Qed.

(** A reader that asks for the next page until it is up to date; [fuel] pages
    of at least one event each suffice for [fuel] events. *)
Fixpoint drain (fuel : nat) (chain cursor : string) (count : Z) (m : MemoryStore)
    : option (list Event) :=
  match ReadEvents chain cursor count m [TimedOut] with
  | Some (Ok []) => Some []
  | Some (Ok evs) =>
      match fuel with
      | O => None
      | S f => (evs ++.) <$> drain f chain (cursor_after evs) count m
      end
  | _ => None
  end.

Lemma drain_from chain count m :
  (0 < count)%Z → stream_wf (view m chain) →
  ∀ fuel pre post, events_of m chain = pre ++ post → (length post ≤ fuel)%nat →
  drain fuel chain (cursor_after pre) count m = Some post.
Proof.
  intros Hc Hs. induction fuel as [|f IH]; intros pre post He Hf.
  - destruct post; [|simpl in Hf; lia]. simpl.
    pose proof (retained_after_prefix _ pre [] Hs He) as Hr. simpl in Hr. by rewrite Hr.
  - simpl. pose proof (retained_after_prefix _ pre post Hs He) as Hr. simpl in Hr. rewrite Hr.
    destruct post as [|e post]; [done|].
    destruct (page_prefix count (e :: post) Hc ltac:(done)) as (p & r & Hp & Hpr & Hne).
    rewrite Hp. destruct p as [|e' p]; [done|]. rewrite Hpr in He |- *. clear Hp.
    assert (cursor_after (e' :: p) = cursor_after (pre ++ e' :: p)) as ->.
    { unfold cursor_after. rewrite last_app. destruct (last (e' :: p)) eqn:E; [done|].
      by apply last_None in E. }
    rewrite (IH (pre ++ e' :: p) r); [done|by rewrite He, <- app_assoc|].
    rewrite Hpr in Hf. rewrite length_app in Hf. simpl in Hf. lia.
Qed.

(** ** Properties *)

(** C8: every store operation acts on the state of the chain it names as the
    per-chain specification does, whatever the other chains hold, and changes
    no other chain; a publication answers with leadership lost, fence changed,
    or the stored head, exactly as the specification decides. *)
Theorem store_refines_views op m c :
  view (exec op m) c = (if decide (op_chain op = c) then exec_view op (view m c) else view m c) ∧
  (∀ now token h, op = OpPublish now token h →
    (Publish now token h m).1 =
    (if owns now token (view m (Chain h)) then
       if fence_open h (view m (Chain h)) then Ok (accept h (view m (Chain h))).1
       else Err ErrReorgFence
     else Err ErrLeadershipLost)).
Proof. split; [apply exec_refines|]. intros now token h _. apply Publish_result. Qed.

Definition demo_hash : string :=
  "0xaaaaaaaaaaaaaaaaaaaaaaaaaaaaaaaaaaaaaaaaaaaaaaaaaaaaaaaaaaaaaaaa".

Definition demo_head : Head :=
  mkHead "eth" "evm" Latest 100 demo_hash demo_hash 0 0 false 10 0 "u1" "{}".

Example store_refines_views_witness :
  (Publish 5 "leader:1" demo_head NewMemoryStore).1 = Err ErrLeadershipLost.
Proof.
  refine (eq_trans (proj2 (store_refines_views (OpPublish 5 "leader:1" demo_head)
    NewMemoryStore "eth") 5%Z "leader:1" demo_head eq_refl) _).
  vm_compute. reflexivity.
Defined.

(** A store with one accepted head, reached by an election and a publication. *)
Definition demo_store : MemoryStore :=
  exec (OpPublish 6 "a:1" demo_head) (exec (OpAcquire 5 "eth" "a" 100) NewMemoryStore).

Lemma demo_store_run : rtc (store_step (λ _, "evm")) NewMemoryStore demo_store.
Proof.
  eapply rtc_l; [apply (store_step_exec _ _ (OpAcquire 5 "eth" "a" 100))|].
  { vm_compute. reflexivity. }
  apply rtc_once. apply (store_step_exec _ _ (OpPublish 6 "a:1" demo_head)).
  split_and!; [vm_compute; reflexivity|reflexivity|split; [discriminate|reflexivity]].
Defined.

(** In every run from the empty store, each chain's stream is numbered by
    strictly increasing generations that name its cursors, no stored head or
    event outruns the generation counter, and the stream of an EVM chain ends
    with its accepted latest head. *)
Lemma store_run_invariant family m chain :
  rtc (store_step family) NewMemoryStore m →
  stream_wf (view m chain) ∧ heads_wf family chain (view m chain) ∧ tip_wf (view m chain).
Proof.
  intros Hrun. destruct (store_run_wf _ _ _ Hrun (NewMemoryStore_wf family) chain). done.
Qed.

Example store_run_invariant_witness :
  tip_wf (view demo_store "eth") ∧ latest_of demo_store "eth" ≠ None.
Proof.
  split; [|vm_compute; discriminate].
  apply (store_run_invariant (λ _, "evm") demo_store "eth" demo_store_run).
Defined.

(** Leadership tokens fence.  Once a chain has been acquired again, no
    operation with the earlier token is ever accepted in any later state: a
    renewal fails, a publication and a reorg start report lost leadership, and
    the store is unchanged. *)
Lemma fencing_tokens family chain now0 owner0 ttl0 now1 owner1 ttl1 m0 m1 m2 m3 m4 t0 t1 :
  store_wf family m0 →
  Acquire now0 chain owner0 ttl0 m0 = (Ok (t0, true), m1) → (gen_of m0 chain < two64 - 1)%Z →
  rtc (store_step family) m1 m2 →
  Acquire now1 chain owner1 ttl1 m2 = (Ok (t1, true), m3) → (gen_of m2 chain < two64 - 1)%Z →
  rtc (store_step family) m3 m4 →
  ∀ now, (∀ ttl, Renew now chain t0 ttl m4 = (Ok false, m4)) ∧
         BeginReorg now chain t0 m4 = (Err ErrLeadershipLost, m4) ∧
         (∀ h, Chain h = chain → Publish now t0 h m4 = (Err ErrLeadershipLost, m4)).
Proof.
  intros Hw0 H0 Hr0 Hrun1 H1 Hr1 Hrun2 now.
  assert (∀ m, store_wf family m → (gen_of m chain < two64 - 1)%Z → ∀ n o l,
            store_wf family (Acquire n chain o l m).2) as Hacq.
  { intros m Hw Hr n o l. change (store_wf family (exec (OpAcquire n chain o l) m)).
    eapply store_step_wf; [by constructor|done]. }
  pose proof (Hacq m0 Hw0 Hr0 now0 owner0 ttl0) as Hw1. rewrite H0 in Hw1. simpl in Hw1.
  pose proof (store_run_wf _ _ _ Hrun1 Hw1) as Hw2.
  pose proof (Hacq m2 Hw2 Hr1 now1 owner1 ttl1) as Hw3. rewrite H1 in Hw3. simpl in Hw3.
  destruct (acquire_token _ _ _ _ _ _ _ H0) as (Ht0 & _ & Hg1).
  destruct (acquire_token _ _ _ _ _ _ _ H1) as (Ht1 & Hl3 & Hg3).
  pose proof (wf_gen _ _ _ (Hw0 chain)) as Hu0. pose proof (wf_gen _ _ _ (Hw2 chain)) as Hu2.
  simpl in Hu0, Hu2. rewrite u64_add_small in Ht0, Hg1, Ht1, Hg3 by u64_lia.
  pose proof (run_gen_le _ chain _ _ Hrun1 Hw1) as Hle. simpl in Hle, Hg1, Hg3.
  assert (issued_above (gen_of m2 chain) (view m3 chain)) as Hiss.
  { split; [simpl; lia|right]. exists owner1, (gen_of m2 chain + 1)%Z.
    rewrite Hl3. simpl. split; [done|lia]. }
  pose proof (run_issued_above _ _ _ _ _ Hrun2 Hw3 Hiss) as Hiss4.
  pose proof (stale_token_refused _ owner0 (gen_of m0 chain + 1) _ Hiss4 ltac:(u64_lia)) as Hne.
  rewrite <- Ht0 in Hne. apply String.eqb_neq in Hne. simpl in Hne.
  split_and!.
  - intros ttl. unfold Renew. by rewrite Hne.
  - unfold BeginReorg. by rewrite Hne.
  - intros h <-. unfold Publish. by rewrite Hne.
Qed.

Example fencing_tokens_witness :
  let m1 := exec (OpAcquire 5 "eth" "a" 10) NewMemoryStore in
  let m3 := exec (OpAcquire 20 "eth" "b" 10) m1 in
  Publish 21 "a:1" demo_head m3 = (Err ErrLeadershipLost, m3).
Proof.
  intros m1 m3.
  apply (fencing_tokens (λ _, "evm") "eth" 5 "a" 10 20 "b" 10 NewMemoryStore m1 m1 m3 m3 "a:1" "b:2").
  - apply NewMemoryStore_wf.
  - vm_compute. reflexivity.
  - vm_compute. reflexivity.
  - reflexivity.
  - vm_compute. reflexivity.
  - vm_compute. reflexivity.
  - reflexivity.
  - reflexivity.
Defined.

(** C4: along any run the accepted latest head of an EVM chain never
    disappears, its reorg epoch and generation never decrease, and it cannot
    become pending without its epoch having grown. *)
Theorem accepted_epoch_monotone family m m' chain h :
  store_wf family m → rtc (store_step family) m m' →
  latest_of m chain = Some h → Family h = "evm" →
  ∃ h', latest_of m' chain = Some h' ∧ epoch_le h h'.
Proof.
  intros Hw Hrun Hh Hev. destruct (run_epoch_le _ _ _ _ _ Hrun Hw Hh Hev) as (h' & ? & _ & ?).
  by exists h'.
Qed.

Lemma demo_reorg_step :
  rtc (store_step (λ _, "evm")) demo_store (exec (OpBeginReorg 7 "eth" "a:1") demo_store).
Proof.
  apply rtc_once. constructor. intros h Hh. vm_compute in Hh. injection Hh as <-.
  vm_compute. reflexivity.
Defined.

Example accepted_epoch_monotone_witness :
  ∃ h', latest_of (exec (OpBeginReorg 7 "eth" "a:1") demo_store) "eth" = Some h' ∧
        epoch_le (with_Generation 2 (with_ChangedAt 10 demo_head)) h'.
Proof.
  apply (accepted_epoch_monotone (λ _, "evm") demo_store _ "eth").
  - apply (store_run_wf _ _ _ demo_store_run), NewMemoryStore_wf.
  - apply demo_reorg_step.
  - vm_compute. reflexivity.
  - reflexivity.
Defined.

(** A reader that pages through a chain's stream, asking each time for the
    events after the last one it received, receives in any reachable store
    every retained event exactly once and in order, for any positive page
    size, within one page per event; a cursor that is not in the stream is
    answered with a gap. *)
Lemma stream_drains family m chain count :
  rtc (store_step family) NewMemoryStore m → (0 < count)%Z →
  drain (length (events_of m chain)) chain "0-0" count m = Some (events_of m chain) ∧
  ∀ cursor, cursor ≠ "0-0" → (∀ e, e ∈ events_of m chain → ev_ID e ≠ cursor) →
    ∀ ws, ReadEvents chain cursor count m ws = Some (Err ErrStreamGap).
Proof.
  intros Hrun Hc.
  pose proof (wf_stream _ _ _ (store_run_wf _ _ _ Hrun (NewMemoryStore_wf family) chain)) as Hs.
  split.
  - by apply (drain_from chain count m Hc Hs _ []).
  - intros cursor Hz Hno ws. destruct ws; simpl; unfold retained_after;
      rewrite after_cursor_absent by done; by apply String.eqb_neq in Hz as ->.
Qed.

Example stream_drains_witness :
  drain 1 "eth" "0-0" 64 demo_store = Some (events_of demo_store "eth") ∧
  length (events_of demo_store "eth") = 1%nat.
Proof.
  split; [|vm_compute; reflexivity].
  apply (stream_drains (λ _, "evm") demo_store "eth" 64 demo_store_run). reflexivity.
Defined.
