(* ===== verification/World.v ===== *)
(** * Errors, contexts and the outside world

    What every effectful component shares: Go error values with their wrapping,
    [context.Context], and the class of worlds the network and the scheduler
    live in.  A world [W] is threaded through every call; an operation that can
    block returns the world after it, in which other goroutines may have run. *)

From S2P Require Import Prelude GoStrings GoJson JsonRpc Head.
From Stdlib Require Import Ascii.

#[local] Set Warnings "-register-all".

(** ** Error values *)

Inductive goerror :=
| ErrNew (message : string)
| ErrCanceled
| ErrDeadlineExceeded
| ErrRPC (e : Error)
| ErrStore (e : store_error)
| Errorf (before : string) (e : goerror) (after : string)
| Errorf2 (before : string) (e1 : goerror) (between : string) (e2 : goerror)
| ErrJoin (es : list goerror).

(** The [Error] method of [*jsonrpc.Error]. *)
(* go: jsonrpc/jsonrpc.go:48-49 Error.Error *)
Definition Error_Error (e : Error) : string :=
  "json-rpc error " +:+ pretty (Code e) +:+ ": " +:+ Message e.

Definition store_error_text (e : store_error) : string :=
  match e with
  | ErrLeadershipLost => "head coordinator leadership lost"
  | ErrStreamGap => "accepted head stream checkpoint is no longer retained"
  | ErrReorgFence => "accepted head reorg fence changed"
  | StoreFailure m => m
  end.

Fixpoint error_text (e : goerror) : string :=
  match e with
  | ErrNew m => m
  | ErrCanceled => "context canceled"
  | ErrDeadlineExceeded => "context deadline exceeded"
  | ErrRPC e => Error_Error e
  | ErrStore e => store_error_text e
  | Errorf b e a => b +:+ error_text e +:+ a
  | Errorf2 b e1 m e2 => b +:+ error_text e1 +:+ m +:+ error_text e2
  | ErrJoin es => Join (error_text <$> es) (String (ascii_of_N 10) "")
  end.

(** [errors.Is]: the target is one of the leaves of the wrapping tree.
    Sentinels made with [errors.New] are told apart by their texts. *)
Definition same_error (target e : goerror) : bool :=
  match target, e with
  | ErrNew m, ErrNew m' => String.eqb m m'
  | ErrCanceled, ErrCanceled => true
  | ErrDeadlineExceeded, ErrDeadlineExceeded => true
  | ErrStore s, ErrStore s' => bool_decide (s = s')
  | _, _ => false
  end.

Fixpoint errors_Is (target e : goerror) : bool :=
  match e with
  | Errorf _ e _ => errors_Is target e
  | Errorf2 _ e1 _ e2 => errors_Is target e1 || errors_Is target e2
  | ErrJoin es => existsb (errors_Is target) es
  | e => same_error target e
  end.

(** [errors.As] into a [*jsonrpc.Error]: the first one, depth first. *)
Fixpoint errors_As_rpc (e : goerror) : option Error :=
  match e with
  | ErrRPC r => Some r
  | Errorf _ e _ => errors_As_rpc e
  | Errorf2 _ e1 _ e2 =>
      match errors_As_rpc e1 with Some r => Some r | None => errors_As_rpc e2 end
  | ErrJoin es =>
      foldr (λ e acc, match errors_As_rpc e with Some r => Some r | None => acc end) None es
  | _ => None
  end.

(** ** Contexts

    A deadline and the cancellation signal of the request it descends from. *)

Record Context := mkContext { ctx_deadline : option Z; ctx_signal : option nat }.

Definition Background : Context := mkContext None None.

Definition WithDeadline (ctx : Context) (deadline : Z) : Context :=
  mkContext (Some (match ctx_deadline ctx with Some d => Z.min d deadline | None => deadline end))
    (ctx_signal ctx).

Definition WithoutCancel (ctx : Context) : Context := Background.

(** ** The world *)

Record HttpRequest := mkHttpRequest {
  hr_URL : string;
  hr_Headers : list (string * string);
  hr_Body : string
}.

(** The body is what can be read of it, and the error that ends the stream. *)
Record HttpResponse := mkHttpResponse {
  hr_StatusCode : Z;
  hr_Content : string;
  hr_ReadError : option goerror
}.

(** [http_NewRequest] tells whether a request can be made for a URL, [http_Do] is
    the exchange; [sem_acquire] the wait for a slot of the client's
    semaphore or the end of the context; [select_done] tells a goroutine that
    waited for a result whether its context ended first; [sleep] is the wait
    for a timer or the end of the context.  [fmt_float] is how [fmt] prints the
    float64 of a JSON literal; [format_time] and [parse_time] are the RFC 3339
    text of an instant. *)
Class World (W : Type) := {
  now : W → Z;
  canceled : nat → W → bool;
  http_NewRequest : string → bool;
  http_Do : HttpRequest → Context → W → result goerror HttpResponse * W;
  sem_acquire : string * string → Context → W → result goerror unit * W;
  sem_release : string * string → W → W;
  select_done : Context → W → option goerror;
  sleep : Z → Context → W → option goerror * W;
  fmt_float : string → string;
  format_time : Z → string;
  parse_time : string → option Z
}.

Definition WithTimeout `{World W} (ctx : Context) (timeout : Z) (w : W) : Context :=
  WithDeadline ctx (now w + timeout).

(** [ctx.Err()] *)
Definition ctx_Err `{World W} (ctx : Context) (w : W) : option goerror :=
  if match ctx_signal ctx with Some t => canceled t w | None => false end then Some ErrCanceled
  else if match ctx_deadline ctx with Some d => (d <=? now w)%Z | None => false end
  then Some ErrDeadlineExceeded
  else None.

(** ** Shared calls

    [singleflight.Group] (golang.org/x/sync) runs one function per key at a time
    and hands its result to every caller that asked meanwhile.  [flight group key
    f] blocks until a result is there; the boolean is its [Shared]. *)
Class SingleFlight (W : Type) := {
  flight : ∀ A : Type, string → string → (W → A * W) → W → A * bool * W
}.

Arguments flight {W _} A group key f w.

(** What the group documents: a result is the caller's own, or one of another
    caller's function for the same key and then it is marked shared.
    [flight_others] is what those functions may return. *)
Class SingleFlightLaws (W : Type) `{SingleFlight W} := {
  flight_others : ∀ A : Type, string → string → A → Prop;
  flight_spec : ∀ A group key f w r shared w',
    flight A group key f w = (r, shared, w') →
    (∃ w1 w2, f w1 = (r, w2)) ∨ (shared = true ∧ flight_others A group key r)
}.

(** ** Decoding into [any], and printing it *)

Fixpoint Unmarshal_any (fuel : nat) (fmt : string → string) (t : RawMessage) : any :=
  match fuel, decode t with
  | S f, Some (JBool b) => ABool b
  | S f, Some (JString s) => AStr s
  | S f, Some (JNumber l) => ANum (fmt l)
  | S f, Some (JArray l) => AList (Unmarshal_any f fmt <$> l)
  | S f, Some (JObject l) => AMap (prod_map id (Unmarshal_any f fmt) <$> l)
  | _, _ => ANil
  end.

(** Members in the order [fmt] prints a map: sorted, the last of equal keys. *)
Definition map_order {A} (l : list (string * A)) : list (string * A) :=
  merge_sort (λ a b, String.le a.1 b.1)
    (map_to_list (fold_left (λ m '(k, v), <[k := v]> m) l (∅ : gmap string A))).

(** [fmt.Sprint] *)
Fixpoint Sprint (a : any) : string :=
  match a with
  | ANil => "<nil>"
  | AStr s => s
  | ABool b => if b then "true" else "false"
  | ANum t => t
  | AList l => "[" +:+ Join (Sprint <$> l) " " +:+ "]"
  | AMap l =>
      "map[" +:+ Join ((λ kv, kv.1 +:+ ":" +:+ kv.2)
                        <$> map_order ((λ kv, (kv.1, Sprint kv.2)) <$> l)) " " +:+ "]"
  end.

(** ** Heads as JSON *)

Section head_json.
  Context {W : Type} `{World W}.

Definition json_member (name : string) (value : RawMessage) : string :=
    Marshal_string name +:+ ":" +:+ value.

Definition unless (b : bool) (l : list string) : list string := if b then [] else l.

  (** Encoding fails only on an invalid embedded header. *)
Definition Marshal_Head (h : Head) : option RawMessage :=
    header ← Marshal_raw (Header h);
    Some (wrap_json "{" "}" (Join (
      [ json_member "chain" (Marshal_string (Chain h));
        json_member "family" (Marshal_string (Family h));
        json_member "commitment" (Marshal_string (Commitment h));
        json_member "number" (pretty (Number h)) ]
      ++ unless (String.eqb (Hash h) "") [json_member "hash" (Marshal_string (Hash h))]
      ++ unless (String.eqb (ParentHash h) "")
           [json_member "parent_hash" (Marshal_string (ParentHash h))]
      ++ [ json_member "generation" (pretty (Generation h));
           json_member "reorg_epoch" (pretty (ReorgEpoch h));
           json_member "reorg_pending" (Marshal_bool (ReorgPending h));
           json_member "observed_at" (Marshal_string (format_time (ObservedAt h)));
           json_member "changed_at" (Marshal_string (format_time (ChangedAt h)));
           json_member "origin" (Marshal_string (Origin h)) ]
      ++ unless (String.eqb (Header h) "") [json_member "header" header]) ",")).

Definition Unmarshal_time (cur : Z) (t : RawMessage) : option Z :=
    match decode t with
    | Some JNull => Some cur
    | Some (JString s) => parse_time s
    | _ => None
    end.

(** Into an existing head: a field the text does not have keeps its value. *)
Definition Unmarshal_Head_into (h : Head) (t : RawMessage) : option Head :=
    ms ← Unmarshal_struct t;
    chain ← field Unmarshal_string (Chain h) "chain" ms;
    family ← field Unmarshal_string (Family h) "family" ms;
    commitment ← field Unmarshal_string (Commitment h) "commitment" ms;
    number ← field Unmarshal_uint64 (Number h) "number" ms;
    hash ← field Unmarshal_string (Hash h) "hash" ms;
    parent ← field Unmarshal_string (ParentHash h) "parent_hash" ms;
    generation ← field Unmarshal_uint64 (Generation h) "generation" ms;
    epoch ← field Unmarshal_uint64 (ReorgEpoch h) "reorg_epoch" ms;
    pending ← field Unmarshal_bool (ReorgPending h) "reorg_pending" ms;
    observed ← field Unmarshal_time (ObservedAt h) "observed_at" ms;
    changed ← field Unmarshal_time (ChangedAt h) "changed_at" ms;
    origin ← field Unmarshal_string (Origin h) "origin" ms;
    header ← field Unmarshal_raw (Header h) "header" ms;
    Some (mkHead chain family commitment number hash parent generation epoch pending observed
            changed origin header).

Definition Unmarshal_Head : RawMessage → option Head := Unmarshal_Head_into zero_Head.
End head_json.

(** ** A scripted world

    For concrete runs: a clock, a reply to each HTTP request, and the mutable
    state of the components.  Only timers take time. *)

Record Sim (S : Type) := mkSim {
  sim_now : Z;
  sim_reply : HttpRequest → result goerror HttpResponse;
  sim_state : S
}.

Arguments mkSim {S} _ _ _.
Arguments sim_now {S} _.
Arguments sim_reply {S} _ _.
Arguments sim_state {S} _.

Definition with_sim_state {S} (st : S) (w : Sim S) : Sim S := mkSim (sim_now w) (sim_reply w) st.

(** The signals given so far: none, unless the state records them. *)
Class Signals (S : Type) := { signaled : nat → S → bool }.

#[export] Instance no_signals S : Signals S | 100 := {| signaled _ _ := false |}.

#[export] Instance sim_world (S : Type) `{Signals S} : World (Sim S) := {
  now w := sim_now w;
  canceled signal w := signaled signal (sim_state w);
  http_NewRequest _ := true;
  http_Do req _ w := (sim_reply w req, w);
  sem_acquire _ _ w := (Ok tt, w);
  sem_release _ w := w;
  select_done _ _ := None;
  sleep d ctx w :=
    if match ctx_deadline ctx with Some t => (t <=? sim_now w)%Z | None => false end
    then (Some ErrDeadlineExceeded, w)
    else (None, mkSim (sim_now w + Z.max d 0) (sim_reply w) (sim_state w));
  fmt_float l := l;
  format_time t := pretty t;
  parse_time s := ParseUint 10 s
}.

#[export] Instance sim_flight (S : Type) : SingleFlight (Sim S) := {
  flight A group key f w := let* (r, w') := f w in (r, false, w')
}.

#[export] Program Instance sim_flight_laws (S : Type) : SingleFlightLaws (Sim S) := {
  flight_others A group key r := False
}.
Next Obligation.
  intros S A group key f w r shared w'. simpl. destruct (f w) as [r1 w1] eqn:Hf.
  intros [= -> <- ->]. left. eauto.
Qed.
