(* ===== verification/HeadJson.v ===== *)
(** * Heads as JSON texts

    A head is written to the shared store, and an ancestor header to the response
    cache, as the JSON of [World.Marshal_Head], and read back by [Unmarshal_Head].  The
    lemmas follow a text through the scanner and the splitting of [GoJson] one piece
    at a time: every piece is stated with what follows it, so that pieces compose. *)

From S2P Require Import Prelude GoStrings GoJson Evm JsonRpc Head World.
From Stdlib Require Import Ascii.

(** ** The scanner on concatenations *)

Lemma run_app s a b : run s (a +:+ b) = match run s a with Some s' => run s' b | None => None end.
Proof.
  revert s. induction a as [|c a IH]; intros s; [done|]. rewrite string_app_cons. simpl.
  destruct (step s c); [apply IH|done].
Qed.

Lemma run_trans s a s' b s'' : run s a = Some s' → run s' b = Some s'' → run s (a +:+ b) = Some s''.
Proof. rewrite run_app. by intros ->. Qed.

(** A byte a string literal carries as it is, between the scanner and [unquote]. *)
Definition plain_char (c : ascii) : bool :=
  negb (is_char 34 c) && negb (is_char 92 c) && negb (byte_val c <? 32)%N.

Fixpoint all_plain (s : string) : Prop :=
  match s with EmptyString => True | String c r => plain_char c = true ∧ all_plain r end.

Lemma run_plain st c t : plain_char c = true → run (mk_scanner SInString st) (String c t) = run (mk_scanner SInString st) t.
Proof.
  unfold plain_char. rewrite !andb_true_iff, !negb_true_iff. intros [[Hq Hb] Hc].
  cbn [run]. unfold step. cbn [sc_state sc_stack]. by rewrite Hq, Hb, Hc.
Qed.

Lemma high_plain c : (byte_val c <? 128)%N = false → plain_char c = true.
Proof.
  unfold plain_char, is_char. intros H%N.ltb_ge.
  rewrite !andb_true_iff, !negb_true_iff, !N.eqb_neq, N.ltb_ge. lia.
Qed.

Lemma run_quote_byte st c t : run (mk_scanner SInString st) (quote_byte c +:+ t) = run (mk_scanner SInString st) t.
Proof. destruct c as [[] [] [] [] [] [] [] []]; reflexivity. Qed.

(** ** Valid UTF-8 *)

Fixpoint valid_utf8 (s : string) : bool :=
  match s with
  | EmptyString => true
  | String c r =>
      if (byte_val c <? 128)%N then valid_utf8 r
      else
        match r with
        | EmptyString => false
        | String b r2 =>
            if utf8_2 c b then valid_utf8 r2 else
            match r2 with
            | EmptyString => false
            | String d r3 =>
                if utf8_3 c b d then valid_utf8 r3 else
                match r3 with
                | EmptyString => false
                | String e r4 => utf8_4 c b d e && valid_utf8 r4
                end
            end
        end
  end.

(** Runes, one at a time. *)
Inductive rune : string → Prop :=
| rune_1 c : (byte_val c <? 128)%N = true → rune (String c "")
| rune_2 c b : (byte_val c <? 128)%N = false → utf8_2 c b = true → rune (String c (String b ""))
| rune_3 c b d : (byte_val c <? 128)%N = false → utf8_2 c b = false → utf8_3 c b d = true →
    rune (String c (String b (String d "")))
| rune_4 c b d e : (byte_val c <? 128)%N = false → utf8_2 c b = false → utf8_3 c b d = false →
    utf8_4 c b d e = true → rune (String c (String b (String d (String e "")))).

Lemma valid_utf8_ind (P : string → Prop) :
  P "" → (∀ u s, rune u → valid_utf8 s = true → P s → P (u +:+ s)) → ∀ s, valid_utf8 s = true → P s.
Proof.
  intros H0 Hs s. remember (String.length s) as n eqn:Hn. revert s Hn.
  induction (Nat.lt_wf_0 n) as [n _ IH]. intros s -> Hv. destruct s as [|c r]; [done|]. simpl in Hv, IH.
  destruct (byte_val c <? 128)%N eqn:Hc.
  { apply (Hs (String c "") r); [by constructor|done|]. eapply IH; [|done..]. lia. }
  destruct r as [|b r2]; [done|]. destruct (utf8_2 c b) eqn:H2.
  { apply (Hs (String c (String b "")) r2); [by constructor|done|]. eapply IH; [|done..]. simpl. lia. }
  destruct r2 as [|d r3]; [done|]. destruct (utf8_3 c b d) eqn:H3.
  { apply (Hs (String c (String b (String d ""))) r3); [by constructor|done|]. eapply IH; [|done..]. simpl. lia. }
  destruct r3 as [|e r4]; [done|]. apply andb_true_iff in Hv as [H4 Hv].
  apply (Hs (String c (String b (String d (String e "")))) r4); [by constructor|done|].
  eapply IH; [|done..]. simpl. lia.
Qed.

Lemma cont_high b : cont_byte b = true → (byte_val b <? 128)%N = false.
Proof. unfold cont_byte, in_range. intros [H _]%andb_true_iff. apply N.leb_le in H. apply N.ltb_ge. lia. Qed.

(** ** One rune, quoted *)

(** The text [q] of a literal is passed over by the scanner and by the splitting,
    and decodes to [u]. *)
Record quoted_as (q u : string) : Prop := mkQuotedAs {
  qa_run st t : run (mk_scanner SInString st) (q +:+ t) = run (mk_scanner SInString st) t;
  qa_unquote t : unquote (q +:+ t) = u +:+ unquote t;
  qa_split sep d cur t :
    split_top sep d true false cur (q +:+ t) = split_top sep d true false (String.rev_app q cur) t
}.

Lemma split_plain sep d cur c t : plain_char c = true →
  split_top sep d true false cur (String c t) = split_top sep d true false (String c cur) t.
Proof.
  unfold plain_char. rewrite !andb_true_iff, !negb_true_iff. intros [[Hq Hb] _].
  cbn [split_top]. by rewrite Hb, Hq.
Qed.

Lemma quoted_byte c : (byte_val c <? 128)%N = true → quoted_as (quote_byte c) (String c "").
Proof.
  intros Hc. split.
  - intros st t. apply run_quote_byte.
  - intros t. by destruct c as [[] [] [] [] [] [] [] []].
  - intros sep d cur t. by destruct c as [[] [] [] [] [] [] [] []].
Qed.

Lemma quoted_plain u : all_plain u → (∀ t, unquote (u +:+ t) = u +:+ unquote t) → quoted_as u u.
Proof.
  intros Hp Hu. split; [|done|].
  - intros st t. clear Hu. induction u as [|c u IH]; [done|]. destruct Hp as [Hc Hp].
    rewrite string_app_cons, run_plain by done. by apply IH.
  - intros sep d cur t. clear Hu. revert cur. induction u as [|c u IH]; intros cur; [done|].
    destruct Hp as [Hc Hp]. rewrite string_app_cons, split_plain by done. by apply IH.
Qed.

Lemma utf8_2_bytes c b : utf8_2 c b = true → (byte_val b <? 128)%N = false.
Proof. unfold utf8_2. intros [_ H]%andb_true_iff. by apply cont_high. Qed.

Lemma range_high lo hi b : (128 <= lo)%N → in_range lo hi b = true → (byte_val b <? 128)%N = false.
Proof. unfold in_range. intros Hlo [H _]%andb_true_iff. apply N.leb_le in H. apply N.ltb_ge. lia. Qed.

Lemma utf8_3_bytes c b d : utf8_3 c b d = true → (byte_val b <? 128)%N = false ∧ (byte_val d <? 128)%N = false.
Proof.
  unfold utf8_3. intros [Hd Hb]%andb_true_iff. split; [|by apply cont_high].
  rewrite !orb_true_iff, !andb_true_iff in Hb.
  destruct Hb as [[[[_ Hb]|[_ Hb]]|[_ Hb]]|[_ Hb]];
    first [by apply cont_high|eapply range_high; [|exact Hb]; lia].
Qed.

Lemma utf8_4_bytes c b d e : utf8_4 c b d e = true →
  (byte_val b <? 128)%N = false ∧ (byte_val d <? 128)%N = false ∧ (byte_val e <? 128)%N = false.
Proof.
  unfold utf8_4. intros [[Hd He]%andb_true_iff Hb]%andb_true_iff. split; [|split; by apply cont_high].
  rewrite !orb_true_iff, !andb_true_iff in Hb.
  destruct Hb as [[[_ Hb]|[_ Hb]]|[_ Hb]];
    first [by apply cont_high|eapply range_high; [|exact Hb]; lia].
Qed.

Lemma is_char_eq n c : is_char n c = true → c = ascii_of_N n.
Proof. unfold is_char, byte_val. intros H%N.eqb_eq. by rewrite <- H, ascii_N_embedding. Qed.

Lemma quoted_separator c b d : line_separator c b d = true →
  quoted_as (quote_separator d) (String c (String b (String d ""))).
Proof.
  unfold line_separator. intros [[->%is_char_eq ->%is_char_eq]%andb_true_iff Hd]%andb_true_iff.
  apply orb_true_iff in Hd as [->%is_char_eq| ->%is_char_eq]; by split.
Qed.

Lemma high_not_backslash c : (byte_val c <? 128)%N = false → is_char 92 c = false.
Proof. unfold is_char. intros H%N.ltb_ge. apply N.eqb_neq. lia. Qed.

(** Quoting goes rune by rune. *)
Lemma quote_rune u : rune u → ∃ q, quoted_as q u ∧ ∀ s, quote_body (u +:+ s) = q +:+ quote_body s.
Proof.
  intros Hu. destruct Hu as [c Hc|c b Hc H2|c b d Hc H2 H3|c b d e Hc H2 H3 H4].
  - exists (quote_byte c). split; [by apply quoted_byte|]. intros s. simpl. by rewrite Hc.
  - exists (String c (String b "")). split; [|intros s; simpl; by rewrite Hc, H2].
    pose proof (utf8_2_bytes _ _ H2). apply quoted_plain; [repeat split; by apply high_plain|].
    intros t. simpl. by rewrite (high_not_backslash _ Hc), Hc, H2.
  - pose proof (utf8_3_bytes _ _ _ H3) as [Hb Hd]. destruct (line_separator c b d) eqn:Hl.
    + exists (quote_separator d). split; [by apply quoted_separator|]. intros s. simpl. by rewrite Hc, H2, Hl.
    + exists (String c (String b (String d ""))). split; [|intros s; simpl; by rewrite Hc, H2, Hl, H3].
      apply quoted_plain; [repeat split; by apply high_plain|].
      intros t. simpl. by rewrite (high_not_backslash _ Hc), Hc, H2, H3.
  - pose proof (utf8_4_bytes _ _ _ _ H4) as (Hb & Hd & He). exists (String c (String b (String d (String e "")))).
    split.
    + apply quoted_plain; [repeat split; by apply high_plain|].
      intros t. simpl. by rewrite (high_not_backslash _ Hc), Hc, H2, H3, H4.
    + assert (line_separator c b d = false) as Hl.
      { apply not_true_is_false. intros Hl. unfold line_separator in Hl.
        apply andb_true_iff in Hl as [[->%is_char_eq ->%is_char_eq]%andb_true_iff Hd']. 
        apply orb_true_iff in Hd' as [->%is_char_eq| ->%is_char_eq]; done. }
      intros s. simpl. by rewrite Hc, H2, Hl, H3, H4.
Qed.

Lemma quoted_app q u q' u' : quoted_as q u → quoted_as q' u' → quoted_as (q +:+ q') (u +:+ u').
Proof.
  intros [R1 U1 S1] [R2 U2 S2]. split.
  - intros st t. by rewrite string_app_assoc, R1, R2.
  - intros t. by rewrite string_app_assoc, U1, U2, string_app_assoc.
  - intros sep d cur t. rewrite string_app_assoc, S1, S2. f_equal.
    clear. revert cur. induction q as [|c q IH]; intros cur; [done|]. rewrite string_app_cons. simpl. apply IH.
Qed.

(** The body of a literal stands for the text it was made from. *)
Lemma quoted_body s : valid_utf8 s = true → quoted_as (quote_body s) s.
Proof.
  revert s. apply valid_utf8_ind; [by split|]. intros u s Hu _ IH.
  destruct (quote_rune u Hu) as (q & Hq & ->). by apply quoted_app.
Qed.

(** ** Numbers *)

Fixpoint all_digits (s : string) : bool :=
  match s with EmptyString => true | String c r => is_digit c && all_digits r end.

(** A decimal numeral without a leading zero. *)
Record numeral (n : N) (w : string) : Prop := mkNumeral {
  nm_first : ∃ c r, w = String c r ∧ in_range 49 57 c = true ∧ all_digits r = true;
  nm_value : parse_digits 10 w 0 = Some (Z.of_N n)
}.

Lemma digit_char (d : N) : (d < 10)%N →
  is_digit (pretty_N_char d) = true ∧ digit_val (pretty_N_char d) = Some (Z.of_N d) ∧
  (d ≠ 0%N → in_range 49 57 (pretty_N_char d) = true).
Proof.
  intros Hd. assert (d = 0 ∨ d = 1 ∨ d = 2 ∨ d = 3 ∨ d = 4 ∨ d = 5 ∨ d = 6 ∨ d = 7 ∨ d = 8 ∨ d = 9)%N as Hd' by lia.
  by destruct_or! Hd'; subst.
Qed.

Lemma all_digits_app a b : all_digits (a +:+ b) = all_digits a && all_digits b.
Proof. induction a as [|c a IH]; [done|]. rewrite string_app_cons. simpl. by rewrite IH, andb_assoc. Qed.

Lemma pretty_go_numeral n : (0 < n)%N → ∃ w, numeral n w ∧ ∀ s, pretty_N_go n s = w +:+ s.
Proof.
  induction (N.lt_wf_0 n) as [n _ IH]. intros Hn.
  destruct (digit_char (n `mod` 10)) as (Hdig & Hval & Hnz); [apply N.mod_lt; lia|].
  pose proof (N.div_mod n 10 ltac:(lia)) as Hdiv. pose proof (N.mod_lt n 10 ltac:(lia)) as Hlt.
  destruct (decide (n / 10 = 0)%N) as [Hz|Hz].
  - exists (String (pretty_N_char (n `mod` 10)) ""). split.
    + split; [eexists _, _; split; [done|]; split; [apply Hnz; lia|done]|].
      simpl. rewrite Hval. assert (n `mod` 10 = n)%N as Hm by lia. rewrite Hm in *. rewrite (proj2 (Z.ltb_lt _ _)); [f_equal; lia|lia].
    + intros s. rewrite pretty_N_go_step by done. by rewrite Hz.
  - destruct (IH (n / 10)%N) as (w & [(c & r & -> & Hc & Hr) Hw] & Hgo); [apply N.div_lt; lia|lia|].
    exists (String c r +:+ String (pretty_N_char (n `mod` 10)) ""). split.
    + split.
      * eexists c, _. rewrite string_app_cons. split; [done|]. split; [done|].
        rewrite all_digits_app, Hr. simpl. by rewrite Hdig.
      * rewrite parse_digits_app, Hw. simpl. rewrite Hval.
        rewrite (proj2 (Z.ltb_lt _ _)) by lia. f_equal. rewrite Hdiv at 3. lia.
    + intros s. rewrite pretty_N_go_step by done. rewrite Hgo, string_app_assoc. done.
Qed.

Lemma pretty_numeral z : (0 < z)%Z → numeral (Z.to_N z) (pretty z).
Proof.
  intros Hz. destruct z as [|p|p]; [lia| |lia]. change (pretty (Z.pos p)) with (pretty (N.pos p)).
  unfold pretty, pretty_N. case_decide; [done|].
  destruct (pretty_go_numeral (N.pos p)) as (w & Hw & Hgo); [lia|]. rewrite Hgo, string_app_nil_r. exact Hw.
Qed.

Lemma ParseUint_pretty z : u64_wf z → ParseUint 10 (pretty z) = Some z.
Proof.
  intros Hz. destruct (decide (z = 0)%Z) as [->|Hne]; [done|].
  destruct (pretty_numeral z) as [(c & r & Heq & _) Hval]; [u64_lia|]. unfold ParseUint. rewrite Heq in *.
  rewrite Hval. replace (Z.of_N (Z.to_N z)) with z by u64_lia.
  rewrite (proj2 (Z.ltb_lt _ _)); [done|]. u64_lia.
Qed.

(** ** Reversal and trimming *)

Lemma rev_app_spec a b : String.rev_app a b = String.rev a +:+ b.
Proof.
  unfold String.rev. assert (∀ a b c, String.rev_app a (b +:+ c) = String.rev_app a b +:+ c) as Happ.
  { clear. induction a as [|x a IH]; intros b c; [done|]. simpl. rewrite <- string_app_cons. apply IH. }
  by rewrite <- Happ.
Qed.

Lemma rev_cons c s : String.rev (String c s) = String.rev s +:+ String c "".
Proof. unfold String.rev. simpl. apply rev_app_spec. Qed.

Lemma rev_string_app a b : String.rev (a +:+ b) = String.rev b +:+ String.rev a.
Proof.
  induction a as [|c a IH]; [by rewrite string_app_nil_r|].
  rewrite string_app_cons, !rev_cons, IH. apply string_app_assoc.
Qed.

Lemma rev_involutive s : String.rev (String.rev s) = s.
Proof. induction s as [|c s IH]; [done|]. by rewrite rev_cons, rev_string_app, IH. Qed.

(** A text that neither begins nor ends with a blank. *)
Definition tight (v : string) : Prop :=
  (∃ c r, v = String c r ∧ json_space c = false) ∧ (∃ r c, v = r +:+ String c "" ∧ json_space c = false).

Lemma trim_tight v : tight v → trim_json v = v.
Proof.
  intros [(c & r & Hv & Hc) (r' & c' & Hv' & Hc')]. unfold trim_json.
  assert (trim_json_left v = v) as -> by (rewrite Hv; simpl; by rewrite Hc).
  rewrite Hv' at 1. rewrite rev_string_app. simpl. rewrite Hc'.
  rewrite <- (rev_involutive v), Hv', rev_string_app. done.
Qed.

Lemma tight_app a b : tight a → tight b → ∀ m, tight (a +:+ m +:+ b).
Proof.
  intros [(c & r & -> & Hc) _] [_ (r' & c' & -> & Hc')] m. split.
  - exists c. eexists. split; [apply string_app_cons|done].
  - exists (String c r +:+ m +:+ r'), c'. split; [by rewrite !string_app_assoc|done].
Qed.

(** ** Texts of values

    A value inside an object: the scanner reaches its end, where the next byte is a
    comma or the closing brace; it is not split at commas or colons; and it is a
    whole JSON text of its own. *)

Definition delimiter (c : ascii) : bool := is_char 44 c || is_char 125 c.

Record value_text (v : string) : Prop := mkValueText {
  vt_run : ∃ s, run (mk_scanner SBeginValue [FObjectValue]) v = Some s ∧
    ∀ c, delimiter c = true → step s c = step_end_value [FObjectValue] c;
  vt_valid : Valid v = true;
  vt_split sep cur t : sep = 44%N ∨ sep = 58%N →
    split_top sep 0 false false cur (v +:+ t) = split_top sep 0 false false (String.rev_app v cur) t;
  vt_tight : tight v
}.

Lemma literal_run st s : valid_utf8 s = true →
  run (mk_scanner SBeginValue st) (Marshal_string s) = Some (mk_scanner SEndValue st).
Proof.
  intros [Hr _ _]%quoted_body. unfold Marshal_string.
  change (run (mk_scanner SInString st) (quote_body s +:+ String dquote "") = Some (mk_scanner SEndValue st)).
  by rewrite Hr.
Qed.

Lemma literal_split sep d cur s t : valid_utf8 s = true →
  split_top sep d false false cur (Marshal_string s +:+ t) =
  split_top sep d false false (String.rev_app (Marshal_string s) cur) t.
Proof.
  intros [_ _ Hs]%quoted_body. unfold Marshal_string. rewrite string_app_cons, string_app_assoc.
  change (split_top sep d true false (String dquote cur) (quote_body s +:+ String dquote "" +:+ t) =
    split_top sep d false false (String.rev_app (quote_body s +:+ String dquote "") (String dquote cur)) t).
  rewrite Hs. change (String dquote "" +:+ t) with (String dquote t). simpl. f_equal.
  rewrite !rev_app_spec, rev_string_app. rewrite string_app_assoc. done.
Qed.

Lemma literal_tight s : tight (Marshal_string s).
Proof.
  unfold Marshal_string. split.
  - eexists _, _. split; [done|done].
  - exists (String dquote (quote_body s)), dquote. split; [by rewrite string_app_cons|done].
Qed.

Lemma literal_text s : valid_utf8 s = true → value_text (Marshal_string s).
Proof.
  intros Hs. split.
  - eexists. split; [by apply literal_run|done].
  - unfold Valid, scanner_init. by rewrite literal_run.
  - intros sep cur t _. by apply literal_split.
  - apply literal_tight.
Qed.

Lemma digit_cases c : is_digit c = true →
  c = "0"%char ∨ c = "1"%char ∨ c = "2"%char ∨ c = "3"%char ∨ c = "4"%char ∨ c = "5"%char ∨ c = "6"%char ∨
  c = "7"%char ∨ c = "8"%char ∨ c = "9"%char.
Proof. destruct c as [[] [] [] [] [] [] [] []]; intros Hc; vm_compute in Hc; try discriminate; tauto. Qed.

Lemma split_digits sep cur w t : sep = 44%N ∨ sep = 58%N → all_digits w = true →
  split_top sep 0 false false cur (w +:+ t) = split_top sep 0 false false (String.rev_app w cur) t.
Proof.
  intros Hsep. revert cur. induction w as [|c w IH]; intros cur; [done|]. cbn [all_digits].
  intros [Hc Hw]%andb_true_iff. rewrite string_app_cons.
  assert (split_top sep 0 false false cur (String c (w +:+ t)) = split_top sep 0 false false (String c cur) (w +:+ t)) as ->.
  { apply digit_cases in Hc. by destruct_or! Hc; destruct Hsep; subst. }
  by apply IH.
Qed.

Lemma run_digits st w : all_digits w = true → run (mk_scanner S1 st) w = Some (mk_scanner S1 st).
Proof.
  induction w as [|c w IH]; [done|]. simpl. intros [Hc Hw]%andb_true_iff. unfold step. simpl. rewrite Hc. by apply IH.
Qed.

Lemma first_digit c : in_range 49 57 c = true → is_digit c = true ∧ json_space c = false ∧
  ∀ st, step (mk_scanner SBeginValue st) c = Some (mk_scanner S1 st).
Proof.
  intros Hc. assert (is_digit c = true) as Hd.
  { unfold is_digit, in_range in *. apply andb_true_iff in Hc as [?%N.leb_le ?%N.leb_le].
    apply andb_true_iff. rewrite !N.leb_le. lia. }
  split; [done|]. apply digit_cases in Hd. by destruct_or! Hd; subst.
Qed.

Lemma digits_end w c r : w = String c r → all_digits w = true → ∃ r' c', w = r' +:+ String c' "" ∧ json_space c' = false.
Proof.
  revert c r. induction w as [|x w IH]; intros c r Heq; [done|]. simpl. intros [Hx Hw]%andb_true_iff.
  destruct w as [|y w].
  - exists "", x. split; [done|]. apply digit_cases in Hx. by destruct_or! Hx; subst.
  - destruct (IH y w eq_refl Hw) as (r' & c' & -> & Hc'). exists (String x r'), c'.
    split; [by rewrite string_app_cons|done].
Qed.

Lemma number_text z : (0 ≤ z)%Z → value_text (pretty z).
Proof.
  intros Hz. destruct (decide (z = 0)%Z) as [->|Hne].
  { split.
    - eexists. split; [done|]. intros c Hc. unfold delimiter in Hc.
      apply orb_true_iff in Hc as [->%is_char_eq| ->%is_char_eq]; done.
    - done.
    - intros sep cur t Hsep. by destruct Hsep; subst.
    - split; [by eexists "0"%char, ""|by exists "", "0"%char]. }
  destruct (pretty_numeral z) as [(c & r & Heq & Hc & Hr) _]; [lia|].
  destruct (first_digit c Hc) as (Hd & Hsp & Hstep).
  assert (∀ st, run (mk_scanner SBeginValue st) (pretty z) = Some (mk_scanner S1 st)) as Hrun.
  { intros st. rewrite Heq. cbn [run]. rewrite Hstep. by apply run_digits. }
  assert (all_digits (pretty z) = true) as Hall by (rewrite Heq; simpl; by rewrite Hd).
  split.
  - eexists. split; [apply Hrun|]. intros x Hx. unfold delimiter in Hx.
    apply orb_true_iff in Hx as [->%is_char_eq| ->%is_char_eq]; done.
  - unfold Valid, scanner_init. by rewrite Hrun.
  - intros sep cur t Hsep. by apply split_digits.
  - split; [by exists c, r|]. by eapply digits_end.
Qed.

Lemma bool_text b : value_text (Marshal_bool b).
Proof.
  split.
  - destruct b; by eexists.
  - by destruct b.
  - intros sep cur t Hsep. by destruct b, Hsep; subst.
  - destruct b; (split; [by eexists _, _|]); [by exists "tru", "e"%char|by exists "fals", "e"%char].
Qed.

(** ** Embedded texts

    A valid text is not split: the splitting follows the scanner, its depth being the
    height of the scanner's stack. *)

Definition in_string (s : sstate) : bool :=
  match s with SInString | SEsc | SEscU _ => true | _ => false end.

Definition escaped (s : sstate) : bool := match s with SEsc => true | _ => false end.

Definition lower_letter (c : ascii) : bool := in_range 97 122 c.

(** What is left of a literal name is letters. *)
Definition state_ok (s : sstate) : bool :=
  match s with SLit r => all_bytes lower_letter r | _ => true end.

Definition bracket (c : ascii) : bool :=
  is_char 34 c || is_char 123 c || is_char 91 c || is_char 125 c || is_char 93 c.

Lemma bracket_cases c : bracket c = true →
  c = ascii_of_N 34 ∨ c = ascii_of_N 123 ∨ c = ascii_of_N 91 ∨ c = ascii_of_N 125 ∨ c = ascii_of_N 93.
Proof. unfold bracket. rewrite !orb_true_iff. intros [[[[H|H]|H]|H]|H]; apply is_char_eq in H; tauto. Qed.

Lemma end_value_plain st c s' : bracket c = false → step_end_value st c = Some s' →
  length (sc_stack s') = length st ∧ in_string (sc_state s') = false ∧ state_ok (sc_state s') = true.
Proof.
  unfold bracket. rewrite !orb_false_iff. intros [[[[_ _] _] H125] H93]. unfold step_end_value.
  rewrite H125, H93. repeat case_match; intros; simplify_eq; done.
Qed.

Lemma begin_value_plain st c s' : bracket c = false → step_begin_value st c = Some s' →
  length (sc_stack s') = length st ∧ in_string (sc_state s') = false ∧ state_ok (sc_state s') = true.
Proof.
  unfold bracket. rewrite !orb_false_iff. intros [[[[H34 H123] H91] _] _]. unfold step_begin_value.
  rewrite H34, H123, H91. repeat case_match; intros; simplify_eq; done.
Qed.

Lemma step_plain s c s' : bracket c = false → state_ok (sc_state s) = true → in_string (sc_state s) = false →
  step s c = Some s' →
  length (sc_stack s') = length (sc_stack s) ∧ in_string (sc_state s') = false ∧ state_ok (sc_state s') = true.
Proof.
  intros Hb Hok Hin Hstep. destruct s as [state st]. simpl in *.
  pose proof (end_value_plain st c s' Hb) as He. pose proof (begin_value_plain st c s' Hb) as Hbv.
  revert Hstep. unfold step. cbn [sc_state sc_stack].
  pose proof Hb as Hb'. unfold bracket in Hb'. rewrite !orb_false_iff in Hb'.
  destruct Hb' as [[[[H34 H123] H91] H125] H93].
  destruct state; try done; unfold step_begin_string, step_exp_or_end; rewrite ?H34, ?H93, ?H125;
    repeat case_match; intros; simplify_eq; auto.
  simpl in *. apply andb_true_iff in Hok as [_ ?]. done.
Qed.

Lemma literal_name_step r st c s' : all_bytes lower_letter r = true → lower_letter c = false →
  step (mk_scanner (SLit r) st) c = Some s' → False.
Proof.
  unfold step. simpl. destruct r as [|d r]; [done|]. simpl. intros [Hd _]%andb_true_iff Hc.
  destruct (Ascii.eqb_spec c d) as [->|]; [congruence|done].
Qed.

Lemma step_separator s c s' : (c = ascii_of_N 44 ∨ c = ascii_of_N 58) → state_ok (sc_state s) = true →
  in_string (sc_state s) = false → step s c = Some s' → sc_stack s ≠ [].
Proof.
  intros Hc Hok Hin Hstep Hst. destruct s as [state st]. simpl in *. subst st.
  destruct state as [| | | | | | | | | | | | | | |r| |]; try done;
    try (by destruct Hc; subst).
  eapply literal_name_step; [exact Hok| |exact Hstep]. by destruct Hc; subst.
Qed.

Lemma step_quote s s' : state_ok (sc_state s) = true → in_string (sc_state s) = false →
  step s (ascii_of_N 34) = Some s' → s' = mk_scanner SInString (sc_stack s).
Proof.
  intros Hok Hin Hstep. destruct s as [state st]. simpl in *.
  destruct state as [| | | | | | | | | | | | | | |r| |]; try done;
    try (by destruct st as [|[] st]; vm_compute in Hstep; congruence).
  exfalso. by eapply literal_name_step; [exact Hok| |exact Hstep].
Qed.

Lemma step_open s c s' : (c = ascii_of_N 123 ∨ c = ascii_of_N 91) → state_ok (sc_state s) = true →
  in_string (sc_state s) = false → step s c = Some s' →
  length (sc_stack s') = S (length (sc_stack s)) ∧ in_string (sc_state s') = false ∧ state_ok (sc_state s') = true.
Proof.
  intros Hc Hok Hin Hstep. destruct s as [state st]. simpl in *.
  assert (∀ f next, in_string next = false → state_ok next = true → push_frame f next st = Some s' →
    length (sc_stack s') = S (length st) ∧ in_string (sc_state s') = false ∧ state_ok (sc_state s') = true) as Hpush.
  { intros f next Hi Ho. unfold push_frame. destruct (_ <? _)%Z; [|done]. by intros [= <-]. }
  destruct state as [| | | | | | | | | | | | | | |r| |]; try done.
  all: try (by destruct Hc; subst;
    first [exact (Hpush FObjectKey SBeginStringOrEmpty eq_refl eq_refl Hstep)
          |exact (Hpush FArrayValue SBeginValueOrEmpty eq_refl eq_refl Hstep)]).
  all: try (by destruct Hc; subst; destruct st as [|[] st]; vm_compute in Hstep; congruence).
  exfalso. eapply literal_name_step; [exact Hok| |exact Hstep]. by destruct Hc; subst.
Qed.

Lemma step_close s c s' : (c = ascii_of_N 125 ∨ c = ascii_of_N 93) → state_ok (sc_state s) = true →
  in_string (sc_state s) = false → step s c = Some s' →
  length (sc_stack s') = pred (length (sc_stack s)) ∧ in_string (sc_state s') = false ∧ state_ok (sc_state s') = true.
Proof.
  intros Hc Hok Hin Hstep. destruct s as [state st]. simpl in *.
  assert (∀ f r, s' = pop_frame (f :: r) → length (sc_stack s') = length r ∧ in_string (sc_state s') = false ∧
    state_ok (sc_state s') = true) as Hpop.
  { intros f r ->. unfold pop_frame. by destruct r. }
  destruct state as [| | | | | | | | | | | | | | |r| |]; try done.
  all: try (by destruct Hc; subst; destruct st as [|[] st]; try (vm_compute in Hstep; congruence);
    injection Hstep as Hstep;
    first [exact (Hpop FObjectValue st (eq_sym Hstep)) | exact (Hpop FArrayValue st (eq_sym Hstep))]).
  exfalso. eapply literal_name_step; [exact Hok| |exact Hstep]. by destruct Hc; subst.
Qed.

Lemma split_step_in sep d cur s c t s' : in_string (sc_state s) = true → step s c = Some s' →
  split_top sep d true (escaped (sc_state s)) cur (String c t) =
    split_top sep d (in_string (sc_state s')) (escaped (sc_state s')) (String c cur) t ∧
  sc_stack s' = sc_stack s ∧ state_ok (sc_state s') = true.
Proof.
  intros Hin Hstep. destruct s as [state st]. simpl in *. cbn [split_top].
  destruct state as [| | | | | |n| | | | | | | | | | |]; try done; revert Hstep; unfold step; cbn [sc_state sc_stack escaped].
  - destruct (is_char 34 c) eqn:H34.
    + intros [= <-]. apply is_char_eq in H34 as ->. done.
    + destruct (is_char 92 c); [by intros [= <-]|]. destruct (_ <? _)%N; [done|]. by intros [= <-].
  - repeat case_match; intros; simplify_eq; done.
  - assert (∀ x, digit_val c = Some x → is_char 34 c = false ∧ is_char 92 c = false) as Hd.
    { intros x Hx. split; apply not_true_is_false; intros ->%is_char_eq; done. }
    destruct (digit_val c) as [x|]; [|done]. destruct (Hd x eq_refl) as [-> ->].
    destruct n as [|[|n]]; by intros [= <-].
Qed.

Lemma split_step_out sep cur s c t s' : sep = 44%N ∨ sep = 58%N → state_ok (sc_state s) = true →
  in_string (sc_state s) = false → step s c = Some s' →
  split_top sep (length (sc_stack s)) false false cur (String c t) =
    split_top sep (length (sc_stack s')) (in_string (sc_state s')) (escaped (sc_state s')) (String c cur) t ∧
  state_ok (sc_state s') = true.
Proof.
  intros Hsep Hok Hin Hstep. destruct (bracket c) eqn:Hb.
  - apply bracket_cases in Hb as [->|Hb].
    { rewrite (step_quote _ _ Hok Hin Hstep). done. }
    destruct Hb as [->|[->|Hb]].
    1-2: match type of Hstep with step _ ?c = _ =>
      destruct (step_open s c s' ltac:(auto) Hok Hin Hstep) as (-> & Hi & Ho) end;
      rewrite Hi; (split; [by destruct (sc_state s')|done]).
    destruct Hb as [->| ->]; match type of Hstep with step _ ?c = _ =>
      destruct (step_close s c s' ltac:(auto) Hok Hin Hstep) as (-> & Hi & Ho) end;
      rewrite Hi; (split; [by destruct (sc_state s')|done]).
  - destruct (step_plain s c s' Hb Hok Hin Hstep) as (-> & Hi & Ho). rewrite Hi.
    assert (escaped (sc_state s') = false) as -> by by destruct (sc_state s').
    split; [|done]. cbn [split_top]. unfold bracket in Hb. rewrite !orb_false_iff in Hb.
    destruct Hb as [[[[-> ->] ->] ->] ->]. cbn [orb].
    destruct (sc_stack s) as [|f st] eqn:Hst; [|done]. cbn [length].
    destruct (is_char sep c) eqn:Hc; [|done]. exfalso. apply is_char_eq in Hc as ->.
    eapply step_separator; [|exact Hok|exact Hin|exact Hstep|exact Hst]. destruct Hsep as [-> | ->]; auto.
Qed.

Lemma run_split sep s v s' cur t : sep = 44%N ∨ sep = 58%N → state_ok (sc_state s) = true →
  run s v = Some s' →
  split_top sep (length (sc_stack s)) (in_string (sc_state s)) (escaped (sc_state s)) cur (v +:+ t) =
  split_top sep (length (sc_stack s')) (in_string (sc_state s')) (escaped (sc_state s')) (String.rev_app v cur) t.
Proof.
  intros Hsep. revert s cur. induction v as [|c v IH]; intros s cur Hok; cbn [run]; [by intros [= <-]|].
  destruct (step s c) as [s1|] eqn:Hstep; [|done]. intros Hrun. rewrite string_app_cons.
  destruct (in_string (sc_state s)) eqn:Hin.
  - destruct (split_step_in sep (length (sc_stack s)) cur s c (v +:+ t) s1 Hin Hstep) as (-> & <- & Ho).
    apply (IH s1 (String c cur) Ho Hrun).
  - assert (escaped (sc_state s) = false) as -> by by destruct (sc_state s).
    destruct (split_step_out sep cur s c (v +:+ t) s1 Hsep Hok Hin Hstep) as [-> Ho].
    apply (IH s1 (String c cur) Ho Hrun).
Qed.

(** The same text inside a container: the scanner does the same on a taller stack. *)
Definition inner (f : frame) (s : scanner) : scanner :=
  mk_scanner (match sc_state s with SEndTop => SEndValue | state => state end) (sc_stack s ++ [f]).

(** Nothing is open any more once the top value has ended. *)
Definition top_ok (s : scanner) : Prop := sc_state s = SEndTop → sc_stack s = [].

Lemma inner_end_value f st c a b :
  step_end_value st c = Some a → step_end_value (st ++ [f]) c = Some b → b = inner f a ∧ top_ok a.
Proof.
  unfold step_end_value, inner, top_ok, pop_frame. destruct st as [|g [|g' st]]; simpl;
    repeat case_match; intros; simplify_eq; simpl; try done; split; try done; congruence.
Qed.

Lemma inner_push f g next st a b : next ≠ SEndTop →
  push_frame g next st = Some a → push_frame g next (st ++ [f]) = Some b → b = inner f a ∧ top_ok a.
Proof.
  unfold push_frame, inner, top_ok. intros Hn. destruct (_ <? _)%Z; [|done]. destruct (_ <? _)%Z; [|done].
  intros [= <-] [= <-]. simpl. by destruct next.
Qed.

Lemma inner_begin_value f st c a b :
  step_begin_value st c = Some a → step_begin_value (st ++ [f]) c = Some b → b = inner f a ∧ top_ok a.
Proof.
  unfold step_begin_value. pose proof (λ g next, inner_push f g next st a b) as Hpush.
  repeat case_match; try (by apply Hpush); intros; simplify_eq; done.
Qed.

Lemma inner_step f s c a b : top_ok s →
  step s c = Some a → step (inner f s) c = Some b → b = inner f a ∧ top_ok a.
Proof.
  destruct s as [state st]. intros Htop Ha Hb.
  pose proof (inner_end_value f st c a b) as He. pose proof (inner_begin_value f st c a b) as Hbv.
  destruct state; unfold step in Ha; unfold step, inner in Hb; cbn [sc_state sc_stack] in *;
    unfold step_begin_string, step_exp_or_end in *; try (by apply Hbv); try (by apply He).
  all: repeat case_match; simplify_eq; try (by apply Hbv); try (by apply He); try done.
  - rewrite <- app_comm_cons in H1. injection H1 as <- <-. by eapply (inner_end_value f (FObjectValue :: _)).
  - unfold top_ok in *. simpl in Htop. unfold inner. simpl. rewrite Htop in * by done.
    unfold step_end_value in Hb. simpl in Hb. rewrite H in Hb. by injection Hb as <-.
Qed.

Lemma inner_run f s v a b : top_ok s → run s v = Some a → run (inner f s) v = Some b → b = inner f a ∧ top_ok a.
Proof.
  revert s. induction v as [|c v IH]; intros s Htop; cbn [run]; [by intros [= <-] [= <-]|].
  destruct (step s c) as [s1|] eqn:H1; [|done]. destruct (step (inner f s) c) as [s2|] eqn:H2; [|done].
  destruct (inner_step f s c s1 s2 Htop H1 H2) as [-> Htop1]. by apply IH.
Qed.

(** Where a whole value has been read nothing is open, and inside a container the
    value ends at the next byte. *)
Lemma inner_ended f s : top_ok s →
  (is_end_top s || match step s space_char with Some s' => is_end_top s' | None => false end) = true →
  sc_stack s = [] ∧ in_string (sc_state s) = false ∧
  ∀ c, delimiter c = true → step (inner f s) c = step_end_value [f] c.
Proof.
  destruct s as [state st]. intros Htop Hend.
  assert (∀ c, delimiter c = true → c = ascii_of_N 44 ∨ c = ascii_of_N 125) as Hc'
    by (unfold delimiter; intros c [Hc|Hc]%orb_true_iff; apply is_char_eq in Hc; auto).
  destruct state as [| | | | | |n| | | | | | | | |r| |]; try (exfalso; vm_compute in Hend; discriminate).
  all: try (destruct st as [|g st];
    [split; [done|]; split; [done|]; intros c Hc; by destruct (Hc' c Hc); subst
    |exfalso; vm_compute in Hend; discriminate]).
  - exfalso. revert Hend. unfold is_end_top, step. cbn [sc_state sc_stack orb]. destruct r as [|d r]; [done|].
    destruct (Ascii.eqb space_char d); [|done]. by destruct (String.eqb r "").
  - unfold top_ok in Htop. simpl in Htop. rewrite Htop by done. split; [done|]. split; [done|].
    intros c Hc. by destruct (Hc' c Hc); subst.
Qed.

(** The text can be embedded: nesting it one container deeper stays within the
    scanner's limit. *)
Definition embeddable (v : string) : bool :=
  Valid v && bool_decide (is_Some (run (mk_scanner SBeginValue [FObjectValue]) v)).

Lemma embedded_text v : embeddable v = true → tight v → value_text v.
Proof.
  unfold embeddable. intros [Hv [s2 Hin]%bool_decide_eq_true]%andb_true_iff Ht.
  pose proof Hv as Hv'. unfold Valid in Hv. destruct (run scanner_init v) as [s|] eqn:Hrun; [|done].
  destruct (inner_run FObjectValue scanner_init v s s2) as [-> Htop]; [done|done|done|].
  destruct (inner_ended FObjectValue s Htop Hv) as (Hst & Hi & Hend). split; [by eexists|done| |done].
  intros sep cur t Hsep. pose proof (run_split sep scanner_init v s cur t Hsep eq_refl Hrun) as Hsplit.
  rewrite Hst, Hi in Hsplit. simpl in Hsplit. rewrite Hsplit. by destruct (sc_state s).
Qed.

(** ** Objects *)

Lemma rev_app_rev v : String.rev (String.rev_app v "") = v.
Proof. apply rev_involutive. Qed.

Lemma split_end sep d i e cur : split_top sep d i e cur "" = [String.rev cur].
Proof. done. Qed.

(** The slices of a text are the values it was joined from. *)
Lemma split_value sep v : sep = 44%N ∨ sep = 58%N → value_text v → split_top sep 0 false false "" v = [v].
Proof.
  intros Hsep Hv. rewrite <- (string_app_nil_r v) at 1. rewrite (vt_split _ Hv) by done.
  by rewrite split_end, rev_app_rev.
Qed.

Lemma split_value_sep sep v t : sep = 44%N ∨ sep = 58%N →
  (∀ cur t, split_top sep 0 false false cur (v +:+ t) = split_top sep 0 false false (String.rev_app v cur) t) →
  split_top sep 0 false false "" (v +:+ String (ascii_of_N sep) t) = v :: split_top sep 0 false false "" t.
Proof.
  intros Hsep Hv. rewrite Hv.
  assert (∀ cur, split_top sep 0 false false cur (String (ascii_of_N sep) t) =
    String.rev cur :: split_top sep 0 false false "" t) as -> by (intros cur; by destruct Hsep; subst).
  by rewrite rev_app_rev.
Qed.

(** A member of an object. *)
Definition member_ok (nv : string * string) : Prop := valid_utf8 nv.1 = true ∧ value_text nv.2.

Definition member_text (nv : string * string) : string := json_member nv.1 nv.2.

Lemma member_tight nv : member_ok nv → tight (member_text nv).
Proof. intros [_ Hv]. apply (tight_app _ _ (literal_tight _) (vt_tight _ Hv)). Qed.

Lemma member_split cur nv t : member_ok nv →
  split_top 44 0 false false cur (member_text nv +:+ t) =
  split_top 44 0 false false (String.rev_app (member_text nv) cur) t.
Proof.
  intros [Hn Hv]. unfold member_text, json_member. rewrite !string_app_assoc, literal_split by done.
  change (":" +:+ nv.2 +:+ t) with (String ":" (nv.2 +:+ t)). cbn [split_top].
  change (is_char _ ":") with false. cbn [orb].
  rewrite (vt_split _ Hv) by auto. f_equal. rewrite !rev_app_spec, !rev_string_app.
  change (String.rev ":") with ":". rewrite !string_app_assoc. done.
Qed.

Lemma interior_brackets a b body : interior (String a (body +:+ String b "")) = body.
Proof.
  unfold interior. cbn [drop_bytes String.length]. rewrite string_length_app. cbn [String.length].
  replace (_ - 2)%nat with (String.length body) by lia.
  induction body as [|c r IH]; [done|]. rewrite string_app_cons. cbn [String.length take_bytes]. by rewrite IH.
Qed.

Lemma string_literal_text s : valid_utf8 s = true → string_literal (Marshal_string s) = s.
Proof.
  intros [_ Hu _]%quoted_body. unfold string_literal, Marshal_string. rewrite interior_brackets.
  rewrite <- (string_app_nil_r (quote_body s)), Hu. apply string_app_nil_r.
Qed.

Lemma member_member nv : member_ok nv → member (member_text nv) = nv.
Proof.
  intros [Hn Hv]. unfold member, member_text, json_member.
  change (":" +:+ nv.2) with (String (ascii_of_N 58) nv.2).
  rewrite (split_value_sep 58) by (intros; first [by right|by apply literal_split]).
  rewrite (split_value 58) by auto. rewrite !trim_tight by first [apply literal_tight|apply Hv].
  rewrite string_literal_text by done. by destruct nv.
Qed.

Lemma members_split m ms : Forall member_ok (m :: ms) →
  split_top 44 0 false false "" (Join (member_text <$> m :: ms) ",") = member_text <$> m :: ms.
Proof.
  revert m. induction ms as [|m' ms IH]; intros m [Hm Hms]%Forall_cons_1.
  - cbn [fmap list_fmap Join]. rewrite <- (string_app_nil_r (member_text m)) at 1. rewrite member_split by done.
    by rewrite split_end, rev_app_rev.
  - change (Join (member_text <$> m :: m' :: ms) ",")
      with (member_text m +:+ String (ascii_of_N 44) (Join (member_text <$> m' :: ms) ",")).
    rewrite (split_value_sep 44) by (intros; first [by left|by apply member_split]).
    by rewrite IH.
Qed.

Lemma members_tight m ms : Forall member_ok (m :: ms) → tight (Join (member_text <$> m :: ms) ",").
Proof.
  revert m. induction ms as [|m' ms IH]; intros m [Hm Hms]%Forall_cons_1; [by apply member_tight|].
  apply (tight_app _ _ (member_tight m Hm) (IH _ Hms)).
Qed.

Lemma run_member nv : member_ok nv → ∃ s, run (mk_scanner SBeginString [FObjectKey]) (member_text nv) = Some s ∧
  ∀ c, delimiter c = true → step s c = step_end_value [FObjectValue] c.
Proof.
  intros [Hn [[s [Hs Hd]] _ _ _]]. exists s. split; [|done]. unfold member_text, json_member.
  eapply (run_trans _ _ (mk_scanner SEndValue [FObjectKey])); [|exact Hs].
  exact (literal_run [FObjectKey] nv.1 Hn).
Qed.

Lemma run_members m ms : Forall member_ok (m :: ms) →
  run (mk_scanner SBeginString [FObjectKey]) (Join (member_text <$> m :: ms) "," +:+ "}") =
  Some (mk_scanner SEndTop []).
Proof.
  revert m. induction ms as [|m' ms IH]; intros m [Hm Hms]%Forall_cons_1;
    destruct (run_member m Hm) as (s & Hs & Hd).
  - eapply run_trans; [exact Hs|]. cbn [run]. by rewrite Hd.
  - change (Join (member_text <$> m :: m' :: ms) "," +:+ "}")
      with ((member_text m +:+ "," +:+ Join (member_text <$> m' :: ms) ",") +:+ "}").
    rewrite string_app_assoc. eapply run_trans; [exact Hs|]. rewrite string_app_assoc.
    change ("," +:+ ?t) with (String "," t). cbn [run]. rewrite Hd by done. by apply IH.
Qed.

Definition object_text (ms : list (string * string)) : string :=
  wrap_json "{" "}" (Join (member_text <$> ms) ",").

Lemma object_valid m ms : Forall member_ok (m :: ms) → Valid (object_text (m :: ms)) = true.
Proof.
  intros Hms. pose proof (run_members m ms Hms) as Hrun. unfold Valid, object_text, wrap_json.
  assert (run scanner_init ("{" +:+ Join (member_text <$> m :: ms) "," +:+ "}") =
    run (mk_scanner SBeginString [FObjectKey]) (Join (member_text <$> m :: ms) "," +:+ "}")) as ->.
  { assert (∃ r, Join (member_text <$> m :: ms) "," +:+ "}" = String dquote r) as [r ->].
    { destruct ms; eexists; cbn [fmap list_fmap Join]; unfold member_text, json_member, Marshal_string;
        by rewrite !string_app_cons. }
    done. }
  by rewrite Hrun.
Qed.

Lemma elements_object m ms : Forall member_ok (m :: ms) → elements (object_text (m :: ms)) = member_text <$> m :: ms.
Proof.
  intros Hms. unfold elements, object_text. unfold wrap_json.
  change ("{" +:+ ?t +:+ "}") with (String "{" (t +:+ String "}" "")). rewrite interior_brackets.
  pose proof (members_tight m ms Hms) as Ht. rewrite (trim_tight _ Ht).
  destruct (Join _ _) as [|c r] eqn:Hj; [by destruct Ht as [(? & ? & [=] & _) _]|]. rewrite <- Hj, members_split by done.
  rewrite <- list_fmap_compose. apply list_fmap_ext. intros i nv Hi.
  apply trim_tight, member_tight. rewrite Forall_forall in Hms. apply Hms. by eapply list_elem_of_lookup_2.
Qed.

(** Decoding takes an object apart into the members it was put together from. *)
Lemma decode_object m ms : Forall member_ok (m :: ms) → decode (object_text (m :: ms)) = Some (JObject (m :: ms)).
Proof.
  intros Hms. unfold decode. rewrite object_valid by done.
  assert (tight (object_text (m :: ms))) as Ht.
  { split; [by eexists _, _|]. exists ("{" +:+ Join (member_text <$> m :: ms) ","), "}"%char.
    split; [by unfold object_text, wrap_json; rewrite string_app_assoc|done]. }
  rewrite trim_tight by done. pose proof (elements_object m ms Hms) as He.
  unfold object_text, wrap_json in He |- *. change ("{" +:+ ?t) with (String "{" t) in *. cbn -[elements member fmap].
  do 2 f_equal. rewrite He, <- list_fmap_compose. rewrite <- (list_fmap_id (m :: ms)) at 2.
  apply list_fmap_ext. intros i nv Hi. apply member_member. rewrite Forall_forall in Hms.
  apply Hms. by eapply list_elem_of_lookup_2.
Qed.

(** ** Decoding the members *)

Lemma decode_literal s : valid_utf8 s = true → decode (Marshal_string s) = Some (JString s).
Proof.
  intros Hs. unfold decode. rewrite (vt_valid _ (literal_text s Hs)), trim_tight by apply literal_tight.
  rewrite <- (string_literal_text s Hs) at 2. done.
Qed.

Lemma decode_bool b : decode (Marshal_bool b) = Some (JBool b).
Proof. by destruct b. Qed.

Lemma decode_number z : (0 ≤ z)%Z → decode (pretty z) = Some (JNumber (pretty z)).
Proof.
  intros Hz. pose proof (number_text z Hz) as Hv. unfold decode.
  rewrite (vt_valid _ Hv), trim_tight by apply Hv.
  destruct (decide (z = 0)%Z) as [->|Hne]; [done|].
  destruct (pretty_numeral z) as [(c & r & -> & Hc & _) _]; [lia|].
  destruct (first_digit c Hc) as (Hd & _). apply digit_cases in Hd. by destruct_or! Hd; subst.
Qed.

Lemma Unmarshal_string_literal cur s : valid_utf8 s = true → Unmarshal_string cur (Marshal_string s) = Some s.
Proof. intros Hs. unfold Unmarshal_string. by rewrite decode_literal. Qed.

Lemma Unmarshal_bool_text cur b : Unmarshal_bool cur (Marshal_bool b) = Some b.
Proof. unfold Unmarshal_bool. by rewrite decode_bool. Qed.

Lemma Unmarshal_uint64_numeral cur z : u64_wf z → Unmarshal_uint64 cur (pretty z) = Some z.
Proof. intros Hz. unfold Unmarshal_uint64. rewrite decode_number by u64_lia. by apply ParseUint_pretty. Qed.

Lemma Unmarshal_raw_text cur v : value_text v → Unmarshal_raw cur v = Some v.
Proof. intros Hv. unfold Unmarshal_raw. by rewrite (vt_valid _ Hv), trim_tight by apply Hv. Qed.

(** A struct field reads the members of its name and no other. *)
Lemma field_nil {A} (dec : A → RawMessage → option A) zero name : field dec zero name [] = Some zero.
Proof. done. Qed.

Lemma field_other {A} (dec : A → RawMessage → option A) zero name k v ms :
  EqualFold k name = false → field dec zero name ((k, v) :: ms) = field dec zero name ms.
Proof. unfold field. simpl. by intros ->. Qed.

Lemma field_named {A} (dec : A → RawMessage → option A) zero name k v ms a :
  EqualFold k name = true → dec zero v = Some a → field dec zero name ((k, v) :: ms) = field dec a name ms.
Proof. unfold field. simpl. by intros -> ->. Qed.

(** ** The round trip *)

Section roundtrip.
  Context {W : Type} `{World W}.

(** What an embedded header becomes: [Marshal] compacts it. *)
Definition compacted (h : Head) : Head :=
  mkHead (Chain h) (Family h) (Commitment h) (Number h) (Hash h) (ParentHash h) (Generation h)
    (ReorgEpoch h) (ReorgPending h) (ObservedAt h) (ChangedAt h) (Origin h)
    (compact_from false false (Header h)).

Definition time_ok (t : Z) : Prop :=
  valid_utf8 (format_time t) = true ∧ parse_time (format_time t) = Some t.

Definition header_ok (header : RawMessage) : Prop :=
  header = "" ∨
  Valid header = true ∧ embeddable (compact_from false false header) = true ∧
    tight (compact_from false false header).

(** A head JSON can carry. *)
Record json_head (h : Head) : Prop := mkJsonHead {
  jh_text : Forall (λ s, valid_utf8 s = true)
    [Chain h; Family h; Commitment h; Hash h; ParentHash h; Origin h];
  jh_numbers : Forall u64_wf [Number h; Generation h; ReorgEpoch h];
  jh_times : Forall time_ok [ObservedAt h; ChangedAt h];
  jh_header : header_ok (Header h)
}.

Definition unless_empty (s : string) (member : string * RawMessage) : list (string * RawMessage) :=
  if String.eqb s "" then [] else [member].

(** The members a head is written with. *)
Definition head_members (h : Head) : list (string * RawMessage) :=
  [ ("chain", Marshal_string (Chain h));
    ("family", Marshal_string (Family h));
    ("commitment", Marshal_string (Commitment h));
    ("number", pretty (Number h)) ]
  ++ unless_empty (Hash h) ("hash", Marshal_string (Hash h))
  ++ unless_empty (ParentHash h) ("parent_hash", Marshal_string (ParentHash h))
  ++ [ ("generation", pretty (Generation h));
       ("reorg_epoch", pretty (ReorgEpoch h));
       ("reorg_pending", Marshal_bool (ReorgPending h));
       ("observed_at", Marshal_string (format_time (ObservedAt h)));
       ("changed_at", Marshal_string (format_time (ChangedAt h)));
       ("origin", Marshal_string (Origin h)) ]
  ++ unless_empty (Header h) ("header", compact_from false false (Header h)).

Lemma Marshal_Head_members h : header_ok (Header h) → Marshal_Head h = Some (object_text (head_members h)).
Proof.
  intros Hh. unfold Marshal_Head, object_text, head_members, unless_empty.
  assert (∃ raw, Marshal_raw (Header h) = Some raw ∧
    (Header h ≠ "" → raw = compact_from false false (Header h))) as (raw & -> & Hraw).
  { unfold Marshal_raw. destruct Hh as [->|(Hv & _)]; [by exists "null"|]. rewrite Hv.
    destruct (Header h); [by exists "null"|eauto]. }
  simpl. destruct (String.eqb_spec (Header h) ""), (String.eqb (Hash h) ""), (String.eqb (ParentHash h) "");
    rewrite ?Hraw by done; done.
Qed.

Lemma head_members_ok h : json_head h → Forall member_ok (head_members h).
Proof.
  intros [Ht Hn Htime Hh]. rewrite !Forall_cons in Ht; rewrite !Forall_cons in Hn; rewrite !Forall_cons in Htime. unfold time_ok in Htime.
  assert (∀ s m, member_ok m → Forall member_ok (unless_empty s m)) as Hopt.
  { intros s m Hm. unfold unless_empty. destruct (String.eqb _ _); [done|by apply Forall_singleton]. }
  assert (∀ z, u64_wf z → (0 ≤ z)%Z) by (intros; u64_lia).
  assert (Forall member_ok (unless_empty (Header h) ("header", compact_from false false (Header h)))).
  { unfold unless_empty. destruct (String.eqb_spec (Header h) ""); [done|]. apply Forall_singleton.
    destruct Hh as [?|(_ & ? & ?)]; [done|]. split; [done|]. by apply embedded_text. }
  unfold head_members. rewrite !Forall_app, !Forall_cons.
  split_and!; try done; try apply Hopt; (split; [done|]);
    first [apply literal_text; tauto|apply number_text; intuition auto|apply bool_text].
Qed.

(** Look a field up in a list of members, one member at a time. *)
Ltac read_members :=
  repeat first [rewrite field_other by reflexivity
    |erewrite field_named; [|reflexivity|
       first [apply Unmarshal_bool_text|apply Unmarshal_uint64_numeral; tauto
             |apply Unmarshal_string_literal; tauto|eassumption]]
    |rewrite field_nil]; cbn [mbind option_bind].

Lemma Unmarshal_time_literal cur t : time_ok t → Unmarshal_time cur (Marshal_string (format_time t)) = Some t.
Proof. intros [Hv Hp]. unfold Unmarshal_time. by rewrite decode_literal. Qed.

Lemma Unmarshal_Head_members h : json_head h → Unmarshal_Head (object_text (head_members h)) = Some (compacted h).
Proof.
  intros Hj. assert (Unmarshal_struct (object_text (head_members h)) = Some (head_members h)) as Hms.
  { unfold Unmarshal_struct, head_members. rewrite <- app_comm_cons, decode_object; [done|].
    rewrite app_comm_cons. by apply head_members_ok. }
  unfold Unmarshal_Head, Unmarshal_Head_into. rewrite Hms. cbn [mbind option_bind].
  destruct Hj as [Ht Hn Htime Hh]. rewrite !Forall_cons in Ht; rewrite !Forall_cons in Hn; rewrite !Forall_cons in Htime.
  pose proof (Unmarshal_time_literal 0%Z (ObservedAt h) ltac:(tauto)) as Hobserved.
  pose proof (Unmarshal_time_literal 0%Z (ChangedAt h) ltac:(tauto)) as Hchanged.
  assert (Header h ≠ "" → Unmarshal_raw "" (compact_from false false (Header h)) =
    Some (compact_from false false (Header h))) as Hraw.
  { intros ?. destruct Hh as [?|(_ & ? & ?)]; [done|]. by apply Unmarshal_raw_text, embedded_text. }
  unfold head_members, unless_empty, compacted.
  destruct (String.eqb_spec (Hash h) "") as [->|], (String.eqb_spec (ParentHash h) "") as [->|],
    (String.eqb_spec (Header h) "") as [->|]; cbn [app]; try specialize (Hraw ltac:(done)); read_members; done.
Qed.

Lemma Marshal_Unmarshal_Head h : json_head h → ∃ raw, Marshal_Head h = Some raw ∧ Unmarshal_Head raw = Some (compacted h).
Proof.
  intros Hj. exists (object_text (head_members h)). split; [apply Marshal_Head_members, Hj|].
  by apply Unmarshal_Head_members.
Qed.

Lemma compacted_id h : compact_from false false (Header h) = Header h → compacted h = h.
Proof. intros Hc. unfold compacted. rewrite Hc. by destruct h. Qed.

End roundtrip.

(** A head with awkward texts, extreme numbers and an embedded header. *)
Definition awkward_head : Head :=
  mkHead (js "a'b\<&>") "evm" Latest 18446744073709551615 "0xab" "" 0 7 true 5 6
    (String (ascii_of_N 226) (String (ascii_of_N 128) (String (ascii_of_N 168) (String (ascii_of_N 10) ""))))
    (js "{'number': '0x5', 'n' : [1, -2.5e3, null, {}] }").

