(* ===== verification/Redis.v ===== *)
(** * Redis and the store's scripts — internal/head/redis.go, the Lua sources

    The server is a parameter: a class of one function, a command executed on the
    server's state, with a law that says what the documentation of each command
    promises of the keyspace.  The five scripts are translated statement by statement
    in a monad of the server's state: [redis.call] raises the server's errors, which
    end the script and keep what it has done.  Redis runs a script without letting
    anything else in between.  The JSON library of the scripts is a parameter too. *)

From S2P Require Import Prelude GoStrings GoJson Head World.
From Stdlib Require Import Ascii.

#[local] Set Warnings "-register-all".

(** ** The keyspace *)

(** Identifiers of stream entries: milliseconds and a sequence number. *)
Definition stream_id : Type := Z * Z.

Definition id_text (i : stream_id) : string := pretty i.1 +:+ "-" +:+ pretty i.2.

Definition id_lt (a b : stream_id) : Prop := (a.1 < b.1 ∨ a.1 = b.1 ∧ a.2 < b.2)%Z.

#[export] Instance id_lt_dec a b : Decision (id_lt a b).
Proof. unfold id_lt. apply _. Defined.

Definition stream_entry : Type := stream_id * list (string * string).

Inductive robject :=
| RString (value : string)
| RHash (fields : gmap string string)
| RStream (last_id : stream_id) (entries : list stream_entry).

(** An object, and whether it has a time to live. *)
Abbreviation keyspace := (gmap string (robject * bool)).

Inductive command :=
| EXISTS (key : string)
| INCR (key : string)
| PSETEX (key milliseconds value : string)
| GET (key : string)
| PEXPIRE (key milliseconds : string)
| DEL (key : string)
| HGET (key field : string)
| HSET (key field value : string)
| XADD (key maxlen : string) (fields : list (string * string))
| HGETALL (key : string)
| XREVRANGE (key : string)                    (* + - COUNT 1 *)
| XREAD (key after : string) (count : Z)      (* BLOCK *)
| XRANGE (key id : string).                   (* id id COUNT 1 *)

Inductive reply :=
| RpNil
| RpInt (z : Z)
| RpStr (s : string)
| RpArr (l : list reply)
| RpMap (m : gmap string string)
| RpMsgs (l : list stream_entry).

(** What a key reads as for commands on hashes and on streams; [None] is a key of
    another type. *)
Definition hash_at (k : keyspace) (key : string) : option (gmap string string * bool) :=
  match k !! key with
  | None => Some (∅, false)
  | Some (RHash h, ttl) => Some (h, ttl)
  | Some _ => None
  end.

Definition stream_at (k : keyspace) (key : string) : option (stream_id * list stream_entry * bool) :=
  match k !! key with
  | None => Some (0, 0, [], false)%Z
  | Some (RStream i l, ttl) => Some (i, l, ttl)
  | Some _ => None
  end.

Definition counter_at (k : keyspace) (key : string) : option (string * bool) :=
  match k !! key with
  | None => Some ("0", false)
  | Some (RString s, ttl) => Some (s, ttl)
  | Some _ => None
  end.

Definition keep_last {A} (n : nat) (l : list A) : list A := drop (length l - n) l.

Definition after_id (i : stream_id) (l : list stream_entry) : list stream_entry :=
  filter (λ e, id_lt i e.1) l.

Definition first_of {A} (count : Z) (l : list A) : list A :=
  if (0 <? count)%Z then take (Z.to_nat count) l else l.

(** What a reply promises: the keyspace before and after.  Any command may fail, for a
    key of another type, for want of memory or for its arguments, and then changes
    nothing. *)
Definition executed (c : command) (k : keyspace) (rp : reply) (k' : keyspace) : Prop :=
  match c with
  | EXISTS key => rp = RpInt (if bool_decide (is_Some (k !! key)) then 1 else 0) ∧ k' = k
  | INCR key =>
      ∃ n ttl, counter_at k key = Some (pretty n, ttl) ∧ rp = RpInt (n + 1) ∧
        k' = <[key := (RString (pretty (n + 1)%Z), ttl)]> k
  | PSETEX key ms v =>
      ∃ n : Z, ms = pretty n ∧ (0 < n)%Z ∧ rp = RpStr "OK" ∧ k' = <[key := (RString v, true)]> k
  | GET key =>
      k' = k ∧ match k !! key with
               | None => rp = RpNil
               | Some (RString s, _) => rp = RpStr s
               | Some _ => False
               end
  | PEXPIRE key ms =>
      ∃ n : Z, ms = pretty n ∧
        match k !! key with
        | None => rp = RpInt 0 ∧ k' = k
        | Some (o, _) =>
            rp = RpInt 1 ∧ k' = if (0 <? n)%Z then <[key := (o, true)]> k else delete key k
        end
  | DEL key => rp = RpInt (if bool_decide (is_Some (k !! key)) then 1 else 0) ∧ k' = delete key k
  | HGET key f =>
      k' = k ∧ ∃ h ttl, hash_at k key = Some (h, ttl) ∧ rp = from_option RpStr RpNil (h !! f)
  | HSET key f v =>
      ∃ h ttl, hash_at k key = Some (h, ttl) ∧ k' = <[key := (RHash (<[f := v]> h), ttl)]> k
  | XADD key maxlen fields =>
      ∃ (n : Z) i last l ttl, maxlen = pretty n ∧ (0 ≤ n)%Z ∧ stream_at k key = Some (last, l, ttl) ∧
        id_lt last i ∧ (0 ≤ i.2)%Z ∧ rp = RpStr (id_text i) ∧
        k' = <[key := (RStream i (keep_last (Z.to_nat n) (l ++ [(i, fields)])), ttl)]> k
  | HGETALL key => k' = k ∧ ∃ h ttl, hash_at k key = Some (h, ttl) ∧ rp = RpMap h
  | XREVRANGE key =>
      k' = k ∧ ∃ last l ttl, stream_at k key = Some (last, l, ttl) ∧
        rp = RpMsgs (from_option (λ e, [e]) [] (list.last l))
  | XREAD key after count =>
      k' = k ∧ ∃ last l ttl, stream_at k key = Some (last, l, ttl) ∧
        (∀ i, (0 ≤ i.2)%Z → after = id_text i →
           rp = match after_id i l with [] => RpNil | l => RpMsgs (first_of count l) end) ∧
        ∀ messages, rp = RpMsgs messages → messages ⊆ l
  | XRANGE key id =>
      k' = k ∧ ∀ i, (0 ≤ i.2)%Z → id = id_text i → ∃ last l ttl, stream_at k key = Some (last, l, ttl) ∧
        rp = RpMsgs (filter (λ e, e.1 = i) l)
  end.

Class Redis (R : Type) := {
  redis_call : command → R → result string reply * R
}.

Class RedisLaws (R : Type) `{Redis R} := {
  rd_keys : R → keyspace;
  rd_call c r res r' : redis_call c r = (res, r') →
    match res with
    | Err _ => rd_keys r' = rd_keys r
    | Ok rp => executed c (rd_keys r) rp (rd_keys r')
    end
}.

(** ** Lua

    The values the scripts handle.  Numbers are doubles; the scripts only compute with
    whole ones.  [LOther] is any value they pass on without looking inside. *)

Inductive lua :=
| LNil
| LBool (b : bool)
| LNum (z : Z)
| LStr (s : string)
| LTable (fields : list (string * lua))
| LList (l : list lua)
| LOther (text : string).

Definition truthy (v : lua) : bool :=
  match v with LNil | LBool false => false | _ => true end.

(** [==]; two tables are never the same object here. *)
Definition lua_eqb (a b : lua) : bool :=
  match a, b with
  | LNil, LNil => true
  | LBool x, LBool y => Bool.eqb x y
  | LNum x, LNum y => (x =? y)%Z
  | LStr x, LStr y => String.eqb x y
  | _, _ => false
  end.

Definition lua_or (a b : lua) : lua := if truthy a then a else b.

(** Division rounded to the nearest, ties to even. *)
Definition round_div (m d : Z) : Z :=
  let q := (m / d)%Z in let r := (m mod d)%Z in
  if (d <? 2 * r)%Z || ((2 * r =? d)%Z && Z.odd q) then (q + 1)%Z else q.

(** The double nearest to a whole number. *)
Definition double (z : Z) : Z :=
  let m := Z.abs z in
  if (m <=? 2 ^ 53)%Z then z
  else let d := (2 ^ (Z.log2 m - 52))%Z in (Z.sgn z * (round_div m d * d))%Z.

Fixpoint strip_zeros (s : string) : string :=
  match s with
  | EmptyString => EmptyString
  | String c r => if is_char 48 c then strip_zeros r else s
  end.

(** [%.<p>g] of a whole number. *)
Definition format_g (p : Z) (z : Z) : string :=
  let m := Z.abs z in
  if (m <? 10 ^ p)%Z then pretty z
  else
    let n := len (pretty m) in
    let q := round_div m (10 ^ (n - p)) in
    let* (q, e) := (if q =? 10 ^ p then (10 ^ (p - 1), n) else (q, n - 1))%Z in
    match pretty q with
    | EmptyString => EmptyString
    | String d ds =>
        let fraction := String.rev (strip_zeros (String.rev ds)) in
        (if z <? 0 then "-" else "")%Z +:+ String d "" +:+
        (if String.eqb fraction "" then "" else "." +:+ fraction) +:+ "e+" +:+ pretty e
    end.

(** [tostring], for the operands of [..] *)
Definition concat_text (v : lua) : result string string :=
  match v with
  | LStr s => Ok s
  | LNum z => Ok (format_g 14 z)
  | _ => Err "attempt to concatenate a value"
  end.

(** An argument of [redis.call] *)
Definition argument (v : lua) : result string string :=
  match v with
  | LStr s => Ok s
  | LNum z => Ok (format_g 17 z)
  | _ => Err "Lua redis lib command arguments must be strings or integers"
  end.

Fixpoint table_get (fields : list (string * lua)) (k : string) : lua :=
  match fields with
  | [] => LNil
  | (k', v) :: r => if String.eqb k' k then v else table_get r k
  end.

Fixpoint table_set (fields : list (string * lua)) (k : string) (v : lua) : list (string * lua) :=
  match fields with
  | [] => [(k, v)]
  | (k', v') :: r => if String.eqb k' k then (k, v) :: r else (k', v') :: table_set r k v
  end.

(** [v[k]] for the names the scripts use, none of which the string library has. *)
Definition index (v : lua) (k : string) : result string lua :=
  match v with
  | LTable fields => Ok (table_get fields k)
  | LList _ | LStr _ => Ok LNil
  | _ => Err "attempt to index a value"
  end.

(** [v[k] = x]; an array never gets this far. *)
Definition assign (v : lua) (k : string) (x : lua) : result string lua :=
  match v with
  | LTable fields => Ok (LTable (table_set fields k x))
  | _ => Err "attempt to index a value"
  end.

(** The scripts' JSON library, and how Lua reads numbers from strings. *)
Class Cjson := {
  cjson_decode : string → result string lua;
  cjson_encode : lua → result string string;
  lua_tonumber : string → option Z
}.

Definition add `{Cjson} (a : lua) (n : Z) : result string lua :=
  match a with
  | LNum z => Ok (LNum (double (z + n)))
  | LStr s => match lua_tonumber s with
              | Some z => Ok (LNum (double (z + n)))
              | None => Err "attempt to perform arithmetic on a value"
              end
  | _ => Err "attempt to perform arithmetic on a value"
  end.

(** A reply of the server as a Lua value, and the value a script returns as a reply:
    a list ends at its first nil. *)
Definition to_lua (rp : reply) : lua :=
  match rp with
  | RpNil => LBool false
  | RpInt z => LNum (double z)
  | RpStr s => LStr s
  | _ => LOther ""
  end.

Fixpoint of_lua (v : lua) : reply :=
  match v with
  | LNum z => RpInt z
  | LStr s => RpStr s
  | LBool true => RpInt 1
  | LList l =>
      RpArr ((fix go l := match l with
                          | [] | LNil :: _ => []
                          | x :: r => of_lua x :: go r
                          end) l)
  | LTable _ => RpArr []
  | _ => RpNil
  end.

(** ** Scripts *)

Definition script (R A : Type) : Type := R → result string A * R.

#[export] Instance script_ret R : MRet (script R) := λ A a r, (Ok a, r).

#[export] Instance script_bind R : MBind (script R) := λ A B k m r,
  let* (res, r) := m r in
  match res with Ok a => k a r | Err e => (Err e, r) end.

(** A computation that does not touch the server. *)
Definition pure {R A} (x : result string A) : script R A := λ r, (x, r).

Section scripts.
  Context {R : Type} `{Redis R, Cjson}.

(** [redis.call] *)
Definition call (c : command) : script R lua := λ r,
  let* (res, r) := redis_call c r in (let? rp := res in Ok (to_lua rp), r).

(* go: head/redis.go:31-37 acquireScriptSource *)
Definition acquireScript (key1 key2 argv1 argv2 : string) : script R lua :=
  present ← call (EXISTS key1);
  if lua_eqb present (LNum 1) then mret (LList [LNum 0; LStr ""]) else
  fence ← call (INCR key2);
  fence ← pure (concat_text fence);
  let token := argv1 +:+ ":" +:+ fence in
  _ ← call (PSETEX key1 argv2 token);
  mret (LList [LNum 1; LStr token]).

(* go: head/redis.go:39-43 renewScriptSource *)
Definition renewScript (key1 argv1 argv2 : string) : script R lua :=
  owner ← call (GET key1);
  if negb (lua_eqb owner (LStr argv1)) then mret (LNum 0) else
  _ ← call (PEXPIRE key1 argv2);
  mret (LNum 1).

(* go: head/redis.go:45-48 releaseScriptSource *)
Definition releaseScript (key1 argv1 : string) : script R lua :=
  owner ← call (GET key1);
  if lua_eqb owner (LStr argv1) then call (DEL key1) else mret (LNum 0).

(** [cjson.decode] of a reply *)
Definition decode_reply (v : lua) : script R lua :=
  text ← pure (argument v); pure (cjson_decode text).

Definition is_evm_latest_table (family commitment : lua) : bool :=
  lua_eqb family (LStr "evm") && lua_eqb commitment (LStr "latest").

(** Whether the publication does not acknowledge the chain's reorg epoch. *)
(* go: head/redis.go:55-57 publishScriptSource *)
Definition epoch_changed (incoming currentRaw : lua) : script R bool :=
  epoch ← (if truthy currentRaw then
             current ← decode_reply currentRaw;
             epoch ← pure (index current "reorg_epoch");
             mret (lua_or epoch (LNum 0))
           else mret (LNum 0));
  pending ← pure (index incoming "reorg_pending");
  if truthy pending then mret true else
  acknowledged ← pure (index incoming "reorg_epoch");
  mret (negb (lua_eqb (lua_or acknowledged (LNum 0)) epoch)).

(* go: head/redis.go:61-63 publishScriptSource *)
Definition same_block (current incoming : lua) : script R bool :=
  hash ← pure (index incoming "hash");
  if truthy hash && negb (lua_eqb hash (LStr "")) then
    current_hash ← pure (index current "hash");
    mret (lua_eqb current_hash hash)
  else
    current_number ← pure (index current "number");
    number ← pure (index incoming "number");
    mret (lua_eqb current_number number).

(* go: head/redis.go:65-69 publishScriptSource *)
Definition refresh_head (key2 commitment : string) (current incoming : lua) : script R lua :=
  generation ← pure (index current "generation");
  incoming ← pure (assign incoming "generation" generation);
  changed_at ← pure (index current "changed_at");
  incoming ← (if truthy changed_at then pure (assign incoming "changed_at" changed_at)
              else mret incoming);
  refreshed ← pure (cjson_encode incoming);
  _ ← call (HSET key2 commitment refreshed);
  mret (LList [generation; LStr refreshed]).

(* go: head/redis.go:72-79 publishScriptSource *)
Definition append_head (key2 key3 key4 argv3 commitment : string) (evm_latest : bool) (incoming : lua)
    : script R lua :=
  generation ← call (INCR key3);
  incoming ← pure (assign incoming "generation" generation);
  encoded ← pure (cjson_encode incoming);
  _ ← call (HSET key2 commitment encoded);
  _ ← (if evm_latest then call (XADD key4 argv3 [("head", encoded)]) else mret LNil);
  mret (LList [generation; LStr encoded]).

(* go: head/redis.go:50-80 publishScriptSource *)
Definition publishScript (key1 key2 key3 key4 argv1 argv2 argv3 : string) : script R lua :=
  owner ← call (GET key1);
  if negb (lua_eqb owner (LStr argv1)) then mret (LList [LNum (-1); LStr ""]) else
  incoming ← pure (cjson_decode argv2);
  commitment ← pure (index incoming "commitment");
  commitment_text ← pure (argument commitment);
  currentRaw ← call (HGET key2 commitment_text);
  family ← pure (index incoming "family");
  fenced ← (if is_evm_latest_table family commitment then epoch_changed incoming currentRaw
            else mret false);
  if (fenced : bool) then mret (LList [LNum (-2); LStr ""]) else
  if truthy currentRaw then
    current ← decode_reply currentRaw;
    same ← same_block current incoming;
    if (same : bool) then refresh_head key2 commitment_text current incoming
    else append_head key2 key3 key4 argv3 commitment_text (is_evm_latest_table family commitment) incoming
  else append_head key2 key3 key4 argv3 commitment_text (is_evm_latest_table family commitment) incoming.

(* go: head/redis.go:82-95 beginReorgScriptSource *)
Definition beginReorgScript (key1 key2 argv1 : string) : script R lua :=
  owner ← call (GET key1);
  if negb (lua_eqb owner (LStr argv1)) then mret (LList [LNum (-1); LStr ""]) else
  raw ← call (HGET key2 "latest");
  if negb (truthy raw) then mret (LList [LNum (-2); LStr ""]) else
  current ← decode_reply raw;
  family ← pure (index current "family");
  if negb (lua_eqb family (LStr "evm")) then mret (LList [LNum (-2); LStr ""]) else
  pending ← pure (index current "reorg_pending");
  if truthy pending then mret (LList [LNum 1; raw]) else
  epoch ← pure (index current "reorg_epoch");
  epoch ← pure (add (lua_or epoch (LNum 0)) 1);
  current ← pure (assign current "reorg_epoch" epoch);
  current ← pure (assign current "reorg_pending" (LBool true));
  raw ← pure (cjson_encode current);
  _ ← call (HSET key2 "latest" raw);
  mret (LList [LNum 1; LStr raw]).
End scripts.
