(* ===== verification/RedisStore.v ===== *)
(** * The shared head store — internal/head/redis.go, [RedisStore]

    Every method runs one script or a few commands through the Redis client and checks
    what comes back.  The client (go-redis) is a parameter: [redis_do] runs a
    computation on the server some number of times, as it retries what failed, while
    other clients use the server; its answer, if it has one, is that of the last run. *)

From S2P Require Import Prelude GoStrings GoJson Head MemoryStore World HeadJson Redis.
From Stdlib Require Import Ascii.

(** ** The client *)

(** [redis_error] is the client's error for a reply of an unexpected type,
    [redis_ParseInt] how it reads an integer from a string. *)
Class RedisClient (W R : Type) := {
  redis_do : ∀ A : Type, script R A → Context → W → result goerror A * W;
  redis_Ping : Context → W → option goerror * W;
  redis_Close : W → option goerror * W;
  redis_ParseURL : string → option goerror;
  redis_error : reply → goerror;
  redis_ParseInt : string → result goerror Z
}.

Arguments redis_do {W R _} {A} s ctx w.
Arguments redis_Ping {W} R {_} ctx w.
Arguments redis_Close {W} R {_} w.
Arguments redis_ParseURL {W} R {_} url.
Arguments redis_error {W} R {_} rp.
Arguments redis_ParseInt {W} R {_} s.

(** [redis.Nil] *)
Definition redis_Nil : goerror := ErrNew "redis: nil".

(* go: head/redis.go:13-22 RedisStore *)
Record RedisStore := mkRedisStore { rs_prefix : string; rs_streamMax : Z }.

(* go: head/redis.go:24-29 RedisStoreOptions *)
Record RedisStoreOptions := mkRedisStoreOptions {
  ro_URL : string;
  ro_KeyPrefix : string;
  ro_StreamMaxLength : Z
}.

(* go: head/redis.go:126-128 RedisStore.key *)
Definition key (r : RedisStore) (chain suffix : string) : string :=
  rs_prefix r +:+ ":{" +:+ chain +:+ "}:" +:+ suffix.

(** [time.Duration.Milliseconds] *)
Definition Milliseconds (d : Z) : Z := Z.quot d 1000000.

Definition failed {A} (before : string) (e : goerror) : result store_error A :=
  Err (StoreFailure (before +:+ error_text e)).

Definition invalid {A} (message : string) : result store_error A := Err (StoreFailure message).

Section methods.
  Context {W R : Type} `{World W, Redis R, Cjson, RedisClient W R}.
  Variable json_error : string → string.   (* texts of encoding/json errors *)
  Variable range_order : gmap string string → list string.

(* go: head/redis.go:97-113 NewRedisStore *)
Definition NewRedisStore (options : RedisStoreOptions) : result goerror RedisStore :=
  match redis_ParseURL R (ro_URL options) with
  | Some e => Err (Errorf "parse redis url: " e "")
  | None => Ok (mkRedisStore (ro_KeyPrefix options) (ro_StreamMaxLength options))
  end.

(* go: head/redis.go:115-116 RedisStore.Close *)
Definition Close (w : W) : option goerror * W := redis_Close R w.

(* go: head/redis.go:118-124 RedisStore.Ping *)
Definition Ping (ctx : Context) (w : W) : option goerror * W :=
  let* (err, w) := redis_Ping R ctx w in
  (match err with Some e => Some (Errorf "ping redis: " e "") | None => None end, w).

(** [Script.Run] *)
Definition run_script (s : script R lua) (ctx : Context) (w : W) : result goerror reply * W :=
  redis_do (v ← s; mret (of_lua v)) ctx w.

(** A single command *)
Definition run_command (c : command) (ctx : Context) (w : W) : result goerror reply * W :=
  redis_do (redis_call c : script R reply) ctx w.

(** [Cmd.Slice] and [Cmd.Int64] *)
Definition Slice (rp : reply) : result goerror (list reply) :=
  match rp with
  | RpArr l => Ok l
  | RpNil => Err redis_Nil
  | _ => Err (redis_error R rp)
  end.

Definition Int64 (rp : reply) : result goerror Z :=
  match rp with
  | RpInt z => Ok z
  | RpStr s => redis_ParseInt R s
  | RpNil => Err redis_Nil
  | _ => Err (redis_error R rp)
  end.

(* go: head/redis.go:130-148 RedisStore.Acquire *)
Definition Acquire (r : RedisStore) (ctx : Context) (chain owner : string) (ttl : Z) (w : W)
    : result store_error (string * bool) * W :=
  let during := "acquire redis leadership for " +:+ chain +:+ ": " in
  let* (response, w) := run_script (acquireScript (key r chain "leader") (key r chain "fence") owner
                          (pretty (Milliseconds ttl))) ctx w in
  (match result_bind response Slice with
   | Err e => failed during e
   | Ok [RpInt acquired; RpStr token] => Ok (token, (acquired =? 1)%Z)
   | Ok [RpInt _; _] => invalid (during +:+ "invalid fencing token")
   | Ok [_; _] => invalid (during +:+ "invalid acquisition flag")
   | Ok _ => invalid (during +:+ "invalid script response")
   end, w).

(* go: head/redis.go:150-157 RedisStore.Renew *)
Definition Renew (r : RedisStore) (ctx : Context) (chain token : string) (ttl : Z) (w : W)
    : result store_error bool * W :=
  let* (response, w) := run_script (renewScript (key r chain "leader") token
                          (pretty (Milliseconds ttl))) ctx w in
  (match result_bind response Int64 with
   | Err e => failed ("renew redis leadership for " +:+ chain +:+ ": ") e
   | Ok renewed => Ok (renewed =? 1)%Z
   end, w).

(* go: head/redis.go:159-165 RedisStore.Release *)
Definition Release (r : RedisStore) (ctx : Context) (chain token : string) (w : W)
    : result store_error unit * W :=
  let* (response, w) := run_script (releaseScript (key r chain "leader") token) ctx w in
  (match response with
   | Err e => failed ("release redis leadership for " +:+ chain +:+ ": ") e
   | Ok RpNil => failed ("release redis leadership for " +:+ chain +:+ ": ") redis_Nil
   | Ok _ => Ok ()
   end, w).

(* go: head/redis.go:167-202 RedisStore.Publish *)
Definition Publish (r : RedisStore) (ctx : Context) (token : string) (acceptedHead : Head) (w : W)
    : result store_error Head * W :=
  let acceptedHead := stamp_ChangedAt acceptedHead in
  let chain := Chain acceptedHead in
  let during := "publish accepted head for " +:+ chain +:+ ": " in
  match Marshal_Head acceptedHead with
  | None => (invalid ("encode accepted head: " +:+ json_error (Header acceptedHead)), w)
  | Some encodedHead =>
      let* (response, w) := run_script (publishScript (key r chain "leader") (key r chain "heads")
                              (key r chain "generation") (key r chain "events")
                              token encodedHead (pretty (rs_streamMax r))) ctx w in
      (match result_bind response Slice with
       | Err e => failed during e
       | Ok [RpInt generation; second] =>
           if (generation =? -1)%Z then Err ErrLeadershipLost
           else if (generation =? -2)%Z then Err ErrReorgFence
           else match second with
                | RpStr refreshed =>
                    match Unmarshal_Head_into acceptedHead refreshed with
                    | Some published => Ok published
                    | None => invalid ("decode published head for " +:+ chain +:+ ": " +:+ json_error refreshed)
                    end
                | _ => invalid (during +:+ "invalid encoded head")
                end
       | Ok [_; _] => invalid (during +:+ "invalid generation")
       | Ok _ => invalid (during +:+ "invalid script response")
       end, w)
  end.

(* go: head/redis.go:204-233 RedisStore.BeginReorg *)
Definition BeginReorg (r : RedisStore) (ctx : Context) (chain token : string) (w : W)
    : result store_error Head * W :=
  let* (response, w) := run_script (beginReorgScript (key r chain "leader") (key r chain "heads") token)
                          ctx w in
  (match result_bind response Slice with
   | Err e => failed ("begin redis reorg for " +:+ chain +:+ ": ") e
   | Ok [RpInt status; second] =>
       if (status =? -1)%Z then Err ErrLeadershipLost
       else if (status =? -2)%Z then Err ErrReorgFence
       else match second with
            | RpStr encodedHead =>
                if negb (status =? 1)%Z then invalid "invalid redis reorg head"
                else match Unmarshal_Head encodedHead with
                     | Some current => Ok current
                     | None => invalid ("decode redis reorg head: " +:+ json_error encodedHead)
                     end
            | _ => invalid "invalid redis reorg head"
            end
   | Ok [_; _] => invalid "invalid redis reorg status"
   | Ok _ => invalid "invalid redis reorg response"
   end, w).

(** The loop over the hash *)
(* go: head/redis.go:242-248 RedisStore.Snapshot *)
Fixpoint decode_heads (values : gmap string string) (commitments : list string)
    (heads : gmap string Head) : result store_error (gmap string Head) :=
  match commitments with
  | [] => Ok heads
  | commitment :: rest =>
      let raw := default "" (values !! commitment) in
      match Unmarshal_Head raw with
      | Some acceptedHead => decode_heads values rest (<[commitment := acceptedHead]> heads)
      | None => invalid ("decode " +:+ commitment +:+ " head: " +:+ json_error raw)
      end
  end.

(* go: head/redis.go:235-250 RedisStore.Snapshot *)
Definition Snapshot_ (r : RedisStore) (ctx : Context) (chain : string) (w : W)
    : result store_error Snapshot * W :=
  let* (response, w) := run_command (HGETALL (key r chain "heads")) ctx w in
  (match response with
   | Ok (RpMap values) =>
       let? heads := decode_heads values (range_order values) ∅ in Ok (mkSnapshot chain heads)
   | Ok rp => failed ("read redis head snapshot for " +:+ chain +:+ ": ") (redis_error R rp)
   | Err e => failed ("read redis head snapshot for " +:+ chain +:+ ": ") e
   end, w).

(** [message.Values]: a repeated field keeps its last value. *)
Definition message_values (fields : list (string * string)) : gmap string string :=
  fold_left (λ m '(k, v), <[k := v]> m) fields ∅.

(* go: head/redis.go:308-318 RedisStore.getEvent *)
Definition getEvent (message : stream_entry) : result store_error Event :=
  match message_values message.2 !! "head" with
  | None => invalid "head stream event has no encoded header"
  | Some encodedHead =>
      match Unmarshal_Head encodedHead with
      | Some acceptedHead => Ok (mkEvent (id_text message.1) acceptedHead)
      | None => invalid ("decode redis head event " +:+ id_text message.1 +:+ ": " +:+ json_error encodedHead)
      end
  end.

(** The messages of a reply *)
Definition Messages (rp : reply) : result goerror (list stream_entry) :=
  match rp with
  | RpMsgs l => Ok l
  | RpNil => Err redis_Nil
  | _ => Err (redis_error R rp)
  end.

(* go: head/redis.go:258-271 RedisStore.StreamStart *)
Definition StreamStart (r : RedisStore) (ctx : Context) (chain : string) (w : W)
    : result store_error Event * W :=
  let* (response, w) := run_command (XREVRANGE (key r chain "events")) ctx w in
  (match result_bind response Messages with
   | Err e => if errors_Is redis_Nil e then Ok (mkEvent "0-0" zero_Head)
              else failed ("read redis stream cursor for " +:+ chain +:+ ": ") e
   | Ok [] => Ok (mkEvent "0-0" zero_Head)
   | Ok (message :: _) => getEvent message
   end, w).

(* go: head/redis.go:252-256 RedisStore.StreamCursor *)
Definition StreamCursor (r : RedisStore) (ctx : Context) (chain : string) (w : W)
    : result store_error string * W :=
  let* (checkpoint, w) := StreamStart r ctx chain w in
  (match checkpoint with Ok e => Ok (ev_ID e) | Err e => Err e end, w).

Fixpoint get_events (messages : list stream_entry) : result store_error (list Event) :=
  match messages with
  | [] => Ok []
  | m :: rest => let? e := getEvent m in let? es := get_events rest in Ok (e :: es)
  end.

(** Whether the cursor's entry is still there *)
(* go: head/redis.go:280-288 RedisStore.ReadEvents *)
Definition check_retention (r : RedisStore) (ctx : Context) (chain afterCursor : string) (w : W)
    : option store_error * W :=
  if String.eqb afterCursor "0-0" then (None, w)
  else
    let* (response, w) := run_command (XRANGE (key r chain "events") afterCursor) ctx w in
    (match result_bind response Messages with
     | Err e => Some (StoreFailure ("check stream retention: " +:+ error_text e))
     | Ok [] => Some ErrStreamGap
     | Ok _ => None
     end, w).

(* go: head/redis.go:273-306 RedisStore.ReadEvents *)
Definition ReadEvents (r : RedisStore) (ctx : Context) (chain afterCursor : string) (count : Z) (w : W)
    : result store_error (list Event) * W :=
  let during := "read redis head events for " +:+ chain +:+ ": " in
  let* (response, w) := run_command (XREAD (key r chain "events") afterCursor count) ctx w in
  let streams := result_bind response Messages in
  let after_check (k : result store_error (list Event)) :=
    let* (gap, w) := check_retention r ctx chain afterCursor w in
    match gap with Some e => (Err e, w) | None => (k, w) end in
  match streams with
  | Err e => if errors_Is redis_Nil e then after_check (Ok []) else (failed during e, w)
  | Ok messages => after_check (get_events messages)
  end.

(** The store the coordinator and the gateway see.  The clock of the leases is the
    server's. *)
#[export] Instance RedisStore_HeadStore (r : RedisStore) (ctx : Context) : HeadStore W := {
  store_Acquire now chain owner ttl := Acquire r ctx chain owner ttl;
  store_Renew now chain token ttl := Renew r ctx chain token ttl;
  store_Release chain token := Release r ctx chain token;
  store_Publish now token h := Publish r ctx token h;
  store_BeginReorg now chain token := BeginReorg r ctx chain token;
  store_Snapshot chain := Snapshot_ r ctx chain;
  store_StreamStart chain := StreamStart r ctx chain
}.
End methods.
