(* ===== verification/SharedStore.v ===== *)
(** * The shared store keeps the promises of the interface

    What a chain's keys show is a [rview]: lease, counters, decoded heads, event
    stream.  Every command of the five scripts changes it as one [view_step], so every
    script, even one that fails half way, is a sequence of such steps; what a script
    answers is specified on the view.  Lost requests, lost replies and the client's
    retries are runs of the same script, so the store promises what [HeadStoreLaws]
    asks, whoever else uses the server. *)

From S2P Require Import Prelude GoStrings GoJson Head MemoryStore World HeadJson Redis RedisStore.
From Stdlib Require Import Ascii.

#[local] Arguments pretty : simpl never.

(** ** Postconditions of scripts

    [post m k E Q]: run on the keyspace [k], the script ends in a keyspace with [E] if
    it fails, and with an answer and a keyspace with [Q] otherwise. *)

Section post.
  Context {R : Type} `{RedisLaws R}.

Definition post {A} (m : script R A) (k : keyspace) (E : keyspace → Prop) (Q : A → keyspace → Prop) : Prop :=
  ∀ r res r', rd_keys r = k → m r = (res, r') →
    match res with Ok a => Q a (rd_keys r') | Err _ => E (rd_keys r') end.

Lemma post_ret {A} (a : A) k (E : keyspace → Prop) (Q : A → keyspace → Prop) : Q a k → post (mret a) k E Q.
Proof. intros HQ r res r' <- [= <- <-]. done. Qed.

Lemma post_pure {A} (x : result string A) k (E : keyspace → Prop) (Q : A → keyspace → Prop) :
  match x with Ok a => Q a k | Err _ => E k end → post (pure x) k E Q.
Proof. intros HQ r res r' <- [= <- <-]. done. Qed.

Lemma post_bind {A B} (m : script R A) (f : A → script R B) k (E : keyspace → Prop) (Q : B → keyspace → Prop) :
  post m k E (λ a k', post (f a) k' E Q) → post (m ≫= f) k E Q.
Proof.
  intros Hm r res r' Hk. unfold mbind, script_bind. destruct (m r) as [[e|a] r1] eqn:Hr.
  - intros [= <- <-]. exact (Hm _ _ _ Hk Hr).
  - intros Hf. exact (Hm _ _ _ Hk Hr _ _ _ eq_refl Hf).
Qed.

Lemma post_call c k (E : keyspace → Prop) (Q : lua → keyspace → Prop) :
  E k → (∀ rp k', executed c k rp k' → Q (to_lua rp) k') → post (call c) k E Q.
Proof.
  intros HE HQ r res r' <-. unfold call. destruct (redis_call c r) as [[e|rp] r1] eqn:Hr;
    intros [= <- <-]; apply rd_call in Hr; simpl.
  - by rewrite Hr.
  - by apply HQ.
Qed.

Lemma post_weaken {A} (m : script R A) k (E E' : keyspace → Prop) (Q Q' : A → keyspace → Prop) :
  post m k E Q → (∀ k', E k' → E' k') → (∀ a k', Q a k' → Q' a k') → post m k E' Q'.
Proof.
  intros Hm HE HQ r res r' Hk Hr. specialize (Hm _ _ _ Hk Hr). destruct res; auto.
Qed.
End post.

(** ** Keys *)

Definition suffix_ok (s : string) : Prop := s ∈ ["leader"; "fence"; "heads"; "generation"; "events"].

Lemma suffix_no_colon s : suffix_ok s → no_colon s.
Proof. unfold suffix_ok. rewrite !elem_of_cons, elem_of_nil. intros Hs. by destruct_or! Hs; subst. Qed.

Lemma string_app_cancel s t u : t +:+ s = u +:+ s → t = u.
Proof.
  assert (∀ t s, String.length (t +:+ s) = (String.length t + String.length s)%nat) as Hlen.
  { clear. induction t as [|c t IH]; intros s; [done|]. rewrite string_app_cons. simpl. by rewrite IH. }
  revert u. induction t as [|c t IH]; intros [|d u] Heq; [done|..].
  - apply (f_equal String.length) in Heq. rewrite !Hlen in Heq. simpl in Heq. lia.
  - apply (f_equal String.length) in Heq. rewrite !Hlen in Heq. simpl in Heq. lia.
  - rewrite !string_app_cons in Heq. injection Heq as -> Heq. by rewrite (IH u).
Qed.

Lemma string_app_cancel_l s t u : s +:+ t = s +:+ u → t = u.
Proof.
  induction s as [|c s IH]; [done|]. rewrite !string_app_cons. intros [=]. by apply IH.
Qed.

(** Different chains and different parts of a chain have different keys, whatever the
    prefix and the names of the chains contain. *)
Lemma key_inj r c s c' s' : suffix_ok s → suffix_ok s' → key r c s = key r c' s' → c = c' ∧ s = s'.
Proof.
  intros Hs%suffix_no_colon Hs'%suffix_no_colon Heq. unfold key in Heq.
  assert (∀ c s, rs_prefix r +:+ ":{" +:+ c +:+ "}:" +:+ s = (rs_prefix r +:+ ":{" +:+ c +:+ "}") +:+ ":" +:+ s) as Hk.
  { intros. by rewrite !string_app_assoc. }
  rewrite !Hk in Heq. pose proof (colon_split _ _ _ _ Hs Hs' Heq) as <-.
  apply string_app_cancel, string_app_cancel_l, string_app_cancel_l, string_app_cancel in Heq. done.
Qed.

Lemma key_ne r c s c' s' : suffix_ok s → suffix_ok s' → (c ≠ c' ∨ s ≠ s') → key r c s ≠ key r c' s'.
Proof. intros Hs Hs' Hne Heq. destruct (key_inj _ _ _ _ _ Hs Hs' Heq) as [-> ->]. by destruct Hne. Qed.

Ltac key_ne :=
  apply key_ne; [unfold suffix_ok; repeat (first [left|right])..|];
  first [by right|by left|tauto|congruence].

(** Identifiers are told apart by their texts. *)
Lemma id_text_inj i j : (0 ≤ i.2)%Z → (0 ≤ j.2)%Z → id_text i = id_text j → i = j.
Proof.
  destruct i as [a b], j as [c d]. simpl. intros Hb Hd Heq. unfold id_text in Heq. simpl in Heq.
  assert (∀ n, (0 ≤ n)%Z → ∀ u v, pretty n ≠ u +:+ "-" +:+ v) as Hno.
  { intros n Hn u v Hp. destruct (decide (n = 0)%Z) as [->|].
    - destruct u as [|? [|]]; discriminate.
    - destruct (pretty_numeral n) as [(x & y & Hxy & Hx & Hy) _]; [lia|].
      assert (all_digits (pretty n) = true) as Hall.
      { rewrite Hxy. simpl. by rewrite (proj1 (first_digit x Hx)). }
      rewrite Hp, all_digits_app, all_digits_app in Hall. rewrite !andb_true_iff in Hall.
      by destruct Hall as (_ & ? & _). }
  assert (∀ x x' y y', (∀ u v, y ≠ u +:+ "-" +:+ v) → (∀ u v, y' ≠ u +:+ "-" +:+ v) →
    x +:+ "-" +:+ y = x' +:+ "-" +:+ y' → x = x' ∧ y = y') as Hsplit.
  { clear. intros x. induction x as [|e x IH]; intros [|e' x'] y y' Hy Hy' Heq.
    - by injection Heq.
    - rewrite string_app_cons in Heq. injection Heq as _ Heq. by apply Hy in Heq.
    - rewrite string_app_cons in Heq. injection Heq as _ Heq. symmetry in Heq. by apply Hy' in Heq.
    - rewrite !string_app_cons in Heq. injection Heq as -> Heq.
      destruct (IH x' y y' Hy Hy' Heq) as [-> ->]. done. }
  destruct (Hsplit _ _ _ _ (Hno b Hb) (Hno d Hd) Heq) as [E1 E2].
  apply (inj pretty) in E1 as ->. by apply (inj pretty) in E2 as ->.
Qed.

(** ** Heads as Lua tables *)

Lemma table_get_set t n m v : table_get (table_set t n v) m = if String.eqb n m then v else table_get t m.
Proof.
  induction t as [|[n' v'] t IH]; simpl; [done|].
  destruct (String.eqb_spec n' n) as [->|Hne]; simpl.
  - by destruct (String.eqb n m).
  - rewrite IH. destruct (String.eqb_spec n' m) as [->|]; [|done].
    destruct (String.eqb_spec n m); congruence.
Qed.

Lemma table_set_names t n v : n ∈ t.*1 → (table_set t n v).*1 = t.*1.
Proof.
  induction t as [|[n' v'] t IH]; csimpl; [by intros ?%elem_of_nil|].
  intros [->|Hn]%elem_of_cons.
  - by rewrite String.eqb_refl.
  - destruct (String.eqb_spec n' n) as [->|]; csimpl; [done|]. by rewrite IH.
Qed.

Lemma table_get_name t n : table_get t n ≠ LNil → n ∈ t.*1.
Proof.
  induction t as [|[n' v'] t IH]; csimpl; [done|]. destruct (String.eqb_spec n' n) as [->|]; [left|right; auto].
Qed.

Definition head_names : list string :=
  ["chain"; "family"; "commitment"; "number"; "hash"; "parent_hash"; "generation"; "reorg_epoch";
   "reorg_pending"; "observed_at"; "changed_at"; "origin"; "header"].

Definition optional (s : string) : lua := if String.eqb s "" then LNil else LStr s.

Section table.
  Context {W : Type} `{World W}.
  Variable carries : RawMessage → lua → Prop.

(** The table a head's JSON decodes to. *)
Record head_table (h : Head) (t : list (string * lua)) : Prop := mkHeadTable {
  ht_names : NoDup t.*1 ∧ t.*1 ⊆ head_names;
  ht_chain : table_get t "chain" = LStr (Chain h);
  ht_family : table_get t "family" = LStr (Family h);
  ht_commitment : table_get t "commitment" = LStr (Commitment h);
  ht_number : table_get t "number" = LNum (Number h);
  ht_hash : table_get t "hash" = optional (Hash h);
  ht_parent : table_get t "parent_hash" = optional (ParentHash h);
  ht_generation : table_get t "generation" = LNum (Generation h);
  ht_epoch : table_get t "reorg_epoch" = LNum (ReorgEpoch h);
  ht_pending : table_get t "reorg_pending" = LBool (ReorgPending h);
  ht_observed : table_get t "observed_at" = LStr (format_time (ObservedAt h));
  ht_changed : table_get t "changed_at" = LStr (format_time (ChangedAt h));
  ht_origin : table_get t "origin" = LStr (Origin h);
  ht_header : carries (Header h) (table_get t "header")
}.

(** Assigning a field keeps the names and the other fields. *)
Lemma table_set_spec h t n v : head_table h t → table_get t n ≠ LNil →
  (∀ m, table_get (table_set t n v) m = if String.eqb n m then v else table_get t m) ∧
  NoDup (table_set t n v).*1 ∧ (table_set t n v).*1 ⊆ head_names.
Proof.
  intros Ht Hn. split; [intros m; apply table_get_set|].
  rewrite table_set_names by by apply table_get_name. apply (ht_names _ _ Ht).
Qed.

Ltac set_field v :=
  let Ht := fresh in let Hn := fresh in let Hg := fresh in let Hnames := fresh in
  intros Ht; match goal with |- head_table _ (table_set ?t ?n _) =>
    assert (table_get t n ≠ LNil) as Hn by (destruct Ht; congruence);
    destruct (table_set_spec _ t n v Ht Hn) as [Hg Hnames]
  end; destruct Ht; split; [exact Hnames|..]; rewrite Hg; simpl; done.

Lemma head_table_generation h t g :
  head_table h t → head_table (with_Generation g h) (table_set t "generation" (LNum g)).
Proof. set_field (LNum g). Qed.

Lemma head_table_changed h t c :
  head_table h t → head_table (with_ChangedAt c h) (table_set t "changed_at" (LStr (format_time c))).
Proof. set_field (LStr (format_time c)). Qed.

Lemma head_table_reorg h t e :
  head_table h t →
  head_table (with_Reorg e true h)
    (table_set (table_set t "reorg_epoch" (LNum e)) "reorg_pending" (LBool true)).
Proof.
  intros Ht. assert (head_table (with_Reorg e (ReorgPending h) h) (table_set t "reorg_epoch" (LNum e))) as Ht'
    by (revert Ht; set_field (LNum e)).
  revert Ht'. generalize (table_set t "reorg_epoch" (LNum e)). intros t'.
  set_field (LBool true).
Qed.
End table.

(** ** The JSON library of the scripts *)

(** Whole numbers up to here are written without an exponent. *)
Definition exact_limit : Z := 100000000000000.

(** [header_recode] is what decoding and encoding does to an embedded header, and
    [carries] relates a header to its Lua value. *)
Class CjsonHeads := {
  header_storable : RawMessage → Prop;
  header_recode : RawMessage → RawMessage;
  carries : RawMessage → lua → Prop
}.

Section storable.
  Context {W : Type} `{World W, Cjson, CjsonHeads}.

(** A head the scripts can handle. *)
Record storable (h : Head) : Prop := mkStorable {
  sb_text : Forall (λ s, valid_utf8 s = true)
    [Chain h; Family h; Commitment h; Hash h; ParentHash h; Origin h];
  sb_numbers : Forall (λ n, 0 ≤ n < exact_limit)%Z [Number h; Generation h; ReorgEpoch h];
  sb_times : Forall time_ok [ObservedAt h; ChangedAt h];
  sb_header : header_storable (Header h);
  sb_hash : Family h = "evm" → Hash h ≠ ""
}.

Definition recoded (h : Head) : Head := with_Header (header_recode (Header h)) h.

(** A stored text and the head it is read as, by Go and by the scripts.  Decoding into
    a head that has what the text leaves out empty is enough. *)
Record reads (text : string) (x : Head) : Prop := mkReads {
  rd_go cur : (Hash x = "" → Hash cur = "") → (ParentHash x = "" → ParentHash cur = "") →
    (Header x = "" → Header cur = "") → Unmarshal_Head_into cur text = Some x;
  rd_lua : ∃ t, cjson_decode text = Ok (LTable t) ∧ head_table carries x t;
  rd_storable : storable x
}.

Lemma reads_zero text x : reads text x → Unmarshal_Head text = Some x.
Proof. intros Hr. by apply (rd_go _ _ Hr). Qed.
End storable.

Class CjsonLaws (W : Type) `{World W, Cjson, CjsonHeads} := {
  recode_storable header : header_storable header → header_storable (header_recode header);
  recode_empty header : header_recode header = "" → header = "";
  cjson_decode_head h raw : storable h → Marshal_Head h = Some raw →
    ∃ t, cjson_decode raw = Ok (LTable t) ∧ head_table carries h t;
  cjson_encode_head h t text : storable h → head_table carries h t → cjson_encode (LTable t) = Ok text →
    reads text (recoded h)
}.

(** ** What a chain's keys show *)

Record rview := mkRview {
  rv_leader : option string;
  rv_fence : Z;
  rv_gen : Z;
  rv_heads : gmap string Head;
  rv_last : stream_id;
  rv_events : list (stream_id * Head)
}.

Definition with_leader (l : option string) (v : rview) : rview :=
  mkRview l (rv_fence v) (rv_gen v) (rv_heads v) (rv_last v) (rv_events v).

Definition with_fence (n : Z) (v : rview) : rview :=
  mkRview (rv_leader v) n (rv_gen v) (rv_heads v) (rv_last v) (rv_events v).

Definition with_gen (n : Z) (v : rview) : rview :=
  mkRview (rv_leader v) (rv_fence v) n (rv_heads v) (rv_last v) (rv_events v).

Definition with_head (x : Head) (v : rview) : rview :=
  mkRview (rv_leader v) (rv_fence v) (rv_gen v) (<[Commitment x := x]> (rv_heads v)) (rv_last v) (rv_events v).

Definition with_event (n : nat) (i : stream_id) (x : Head) (v : rview) : rview :=
  mkRview (rv_leader v) (rv_fence v) (rv_gen v) (rv_heads v) i (keep_last n (rv_events v ++ [(i, x)])).

Section shows.
  Context {W R : Type} `{World W, Cjson, CjsonHeads, !CjsonLaws W, RedisLaws R}.
  Variable store : RedisStore.

(** A stream entry and the event it stands for. *)
Definition entry_of (e : stream_entry) (x : stream_id * Head) : Prop :=
  e.1 = x.1 ∧ (0 ≤ e.1.2)%Z ∧ ∃ text, e.2 = [("head", text)] ∧ reads text x.2.

Record shows (k : keyspace) (chain : string) (v : rview) : Prop := mkShows {
  sh_leader : k !! key store chain "leader" = (λ t, (RString t, true)) <$> rv_leader v;
  sh_fence : counter_at k (key store chain "fence") = Some (pretty (rv_fence v), false);
  sh_gen : counter_at k (key store chain "generation") = Some (pretty (rv_gen v), false);
  sh_heads : ∃ h, hash_at k (key store chain "heads") = Some (h, false) ∧
    ∀ c, option_Forall2 reads (h !! c) (rv_heads v !! c);
  sh_events : ∃ l, stream_at k (key store chain "events") = Some (rv_last v, l, false) ∧
    Forall2 entry_of l (rv_events v)
}.

(** Only the keys of the chain matter. *)
Lemma shows_frame k k' chain v :
  (∀ s, suffix_ok s → k' !! key store chain s = k !! key store chain s) → shows k chain v → shows k' chain v.
Proof.
  intros Hk []. unfold counter_at, hash_at, stream_at in *.
  split; unfold counter_at, hash_at, stream_at;
    rewrite Hk by (unfold suffix_ok; repeat (first [left|right])); done.
Qed.

Lemma shows_other k chain chain' s o v : suffix_ok s → chain ≠ chain' →
  shows k chain' v → shows (<[key store chain s := o]> k) chain' v.
Proof. intros Hs Hne. apply shows_frame. intros s' Hs'. apply lookup_insert_ne, key_ne; auto. Qed.

Lemma shows_other_delete k chain chain' s v : suffix_ok s → chain ≠ chain' →
  shows k chain' v → shows (delete (key store chain s) k) chain' v.
Proof. intros Hs Hne. apply shows_frame. intros s' Hs'. apply lookup_delete_ne, key_ne; auto. Qed.

Ltac other_keys :=
  unfold counter_at, hash_at, stream_at in *;
  repeat first [rewrite lookup_insert_ne by key_ne|rewrite lookup_delete_ne by key_ne].

Lemma shows_set_leader k chain v t : shows k chain v →
  shows (<[key store chain "leader" := (RString t, true)]> k) chain (with_leader (Some t) v).
Proof. intros []. split; other_keys; try done. by rewrite lookup_insert_eq. Qed.

Lemma shows_no_leader k chain v : shows k chain v →
  shows (delete (key store chain "leader") k) chain (with_leader None v).
Proof. intros []. split; other_keys; try done. by rewrite lookup_delete_eq. Qed.

Lemma shows_set_fence k chain v n : shows k chain v →
  shows (<[key store chain "fence" := (RString (pretty n), false)]> k) chain (with_fence n v).
Proof. intros []. split; other_keys; try done. by rewrite lookup_insert_eq. Qed.

Lemma shows_set_gen k chain v n : shows k chain v →
  shows (<[key store chain "generation" := (RString (pretty n), false)]> k) chain (with_gen n v).
Proof. intros []. split; other_keys; try done. by rewrite lookup_insert_eq. Qed.

Lemma shows_set_head k chain v text x h : shows k chain v → reads text x →
  hash_at k (key store chain "heads") = Some (h, false) →
  shows (<[key store chain "heads" := (RHash (<[Commitment x := text]> h), false)]> k) chain (with_head x v).
Proof.
  intros [? ? ? (h' & Hh & Hr) ?] Hx Hh'. rewrite Hh in Hh'. injection Hh' as ->. split; other_keys; try done.
  rewrite lookup_insert_eq. eexists. split; [done|]. intros c. simpl. rewrite !lookup_insert.
  case_decide; [by constructor|apply Hr].
Qed.

Lemma Forall2_keep_last {A B} (P : A → B → Prop) n l l' :
  Forall2 P l l' → Forall2 P (keep_last n l) (keep_last n l').
Proof. intros Hl. unfold keep_last. rewrite (Forall2_length _ _ _ Hl). by apply Forall2_drop. Qed.

Lemma shows_add_event k chain v i text x l n : shows k chain v → reads text x → (0 ≤ i.2)%Z →
  stream_at k (key store chain "events") = Some (rv_last v, l, false) →
  shows (<[key store chain "events" := (RStream i (keep_last n (l ++ [(i, [("head", text)])])), false)]> k) chain
    (with_event n i x v).
Proof.
  intros [? ? ? ? (l' & Hl & Hf)] Hx Hi Hl'. rewrite Hl in Hl'. injection Hl' as ->. split; other_keys; try done.
  rewrite lookup_insert_eq. eexists. split; [done|]. apply Forall2_keep_last, Forall2_app; [done|].
  constructor; [|done]. split; [done|]. split; [done|]. eauto.
Qed.

Lemma shows_empty chain : shows ∅ chain (mkRview None 0 0 ∅ (0, 0)%Z []).
Proof.
  split; unfold counter_at, hash_at, stream_at; rewrite ?lookup_empty; try done.
  - eexists. split; [done|]. intros c. rewrite !lookup_empty. constructor.
  - by eexists.
Qed.

(** ** Steps *)

Variable chain_family : string → string.

(** A change of one key of a chain. *)
Inductive view_step (chain : string) (v : rview) : rview → Prop :=
| vs_expire : view_step chain v (with_leader None v)
| vs_acquire owner : rv_leader v = None → (rv_fence v + 1 < exact_limit)%Z →
    view_step chain v
      (with_leader (Some (leader_token owner (rv_fence v + 1))) (with_fence (rv_fence v + 1) v))
| vs_fence : (rv_fence v + 1 < exact_limit)%Z → view_step chain v (with_fence (rv_fence v + 1) v)
| vs_gen : (rv_gen v + 1 < exact_limit)%Z → view_step chain v (with_gen (rv_gen v + 1) v)
| vs_head x : Chain x = chain → Family x = chain_family chain → (1 ≤ Generation x ≤ rv_gen v)%Z →
    (∀ cur, Family x = "evm" → Commitment x = Latest → rv_heads v !! Latest = Some cur → epoch_le cur x) →
    view_step chain v (with_head x v)
| vs_event n i x : id_lt (rv_last v) i → (0 ≤ i.2)%Z → head_wf x → view_step chain v (with_event n i x v).

Record rview_wf (chain : string) (v : rview) : Prop := mkRviewWf {
  rw_fence : (0 ≤ rv_fence v < exact_limit)%Z;
  rw_gen : (0 ≤ rv_gen v < exact_limit)%Z;
  rw_leader : ∀ t, rv_leader v = Some t → ∃ owner g, t = leader_token owner g ∧ (1 ≤ g ≤ rv_fence v)%Z;
  rw_heads : ∀ c x, rv_heads v !! c = Some x →
    Chain x = chain ∧ Commitment x = c ∧ Family x = chain_family chain ∧ (1 ≤ Generation x ≤ rv_gen v)%Z;
  rw_order : StronglySorted id_lt (rv_events v).*1;
  rw_last : Forall (λ i, ¬ id_lt (rv_last v) i) (rv_events v).*1
}.

Lemma id_lt_irrefl i : ¬ id_lt i i.
Proof. unfold id_lt. lia. Qed.

Lemma id_lt_trans i j l : id_lt i j → id_lt j l → id_lt i l.
Proof. unfold id_lt. lia. Qed.

Lemma id_le_lt_trans i j l : ¬ id_lt j i → id_lt j l → id_lt i l.
Proof. unfold id_lt. lia. Qed.

Lemma StronglySorted_drop {A} (P : relation A) n l : StronglySorted P l → StronglySorted P (drop n l).
Proof.
  revert l. induction n as [|n IH]; intros [|x l]; simpl; try done. inversion 1. by apply IH.
Qed.

Lemma view_step_wf chain v v' : view_step chain v v' → rview_wf chain v → rview_wf chain v'.
Proof.
  intros Hs [Hf Hg Hl Hh Ho Hlast].
  destruct Hs as [|owner Hn Hr|Hr|Hr|x Hc Hfam Hgen Hep|n i x Hi Hi2 Hx]; split; simpl; try done; try lia.
  - intros t [= <-]. exists owner, (rv_fence v + 1)%Z. split; [done|lia].
  - intros t Ht. destruct (Hl t Ht) as (o & g & -> & ?). exists o, g. split; [done|lia].
  - intros c x Hx. destruct (Hh c x Hx) as (? & ? & ? & ?). split_and!; try done; lia.
  - intros c y. rewrite lookup_insert. case_decide as Hd; intros Hy; simplify_eq; [done|by apply Hh].
  - unfold keep_last. rewrite fmap_drop. apply StronglySorted_drop. rewrite fmap_app. simpl.
    apply StronglySorted_app_2; [|done|repeat constructor].
    intros a b Ha Hb%list_elem_of_singleton. subst b. rewrite Forall_forall in Hlast.
    eapply id_le_lt_trans; [by apply Hlast|done].
  - unfold keep_last. rewrite fmap_drop. apply Forall_drop. rewrite fmap_app. simpl. apply Forall_app. split.
    + eapply Forall_impl; [done|]. intros a Ha Hia. apply Ha. by eapply id_lt_trans.
    + constructor; [apply id_lt_irrefl|done].
Qed.

Lemma view_steps_wf chain v v' : rtc (view_step chain) v v' → rview_wf chain v → rview_wf chain v'.
Proof. apply rtc_preserved. intros x y. apply view_step_wf. Qed.

Lemma empty_rview_wf chain : rview_wf chain (mkRview None 0 0 ∅ (0, 0)%Z []).
Proof. split; simpl; try done; try (unfold exact_limit; lia); constructor. Qed.

(** The accepted latest head never disappears and its epoch only grows. *)
Lemma view_step_epoch chain v v' h : view_step chain v v' → rview_wf chain v →
  rv_heads v !! Latest = Some h → Family h = "evm" →
  ∃ h', rv_heads v' !! Latest = Some h' ∧ Family h' = "evm" ∧ epoch_le h h'.
Proof.
  intros Hs Hw Hh Hev. destruct Hs as [| | | |x Hc Hfam Hgen Hep|]; try (exists h; by split_and!).
  simpl. rewrite lookup_insert. case_decide as Hd; [|exists h; by split_and!].
  destruct (rw_heads _ _ Hw _ _ Hh) as (_ & _ & Hfh & _).
  assert (Family x = "evm") by congruence. exists x. split_and!; [done|done|by apply Hep].
Qed.

Lemma view_steps_epoch chain v v' h : rtc (view_step chain) v v' → rview_wf chain v →
  rv_heads v !! Latest = Some h → Family h = "evm" →
  ∃ h', rv_heads v' !! Latest = Some h' ∧ Family h' = "evm" ∧ epoch_le h h'.
Proof.
  intros Hs. revert h. induction Hs as [v|v v1 v' Hs Hrest IH]; intros h Hw Hh Hev; [exists h; by split_and!|].
  destruct (view_step_epoch _ _ _ _ Hs Hw Hh Hev) as (h1 & Hh1 & Hev1 & Hle1).
  destruct (IH h1 (view_step_wf _ _ _ Hs Hw) Hh1 Hev1) as (h2 & ? & ? & ?).
  exists h2. split_and!; [done|done|by etrans].
Qed.
End shows.

(** ** Commands on a chain's keys *)

Section commands.
  Context {W R : Type} `{World W, Cjson, CjsonHeads, !CjsonLaws W, RedisLaws R}.
  Variables (store : RedisStore) (chain : string) (k : keyspace) (v : rview).
  Context (Hshows : shows store k chain v).
  Context (E : keyspace → Prop) (HE : E k) (Q : lua → keyspace → Prop).

Lemma post_get_leader :
  Q (match rv_leader v with Some t => LStr t | None => LBool false end) k →
  post (call (GET (key store chain "leader"))) k E Q.
Proof using Type*.
  intros HQ. apply post_call; [done|]. intros rp k' [-> Hrp]. rewrite (sh_leader _ _ _ _ Hshows) in Hrp.
  destruct (rv_leader v); simpl in Hrp; by subst rp.
Qed.

Lemma post_exists_leader :
  Q (LNum (match rv_leader v with Some _ => 1 | None => 0 end)) k →
  post (call (EXISTS (key store chain "leader"))) k E Q.
Proof using Type*.
  intros HQ. apply post_call; [done|]. intros rp k' [-> ->]. rewrite (sh_leader _ _ _ _ Hshows).
  by destruct (rv_leader v).
Qed.

Lemma post_set_leader ms t :
  (∀ a k', shows store k' chain (with_leader (Some t) v) → Q a k') →
  post (call (PSETEX (key store chain "leader") ms t)) k E Q.
Proof using Type*.
  intros HQ. apply post_call; [done|]. intros rp k' (n & _ & _ & _ & ->). by apply HQ, shows_set_leader.
Qed.

Lemma post_delete_leader :
  (∀ a k', shows store k' chain (with_leader None v) → Q a k') →
  post (call (DEL (key store chain "leader"))) k E Q.
Proof using Type*.
  intros HQ. apply post_call; [done|]. intros rp k' [_ ->]. by apply HQ, shows_no_leader.
Qed.

Lemma post_expire_leader t ms : rv_leader v = Some t →
  (∀ a k' v', v' = v ∨ v' = with_leader None v → shows store k' chain v' → Q a k') →
  post (call (PEXPIRE (key store chain "leader") ms)) k E Q.
Proof using Type*.
  intros Ht HQ. apply post_call; [done|]. intros rp k' (n & _ & Hk). rewrite (sh_leader _ _ _ _ Hshows), Ht in Hk.
  simpl in Hk. destruct Hk as [_ ->]. destruct (0 <? n)%Z.
  - apply (HQ _ _ v); [by left|].
    assert (with_leader (Some t) v = v) as Hv by (rewrite <- Ht; by destruct v).
    rewrite <- Hv. by apply shows_set_leader.
  - apply (HQ _ _ (with_leader None v)); [by right|]. by apply shows_no_leader.
Qed.

Lemma post_incr_fence :
  (∀ k', shows store k' chain (with_fence (rv_fence v + 1) v) → Q (LNum (double (rv_fence v + 1))) k') →
  post (call (INCR (key store chain "fence"))) k E Q.
Proof using Type*.
  intros HQ. apply post_call; [done|]. intros rp k' (n & ttl & Hn & -> & ->).
  rewrite (sh_fence _ _ _ _ Hshows) in Hn. injection Hn as Hn <-. apply (inj pretty) in Hn as <-.
  by apply HQ, shows_set_fence.
Qed.

Lemma post_incr_gen :
  (∀ k', shows store k' chain (with_gen (rv_gen v + 1) v) → Q (LNum (double (rv_gen v + 1))) k') →
  post (call (INCR (key store chain "generation"))) k E Q.
Proof using Type*.
  intros HQ. apply post_call; [done|]. intros rp k' (n & ttl & Hn & -> & ->).
  rewrite (sh_gen _ _ _ _ Hshows) in Hn. injection Hn as Hn <-. apply (inj pretty) in Hn as <-.
  by apply HQ, shows_set_gen.
Qed.

Lemma post_hget c :
  match rv_heads v !! c with
  | None => Q (LBool false) k
  | Some x => ∀ text, reads text x → Q (LStr text) k
  end → post (call (HGET (key store chain "heads") c)) k E Q.
Proof using Type*.
  intros HQ. apply post_call; [done|]. intros rp k' (-> & h & ttl & Hh & ->).
  destruct (sh_heads _ _ _ _ Hshows) as (h' & Hh' & Hr). rewrite Hh' in Hh. injection Hh as <- <-.
  destruct (Hr c) as [text x Hx|]; simpl; [by apply HQ|done].
Qed.

Lemma post_hset c text x : reads text x → c = Commitment x →
  (∀ a k', shows store k' chain (with_head x v) → Q a k') →
  post (call (HSET (key store chain "heads") c text)) k E Q.
Proof using Type*.
  intros Hx -> HQ. apply post_call; [done|]. intros rp k' (h & ttl & Hh & ->).
  destruct (sh_heads _ _ _ _ Hshows) as (h' & Hh' & _). rewrite Hh' in Hh. injection Hh as <- <-.
  apply HQ. by apply shows_set_head.
Qed.

Lemma post_xadd n text x : reads text x →
  (∀ a i k', id_lt (rv_last v) i → (0 ≤ i.2)%Z → shows store k' chain (with_event (Z.to_nat n) i x v) → Q a k') →
  post (call (XADD (key store chain "events") (pretty n) [("head", text)])) k E Q.
Proof using Type*.
  intros Hx HQ. apply post_call; [done|].
  intros rp k' (n' & i & last & l & ttl & Hn & _ & Hl & Hi & Hi2 & -> & ->). apply (inj pretty) in Hn as <-.
  destruct (sh_events _ _ _ _ Hshows) as (l' & Hl' & _). rewrite Hl' in Hl. injection Hl as <- <- <-.
  eapply HQ; [exact Hi|exact Hi2|]. by apply shows_add_event.
Qed.
End commands.

(** ** What the scripts answer *)

Lemma double_small z : (Z.abs z <= 2 ^ 53)%Z → double z = z.
Proof. intros Hz. unfold double. by rewrite (proj2 (Z.leb_le _ _) Hz). Qed.

Lemma double_exact z : (0 ≤ z < exact_limit)%Z → double z = z.
Proof. unfold exact_limit. intros Hz. apply double_small. lia. Qed.

Lemma format_exact z : (0 ≤ z < exact_limit)%Z → format_g 14 z = pretty z.
Proof.
  unfold exact_limit. intros Hz. unfold format_g. cbv zeta.
  rewrite (proj2 (Z.ltb_lt _ _)); [done|]. change (10 ^ 14)%Z with 100000000000000%Z. lia.
Qed.

(** The decision of a publication: the epoch, then whether it is the block already
    accepted. *)
Definition epoch_open (h : Head) (v : rview) : bool :=
  negb (is_evm_latest h)
  || (negb (ReorgPending h) && (ReorgEpoch h =? from_option ReorgEpoch 0 (rv_heads v !! Commitment h))%Z).

Definition same_block_as (h cur : Head) : bool :=
  if String.eqb (Hash h) "" then (Number cur =? Number h)%Z else String.eqb (Hash cur) (Hash h).

Section effects.
  Context `{CjsonHeads}.

Definition refreshed (h cur : Head) : Head :=
  recoded (with_ChangedAt (ChangedAt cur) (with_Generation (Generation cur) h)).

Definition appended (h : Head) (v : rview) : Head := recoded (with_Generation (rv_gen v + 1) h).

(** The head a publication leaves, and the view after it. *)
Definition accepted (h : Head) (v : rview) : Head * bool :=
  match rv_heads v !! Commitment h with
  | Some cur => if same_block_as h cur then (refreshed h cur, false) else (appended h v, true)
  | None => (appended h v, true)
  end.

Definition accept_rview (n : nat) (i : stream_id) (h : Head) (v : rview) : rview :=
  let* (x, fresh) := accepted h v in
  let v := with_head x (if fresh then with_gen (rv_gen v + 1) v else v) in
  if fresh && is_evm_latest h then with_event n i x v else v.

Definition begun (cur : Head) : Head :=
  if ReorgPending cur then cur else recoded (with_Reorg (ReorgEpoch cur + 1) true cur).
End effects.

Definition status (z : Z) : lua := LList [LNum z; LStr ""].

Section answers.
  Context {W : Type} `{World W, Cjson, CjsonHeads}.

Inductive publishes (n : nat) (token : string) (h : Head) (v : rview) : lua → rview → Prop :=
| pub_lost : rv_leader v ≠ Some token → publishes n token h v (status (-1)) v
| pub_fenced : rv_leader v = Some token → epoch_open h v = false → publishes n token h v (status (-2)) v
| pub_accepted i text : rv_leader v = Some token → epoch_open h v = true →
    id_lt (rv_last v) i → reads text (accepted h v).1 →
    publishes n token h v (LList [LNum (Generation (accepted h v).1); LStr text]) (accept_rview n i h v).

Inductive begins (token : string) (v : rview) : lua → rview → Prop :=
| beg_lost : rv_leader v ≠ Some token → begins token v (status (-1)) v
| beg_none : rv_leader v = Some token →
    from_option (λ cur, Family cur ≠ "evm") True (rv_heads v !! Latest) → begins token v (status (-2)) v
| beg_begun cur text : rv_leader v = Some token → rv_heads v !! Latest = Some cur → Family cur = "evm" →
    reads text (begun cur) → begins token v (LList [LNum 1; LStr text]) (with_head (begun cur) v).

Inductive acquires (owner : string) (v : rview) : lua → rview → Prop :=
| acq_held : rv_leader v ≠ None → acquires owner v (status 0) v
| acq_won : rv_leader v = None →
    acquires owner v (LList [LNum 1; LStr (leader_token owner (rv_fence v + 1))])
      (with_leader (Some (leader_token owner (rv_fence v + 1))) (with_fence (rv_fence v + 1) v)).

(** A renewal with no time to live is a release. *)
Inductive renews (token : string) (v : rview) : lua → rview → Prop :=
| ren_lost : rv_leader v ≠ Some token → renews token v (LNum 0) v
| ren_renewed v' : rv_leader v = Some token → v' = v ∨ v' = with_leader None v →
    renews token v (LNum 1) v'.

Inductive releases (token : string) (v : rview) : lua → rview → Prop :=
| rel_lost : rv_leader v ≠ Some token → releases token v (LNum 0) v
| rel_released a : rv_leader v = Some token → releases token v a (with_leader None v).
End answers.

(** ** The scripts *)

Section scripts.
  Context {W R : Type} `{World W, Cjson, CjsonHeads, !CjsonLaws W, RedisLaws R}.
  Variables (store : RedisStore) (chain_family : string → string).

(** However a script ends, the chain's view has taken steps. *)
Definition kept (chain : string) (v : rview) (k' : keyspace) : Prop :=
  ∃ v', shows store k' chain v' ∧ rtc (view_step chain_family chain) v v'.

Definition ends (chain : string) (v : rview) (Q : lua → rview → Prop) (a : lua) (k' : keyspace) : Prop :=
  ∃ v', shows store k' chain v' ∧ rtc (view_step chain_family chain) v v' ∧ Q a v'.

Lemma kept_refl k chain v : shows store k chain v → kept chain v k.
Proof. intros Hs. by exists v. Qed.

Lemma owner_eqb (o : option string) (token : string) :
  lua_eqb (match o with Some t => LStr t | None => LBool false end) (LStr token) = bool_decide (o = Some token).
Proof.
  destruct o as [t|]; simpl; [|done]. destruct (String.eqb_spec t token) as [->|Hne].
  - by rewrite bool_decide_eq_true_2.
  - rewrite bool_decide_eq_false_2; congruence.
Qed.

(** Decide whether the script's caller holds the lease. *)
Ltac check_owner :=
  apply post_bind; eapply post_get_leader; [eassumption|by apply kept_refl|];
  rewrite owner_eqb; case_bool_decide; simpl.

Lemma acquire_spec k chain v owner ms :
  shows store k chain v → rview_wf chain_family chain v → (rv_fence v + 1 < exact_limit)%Z →
  post (acquireScript (key store chain "leader") (key store chain "fence") owner ms) k
    (kept chain v) (ends chain v (acquires owner v)).
Proof using Type*.
  intros Hs Hw Hroom. pose proof (rw_fence _ _ _ Hw) as Hf. unfold acquireScript.
  apply post_bind. eapply post_exists_leader; [eassumption|by apply kept_refl|].
  destruct (rv_leader v) as [t|] eqn:Hl; simpl.
  { apply post_ret. exists v. split; [done|]. split; [done|]. constructor. by rewrite Hl. }
  apply post_bind. eapply post_incr_fence; [eassumption|by apply kept_refl|]. intros k1 Hs1.
  assert (kept chain v k1) as Hk1 by (eexists; split; [exact Hs1|by apply rtc_once, vs_fence]).
  apply post_bind, post_pure. rewrite double_exact by lia. cbn [concat_text]. rewrite format_exact by lia.
  apply post_bind. eapply post_set_leader; [exact Hs1|done|]. intros a k2 Hs2. apply post_ret.
  eexists. split; [exact Hs2|]. split; [apply rtc_once; by apply vs_acquire|]. by apply acq_won.
Qed.

Lemma renew_spec k chain v token ms :
  shows store k chain v → post (renewScript (key store chain "leader") token ms) k
    (kept chain v) (ends chain v (renews token v)).
Proof using Type*.
  intros Hs. unfold renewScript. check_owner.
  - apply post_bind. eapply post_expire_leader; [eassumption|by apply kept_refl|eassumption|].
    intros a k' v' Hv' Hs'. apply post_ret. exists v'. split; [done|]. split.
    + destruct Hv' as [->| ->]; [done|apply rtc_once; constructor].
    + by constructor.
  - apply post_ret. exists v. split; [done|]. split; [done|by constructor].
Qed.

Lemma release_spec k chain v token :
  shows store k chain v → post (releaseScript (key store chain "leader") token) k
    (kept chain v) (ends chain v (releases token v)).
Proof using Type*.
  intros Hs. unfold releaseScript. check_owner.
  - eapply post_delete_leader; [eassumption|by apply kept_refl|]. intros a k' Hs'.
    eexists. split; [exact Hs'|]. split; [apply rtc_once; constructor|by constructor].
  - apply post_ret. exists v. split; [done|]. split; [done|by constructor].
Qed.

(** Reading a stored head as a Lua table *)
Lemma post_decode text x k (E : keyspace → Prop) (Q : lua → keyspace → Prop) :
  reads text x → (∀ t, head_table carries x t → Q (LTable t) k) → post (R := R) (decode_reply (LStr text)) k E Q.
Proof using Type*.
  intros Hx HQ. unfold decode_reply. apply post_bind, post_pure. simpl. apply post_pure.
  destruct (rd_lua _ _ Hx) as (t & -> & Ht). by apply HQ.
Qed.

Lemma recoded_storable h : storable h → storable (recoded h).
Proof using Type*. intros []. split; try done. by apply recode_storable. Qed.
End scripts.

#[export] Hint Resolve kept_refl : core.

(** ** The publication script *)

Section publish.
  Context {W R : Type} `{World W, Cjson, CjsonHeads, !CjsonLaws W, RedisLaws R}.
  Variables (store : RedisStore) (chain_family : string → string).

(** What [HGET] answers for a stored head *)
Definition raw_of (cur : option Head) (raw : lua) : Prop :=
  match cur with None => raw = LBool false | Some x => ∃ text, raw = LStr text ∧ reads text x end.

Lemma epoch_spec h t cur raw k (E : keyspace → Prop) (Q : bool → keyspace → Prop) :
  head_table carries h t → raw_of cur raw →
  Q (ReorgPending h || negb (ReorgEpoch h =? from_option ReorgEpoch 0 cur)%Z) k →
  post (R := R) (epoch_changed (LTable t) raw) k E Q.
Proof using Type*.
  intros Ht Hraw HQ. unfold epoch_changed. apply post_bind.
  assert (∀ Q' : lua → keyspace → Prop, Q' (LNum (from_option ReorgEpoch 0%Z cur)) k →
    post (R := R) (if truthy raw then
             current ← decode_reply raw;
             epoch ← pure (index current "reorg_epoch");
             mret (lua_or epoch (LNum 0))
           else mret (LNum 0)) k E Q') as Hepoch.
  { intros Q' HQ'. destruct cur as [x|]; simpl in Hraw.
    - destruct Hraw as (text & -> & Hx). simpl. apply post_bind. eapply post_decode; [exact Hx|].
      intros u Hu. apply post_bind, post_pure. simpl. rewrite (ht_epoch _ _ _ Hu). by apply post_ret.
    - subst raw. by apply post_ret. }
  apply Hepoch, post_bind, post_pure. simpl. rewrite (ht_pending _ _ _ Ht).
  destruct (ReorgPending h); simpl; [by apply post_ret|].
  apply post_bind, post_pure. simpl. rewrite (ht_epoch _ _ _ Ht). simpl. by apply post_ret.
Qed.

Lemma same_block_spec h t x u k (E : keyspace → Prop) (Q : bool → keyspace → Prop) :
  head_table carries h t → head_table carries x u → Q (same_block_as h x) k →
  post (R := R) (same_block (LTable u) (LTable t)) k E Q.
Proof using Type*.
  intros Ht Hu HQ. unfold same_block. apply post_bind, post_pure. simpl.
  rewrite (ht_hash _ _ _ Ht). unfold same_block_as, optional in *.
  destruct (String.eqb_spec (Hash h) "") as [Hh|Hh]; simpl.
  - apply post_bind, post_pure. simpl. apply post_bind, post_pure. simpl.
    rewrite (ht_number _ _ _ Ht), (ht_number _ _ _ Hu). by apply post_ret.
  - rewrite (proj2 (String.eqb_neq _ _) Hh). simpl. apply post_bind, post_pure. simpl.
    rewrite (ht_hash _ _ _ Hu). unfold optional. apply post_ret.
    destruct (String.eqb_spec (Hash x) "") as [Hx|Hx]; simpl; [|done].
    rewrite (proj2 (String.eqb_neq _ _)) in HQ by congruence. done.
Qed.

Lemma storable_numbers h : storable h →
  (0 ≤ Number h < exact_limit)%Z ∧ (0 ≤ Generation h < exact_limit)%Z ∧ (0 ≤ ReorgEpoch h < exact_limit)%Z.
Proof using Type*. intros [_ Hn _ _]. rewrite !Forall_cons in Hn. tauto. Qed.

Lemma storable_head_wf h : storable h → is_evm_latest h = true → head_wf h.
Proof using Type*.
  intros Hst [Hf%String.eqb_eq _]%andb_true_iff. split; [|by apply (sb_hash _ Hst)].
  pose proof (storable_numbers h Hst). unfold exact_limit in *. u64_lia.
Qed.

Lemma refreshed_storable h cur : storable h → storable cur →
  storable (with_ChangedAt (ChangedAt cur) (with_Generation (Generation cur) h)).
Proof using Type*.
  intros [] Hc. pose proof (storable_numbers cur Hc). destruct Hc as [_ _ Htc _].
  rewrite !Forall_cons in *. split; rewrite ?Forall_cons; simpl; tauto.
Qed.

Lemma generation_storable h g : storable h → (0 ≤ g < exact_limit)%Z → storable (with_Generation g h).
Proof using Type*. intros [] Hg. rewrite !Forall_cons in *. split; rewrite ?Forall_cons; simpl; tauto. Qed.

(** Encoding a table and storing it *)
Lemma post_encode h t k (E : keyspace → Prop) (Q : string → keyspace → Prop) :
  storable h → head_table carries h t → E k → (∀ text, reads text (recoded h) → Q text k) →
  post (R := R) (pure (cjson_encode (LTable t))) k E Q.
Proof using Type*.
  intros Hs Ht HE HQ. apply post_pure. destruct (cjson_encode (LTable t)) as [e|text] eqn:He; [done|].
  by apply HQ, (cjson_encode_head h t).
Qed.

Lemma refresh_spec k chain v h t cur u (E : keyspace → Prop) (Q : lua → keyspace → Prop) :
  shows store k chain v → storable h → storable cur → head_table carries h t → head_table carries cur u → E k →
  (∀ text k', reads text (refreshed h cur) → shows store k' chain (with_head (refreshed h cur) v) →
    Q (LList [LNum (Generation cur); LStr text]) k') →
  post (R := R) (refresh_head (key store chain "heads") (Commitment h) (LTable u) (LTable t)) k E Q.
Proof using Type*.
  intros Hs Hh Hc Ht Hu HE HQ. unfold refresh_head. apply post_bind, post_pure. simpl.
  rewrite (ht_generation _ _ _ Hu). apply post_bind, post_pure. simpl.
  apply post_bind, post_pure. simpl. rewrite (ht_changed _ _ _ Hu). simpl.
  apply post_bind, post_pure. simpl. apply post_bind.
  eapply post_encode; [by apply (refreshed_storable h cur)| |done|].
  { by apply head_table_changed, head_table_generation. }
  intros text Hx. apply post_bind. eapply post_hset; [exact Hs|done|exact Hx|done|].
  intros a k' Hs'. apply post_ret. by apply HQ.
Qed.

Lemma append_spec k chain v h t (E : keyspace → Prop) (Q : lua → keyspace → Prop) :
  shows store k chain v → storable h → (0 ≤ rv_gen v)%Z → (rv_gen v + 1 < exact_limit)%Z → head_table carries h t →
  let v1 := with_gen (rv_gen v + 1) v in
  E k → (∀ k', shows store k' chain v1 → E k') → (∀ k', shows store k' chain (with_head (appended h v) v1) → E k') →
  (∀ text i k', reads text (appended h v) → id_lt (rv_last v) i → (0 ≤ i.2)%Z →
    shows store k' chain (if is_evm_latest h then with_event (Z.to_nat (rs_streamMax store)) i (appended h v)
        (with_head (appended h v) v1) else with_head (appended h v) v1) →
    Q (LList [LNum (rv_gen v + 1); LStr text]) k') →
  post (R := R) (append_head (key store chain "heads") (key store chain "generation") (key store chain "events")
    (pretty (rs_streamMax store)) (Commitment h) (is_evm_latest h) (LTable t)) k E Q.
Proof using Type*.
  intros Hs Hh Hg Hroom Ht v1 HE HE1 HE2 HQ. unfold append_head. apply post_bind.
  eapply post_incr_gen; [exact Hs|done|]. intros k1 Hs1. rewrite double_exact by lia.
  apply post_bind, post_pure. simpl. apply post_bind.
  eapply post_encode; [apply (generation_storable h (rv_gen v + 1)); [done|lia]|by apply head_table_generation|auto|].
  intros text Hx. apply post_bind. eapply post_hset; [exact Hs1|auto|exact Hx|done|].
  intros a k2 Hs2. apply post_bind. destruct (is_evm_latest h).
  - eapply post_xadd; [exact Hs2|auto|exact Hx|]. intros b i k3 Hi Hi2 Hs3. apply post_ret. by eapply HQ.
  - apply post_ret, post_ret. apply (HQ text ((rv_last v).1 + 1, 0)%Z); [done| |done|done]. unfold id_lt. simpl. lia.
Qed.
End publish.

Section publish_spec.
  Context {W R : Type} `{World W, Cjson, CjsonHeads, !CjsonLaws W, RedisLaws R}.
  Variables (store : RedisStore) (chain_family : string → string).

(** An open epoch lets the accepted head evolve. *)
Lemma epoch_open_le h v cur x : epoch_open h v = true → Family h = "evm" → Commitment h = Latest →
  rv_heads v !! Latest = Some cur → ReorgEpoch x = ReorgEpoch h → ReorgPending x = ReorgPending h →
  (Generation cur ≤ Generation x)%Z → epoch_le cur x.
Proof.
  unfold epoch_open, is_evm_latest. intros Ho Hf Hc Hcur He Hp Hg.
  rewrite Hf, Hc, Hcur in Ho. simpl in Ho. bool_to_prop. split_and!; [lia|congruence|done].
Qed.

Lemma refreshed_step chain v h cur : rview_wf chain_family chain v → Chain h = chain → Family h = chain_family chain →
  epoch_open h v = true → rv_heads v !! Commitment h = Some cur →
  view_step chain_family chain v (with_head (refreshed h cur) v).
Proof.
  intros Hw Hc Hf Ho Hcur. destruct (rw_heads _ _ _ Hw _ _ Hcur) as (_ & _ & _ & Hg).
  apply vs_head; try done. simpl. intros x Hev Hl Hx. rewrite Hl, Hx in Hcur. injection Hcur as ->.
  by eapply epoch_open_le.
Qed.

Lemma appended_step chain v h : rview_wf chain_family chain v → Chain h = chain → Family h = chain_family chain →
  epoch_open h v = true →
  view_step chain_family chain (with_gen (rv_gen v + 1) v)
    (with_head (appended h v) (with_gen (rv_gen v + 1) v)).
Proof.
  intros Hw Hc Hf Ho. pose proof (rw_gen _ _ _ Hw) as Hg. apply vs_head; try done.
  - simpl. lia.
  - simpl. intros x Hev Hl Hx. destruct (rw_heads _ _ _ Hw _ _ Hx) as (_ & _ & _ & ?).
    eapply epoch_open_le; try done. simpl. lia.
Qed.

(** A publication that appends. *)
Lemma publish_append k chain v token h t :
  shows store k chain v → rview_wf chain_family chain v → storable h → Chain h = chain →
  Family h = chain_family chain → (rv_gen v + 1 < exact_limit)%Z → rv_leader v = Some token → epoch_open h v = true →
  head_table carries h t → accepted h v = (appended h v, true) →
  post (R := R) (append_head (key store chain "heads") (key store chain "generation") (key store chain "events")
    (pretty (rs_streamMax store)) (Commitment h) (is_evm_latest h) (LTable t)) k (kept store chain_family chain v)
  (ends store chain_family chain v (publishes (Z.to_nat (rs_streamMax store)) token h v)).
Proof using Type*.
  intros Hs Hw Hh Hc Hf Hroom Hown Ho Ht Ha. pose proof (vs_gen chain_family chain v Hroom) as Hs1.
  pose proof (appended_step chain v h Hw Hc Hf Ho) as Hs2. pose proof (rw_gen _ _ _ Hw) as Hgen.
  eapply append_spec; [exact Hs|done|lia|done|done|auto| | |].
  - intros k' Hs'. eexists. split; [exact Hs'|by apply rtc_once].
  - intros k' Hs'. eexists. split; [exact Hs'|]. eapply rtc_l; [exact Hs1|by apply rtc_once].
  - intros text i k' Hx Hi Hi2 Hs'. eexists. split; [exact Hs'|]. split.
    + eapply rtc_l; [exact Hs1|]. eapply rtc_l; [exact Hs2|].
      destruct (is_evm_latest h) eqn:Hel; [|done]. apply rtc_once. constructor; [done|done|].
      exact (storable_head_wf h Hh Hel).
    + replace (if is_evm_latest h then _ else _) with (accept_rview (Z.to_nat (rs_streamMax store)) i h v)
        by (unfold accept_rview; by rewrite Ha).
      replace (rv_gen v + 1)%Z with (Generation (accepted h v).1) by by rewrite Ha.
      apply pub_accepted; try done. by rewrite Ha.
Qed.

Lemma publish_spec k chain v token h raw :
  shows store k chain v → rview_wf chain_family chain v → storable h → Chain h = chain →
  Family h = chain_family chain → (rv_gen v + 1 < exact_limit)%Z → Marshal_Head h = Some raw →
  post (R := R) (publishScript (key store chain "leader") (key store chain "heads") (key store chain "generation")
      (key store chain "events") token raw (pretty (rs_streamMax store))) k
    (kept store chain_family chain v)
    (ends store chain_family chain v (publishes (Z.to_nat (rs_streamMax store)) token h v)).
Proof using Type*.
  intros Hs Hw Hh Hc Hf Hroom Hraw. pose proof (rw_gen _ _ _ Hw) as Hgen. unfold publishScript.
  assert (kept store chain_family chain v k) as Hk by auto.
  apply post_bind. eapply post_get_leader; [eassumption|done|]. rewrite owner_eqb.
  case_bool_decide as Hown; simpl; [|apply post_ret; exists v; split; [done|split; [done|by constructor]]].
  destruct (cjson_decode_head h raw Hh Hraw) as (t & Hd & Ht).
  apply post_bind, post_pure. rewrite Hd. apply post_bind, post_pure. simpl. rewrite (ht_commitment _ _ _ Ht).
  apply post_bind, post_pure. simpl. apply post_bind.
  assert (∀ Q : lua → keyspace → Prop,
    (∀ craw, raw_of (rv_heads v !! Commitment h) craw → Q craw k) →
    post (R := R) (call (HGET (key store chain "heads") (Commitment h))) k (kept store chain_family chain v) Q) as Hget.
  { intros Q HQ. eapply post_hget; [exact Hs|done|]. destruct (rv_heads v !! Commitment h); simpl in *; eauto. }
  apply Hget. intros craw Hcraw. clear Hget.
  apply post_bind, post_pure. simpl. rewrite (ht_family _ _ _ Ht).
  change (is_evm_latest_table (LStr (Family h)) (LStr (Commitment h))) with (is_evm_latest h).
  apply post_bind.
  assert (∀ Q : bool → keyspace → Prop, Q (negb (epoch_open h v)) k →
    post (R := R) (if is_evm_latest h then epoch_changed (LTable t) craw else mret false) k
      (kept store chain_family chain v) Q) as Hepoch.
  { intros Q HQ. unfold epoch_open in HQ. destruct (is_evm_latest h); [|by apply post_ret].
    eapply epoch_spec; [exact Ht|exact Hcraw|]. simpl in HQ. by rewrite negb_andb, negb_involutive in HQ. }
  apply Hepoch. clear Hepoch. destruct (epoch_open h v) eqn:Ho; simpl;
    [|apply post_ret; exists v; split; [done|split; [done|by constructor]]].
  pose proof (publish_append k chain v token h t Hs Hw Hh Hc Hf Hroom Hown Ho Ht) as Happend.
  destruct (rv_heads v !! Commitment h) as [cur|] eqn:Hcur; simpl in Hcraw.
  - destruct Hcraw as (text & -> & Hx). simpl. apply post_bind. eapply post_decode; [exact Hx|]. intros u Hu.
    apply post_bind. eapply same_block_spec; [exact Ht|exact Hu|]. destruct (same_block_as h cur) eqn:Hsame.
    + assert (accepted h v = (refreshed h cur, false)) as Ha by (unfold accepted; by rewrite Hcur, Hsame).
      eapply refresh_spec; [exact Hs|done|apply Hx|done|done|done|].
      intros text' k' Hx' Hs'. eexists. split; [exact Hs'|]. split.
      * apply rtc_once. by apply refreshed_step.
      * assert (accept_rview (Z.to_nat (rs_streamMax store)) ((rv_last v).1 + 1, 0)%Z h v = with_head (refreshed h cur) v) as <-
          by (unfold accept_rview; by rewrite Ha).
        replace (Generation cur) with (Generation (accepted h v).1) by by rewrite Ha.
        apply pub_accepted; try done; [unfold id_lt; simpl; lia|by rewrite Ha].
    + apply Happend. unfold accepted. by rewrite Hcur, Hsame.
  - subst craw. simpl. apply Happend. unfold accepted. by rewrite Hcur.
Qed.

Lemma begin_spec k chain v token :
  shows store k chain v → rview_wf chain_family chain v →
  (∀ cur, rv_heads v !! Latest = Some cur → ReorgEpoch cur + 1 < exact_limit)%Z →
  post (R := R) (beginReorgScript (key store chain "leader") (key store chain "heads") token) k
    (kept store chain_family chain v) (ends store chain_family chain v (begins token v)).
Proof using Type*.
  intros Hs Hw Hroom. unfold beginReorgScript.
  assert (kept store chain_family chain v k) as Hk by auto.
  apply post_bind. eapply post_get_leader; [eassumption|done|]. rewrite owner_eqb.
  case_bool_decide as Hown; simpl; [|apply post_ret; exists v; split; [done|split; [done|by constructor]]].
  apply post_bind. eapply post_hget; [exact Hs|done|].
  assert (∀ z Q, Q = begins token v → Q (status z) v → ends store chain_family chain v Q (status z) k) as Hstay
    by (intros z Q _ HQ; exists v; by split).
  change (rv_heads v !! "latest") with (rv_heads v !! Latest).
  destruct (rv_heads v !! Latest) as [cur|] eqn:Hcur; simpl.
  2: { apply post_ret, Hstay; [done|]. apply beg_none; [done|by rewrite Hcur]. }
  intros text Hx. simpl. apply post_bind. eapply post_decode; [exact Hx|]. intros u Hu.
  apply post_bind, post_pure. simpl. rewrite (ht_family _ _ _ Hu). simpl.
  destruct (String.eqb_spec (Family cur) "evm") as [Hev|Hev]; simpl.
  2: { apply post_ret, Hstay; [done|]. apply beg_none; [done|by rewrite Hcur]. }
  destruct (rw_heads _ _ _ Hw _ _ Hcur) as (Hc & Hcm & Hf & Hg).
  apply post_bind, post_pure. simpl. rewrite (ht_pending _ _ _ Hu). simpl.
  destruct (ReorgPending cur) eqn:Hp.
  - assert (begun cur = cur) as Hb by (unfold begun; by rewrite Hp). apply post_ret. exists v.
    split; [done|]. split; [done|].
    replace v with (with_head (begun cur) v) at 2; [apply beg_begun; try done; by rewrite Hb|].
    rewrite Hb. unfold with_head. rewrite Hcm, insert_id by done. by destruct v.
  - assert (begun cur = recoded (with_Reorg (ReorgEpoch cur + 1) true cur)) as Hb by (unfold begun; by rewrite Hp).
    pose proof (rd_storable _ _ Hx) as Hst. pose proof (storable_numbers cur Hst) as (_ & _ & He).
    specialize (Hroom cur eq_refl).
    apply post_bind, post_pure. simpl. rewrite (ht_epoch _ _ _ Hu). apply post_bind, post_pure. simpl.
    rewrite double_exact by lia. apply post_bind, post_pure. simpl. apply post_bind, post_pure. simpl.
    apply post_bind. eapply post_encode; [|by apply head_table_reorg|done|].
    { destruct Hst. rewrite !Forall_cons in *. split; rewrite ?Forall_cons; simpl; try tauto. intuition lia. }
    intros text' Hx'. rewrite <- Hb in Hx'. apply post_bind.
    assert (Commitment (begun cur) = Commitment cur) as Hbc by by rewrite Hb.
    eapply post_hset; [exact Hs|done|exact Hx'|by rewrite Hbc, Hcm|].
    intros a k' Hs'. apply post_ret. eexists. split; [exact Hs'|]. split; [|by apply beg_begun].
    apply rtc_once, vs_head; rewrite Hb; simpl; try done.
    intros cur' _ _ Hcur'. rewrite Hcur in Hcur'. injection Hcur' as <-.
    split_and!; simpl; [lia|lia|done].
Qed.
End publish_spec.
