(* ===== verification/SharedLaws.v ===== *)
(** * The shared store among its clients

    The server is used by any number of instances.  [server_step] is what one of them, or
    the passing of time, may do to it between two looks of another; the Redis client runs
    a script some number of times among such steps.  Under the laws of both, the methods
    of [RedisStore] keep the promises of the store interface: [RedisStore_laws]. *)

From S2P Require Import Prelude GoStrings GoJson Head MemoryStore World HeadJson Redis RedisStore SharedStore.
From Stdlib Require Import Ascii.

(** ** A script touches the keys it is given *)

Definition command_key (c : command) : string :=
  match c with
  | EXISTS k | INCR k | PSETEX k _ _ | GET k | PEXPIRE k _ | DEL k | HGET k _ | HSET k _ _ | XADD k _ _
  | HGETALL k | XREVRANGE k | XREAD k _ _ | XRANGE k _ => k
  end.

Lemma executed_frame c k rp k' q : executed c k rp k' → q ≠ command_key c → k' !! q = k !! q.
Proof.
  intros Hex Hq. destruct c; simpl in *; try by destruct Hex as [? ?]; subst.
  - destruct Hex as (n & ttl & _ & _ & ->). by apply lookup_insert_ne.
  - destruct Hex as (n & _ & _ & _ & ->). by apply lookup_insert_ne.
  - destruct Hex as (n & _ & Hex). destruct (k !! key) as [[o ttl]|]; destruct Hex as [_ ->]; [|done].
    destruct (0 <? n)%Z; [by apply lookup_insert_ne|by apply lookup_delete_ne].
  - destruct Hex as [_ ->]. by apply lookup_delete_ne.
  - destruct Hex as (h & ttl & _ & ->). by apply lookup_insert_ne.
  - destruct Hex as (n & i & last & l & ttl & _ & _ & _ & _ & _ & _ & ->). by apply lookup_insert_ne.
Qed.

(** Commands that only read *)
Definition reading (c : command) : Prop :=
  match c with HGETALL _ | XREVRANGE _ | XREAD _ _ _ | XRANGE _ _ => True | _ => False end.

Lemma executed_reading c k rp k' : reading c → executed c k rp k' → k' = k.
Proof. destruct c; simpl; try done; by intros _ [-> _]. Qed.

Section touches.
  Context {R : Type} `{RedisLaws R}.
  Variable P : string → Prop.

Definition touches {A} (m : script R A) : Prop :=
  ∀ r res r', m r = (res, r') → ∀ q, ¬ P q → rd_keys r' !! q = rd_keys r !! q.

Lemma touches_ret {A} (a : A) : touches (mret a).
Proof using Type. intros r res r' [= _ <-]. done. Qed.

Lemma touches_pure {A} (x : result string A) : touches (pure x).
Proof using Type. intros r res r' [= _ <-]. done. Qed.

Lemma touches_bind {A B} (m : script R A) (f : A → script R B) :
  touches m → (∀ a, touches (f a)) → touches (m ≫= f).
Proof using Type.
  intros Hm Hf r res r'. unfold mbind, script_bind. destruct (m r) as [[e|a] r1] eqn:Hr.
  - intros [= _ <-]. exact (Hm _ _ _ Hr).
  - intros Hr' q Hq. rewrite (Hf a _ _ _ Hr' q Hq). exact (Hm _ _ _ Hr q Hq).
Qed.

Lemma touches_call c : P (command_key c) → touches (call c).
Proof using Type.
  intros HP r res r'. unfold call. destruct (redis_call c r) as [[e|rp] r1] eqn:Hr; apply rd_call in Hr;
    intros [= _ <-] q Hq.
  - by rewrite Hr.
  - eapply executed_frame; [exact Hr|]. by intros ->.
Qed.
End touches.

(** Follow a script statement by statement. *)
Ltac touches_script :=
  repeat first
    [apply touches_ret|apply touches_pure|apply touches_call|apply touches_bind; [|intros ?]
    |match goal with |- touches _ (if ?b then _ else _) => destruct b end].

Section server.
  Context {W R : Type} `{World W, Cjson, CjsonHeads, !CjsonLaws W, RedisLaws R}.
  Variables (store : RedisStore) (chain_family : string → string).

(** ** What instances of the program do to the server *)

Inductive redis_op :=
| RAcquire (chain owner : string) (ttl : Z)
| RRenew (chain token : string) (ttl : Z)
| RRelease (chain token : string)
| RPublish (token : string) (h : Head) (raw : RawMessage)
| RBeginReorg (chain token : string).

Definition op_of (op : redis_op) : string :=
  match op with
  | RAcquire c _ _ | RRenew c _ _ | RRelease c _ | RBeginReorg c _ => c
  | RPublish _ h _ => Chain h
  end.

Definition op_script (op : redis_op) : script R lua :=
  match op with
  | RAcquire c owner ttl =>
      acquireScript (key store c "leader") (key store c "fence") owner (pretty (Milliseconds ttl))
  | RRenew c token ttl => renewScript (key store c "leader") token (pretty (Milliseconds ttl))
  | RRelease c token => releaseScript (key store c "leader") token
  | RPublish token h raw =>
      publishScript (key store (Chain h) "leader") (key store (Chain h) "heads")
        (key store (Chain h) "generation") (key store (Chain h) "events") token raw
        (pretty (rs_streamMax store))
  | RBeginReorg c token => beginReorgScript (key store c "leader") (key store c "heads") token
  end.

(** A published head is one the scripts can handle, of the family of its chain. *)
Definition publishable (h : Head) : Prop := storable h ∧ Family h = chain_family (Chain h).

Definition op_allowed (op : redis_op) : Prop :=
  match op with
  | RPublish _ h raw => publishable h ∧ Marshal_Head h = Some raw
  | _ => True
  end.

(** No counter of the server has been exhausted. *)
Definition roomy (k : keyspace) : Prop :=
  map_Forall (λ _ o,
    match o.1 with
    | RString s => from_option (λ n, n + 1 < exact_limit)%Z True (ParseUint 10 s)
    | RHash m => map_Forall (λ _ text, from_option (λ h, ReorgEpoch h + 1 < exact_limit)%Z True (Unmarshal_Head text)) m
    | RStream _ _ => True
    end) k.

(** Time passes, and other programs use other keys. *)
Definition elapsed (k k' : keyspace) : Prop :=
  ∀ c s, suffix_ok s → k' !! key store c s = k !! key store c s ∨
    ∃ o, k !! key store c s = Some (o, true) ∧ k' !! key store c s = None.

Inductive server_step (r r' : R) : Prop :=
| ss_elapsed : elapsed (rd_keys r) (rd_keys r') → server_step r r'
| ss_script op res : op_allowed op → roomy (rd_keys r) → op_script op r = (res, r') → server_step r r'.

Lemma op_touches op : touches (λ q, ∃ s, suffix_ok s ∧ q = key store (op_of op) s) (op_script op).
Proof using Type*.
  assert (∀ c s, suffix_ok s → ∃ s', suffix_ok s' ∧ key store c s = key store c s') as Hkey by eauto.
  destruct op; simpl; unfold acquireScript, renewScript, releaseScript, publishScript, beginReorgScript,
    epoch_changed, same_block, refresh_head, append_head, decode_reply; touches_script;
    simpl; apply Hkey; unfold suffix_ok; repeat (first [left|right]).
Qed.

Lemma counter_room k chain s n : roomy k → (0 ≤ n < exact_limit)%Z →
  counter_at k (key store chain s) = Some (pretty n, false) → (n + 1 < exact_limit)%Z.
Proof using Type.
  intros Hroom Hn. unfold counter_at. destruct (k !! key store chain s) as [[[text| |] ttl]|] eqn:Hk; try done.
  - intros [= -> ->]. pose proof (Hroom _ _ Hk) as Hr. simpl in Hr.
    by rewrite ParseUint_pretty in Hr by (unfold exact_limit in Hn; u64_lia).
  - intros [= Hz]. change "0" with (pretty 0%Z) in Hz. apply (inj pretty) in Hz as <-. unfold exact_limit. lia.
Qed.

(** Room for every operation, from room in the counters *)
Lemma roomy_view k chain v : roomy k → shows store k chain v → rview_wf chain_family chain v →
  (rv_fence v + 1 < exact_limit)%Z ∧ (rv_gen v + 1 < exact_limit)%Z ∧
  ∀ cur, rv_heads v !! Latest = Some cur → (ReorgEpoch cur + 1 < exact_limit)%Z.
Proof using Type.
  intros Hroom Hs Hw. split_and!.
  - eapply counter_room; [exact Hroom|apply Hw|apply Hs].
  - eapply counter_room; [exact Hroom|apply Hw|apply Hs].
  - intros cur Hcur. destruct (sh_heads _ _ _ _ Hs) as (h & Hh & Hr). specialize (Hr Latest).
    rewrite Hcur in Hr. inversion Hr as [text x Hx Ht|]; subst. unfold hash_at in Hh.
    destruct (k !! key store chain "heads") as [[[|m|] ttl]|] eqn:Hk; try done.
    + injection Hh as -> ->. pose proof (Hroom _ _ Hk) as Hm. simpl in Hm.
      specialize (Hm Latest text (eq_sym Ht)). simpl in Hm. by rewrite (reads_zero _ _ Hx) in Hm.
    + injection Hh as <-. by rewrite lookup_empty in Ht.
Qed.

(** What a script of the program does to the view of its chain, and what it answers. *)
Definition answers (op : redis_op) (v : rview) (a : lua) (v' : rview) : Prop :=
  match op with
  | RAcquire _ owner _ => acquires owner v a v'
  | RRenew _ token _ => renews token v a v'
  | RRelease _ token => releases token v a v'
  | RPublish token h _ => publishes (Z.to_nat (rs_streamMax store)) token h v a v'
  | RBeginReorg _ token => begins token v a v'
  end.

Lemma op_spec op k v : op_allowed op → roomy k → shows store k (op_of op) v →
  rview_wf chain_family (op_of op) v →
  post (op_script op) k (kept store chain_family (op_of op) v)
    (ends store chain_family (op_of op) v (answers op v)).
Proof using Type*.
  intros Hok Hroom Hs Hw. destruct (roomy_view _ _ _ Hroom Hs Hw) as (Hf & Hg & He).
  destruct op; simpl in *.
  - by apply acquire_spec.
  - by apply renew_spec.
  - by apply release_spec.
  - destruct Hok as [[Hst Hfam] Hraw]. by apply publish_spec.
  - by apply begin_spec.
Qed.

Definition server_wf (r : R) : Prop :=
  ∀ chain, ∃ v, shows store (rd_keys r) chain v ∧ rview_wf chain_family chain v.

Lemma elapsed_view k k' chain v : elapsed k k' → shows store k chain v →
  ∃ v', shows store k' chain v' ∧ rtc (view_step chain_family chain) v v'.
Proof using Type.
  intros He Hs.
  assert (∀ s, suffix_ok s → (∀ o, k !! key store chain s ≠ Some (o, true)) →
    k' !! key store chain s = k !! key store chain s) as Hkeep.
  { intros s Hok Hne. destruct (He chain s Hok) as [|(o & Ho & _)]; [done|]. by apply Hne in Ho. }
  pose proof Hs as [Hl Hf Hg (h & Hh & Hr) (l & Hev & Hentries)]. unfold counter_at, hash_at, stream_at in *.
  assert (k' !! key store chain "fence" = k !! key store chain "fence") as Ef.
  { apply Hkeep; [unfold suffix_ok; repeat (first [left|right])|]. intros o Ho. rewrite Ho in Hf. by destruct o. }
  assert (k' !! key store chain "generation" = k !! key store chain "generation") as Eg.
  { apply Hkeep; [unfold suffix_ok; repeat (first [left|right])|]. intros o Ho. rewrite Ho in Hg. by destruct o. }
  assert (k' !! key store chain "heads" = k !! key store chain "heads") as Eh.
  { apply Hkeep; [unfold suffix_ok; repeat (first [left|right])|]. intros o Ho. rewrite Ho in Hh. by destruct o. }
  assert (k' !! key store chain "events" = k !! key store chain "events") as Ee.
  { apply Hkeep; [unfold suffix_ok; repeat (first [left|right])|]. intros o Ho. rewrite Ho in Hev. by destruct o. }
  destruct (He chain "leader") as [El|(o & _ & El)]; [unfold suffix_ok; repeat (first [left|right])|..].
  - exists v. split; [|done]. split; unfold counter_at, hash_at, stream_at;
      rewrite ?El, ?Ef, ?Eg, ?Eh, ?Ee; eauto.
  - exists (with_leader None v). split; [|apply rtc_once; constructor].
    split; unfold counter_at, hash_at, stream_at; rewrite ?El, ?Ef, ?Eg, ?Eh, ?Ee; simpl; eauto.
Qed.

(** Whatever happens to the server, every chain's view takes steps. *)
Lemma server_step_view r r' chain v : server_step r r' → shows store (rd_keys r) chain v →
  rview_wf chain_family chain v →
  ∃ v', shows store (rd_keys r') chain v' ∧ rtc (view_step chain_family chain) v v'.
Proof using Type*.
  intros Hstep Hs Hw. destruct Hstep as [He|op res Hok Hroom Hr]; [by eapply elapsed_view|].
  destruct (decide (op_of op = chain)) as [<-|Hne].
  - pose proof (op_spec op _ v Hok Hroom Hs Hw _ _ _ eq_refl Hr) as Hpost. destruct res as [e|a]; [done|].
    destruct Hpost as (v' & Hs' & Hsteps & _). eauto.
  - exists v. split; [|done]. eapply shows_frame; [|exact Hs]. intros s Hs'.
    apply (op_touches op _ _ _ Hr). intros (s' & Hs'' & Heq). apply key_inj in Heq as [-> _]; done.
Qed.

Lemma server_steps_view r r' chain v : rtc server_step r r' → shows store (rd_keys r) chain v →
  rview_wf chain_family chain v →
  ∃ v', shows store (rd_keys r') chain v' ∧ rtc (view_step chain_family chain) v v' ∧ rview_wf chain_family chain v'.
Proof using Type*.
  intros Hsteps. revert v. induction Hsteps as [r|r r1 r' Hstep Hrest IH]; intros v Hs Hw; [by exists v|].
  destruct (server_step_view _ _ _ _ Hstep Hs Hw) as (v1 & Hs1 & Hv1).
  destruct (IH v1 Hs1 (view_steps_wf _ _ _ _ Hv1 Hw)) as (v2 & Hs2 & Hv2 & Hw2).
  exists v2. split_and!; [done|by etrans|done].
Qed.

Lemma server_steps_wf r r' : rtc server_step r r' → server_wf r → server_wf r'.
Proof using Type*.
  intros Hsteps Hw chain. destruct (Hw chain) as (v & Hs & Hv).
  destruct (server_steps_view _ _ _ _ Hsteps Hs Hv) as (v' & ? & _ & ?). eauto.
Qed.

(** ** The accepted head of a chain *)

Definition head_at (k : keyspace) (chain commitment : string) : option Head :=
  match k !! key store chain "heads" with
  | Some (RHash m, _) => m !! commitment ≫= Unmarshal_Head
  | _ => None
  end.

Lemma head_shows k chain v c : shows store k chain v → head_at k chain c = rv_heads v !! c.
Proof using Type.
  intros Hs. destruct (sh_heads _ _ _ _ Hs) as (h & Hh & Hr). specialize (Hr c).
  unfold head_at. unfold hash_at in Hh. destruct (k !! key store chain "heads") as [[[|m|] ttl]|]; try done.
  - injection Hh as -> ->. destruct Hr as [text x Hx|]; simpl; [by apply reads_zero|done].
  - injection Hh as <-. rewrite lookup_empty in Hr. by inversion Hr.
Qed.
End server.

(** ** The client *)

(** The script, or somebody else *)
Definition runs `{RedisLaws R, World W} (others : relation R) {A} (s : script R A) : relation R :=
  λ r r', others r r' ∨ roomy (rd_keys r) ∧ ∃ res, s r = (res, r').

(** What the client promises: whatever it reports, the script ran some number of times
    among the steps of [others]; an answer is that of the last run.  [rc_with_server] is
    the same world with another server in it. *)
Class RedisClientLaws (W R : Type) `{World W, RedisClient W R, RedisLaws R} (others : relation R) := {
  rc_server : W → R;
  rc_with_server : R → W → W;
  rc_server_with r w : rc_server (rc_with_server r w) = r;
  rc_do A (s : script R A) ctx w res w' : redis_do s ctx w = (res, w') →
    match res with
    | Err _ => rtc (runs others s) (rc_server w) (rc_server w')
    | Ok a => ∃ r1 r2, rtc (runs others s) (rc_server w) r1 ∧ roomy (rd_keys r1) ∧ s r1 = (Ok a, r2) ∧
        rtc others r2 (rc_server w')
    end;
  (** [redis.Nil] is a nil reply and nothing else. *)
  rc_error A (s : script R A) ctx w e w' : redis_do s ctx w = (Err e, w') → errors_Is redis_Nil e = false
}.

Section client.
  Context {W R : Type} `{World W, Cjson, CjsonHeads, !CjsonLaws W, RedisLaws R, RedisClient W R}.
  Variables (store : RedisStore) (chain_family : string → string).
  Context `{!RedisClientLaws W R (server_step store chain_family)}.
  Variable json_error : string → string.
  Variable range_order : gmap string string → list string.

#[local] Abbreviation step := (server_step store chain_family).
#[local] Abbreviation wf r := (server_wf store chain_family r).

(** A script of the program, run by the client *)
Lemma run_op op ctx w res w' : op_allowed chain_family op → wf (rc_server w) →
  run_script (op_script store op) ctx w = (res, w') →
  match res with
  | Err _ => rtc step (rc_server w) (rc_server w')
  | Ok rp => ∃ r1 r2 v v' a, rtc step (rc_server w) r1 ∧ step r1 r2 ∧ rtc step r2 (rc_server w') ∧
      shows store (rd_keys r1) (op_of op) v ∧ rview_wf chain_family (op_of op) v ∧
      shows store (rd_keys r2) (op_of op) v' ∧ answers store op v a v' ∧ rp = of_lua a
  end.
Proof using Type*.
  intros Hok Hw Hrun. unfold run_script in Hrun. apply rc_do in Hrun.
  assert (∀ r r', rtc (runs step (v ← op_script store op; mret (of_lua v))) r r' → rtc step r r') as Hruns.
  { intros r r'. apply rtc_subrel. intros x y [Hxy|[Hroom [rs Hxy]]]; [done|].
    unfold mbind, script_bind in Hxy. destruct (op_script store op x) as [[e|a] x1] eqn:Hx;
      injection Hxy as _ <-; by eapply ss_script. }
  destruct res as [e|rp]; [by apply Hruns|]. destruct Hrun as (r1 & r2 & Hto%Hruns & Hroom & Hr & Hfrom).
  unfold mbind, script_bind in Hr. destruct (op_script store op r1) as [[e|a] r3] eqn:Hr1; [done|].
  injection Hr as <- <-. destruct (server_steps_wf _ _ _ _ Hto Hw (op_of op)) as (v & Hs & Hv).
  pose proof (op_spec _ _ op _ v Hok Hroom Hs Hv _ _ _ eq_refl Hr1) as (v' & Hs' & _ & Ha).
  exists r1, r3, v, v', a. split_and!; try done. by eapply ss_script.
Qed.

(** A command that only reads *)
Lemma run_reading c ctx w res w' : reading c → run_command c ctx w = (res, w') →
  match res with
  | Err _ => rtc step (rc_server w) (rc_server w')
  | Ok rp => ∃ r1, rtc step (rc_server w) r1 ∧ executed c (rd_keys r1) rp (rd_keys r1) ∧
      rtc step r1 (rc_server w')
  end.
Proof using Type*.
  intros Hc Hrun. unfold run_command in Hrun. apply rc_do in Hrun.
  assert (∀ r r' rs, redis_call c r = (rs, r') → step r r') as Hstep.
  { intros r r' rs Hr. apply ss_elapsed. assert (rd_keys r' = rd_keys r) as ->; [|by left].
    apply rd_call in Hr. destruct rs as [|rp]; [done|by eapply executed_reading]. }
  assert (∀ r r', rtc (runs step (redis_call c : script R reply)) r r' → rtc step r r') as Hruns.
  { intros r r'. apply rtc_subrel. intros x y [Hxy|[_ [rs Hxy]]]; [done|by eapply Hstep]. }
  destruct res as [e|rp]; [by apply Hruns|]. destruct Hrun as (r1 & r2 & Hto%Hruns & _ & Hr & Hfrom).
  exists r1. split; [done|]. pose proof (Hstep _ _ _ Hr) as H12. apply rd_call in Hr.
  split; [by rewrite <- (executed_reading _ _ _ _ Hc Hr) at 2|]. by eapply rtc_l.
Qed.

(** ** What the methods promise *)

Lemma accepted_head h v : let x := (accepted h v).1 in
  Chain x = Chain h ∧ Family x = Family h ∧ Commitment x = Commitment h ∧ Hash x = Hash h ∧
  ParentHash x = ParentHash h ∧ Number x = Number h ∧ ReorgEpoch x = ReorgEpoch h ∧
  ReorgPending x = ReorgPending h ∧ Header x = header_recode (Header h).
Proof using Type.
  unfold accepted. destruct (rv_heads v !! Commitment h) as [cur|]; [destruct (same_block_as h cur)|]; done.
Qed.

Lemma accept_rview_heads n i h v : rv_heads (accept_rview n i h v) = <[Commitment h := (accepted h v).1]> (rv_heads v).
Proof using Type.
  pose proof (accepted_head h v) as (_ & _ & Hc & _). unfold accept_rview.
  destruct (accepted h v) as [x fresh]. simpl in *. rewrite <- Hc. by destruct fresh, (is_evm_latest h).
Qed.

(** A publication that succeeds *)
Lemma Publish_Ok ctx token h w x w' : publishable chain_family (stamp_ChangedAt h) → wf (rc_server w) →
  Publish json_error store ctx token h w = (Ok x, w') →
  ∃ r1 r2 v n i, rtc step (rc_server w) r1 ∧ step r1 r2 ∧ rtc step r2 (rc_server w') ∧
    shows store (rd_keys r1) (Chain h) v ∧ rview_wf chain_family (Chain h) v ∧
    shows store (rd_keys r2) (Chain h) (accept_rview n i (stamp_ChangedAt h) v) ∧
    rv_leader v = Some token ∧ epoch_open (stamp_ChangedAt h) v = true ∧ x = (accepted (stamp_ChangedAt h) v).1.
Proof using Type*.
  intros Hok Hw. unfold Publish. pose proof (stamp_ChangedAt_fields h) as (_ & _ & Hch & _).
  set (h' := stamp_ChangedAt h) in *. rewrite <- Hch.
  destruct (Marshal_Head h') as [raw|] eqn:Hraw; [|done].
  destruct (run_script _ _ _) as [response w1] eqn:Hrun. intros [= Hres <-].
  pose proof (run_op (RPublish token h' raw) ctx w response w1 (conj Hok Hraw) Hw Hrun) as Hop.
  destruct response as [e|rp]; [done|]. destruct Hop as (r1 & r2 & v & v' & a & Hto & Hat & Hfrom & Hs & Hv & Hs' & Ha & ->).
  simpl in Ha. destruct Ha as [|?|i text Hl Ho Hi Hx]; [done|done|]. simpl in Hres.
  destruct (_ =? -1)%Z; [done|]. destruct (_ =? -2)%Z; [done|].
  pose proof (accepted_head h' v) as (_ & _ & _ & E1 & E2 & _ & _ & _ & E3).
  rewrite (rd_go _ _ Hx h') in Hres; rewrite ?E1, ?E2, ?E3; try done; [|by apply recode_empty].
  injection Hres as <-. exists r1, r2, v, (Z.to_nat (rs_streamMax store)), i. done.
Qed.

(** A recovery that starts *)
Lemma BeginReorg_Ok ctx chain token w x w' : wf (rc_server w) →
  BeginReorg json_error store ctx chain token w = (Ok x, w') →
  ∃ r1 r2 v cur, rtc step (rc_server w) r1 ∧ step r1 r2 ∧ rtc step r2 (rc_server w') ∧
    shows store (rd_keys r1) chain v ∧ rview_wf chain_family chain v ∧
    shows store (rd_keys r2) chain (with_head (begun cur) v) ∧
    rv_leader v = Some token ∧ rv_heads v !! Latest = Some cur ∧ Family cur = "evm" ∧ x = begun cur.
Proof using Type*.
  intros Hw. unfold BeginReorg. destruct (run_script _ _ _) as [response w1] eqn:Hrun. intros [= Hres <-].
  pose proof (run_op (RBeginReorg chain token) ctx w response w1 I Hw Hrun) as Hop.
  destruct response as [e|rp]; [done|]. destruct Hop as (r1 & r2 & v & v' & a & Hto & Hat & Hfrom & Hs & Hv & Hs' & Ha & ->).
  simpl in Ha. destruct Ha as [|?|cur text Hl Hcur Hev Hx]; [done|done|]. simpl in Hres.
  rewrite (reads_zero _ _ Hx) in Hres. injection Hres as <-. exists r1, r2, v, cur. done.
Qed.

Lemma decode_heads_lookup values l heads out c :
  decode_heads json_error values l heads = Ok out → c ∈ l → NoDup l →
  out !! c = Unmarshal_Head (default "" (values !! c)).
Proof using Type.
  revert heads. induction l as [|d l IH]; intros heads; simpl; [by intros _ ?%elem_of_nil|].
  destruct (Unmarshal_Head (default "" (values !! d))) as [x|] eqn:Hx; [|done]. intros Hd Hc [Hnd Hndl]%NoDup_cons.
  apply elem_of_cons in Hc as [->|Hc]; [|exact (IH _ Hd Hc Hndl)]. rewrite Hx. clear IH Hndl.
  assert (∀ heads', decode_heads json_error values l heads' = Ok out → heads' !! d = Some x → out !! d = Some x) as Hkeep.
  { clear Hd. induction l as [|e l IH]; intros heads'; simpl; [by intros [= <-]|].
    destruct (Unmarshal_Head (default "" (values !! e))) as [y|]; [|done]. intros Hd Hl.
    apply not_elem_of_cons in Hnd as [? ?]. eapply IH; [done|exact Hd|]. by rewrite lookup_insert_ne. }
  eapply Hkeep; [exact Hd|]. apply lookup_insert_eq.
Qed.

Lemma decode_heads_other values l heads out c :
  decode_heads json_error values l heads = Ok out → c ∉ l → out !! c = heads !! c.
Proof using Type.
  revert heads. induction l as [|d l IH]; intros heads; simpl; [by intros [= <-]|].
  destruct (Unmarshal_Head (default "" (values !! d))) as [x|]; [|done]. intros Hd [Hne Hc]%not_elem_of_cons.
  rewrite (IH _ Hd Hc). by apply lookup_insert_ne.
Qed.

Context (range_keys : ∀ m, range_order m ≡ₚ (map_to_list m).*1).

Lemma range_order_spec m c : NoDup (range_order m) ∧ (c ∈ range_order m ↔ is_Some (m !! c)).
Proof using range_keys.
  split; [rewrite range_keys; apply NoDup_fst_map_to_list|]. rewrite range_keys, list_elem_of_fmap. split.
  - intros ([c' t] & -> & Ht%elem_of_map_to_list). by eexists.
  - intros [t Ht]. exists (c, t). split; [done|by apply elem_of_map_to_list].
Qed.

(** A snapshot that succeeds *)
Lemma Snapshot_Ok ctx chain w sn w' : Snapshot_ json_error range_order store ctx chain w = (Ok sn, w') →
  ∃ r1, rtc step (rc_server w) r1 ∧ rtc step r1 (rc_server w') ∧
    ∀ c, head_at store (rd_keys r1) chain c = sn_Heads sn !! c.
Proof using Type*.
  unfold Snapshot_. destruct (run_command _ ctx w) as [response w1] eqn:Hrun. intros [= Hres <-].
  pose proof (run_reading (HGETALL (key store chain "heads")) ctx w response w1 I Hrun) as Hr.
  destruct response as [e|rp]; [done|]. destruct Hr as (r1 & Hto & (_ & h & ttl & Hh & ->) & Hfrom).
  simpl in Hres. apply result_bind_Ok in Hres as (heads & Hd & [= <-]). exists r1. split_and!; [done|done|].
  simpl. intros c. destruct (range_order_spec h c) as [Hnd Hin]. unfold head_at. unfold hash_at in Hh.
  assert (heads !! c = h !! c ≫= Unmarshal_Head) as ->.
  { destruct (h !! c) as [text|] eqn:Ht; simpl.
    - rewrite (decode_heads_lookup _ _ _ _ c Hd); [by rewrite Ht|by apply Hin|done].
    - rewrite (decode_heads_other _ _ _ _ c Hd); [by rewrite lookup_empty|]. rewrite Hin. by intros [? ?]. }
  destruct (rd_keys r1 !! _) as [[[|m|] ttl']|]; try done; injection Hh as <-; [done|].
  by rewrite lookup_empty.
Qed.

#[export] Instance shared_le_preorder : PreOrder (λ w w' : W, rtc step (rc_server w) (rc_server w')).
Proof using Type. split; [intros w; reflexivity|]. intros x y z Hxy Hyz. by etrans. Qed.

(** The shared store keeps the promises of the store interface: its clients' properties
    hold of it too. *)
Definition RedisStore_laws (ctx : Context) :
  @HeadStoreLaws W (RedisStore_HeadStore json_error range_order store ctx).
Proof using Type*.
  refine (@Build_HeadStoreLaws W (RedisStore_HeadStore json_error range_order store ctx)
    (λ w, wf (rc_server w)) (λ w chain, head_at store (rd_keys (rc_server w)) chain Latest)
    (λ w w', rtc step (rc_server w) (rc_server w')) (λ _ _, True) _ _ _ _ _
    (λ h, publishable chain_family (stamp_ChangedAt h)) _).
  - intros w w' Hle. by apply server_steps_wf.
  - intros w w' chain h Hw Hle Hh Hev. destruct (Hw chain) as (v & Hs & Hv).
    rewrite (head_shows _ _ _ _ _ Hs) in Hh.
    destruct (server_steps_view _ _ _ _ _ _ Hle Hs Hv) as (v' & Hs' & Hsteps & _).
    rewrite (head_shows _ _ _ _ _ Hs'). by eapply view_steps_epoch.
  - intros chain w sn w' Hsn. apply Snapshot_Ok in Hsn as (r1 & Hto & Hfrom & Hl).
    exists (rc_with_server r1 w). by rewrite rc_server_with.
  - intros now chain token w x w' Hw Hb. simpl in Hb.
    apply BeginReorg_Ok in Hb as (r1 & r2 & v & cur & Hto & Hat & Hfrom & Hs & Hv & Hs' & _ & Hcur & Hev & ->); [|done].
    exists (rc_with_server r1 w), (rc_with_server r2 w), cur. rewrite !rc_server_with.
    rewrite (head_shows _ _ _ _ _ Hs), (head_shows _ _ _ _ _ Hs').
    split; [done|]. split; [done|]. intros _. split; [by apply rtc_once|]. split; [done|].
    destruct (rw_heads _ _ _ Hv _ _ Hcur) as (_ & Hcm & _ & _). unfold begun.
    destruct (sh_heads _ _ _ _ Hs) as (h & _ & Hr). specialize (Hr Latest). rewrite Hcur in Hr.
    inversion Hr as [text x Hx|]; subst. pose proof (storable_numbers _ (rd_storable _ _ Hx)) as (_ & _ & He).
    destruct (ReorgPending cur) eqn:Hp; simpl; rewrite <- Hcm, lookup_insert_eq; (split; [done|]).
    + unfold same_head. clear -Hp. destruct cur. simpl in *. by subst.
    + rewrite u64_add_small; [done|]. unfold exact_limit in He. u64_lia.
  - intros now token h w x w' Hw Hok Hev Hcm Hpub. simpl in Hpub.
    apply Publish_Ok in Hpub as (r1 & r2 & v & n & i & Hto & Hat & Hfrom & Hs & Hv & Hs' & _ & Ho & ->); [|done..].
    exists (rc_with_server r1 w), (rc_with_server r2 w). rewrite !rc_server_with.
    rewrite (head_shows _ _ _ _ _ Hs), (head_shows _ _ _ _ _ Hs'), accept_rview_heads.
    pose proof (stamp_ChangedAt_fields h) as (F1 & F2 & _ & _ & F3 & F4 & F5 & F6).
    pose proof (accepted_head (stamp_ChangedAt h) v) as (_ & _ & _ & A1 & _ & A2 & A3 & A4 & _).
    unfold epoch_open, is_evm_latest in Ho. rewrite F1, F2, Hev, Hcm, F3, F4 in Ho. simpl in Ho. bool_to_prop.
    rewrite F2, Hcm, lookup_insert_eq. split; [done|]. intros _.
    split_and!; [done|by apply rtc_once|done|done|congruence|congruence|congruence|congruence].
Defined.
End client.
