(* ===== verification/SharedProperties.v ===== *)
(** * Properties of the shared store

    Leadership tokens fence, the event stream has no silent gaps, and a publication is
    idempotent under the client's retries.  The witnesses run on a keyspace as the
    server and on a JSON library for the scripts built from the proven round trip of
    heads ([HeadJson]). *)

From S2P Require Import Prelude GoStrings GoJson Head MemoryStore World HeadJson Redis RedisStore SharedStore SharedLaws.
From Stdlib Require Import Ascii.

Section fencing.
  Context {W R : Type} `{World W, Cjson, CjsonHeads, !CjsonLaws W, RedisLaws R, RedisClient W R}.
  Variables (store : RedisStore) (chain_family : string → string).
  Context `{!RedisClientLaws W R (server_step store chain_family)}.

#[local] Abbreviation step := (server_step store chain_family).
#[local] Abbreviation wf r := (server_wf store chain_family r).

(** All leases in force are numbered above [G]. *)
Definition leased_above (G : Z) (v : rview) : Prop :=
  (G ≤ rv_fence v)%Z ∧ ∀ t, rv_leader v = Some t → ∃ owner g, t = leader_token owner g ∧ (G < g)%Z.

Lemma view_steps_fence chain v v' : rtc (view_step chain_family chain) v v' → (rv_fence v ≤ rv_fence v')%Z.
Proof using Type. induction 1 as [|v v1 v' Hs _ IH]; [done|]. destruct Hs; simpl in *; lia. Qed.

Lemma view_steps_leased G chain v v' : rtc (view_step chain_family chain) v v' → leased_above G v → leased_above G v'.
Proof using Type.
  apply rtc_preserved. intros x y Hs [HG Hl]. destruct Hs; (split; simpl; [lia|]); try done.
  intros t [= <-]. exists owner, (rv_fence x + 1)%Z. split; [done|lia].
Qed.

Lemma leased_refused G owner g v : leased_above G v → (g ≤ G)%Z → rv_leader v ≠ Some (leader_token owner g).
Proof using Type. intros [_ Hl] Hg Heq. destruct (Hl _ Heq) as (o & g' & Ht & ?). apply leader_token_inj in Ht. lia. Qed.

(** An election that is won *)
Lemma Acquire_won ctx chain owner ttl w t w' : wf (rc_server w) →
  Acquire store ctx chain owner ttl w = (Ok (t, true), w') →
  ∃ r1 r2 v v', rtc step (rc_server w) r1 ∧ step r1 r2 ∧ rtc step r2 (rc_server w') ∧
    shows store (rd_keys r1) chain v ∧ shows store (rd_keys r2) chain v' ∧
    t = leader_token owner (rv_fence v + 1) ∧ rv_fence v' = (rv_fence v + 1)%Z ∧ rv_leader v' = Some t.
Proof using Type*.
  intros Hw. unfold Acquire. destruct (run_script _ _ _) as [response w1] eqn:Hrun. intros [= Hres <-].
  pose proof (run_op _ _ (RAcquire chain owner ttl) ctx w response w1 I Hw Hrun) as Hop.
  destruct response as [e|rp]; [done|]. destruct Hop as (r1 & r2 & v & v' & a & Hto & Hat & Hfrom & Hs & Hv & Hs' & Ha & ->).
  simpl op_of in *. simpl in Ha. destruct Ha as [|Hl]; simpl in Hres; [done|]. injection Hres as <-.
  exists r1, r2, v. eexists. split_and!; [exact Hto|exact Hat|exact Hfrom|exact Hs|exact Hs'|done..].
Qed.

(** The operations a leader names its token in, and what they answer when it has been
    deposed *)
Definition uses_token (op : redis_op) (token : string) : Prop :=
  match op with
  | RAcquire _ _ _ => False
  | RRenew _ t _ | RRelease _ t | RPublish t _ _ | RBeginReorg _ t => t = token
  end.

Definition lost (op : redis_op) : lua :=
  match op with RRenew _ _ _ | RRelease _ _ => LNum 0 | _ => status (-1) end.

Lemma stale_script op token k v : shows store k (op_of op) v → rv_leader v ≠ Some token → uses_token op token →
  post (R := R) (op_script store op) k (λ k', k' = k) (λ a k', k' = k ∧ a = lost op).
Proof using Type*.
  intros Hs Hl Ht. destruct op; simpl in *; subst; try done;
    (apply post_bind; eapply post_get_leader; [exact Hs|done|]; rewrite owner_eqb;
     rewrite bool_decide_eq_false_2 by done; by apply post_ret).
Qed.

(** The token of a chain that has been acquired again: refused in every later state. *)
Definition deposed (token chain : string) (r : R) : Prop :=
  ∀ r', rtc step r r' → ∃ v, shows store (rd_keys r') chain v ∧ rv_leader v ≠ Some token.

Lemma deposed_later token chain r r' : rtc step r r' → deposed token chain r → deposed token chain r'.
Proof using Type. intros Hr Hd x Hx. apply Hd. by etrans. Qed.

Lemma deposed_script op token r res r' : deposed token (op_of op) r → uses_token op token →
  op_script store op r = (res, r') →
  rd_keys r' = rd_keys r ∧ (res = Ok (lost op) ∨ is_ok res = false).
Proof using Type*.
  intros Hd Ht Hr. destruct (Hd r ltac:(done)) as (v & Hs & Hl).
  pose proof (stale_script _ _ _ _ Hs Hl Ht _ _ _ eq_refl Hr) as Hpost.
  destruct res as [e|a]; [by split; [|right]|]. destruct Hpost as [-> ->]. by split; [|left].
Qed.

Lemma deposed_run op token ctx w res w' : deposed token (op_of op) (rc_server w) → uses_token op token →
  run_script (op_script store op) ctx w = (res, w') →
  rtc step (rc_server w) (rc_server w') ∧ (res = Ok (of_lua (lost op)) ∨ is_ok res = false).
Proof using Type*.
  intros Hd Ht Hrun. unfold run_script in Hrun. apply rc_do in Hrun.
  set (s := (v ← op_script store op; mret (of_lua v)) : script R reply) in Hrun.
  assert (∀ x rs y, deposed token (op_of op) x → s x = (rs, y) →
    step x y ∧ (rs = Ok (of_lua (lost op)) ∨ is_ok rs = false)) as Hstep.
  { intros x rs y Hx Hy. unfold s, mbind, script_bind in Hy. destruct (op_script store op x) as [os z] eqn:Hz.
    destruct (deposed_script _ _ _ _ _ Hx Ht Hz) as [Hk Hos].
    assert (step x z) by (apply ss_elapsed; rewrite Hk; by left).
    destruct os as [e|a]; injection Hy as <- <-; (split; [done|]); [by right|].
    destruct Hos as [[= ->]|]; [by left|done]. }
  assert (∀ x y, rtc (runs step s) x y → deposed token (op_of op) x → rtc step x y) as Hruns.
  { intros x y Hxy. induction Hxy as [x|x y z Hxy Hyz IH]; intros Hx; [done|].
    assert (step x y) as Hs by (destruct Hxy as [|[_ [rs Hs]]]; [done|by eapply Hstep]).
    eapply rtc_l; [exact Hs|]. apply IH. eapply deposed_later; [by apply rtc_once|done]. }
  destruct res as [e|rp]; [split; [by apply Hruns|by right]|].
  destruct Hrun as (r1 & r2 & Hto & _ & Hr & Hfrom). apply Hruns in Hto; [|done].
  destruct (Hstep _ _ _ (deposed_later _ _ _ _ Hto Hd) Hr) as [Hs Ha].
  split; [etrans; [exact Hto|by eapply rtc_l]|]. destruct Ha as [[= ->]|]; [by left|done].
Qed.

Lemma reacquired_deposed ctx0 ctx1 chain owner0 owner1 ttl0 ttl1 w0 w1 w2 w3 t0 t1 :
  wf (rc_server w0) → Acquire store ctx0 chain owner0 ttl0 w0 = (Ok (t0, true), w1) →
  rtc step (rc_server w1) (rc_server w2) →
  Acquire store ctx1 chain owner1 ttl1 w2 = (Ok (t1, true), w3) →
  t0 ≠ t1 ∧ deposed t0 chain (rc_server w3).
Proof using Type*.
  intros Hw H0' Hle H1'.
  destruct (Acquire_won _ _ _ _ _ _ _ Hw H0') as (ra & rb & v0 & v0' & Ha & Hab & Hb & _ & Hs0 & -> & Hf0 & _).
  assert (rtc step rb (rc_server w2)) as Hb2 by by etrans.
  assert (wf (rc_server w2)) as Hw2.
  { eapply server_steps_wf; [|exact Hw]. etrans; [exact Ha|]. by eapply rtc_l. }
  destruct (Acquire_won _ _ _ _ _ _ _ Hw2 H1') as (rc & rd & v1 & v1' & Hc & Hcd & Hd & Hs1 & Hs1' & -> & Hf1 & Hl1).
  assert (wf rb) as Hwb by (eapply server_steps_wf; [|exact Hw]; by eapply rtc_r).
  assert (wf rd) as Hwd by (eapply server_steps_wf; [|exact Hw2]; by eapply rtc_r).
  assert (rv_fence v0' ≤ rv_fence v1)%Z as Hle01.
  { destruct (Hwb chain) as (u & Hu & Hwu).
    destruct (server_steps_view _ _ rb rc chain u ltac:(by etrans) Hu Hwu) as (u' & Hu' & Hsteps & _).
    apply view_steps_fence in Hsteps.
    assert (∀ k x y, shows store k chain x → shows store k chain y → rv_fence x = rv_fence y) as Hsame.
    { intros k x y Hx Hy. pose proof (sh_fence _ _ _ _ Hx) as Ex. rewrite (sh_fence _ _ _ _ Hy) in Ex.
      injection Ex as Ex. by apply (inj pretty) in Ex. }
    by rewrite (Hsame _ _ _ Hs0 Hu), (Hsame _ _ _ Hs1 Hu'). }
  split.
  - intros Heq%leader_token_inj. lia.
  - intros r' Hr'. destruct (Hwd chain) as (u & Hu & Hwu).
    assert (leased_above (rv_fence v1) u) as Hu1.
    { pose proof (sh_fence _ _ _ _ Hu) as Ef. rewrite (sh_fence _ _ _ _ Hs1') in Ef.
      injection Ef as Ef. apply (inj pretty) in Ef. split; [lia|]. intros t Ht.
      pose proof (sh_leader _ _ _ _ Hu) as El. rewrite (sh_leader _ _ _ _ Hs1'), Hl1, Ht in El. injection El as <-.
      exists owner1, (rv_fence v1 + 1)%Z. split; [done|lia]. }
    destruct (server_steps_view _ _ rd r' chain u ltac:(by etrans) Hu Hwu) as (u' & Hu' & Hsteps & _).
    exists u'. split; [done|]. eapply leased_refused; [by eapply view_steps_leased|lia].
Qed.

(** What the methods report to a deposed leader *)
Variable json_error : string → string.

Lemma deposed_Publish ctx chain token h w res w' : deposed token chain (rc_server w) → Chain h = chain →
  Publish json_error store ctx token h w = (res, w') →
  lost_or_failed res ∧ rtc step (rc_server w) (rc_server w').
Proof using Type*.
  intros Hd Hc. unfold Publish. pose proof (stamp_ChangedAt_fields h) as (_ & _ & Hch & _).
  set (h' := stamp_ChangedAt h) in *. destruct (Marshal_Head h') as [raw|].
  2: { intros [= <- <-]. split; [right; by eexists|done]. }
  destruct (run_script _ _ _) as [response w1] eqn:Hrun. intros [= <- <-].
  assert (deposed token (op_of (RPublish token h' raw)) (rc_server w)) as Hd' by (simpl; by rewrite Hch, Hc).
  destruct (deposed_run (RPublish token h' raw) token ctx w response w1 Hd' eq_refl Hrun) as [Hle Hr].
  split; [|done]. destruct Hr as [->|Hr]; [by left|]. destruct response; [right; by eexists|done].
Qed.

Lemma deposed_BeginReorg ctx chain token w res w' : deposed token chain (rc_server w) →
  BeginReorg json_error store ctx chain token w = (res, w') →
  lost_or_failed res ∧ rtc step (rc_server w) (rc_server w').
Proof using Type*.
  intros Hd. unfold BeginReorg. destruct (run_script _ _ _) as [response w1] eqn:Hrun. intros [= <- <-].
  destruct (deposed_run (RBeginReorg chain token) token ctx w response w1 Hd eq_refl Hrun) as [Hle Hr].
  split; [|done]. destruct Hr as [->|Hr]; [by left|]. destruct response; [right; by eexists|done].
Qed.

Lemma deposed_Renew ctx chain token ttl w res w' : deposed token chain (rc_server w) →
  Renew store ctx chain token ttl w = (res, w') →
  (res = Ok false ∨ ∃ m, res = Err (StoreFailure m)) ∧ rtc step (rc_server w) (rc_server w').
Proof using Type*.
  intros Hd. unfold Renew. destruct (run_script _ _ _) as [response w1] eqn:Hrun. intros [= <- <-].
  destruct (deposed_run (RRenew chain token ttl) token ctx w response w1 Hd eq_refl Hrun) as [Hle Hr].
  split; [|done]. destruct Hr as [->|Hr]; [by left|]. destruct response; [right; by eexists|done].
Qed.

(** C18: leadership tokens of the shared store fence.  Once a chain has been acquired
    again, the earlier token is refused in every later state of the server, whatever
    other instances do and however often the client repeats what was lost: its scripts
    change no key, a renewal does not succeed, a publication and a reorg start report
    lost leadership, unless the server could not be asked. *)
Theorem shared_tokens_fence ctx0 ctx1 chain owner0 owner1 ttl0 ttl1 w0 w1 w2 w3 w4 t0 t1 :
  server_wf store chain_family (rc_server w0) →
  Acquire store ctx0 chain owner0 ttl0 w0 = (Ok (t0, true), w1) →
  rtc (server_step store chain_family) (rc_server w1) (rc_server w2) →
  Acquire store ctx1 chain owner1 ttl1 w2 = (Ok (t1, true), w3) →
  rtc (server_step store chain_family) (rc_server w3) (rc_server w4) →
  t0 ≠ t1 ∧
  (∀ op res r', op_of op = chain → uses_token op t0 → op_script store op (rc_server w4) = (res, r') →
     rd_keys r' = rd_keys (rc_server w4) ∧ (res = Ok (lost op) ∨ is_ok res = false)) ∧
  (∀ ctx h res w5, Chain h = chain → Publish json_error store ctx t0 h w4 = (res, w5) → lost_or_failed res) ∧
  (∀ ctx res w5, BeginReorg json_error store ctx chain t0 w4 = (res, w5) → lost_or_failed res) ∧
  (∀ ctx ttl res w5, Renew store ctx chain t0 ttl w4 = (res, w5) →
     res = Ok false ∨ ∃ m, res = Err (StoreFailure m)).
Proof using Type*.
  intros Hw Ha0 Hle01 Ha1 Hle12.
  destruct (reacquired_deposed _ _ _ _ _ _ _ _ _ _ _ _ _ Hw Ha0 Hle01 Ha1) as [Hne Hd].
  pose proof (deposed_later _ _ _ _ Hle12 Hd) as Hd4. split_and!; [done|..].
  - intros op res r' <- Ht Hr. by eapply deposed_script.
  - intros ctx h res w5 Hc Hp. by eapply deposed_Publish.
  - intros ctx res w5 Hb. by eapply deposed_BeginReorg.
  - intros ctx ttl res w5 Hr. by eapply deposed_Renew.
Qed.
End fencing.

(** ** The event stream *)

Section stream.
  Context {W R : Type} `{World W, Cjson, CjsonHeads, !CjsonLaws W, RedisLaws R, RedisClient W R}.
  Variables (store : RedisStore) (chain_family : string → string).
  Context `{!RedisClientLaws W R (server_step store chain_family)}.
  Variable json_error : string → string.

#[local] Abbreviation step := (server_step store chain_family).

Lemma reads_unique text x y : reads text x → reads text y → x = y.
Proof using Type. intros Hx%reads_zero Hy%reads_zero. congruence. Qed.

Lemma shows_same_events k chain v v' : shows store k chain v → shows store k chain v' → rv_events v = rv_events v'.
Proof using Type.
  intros Hs Hs'. destruct (sh_events _ _ _ _ Hs) as (l & Hl & Hf), (sh_events _ _ _ _ Hs') as (l' & Hl' & Hf').
  rewrite Hl in Hl'. injection Hl' as _ <-. clear Hl. revert Hf'. generalize (rv_events v'). 
  induction Hf as [|e x l xs He Hf IH]; intros ys Hf'; [by inversion Hf'|].
  inversion Hf' as [|? y ? ys' He' Hf'' Heq]; subst. f_equal; [|by apply IH].
  destruct He as (E1 & _ & text & Ht & Hx), He' as (E1' & _ & text' & Ht' & Hy).
  rewrite Ht in Ht'. injection Ht' as <-. destruct x, y. simpl in *. f_equal; [congruence|by eapply reads_unique].
Qed.

(** An identifier that has been used and trimmed: all that is left comes after it. *)
Definition trimmed (j : stream_id) (v : rview) : Prop :=
  ¬ id_lt (rv_last v) j ∧ Forall (λ i, id_lt j i) (rv_events v).*1.

Lemma sorted_drop_after {A} (P : relation A) n l j : StronglySorted P l → j ∈ l → j ∉ drop n l → Forall (P j) (drop n l).
Proof using Type.
  intros Hs. revert n. induction Hs as [|x l Hl IH Hx]; intros n; [by intros ?%elem_of_nil|].
  destruct n as [|n]; simpl; [by intros Hj Hn|]. intros [->|Hj]%elem_of_cons Hn; [|by apply IH].
  by apply Forall_drop.
Qed.

Lemma trimmed_step chain v v' j : view_step chain_family chain v v' → trimmed j v → trimmed j v'.
Proof using Type.
  intros Hs [Hl Hf]. destruct Hs as [| | | | |n i x Hi Hi2 Hx]; try done. split; simpl.
  - intros Hj. apply Hl. by eapply id_lt_trans.
  - unfold keep_last. rewrite fmap_drop. apply Forall_drop. rewrite fmap_app. apply Forall_app. split; [done|].
    constructor; [|done]. by eapply id_le_lt_trans.
Qed.

Lemma event_step chain v v' e : view_step chain_family chain v v' → rview_wf chain_family chain v →
  e ∈ rv_events v → e ∈ rv_events v' ∨ trimmed e.1 v'.
Proof using Type.
  intros Hs Hw He. destruct Hs as [| | | | |n i x Hi Hi2 Hx] eqn:Hs'; try by left.
  pose proof (view_step_wf _ _ _ _ Hs Hw) as Hw'. subst Hs. 
  destruct (decide (e ∈ rv_events (with_event n i x v))) as [Hin|Hout]; [by left|right].
  set (l := (rv_events v ++ [(i, x)]).*1).
  assert (e.1 ∈ l) as Hel by (unfold l; apply list_elem_of_fmap; exists e; split; [done|]; apply elem_of_app; by left).
  assert (StronglySorted id_lt l) as Hsorted.
  { unfold l. rewrite fmap_app. apply StronglySorted_app_2; [|apply Hw|repeat constructor].
    intros a b Ha Hb%list_elem_of_singleton. subst b. pose proof (rw_last _ _ _ Hw) as Hlast.
    rewrite Forall_forall in Hlast. eapply id_le_lt_trans; [by apply Hlast|done]. }
  split.
  - simpl. pose proof (rw_last _ _ _ Hw) as Hlast. rewrite Forall_forall in Hlast. intros Hie.
    apply (Hlast e.1); [by apply list_elem_of_fmap; exists e|]. by eapply id_lt_trans.
  - simpl. unfold keep_last. rewrite fmap_drop. fold l. eapply sorted_drop_after; [done|done|].
    intros Hk. apply Hout. simpl. unfold keep_last. set (m := (length (rv_events v ++ [(i, x)]) - n)%nat) in *.
    assert (NoDup l) as Hnd.
    { clear -Hsorted. induction Hsorted as [|y l Hl IH Hy]; constructor; [|done]. intros Hin.
      rewrite Forall_forall in Hy. by apply (id_lt_irrefl y), Hy. }
    unfold l in Hk, Hnd. rewrite <- fmap_drop in Hk. apply list_elem_of_fmap in Hk as (e' & Heq & He').
    assert (e' = e) as ->; [|done].
    assert (e' ∈ rv_events v ++ [(i, x)]) as Hin' by (apply (subseteq_drop (length (rv_events v ++ [(i, x)]) - n) _ _ He')).
    assert (e ∈ rv_events v ++ [(i, x)]) as Hin by (apply elem_of_app; by left).
    clear -Hnd Hin Hin' Heq. induction (rv_events v ++ [(i, x)]) as [|y r IH]; [by apply elem_of_nil in Hin|].
    csimpl in Hnd. apply NoDup_cons in Hnd as [Hy Hnd].
    apply elem_of_cons in Hin as [->|Hin], Hin' as [->|Hin']; [done|..|by apply IH].
    + exfalso. apply Hy. rewrite Heq. by apply list_elem_of_fmap_2.
    + exfalso. apply Hy. rewrite <- Heq. by apply list_elem_of_fmap_2.
Qed.

Lemma event_steps chain v v' e : rtc (view_step chain_family chain) v v' → rview_wf chain_family chain v →
  e ∈ rv_events v → e ∈ rv_events v' ∨ trimmed e.1 v'.
Proof using Type.
  intros Hs. induction Hs as [v|v v1 v' Hs Hrest IH]; intros Hw He; [by left|].
  destruct (event_step _ _ _ _ Hs Hw He) as [Hin|Ht]; [apply IH; [by eapply view_step_wf|done]|].
  right. revert Ht. revert Hrest. apply (rtc_preserved _ (trimmed e.1)). intros a b. apply trimmed_step.
Qed.

(** As long as an entry is kept, so is every later one. *)
Lemma retained_after_kept chain v v1 v2 i e : rtc (view_step chain_family chain) v v1 →
  rtc (view_step chain_family chain) v1 v2 → rview_wf chain_family chain v →
  e ∈ rv_events v → id_lt i e.1 → i ∈ (rv_events v2).*1 → e ∈ rv_events v1.
Proof using Type.
  intros H1' H2' Hw He Hi Hin. destruct (event_steps _ _ _ _ H1' Hw He) as [|Ht]; [done|exfalso].
  assert (trimmed e.1 v2) as [_ Hf].
  { revert Ht. revert H2'. apply (rtc_preserved _ (trimmed e.1)). intros a b. apply trimmed_step. }
  rewrite Forall_forall in Hf. apply (id_lt_irrefl i). eapply id_lt_trans; [exact Hi|by apply Hf].
Qed.

(** ** Reading the stream *)

Definition event_of (e : stream_id * Head) : Event := mkEvent (id_text e.1) e.2.

Lemma getEvent_entry e x : entry_of e x → getEvent json_error e = Ok (event_of x).
Proof using Type.
  destruct e as [i fields], x as [j h]. intros (Hi & _ & text & Hf & Hr). simpl in *. subst.
  unfold getEvent, message_values. simpl. rewrite lookup_insert_eq. by rewrite (reads_zero _ _ Hr).
Qed.

Lemma get_events_entries l xs : Forall2 entry_of l xs → get_events json_error l = Ok (event_of <$> xs).
Proof using Type. induction 1 as [|e x l xs He _ IH]; simpl; [done|]. by rewrite (getEvent_entry _ _ He), IH. Qed.

Lemma after_id_entries i l xs : Forall2 entry_of l xs → Forall2 entry_of (after_id i l) (filter (λ e, id_lt i e.1) xs).
Proof using Type.
  unfold after_id. induction 1 as [|e x l xs He _ IH]; [done|]. rewrite !filter_cons.
  assert (e.1 = x.1) as -> by apply He. case_decide; [by constructor|done].
Qed.

Lemma first_of_entries count l xs : Forall2 entry_of l xs → Forall2 entry_of (first_of count l) (first_of count xs).
Proof using Type. unfold first_of. destruct (0 <? count)%Z; [apply Forall2_take|done]. Qed.

Lemma get_events_entries_sub ms l xs evs : Forall2 entry_of l xs → ms ⊆ l → get_events json_error ms = Ok evs →
  evs ⊆ event_of <$> xs.
Proof using Type.
  intros Hf. revert evs. induction ms as [|m ms IH]; intros evs Hsub; cbn [get_events]; [intros [= <-]; apply list_subseteq_nil|].
  assert (∃ x, x ∈ xs ∧ entry_of m x) as (x & Hx & Hmx).
  { assert (m ∈ l) as Hm by (apply Hsub; left). apply list_elem_of_lookup in Hm as [n Hn].
    destruct (Forall2_lookup_l _ _ _ _ _ Hf Hn) as (x & Hx & ?). exists x. split; [by eapply list_elem_of_lookup_2|done]. }
  rewrite (getEvent_entry _ _ Hmx). simpl. intros (es & Hes & [= <-])%result_bind_Ok.
  intros y [->|Hy]%elem_of_cons; [by apply list_elem_of_fmap_2|].
  apply (IH es); [|done|done]. intros z Hz. apply Hsub. by right.
Qed.

(** A read that succeeds *)
Lemma run_XREAD ctx chain cursor count w response w' : server_wf store chain_family (rc_server w) →
  run_command (XREAD (key store chain "events") cursor count) ctx w = (response, w') →
  match response with
  | Err _ => rtc step (rc_server w) (rc_server w')
  | Ok rp => ∃ r1 v1, rtc step (rc_server w) r1 ∧ rtc step r1 (rc_server w') ∧
      shows store (rd_keys r1) chain v1 ∧ rview_wf chain_family chain v1 ∧
      (∀ i, (0 ≤ i.2)%Z → cursor = id_text i →
         match Messages (W := W) (R := R) rp with
         | Ok l => get_events json_error l = Ok (event_of <$> first_of count (filter (λ e, id_lt i e.1) (rv_events v1)))
         | Err e => e = redis_Nil ∧ filter (λ e, id_lt i e.1) (rv_events v1) = []
         end) ∧
      ∀ l evs, Messages (W := W) (R := R) rp = Ok l → get_events json_error l = Ok evs → evs ⊆ event_of <$> rv_events v1
  end.
Proof using Type*.
  intros Hw Hrun. pose proof (run_reading store chain_family (XREAD (key store chain "events") cursor count) _ _ _ _ I Hrun) as Hr.
  destruct response as [e|rp]; [done|]. destruct Hr as (r1 & Hto & (_ & last & l & ttl & Hl & Hx & Hsub) & Hfrom).
  destruct (server_steps_wf _ _ _ _ Hto Hw chain) as (v1 & Hs & Hv). exists r1, v1. split_and!; try done.
  - destruct (sh_events _ _ _ _ Hs) as (l' & Hl' & Hf). rewrite Hl' in Hl. injection Hl as _ <- _.
    intros i Hi2 Hi. rewrite (Hx i Hi2 Hi).
    pose proof (after_id_entries i _ _ Hf) as Ha. destruct (after_id i l') as [|m ms] eqn:He; simpl.
    + inversion Ha. done.
    + apply get_events_entries. by apply first_of_entries.
  - destruct (sh_events _ _ _ _ Hs) as (l' & Hl' & Hf). rewrite Hl' in Hl. injection Hl as _ <- _.
    intros ms evs Hms. destruct rp; simplify_eq/=. intros Hget. by eapply get_events_entries_sub; [|by apply Hsub|].
Qed.

Lemma run_retention ctx chain i w w' : (0 ≤ i.2)%Z → id_text i ≠ "0-0" → server_wf store chain_family (rc_server w) →
  check_retention (R := R) store ctx chain (id_text i) w = (None, w') →
  ∃ r2 v2, rtc step (rc_server w) r2 ∧ rtc step r2 (rc_server w') ∧ shows store (rd_keys r2) chain v2 ∧
    i ∈ (rv_events v2).*1.
Proof using Type*.
  intros Hi2 Hi Hw. unfold check_retention. apply String.eqb_neq in Hi as ->.
  destruct (run_command _ ctx w) as [response w1] eqn:Hrun. intros [= Hres <-].
  pose proof (run_reading store chain_family (XRANGE (key store chain "events") (id_text i)) _ _ _ _ I Hrun) as Hr.
  destruct response as [e|rp]; [done|]. destruct Hr as (r2 & Hto & (_ & Hx) & Hfrom).
  destruct (Hx i Hi2 eq_refl) as (last & l & ttl & Hl & ->). simpl in Hres.
  destruct (server_steps_wf _ _ _ _ Hto Hw chain) as (v2 & Hs & Hv). exists r2, v2. split_and!; try done.
  destruct (sh_events _ _ _ _ Hs) as (l' & Hl' & Hf). rewrite Hl' in Hl. injection Hl as _ <- _.
  destruct (filter (λ e, e.1 = i) l') as [|m ms] eqn:He; [done|].
  assert (m ∈ m :: ms) as Hm by left. rewrite <- He in Hm. apply list_elem_of_filter in Hm as [Hmi Hm].
  apply list_elem_of_lookup in Hm as [n Hn]. destruct (Forall2_lookup_l _ _ _ _ _ Hf Hn) as (x & Hx' & Hmx & _).
  apply list_elem_of_fmap. exists x. split; [by rewrite <- Hmi|by eapply list_elem_of_lookup_2].
Qed.

End stream.

(** ** The scripts against their specification *)

Section refinement.
  Context {W R : Type} `{World W, Cjson, CjsonHeads, !CjsonLaws W, RedisLaws R}.
  Variables (store : RedisStore) (chain_family : string → string).

(** C17: every script of the shared store refines its specification on the view of its
    chain.  Run by any instance in any well-formed state it leaves every other chain's
    lease, counters, heads and stream as they were; of its own chain it leaves a
    well-formed view, even when a command in the middle fails; and when it answers, the
    view has changed and the answer is as specified: an election that is won takes the
    next fencing number, a publication is refused, refreshes the accepted head or
    appends a new one under the next generation, a reorg start marks the head pending
    under the next epoch. *)
Theorem shared_scripts_refine op r res r' c v :
  op_allowed chain_family op → roomy (rd_keys r) → shows store (rd_keys r) c v → rview_wf chain_family c v →
  op_script store op r = (res, r') →
  (op_of op ≠ c → shows store (rd_keys r') c v) ∧
  (op_of op = c → ∃ v', shows store (rd_keys r') c v' ∧ rview_wf chain_family c v' ∧
     ∀ a, res = Ok a → answers store op v a v').
Proof using Type*.
  intros Hok Hroom Hs Hw Hr. split.
  - intros Hne. eapply shows_frame; [|exact Hs]. intros s Hs'.
    apply (op_touches _ _ _ _ _ Hr). intros (s' & Hs'' & Heq). apply key_inj in Heq as [-> _]; done.
  - intros <-. pose proof (op_spec _ _ op _ v Hok Hroom Hs Hw _ _ _ eq_refl Hr) as Hpost.
    destruct res as [e|a].
    + destruct Hpost as (v' & Hs' & Hsteps). exists v'. split; [done|]. split; [by eapply view_steps_wf|done].
    + destruct Hpost as (v' & Hs' & Hsteps & Ha). exists v'. split; [done|]. split; [by eapply view_steps_wf|].
      by intros a' [= <-].
Qed.

(** A publication the client repeats, because a reply was lost, is published once.
    The second run of the script finds the head it stored itself: it is let through, keeps
    its generation, appends nothing to the stream and answers with the same head but
    for the embedded header, which the scripts' JSON library has then written twice. *)
Theorem publication_repeated n token h v a1 v1 a2 v2 :
  rv_leader v = Some token → epoch_open h v = true →
  publishes n token h v a1 v1 → publishes n token h v1 a2 v2 →
  rv_events v2 = rv_events v1 ∧ rv_last v2 = rv_last v1 ∧ rv_gen v2 = rv_gen v1 ∧
  ∃ text1 text2 x1 x2, reads text1 x1 ∧ reads text2 x2 ∧ same_head x1 x2 ∧
    a1 = LList [LNum (Generation x1); LStr text1] ∧ a2 = LList [LNum (Generation x1); LStr text2] ∧
    rv_heads v2 !! Commitment h = Some x2.
Proof using Type*.
  intros Hl Ho H1' H2'. destruct H1' as [Hne|_ Hc|i text1 _ _ Hi Hx1]; [done|congruence|].
  pose proof (accepted_head h v) as (A0 & A1 & A2 & A3 & A4 & A5 & A6 & A7 & A8).
  set (x1 := (accepted h v).1) in *.
  assert (rv_heads (accept_rview n i h v) !! Commitment h = Some x1) as Hh1.
  { rewrite accept_rview_heads. apply lookup_insert_eq. }
  assert (epoch_open h (accept_rview n i h v) = true) as Ho1.
  { unfold epoch_open in *. rewrite Hh1. simpl. destruct (is_evm_latest h); [|done]. simpl in *.
    rewrite A6. bool_to_prop. apply andb_true_iff. split; [by apply negb_true_iff|by apply Z.eqb_eq]. }
  assert (same_block_as h x1 = true) as Hsame.
  { unfold same_block_as. rewrite A3, A5. destruct (String.eqb (Hash h) ""); [apply Z.eqb_refl|apply String.eqb_refl]. }
  assert (accepted h (accept_rview n i h v) = (refreshed h x1, false)) as Ha
    by (unfold accepted; by rewrite Hh1, Hsame).
  assert (rv_leader (accept_rview n i h v) = Some token) as Hl1.
  { rewrite <- Hl. unfold accept_rview. destruct (accepted h v) as [x fresh]. by destruct fresh, (is_evm_latest h). }
  destruct H2' as [Hne|_ Hc|j text2 _ _ Hj Hx2]; [by rewrite Hl1 in Hne|congruence|].
  rewrite Ha in Hx2 |- *. simpl in Hx2 |- *. split_and!.
  1-3: unfold accept_rview at 1; by rewrite Ha.
  exists text1, text2, x1, (refreshed h x1). split_and!; try done.
  - unfold same_head, x1, refreshed, accepted. destruct (rv_heads v !! Commitment h) as [cur|];
      [destruct (same_block_as h cur)|]; done.
  - rewrite accept_rview_heads, Ha. apply lookup_insert_eq.
Qed.

End refinement.
