(* ===== verification/RedisSim.v ===== *)
(** * A concrete Redis, for the witnesses

    The parameters of the shared store instantiated: a server that is its keyspace, a
    JSON library for the scripts that keeps embedded values as they are, whose laws
    follow from the round trip of heads ([HeadJson]), and a client that asks once. *)

From S2P Require Import Prelude GoStrings GoJson Head MemoryStore World HeadJson Redis RedisStore SharedStore SharedLaws SharedProperties.
From Stdlib Require Import Ascii.

#[local] Arguments pretty : simpl never.

(** ** The server *)

(** The number a canonical numeral stands for *)
Definition numeral_of (s : string) : option Z :=
  match ParseUint 10 s with
  | Some n => if String.eqb (pretty n) s then Some n else None
  | None => None
  end.

Lemma numeral_of_Some s n : numeral_of s = Some n → s = pretty n ∧ (0 ≤ n)%Z.
Proof.
  unfold numeral_of. destruct (ParseUint 10 s) as [m|] eqn:Hp; [|done].
  destruct (String.eqb_spec (pretty m) s) as [Heq|]; [|done]. intros [= <-]. split; [done|].
  pose proof (ParseUint_wf 10 s m ltac:(lia) Hp). u64_lia.
Qed.

(** The identifier a text stands for *)
Definition id_of (s : string) : option stream_id :=
  match Split s "-" with
  | [a; b] =>
      match numeral_of a, numeral_of b with
      | Some x, Some y => if String.eqb (id_text (x, y)) s then Some (x, y) else None
      | _, _ => None
      end
  | _ => None
  end.

Lemma id_of_Some s i j : id_of s = Some i → (0 ≤ j.2)%Z → s = id_text j → j = i.
Proof.
  unfold id_of. destruct (Split s "-") as [|a [|b [|]]]; try done.
  destruct (numeral_of a) as [x|]; [|done]. destruct (numeral_of b) as [y|] eqn:Hy; [|done].
  apply numeral_of_Some in Hy as [_ Hy]. destruct (String.eqb_spec (id_text (x, y)) s) as [<-|]; [|done].
  intros [= <-] Hj Heq. symmetry. by apply id_text_inj.
Qed.

Definition wrong (k : keyspace) : result string reply * keyspace := (Err "ERR", k).

Definition execute (c : command) (k : keyspace) : result string reply * keyspace :=
  let count key := RpInt (if bool_decide (is_Some (k !! key)) then 1 else 0) in
  match c with
  | EXISTS key => (Ok (count key), k)
  | INCR key =>
      match counter_at k key with
      | Some (s, ttl) =>
          match numeral_of s with
          | Some n => (Ok (RpInt (n + 1)), <[key := (RString (pretty (n + 1)%Z), ttl)]> k)
          | None => wrong k
          end
      | None => wrong k
      end
  | PSETEX key ms v =>
      match numeral_of ms with
      | Some n => if (0 <? n)%Z then (Ok (RpStr "OK"), <[key := (RString v, true)]> k) else wrong k
      | None => wrong k
      end
  | GET key =>
      match k !! key with
      | None => (Ok RpNil, k)
      | Some (RString s, _) => (Ok (RpStr s), k)
      | Some _ => wrong k
      end
  | PEXPIRE key ms =>
      match numeral_of ms with
      | Some n =>
          match k !! key with
          | None => (Ok (RpInt 0), k)
          | Some (o, _) => (Ok (RpInt 1), if (0 <? n)%Z then <[key := (o, true)]> k else delete key k)
          end
      | None => wrong k
      end
  | DEL key => (Ok (count key), delete key k)
  | HGET key f =>
      match hash_at k key with
      | Some (h, _) => (Ok (from_option RpStr RpNil (h !! f)), k)
      | None => wrong k
      end
  | HSET key f v =>
      match hash_at k key with
      | Some (h, ttl) => (Ok (RpInt 1), <[key := (RHash (<[f := v]> h), ttl)]> k)
      | None => wrong k
      end
  | XADD key maxlen fields =>
      match numeral_of maxlen, stream_at k key with
      | Some n, Some (last, l, ttl) =>
          let i := (last.1, Z.max last.2 0 + 1)%Z in
          (Ok (RpStr (id_text i)),
           <[key := (RStream i (keep_last (Z.to_nat n) (l ++ [(i, fields)])), ttl)]> k)
      | _, _ => wrong k
      end
  | HGETALL key =>
      match hash_at k key with
      | Some (h, _) => (Ok (RpMap h), k)
      | None => wrong k
      end
  | XREVRANGE key =>
      match stream_at k key with
      | Some (_, l, _) => (Ok (RpMsgs (from_option (λ e, [e]) [] (list.last l))), k)
      | None => wrong k
      end
  | XREAD key after count =>
      match id_of after, stream_at k key with
      | Some i, Some (_, l, _) =>
          (Ok (match after_id i l with [] => RpNil | l => RpMsgs (first_of count l) end), k)
      | _, _ => wrong k
      end
  | XRANGE key id =>
      match id_of id, stream_at k key with
      | Some i, Some (_, l, _) => (Ok (RpMsgs (filter (λ e, e.1 = i) l)), k)
      | _, _ => wrong k
      end
  end.

#[export] Instance keyspace_redis : Redis keyspace := { redis_call c k := execute c k }.

#[export] Program Instance keyspace_redis_laws : RedisLaws keyspace := { rd_keys k := k }.
Next Obligation.
  intros c k res k' Hc. change (execute c k = (res, k')) in Hc.
  destruct c; simpl in Hc.
  - injection Hc as <- <-. done.
  - destruct (counter_at k key) as [[s ttl]|] eqn:Hk; [|by injection Hc as <- <-].
    destruct (numeral_of s) as [n|] eqn:Hn; [|by injection Hc as <- <-]. injection Hc as <- <-.
    apply numeral_of_Some in Hn as [-> _]. simpl. eauto.
  - destruct (numeral_of milliseconds) as [n|] eqn:Hn; [|by injection Hc as <- <-].
    destruct (Z.ltb_spec 0 n); injection Hc as <- <-; [|done]. apply numeral_of_Some in Hn as [-> _]. simpl. eauto.
  - destruct (k !! key) as [[[s| |] ttl]|] eqn:Hk; injection Hc as <- <-; simpl; rewrite ?Hk; done.
  - destruct (numeral_of milliseconds) as [n|] eqn:Hn; [|by injection Hc as <- <-].
    apply numeral_of_Some in Hn as [-> _].
    destruct (k !! key) as [[o ttl]|] eqn:Hk; injection Hc as <- <-; simpl; exists n; rewrite Hk; done.
  - injection Hc as <- <-. done.
  - destruct (hash_at k key) as [[h ttl]|] eqn:Hk; injection Hc as <- <-; simpl; eauto.
  - destruct (hash_at k key) as [[h ttl]|] eqn:Hk; injection Hc as <- <-; simpl; eauto.
  - destruct (numeral_of maxlen) as [n|] eqn:Hn; [|by injection Hc as <- <-].
    destruct (stream_at k key) as [[[last l] ttl]|] eqn:Hk; injection Hc as <- <-; [|done].
    apply numeral_of_Some in Hn as [-> Hn]. exists n. eexists _, last, l, ttl.
    split_and!; try done; unfold id_lt; simpl; lia.
  - destruct (hash_at k key) as [[h ttl]|] eqn:Hk; injection Hc as <- <-; simpl; eauto.
  - destruct (stream_at k key) as [[[last l] ttl]|] eqn:Hk; injection Hc as <- <-; simpl; eauto 6.
  - destruct (id_of after) as [i|] eqn:Hi; [|by injection Hc as <- <-].
    destruct (stream_at k key) as [[[last l] ttl]|] eqn:Hk; injection Hc as <- <-; [|done]. split; [done|].
    exists last, l, ttl. split; [done|]. split; [intros j Hj Heq; by rewrite (id_of_Some _ _ _ Hi Hj Heq)|].
    intros ms Hms. destruct (after_id i l) eqn:Ha; [done|]. injection Hms as <-. rewrite <- Ha.
    assert (after_id i l ⊆ l) as Hsub by (intros x Hx; by apply list_elem_of_filter in Hx as [_ ?]).
    unfold first_of. destruct (0 <? count)%Z; [|done]. intros x Hx. apply Hsub. by eapply subseteq_take.
  - destruct (id_of id) as [i|] eqn:Hi; [|by injection Hc as <- <-].
    destruct (stream_at k key) as [[[last l] ttl]|] eqn:Hk; injection Hc as <- <-; [|done]. split; [done|].
    intros j Hj Heq. rewrite (id_of_Some _ _ _ Hi Hj Heq). eauto.
Qed.

(** ** A JSON library for the scripts *)

(** A member's value; what is not a string, a boolean or a whole number is kept as its
    text. *)
Definition lua_of (text : RawMessage) : lua :=
  match decode text with
  | Some (JString s) => LStr s
  | Some (JBool b) => LBool b
  | Some (JNumber l) => match ParseUint 10 l with Some z => LNum z | None => LOther text end
  | _ => LOther text
  end.

Definition text_of (v : lua) : option RawMessage :=
  match v with
  | LStr s => Some (Marshal_string s)
  | LNum z => Some (format_g 14 z)
  | LBool b => Some (Marshal_bool b)
  | LOther text => Some text
  | _ => None
  end.

Fixpoint texts_of (fields : list (string * lua)) : option (list (string * RawMessage)) :=
  match fields with
  | [] => Some []
  | (n, v) :: r => text ← text_of v; rest ← texts_of r; Some ((n, text) :: rest)
  end.

#[export] Instance plain_cjson : Cjson := {
  cjson_decode text :=
    match decode text with
    | Some (JObject ms) => Ok (LTable (prod_map id lua_of <$> ms))
    | _ => Err "cjson"
    end;
  cjson_encode v :=
    match v with
    | LTable fields => match texts_of fields with Some ms => Ok (object_text ms) | None => Err "cjson" end
    | _ => Err "cjson"
    end;
  lua_tonumber s := ParseUint 10 s
}.

#[export] Instance plain_heads : CjsonHeads := {
  header_storable header :=
    header = "" ∨
    embeddable header = true ∧ tight header ∧ compact_from false false header = header ∧
      lua_of header = LOther header;
  header_recode header := header;
  carries header v := v = if String.eqb header "" then LNil else LOther header
}.

Lemma lua_of_string s : valid_utf8 s = true → lua_of (Marshal_string s) = LStr s.
Proof. intros Hs. unfold lua_of. by rewrite decode_literal. Qed.

Lemma lua_of_number z : (0 ≤ z < exact_limit)%Z → lua_of (pretty z) = LNum z.
Proof.
  unfold exact_limit. intros Hz. unfold lua_of. rewrite decode_number by lia.
  by rewrite ParseUint_pretty by u64_lia.
Qed.

Lemma lua_of_bool b : lua_of (Marshal_bool b) = LBool b.
Proof. by destruct b. Qed.

Lemma storable_json `{World W} h : storable h → json_head h ∧ compact_from false false (Header h) = Header h.
Proof.
  intros [Ht Hn Htime Hh]. split; [split; [done| |done|]|].
  - eapply Forall_impl; [exact Hn|]. unfold exact_limit. simpl. intros n ?. u64_lia.
  - destruct Hh as [->|(He & Hv & Hc & _)]; [by left|right]. rewrite Hc. split_and!; try done.
    unfold embeddable in He. by apply andb_true_iff in He as [? _].
  - by destruct Hh as [->|(_ & _ & ? & _)].
Qed.

Section plain_laws.
  Context {W : Type} `{World W}.

Ltac read_table :=
  simpl; rewrite ?lua_of_string by tauto; rewrite ?lua_of_number by tauto; rewrite ?lua_of_bool; try done.

(** The table of the members a head is written with *)
Lemma head_members_table h : storable h → head_table carries h (prod_map id lua_of <$> head_members h).
Proof.
  intros Hst. destruct (storable_json h Hst) as [_ Hc]. destruct Hst as [Ht Hn Htime Hh].
  rewrite !Forall_cons in Ht; rewrite !Forall_cons in Hn; rewrite !Forall_cons in Htime. unfold time_ok in Htime.
  assert (Header h ≠ "" → lua_of (Header h) = LOther (Header h)) as Hraw.
  { intros Hne. by destruct Hh as [|(_ & _ & _ & ?)]. }
  unfold head_members, unless_empty. rewrite Hc.
  destruct (String.eqb_spec (Hash h) "") as [E1|], (String.eqb_spec (ParentHash h) "") as [E2|],
    (String.eqb_spec (Header h) "") as [E3|]; cbn [app fmap list_fmap];
  (split; [split; [by apply (bool_decide_unpack _); vm_compute|by apply (bool_decide_unpack _); vm_compute]|..];
   unfold optional; rewrite ?E1, ?E2; read_table;
   first [by rewrite E3|rewrite (proj2 (String.eqb_neq _ _)) by done; auto]).
Qed.

(** What the members of an encoded table are *)
Fixpoint assoc (ms : list (string * RawMessage)) (n : string) : option RawMessage :=
  match ms with
  | [] => None
  | (m, v) :: r => if String.eqb m n then Some v else assoc r n
  end.

Lemma texts_of_assoc t ms n : texts_of t = Some ms → assoc ms n = text_of (table_get t n).
Proof.
  revert ms. induction t as [|[m v] t IH]; intros ms; simpl; [by intros [= <-]|].
  destruct (text_of v) as [text|] eqn:Hv; [|done]. destruct (texts_of t) as [rest|]; [|done].
  intros [= <-]. simpl. destruct (String.eqb m n); [done|by apply IH].
Qed.

Lemma texts_of_names t ms : texts_of t = Some ms → ms.*1 = t.*1.
Proof.
  revert ms. induction t as [|[m v] t IH]; intros ms; simpl; [by intros [= <-]|].
  destruct (text_of v) as [text|]; [|done]. destruct (texts_of t) as [rest|]; [|done].
  intros [= <-]. csimpl. by rewrite (IH rest).
Qed.

Lemma assoc_elem ms n v : NoDup ms.*1 → (n, v) ∈ ms → assoc ms n = Some v.
Proof.
  induction ms as [|[m u] ms IH]; csimpl; [by intros _ ?%elem_of_nil|].
  intros [Hm Hnd]%NoDup_cons [[= <- <-]|Hin]%elem_of_cons; [by rewrite String.eqb_refl|].
  destruct (String.eqb_spec m n) as [->|]; [|by apply IH]. exfalso. apply Hm.
  apply list_elem_of_fmap. by exists (n, v).
Qed.

Lemma names_fold n m : n ∈ head_names → m ∈ head_names → EqualFold n m = String.eqb n m.
Proof.
  intros Hn Hm. assert (Forall (λ n, Forall (λ m, EqualFold n m = String.eqb n m) head_names) head_names) as Hall.
  { apply (bool_decide_unpack _). by vm_compute. }
  rewrite Forall_forall in Hall. specialize (Hall n Hn). rewrite Forall_forall in Hall. by apply Hall.
Qed.

(** With distinct names a field reads its own member. *)
Lemma field_absent {A} (dec : A → RawMessage → option A) n ms acc : ms.*1 ⊆ head_names → n ∈ head_names →
  n ∉ ms.*1 →
  fold_left (λ acc '(k, v), if EqualFold k n then match acc with Some a => dec a v | None => None end else acc)
    ms acc = acc.
Proof.
  intros Hsub Hn. revert acc. induction ms as [|[m v] ms IH]; intros acc; csimpl in *; [done|].
  intros [Hne Hms]%not_elem_of_cons. rewrite names_fold by (try done; apply Hsub; left).
  destruct (String.eqb_spec m n) as [->|]; [done|]. apply IH; [|done]. intros x Hx. apply Hsub. by right.
Qed.

Lemma field_assoc {A} (dec : A → RawMessage → option A) zero n ms : ms.*1 ⊆ head_names → NoDup ms.*1 →
  n ∈ head_names → field dec zero n ms = match assoc ms n with Some v => dec zero v | None => Some zero end.
Proof.
  intros Hsub Hnd Hn. unfold field. induction ms as [|[m v] ms IH]; [done|]. csimpl in *.
  apply NoDup_cons in Hnd as [Hm Hnd].
  assert (ms.*1 ⊆ head_names) as Hsub' by (intros x Hx; apply Hsub; by right).
  rewrite names_fold by (try done; apply Hsub; left).
  destruct (String.eqb_spec m n) as [->|Hne]; [by apply field_absent|by apply IH].
Qed.

Lemma name_utf8 n : n ∈ head_names → valid_utf8 n = true.
Proof.
  intros Hn. assert (Forall (λ n, valid_utf8 n = true) head_names) as Hall by by repeat constructor.
  rewrite Forall_forall in Hall. by apply Hall.
Qed.

Section encode.
  Context (h : Head) (t : list (string * lua)) (ms : list (string * RawMessage)).
  Context (Hst : storable h) (Ht : head_table carries h t) (Hms : texts_of t = Some ms).

Lemma encoded_names : ms.*1 ⊆ head_names ∧ NoDup ms.*1.
Proof using Ht Hms. rewrite (texts_of_names _ _ Hms). split; apply (ht_names _ _ _ Ht). Qed.

(** The text of each member *)
Lemma encoded_member n : n ∈ head_names → assoc ms n = text_of (table_get t n).
Proof using Hms. intros _. by apply texts_of_assoc. Qed.

Lemma format_number z : (0 ≤ z < exact_limit)%Z → format_g 14 z = pretty z.
Proof. apply format_exact. Qed.

Lemma encoded_value n v : (n, v) ∈ ms → value_text v.
Proof using Hst Ht Hms.
  intros Hin. destruct encoded_names as [Hsub Hnd].
  assert (n ∈ head_names) as Hn by (apply Hsub, list_elem_of_fmap; by exists (n, v)).
  pose proof (assoc_elem _ _ _ Hnd Hin) as Ha. rewrite (texts_of_assoc _ _ _ Hms) in Ha.
  destruct Hst as [Htext Hnum Htime Hh].
  rewrite !Forall_cons in Htext; rewrite !Forall_cons in Hnum; rewrite !Forall_cons in Htime. unfold time_ok in Htime.
  pose proof (ht_header _ _ _ Ht) as Hc. simpl in Hc.
  unfold head_names in Hn. rewrite !elem_of_cons in Hn.
  assert (∀ z, (0 ≤ z < exact_limit)%Z → value_text (format_g 14 z)) as Hz.
  { intros z Hz. rewrite format_number by done. apply number_text. lia. }
  assert (∀ s, valid_utf8 s = true → text_of (optional s) = Some v → value_text v) as Hopt.
  { intros s Hs. unfold optional. destruct (String.eqb s ""); [done|]. intros [= <-]. by apply literal_text. }
  destruct_or! Hn; try subst n; rewrite ?(ht_chain _ _ _ Ht), ?(ht_family _ _ _ Ht), ?(ht_commitment _ _ _ Ht),
    ?(ht_number _ _ _ Ht), ?(ht_generation _ _ _ Ht), ?(ht_epoch _ _ _ Ht), ?(ht_pending _ _ _ Ht),
    ?(ht_observed _ _ _ Ht), ?(ht_changed _ _ _ Ht), ?(ht_origin _ _ _ Ht) in Ha;
    try (injection Ha as <-; first [apply literal_text; tauto|apply Hz; tauto|apply bool_text]).
  - rewrite (ht_hash _ _ _ Ht) in Ha. eapply Hopt; [|exact Ha]. tauto.
  - rewrite (ht_parent _ _ _ Ht) in Ha. eapply Hopt; [|exact Ha]. tauto.
  - rewrite Hc in Ha. destruct (String.eqb_spec (Header h) ""); [done|]. injection Ha as <-.
    destruct Hh as [|(? & ? & _)]; [done|]. by apply embedded_text.
  - by apply elem_of_nil in Hn.
Qed.

Lemma encoded_ok : Forall member_ok ms ∧ ∃ m ms', ms = m :: ms'.
Proof using Hst Ht Hms.
  destruct encoded_names as [Hsub Hnd]. split.
  - apply Forall_forall. intros [n v] Hin. split; [|by eapply encoded_value].
    apply name_utf8, Hsub, list_elem_of_fmap. by exists (n, v).
  - pose proof (texts_of_assoc _ _ "chain" Hms) as Ha. rewrite (ht_chain _ _ _ Ht) in Ha.
    destruct ms as [|m ms']; [done|]. eauto.
Qed.

Lemma encoded_struct : Unmarshal_struct (object_text ms) = Some ms ∧ decode (object_text ms) = Some (JObject ms).
Proof using Hst Ht Hms.
  destruct encoded_ok as [Hok (m & ms' & Heq)]. subst ms. unfold Unmarshal_struct. by rewrite decode_object.
Qed.

Lemma table_get_texts n : table_get (prod_map id lua_of <$> ms) n = from_option lua_of LNil (assoc ms n).
Proof using Type. clear. induction ms as [|[m v] r IH]; simpl; [done|]. by destruct (String.eqb m n). Qed.

Lemma field_member {A} (dec : A → RawMessage → option A) zero n : n ∈ head_names →
  field dec zero n ms = match text_of (table_get t n) with Some v => dec zero v | None => Some zero end.
Proof using Ht Hms.
  intros Hn. destruct encoded_names as [Hsub Hnd]. rewrite field_assoc by done. by rewrite (texts_of_assoc _ _ _ Hms).
Qed.

Lemma string_member zero s : valid_utf8 s = true →
  match text_of (LStr s) with Some v => Unmarshal_string zero v | None => Some zero end = Some s.
Proof using Type. simpl. apply Unmarshal_string_literal. Qed.

Lemma optional_member zero s : valid_utf8 s = true → (s = "" → zero = "") →
  match text_of (optional s) with Some v => Unmarshal_string zero v | None => Some zero end = Some s.
Proof using Type.
  intros Hs Hz. unfold optional. destruct (String.eqb_spec s "") as [->|]; simpl; [by rewrite Hz|].
  by apply Unmarshal_string_literal.
Qed.

Lemma number_member zero z : (0 ≤ z < exact_limit)%Z →
  match text_of (LNum z) with Some v => Unmarshal_uint64 zero v | None => Some zero end = Some z.
Proof using Type.
  intros Hz. simpl. rewrite format_number by done. apply Unmarshal_uint64_numeral. unfold exact_limit in Hz. u64_lia.
Qed.

Lemma time_member zero z : time_ok z →
  match text_of (LStr (format_time z)) with Some v => Unmarshal_time zero v | None => Some zero end = Some z.
Proof using Type. simpl. apply Unmarshal_time_literal. Qed.

Ltac in_names := unfold head_names; repeat (first [left|right]).

Lemma encoded_go cur : (Hash h = "" → Hash cur = "") → (ParentHash h = "" → ParentHash cur = "") →
  (Header h = "" → Header cur = "") → Unmarshal_Head_into cur (object_text ms) = Some h.
Proof using Hst Ht Hms.
  intros C1 C2 C3. unfold Unmarshal_Head_into. rewrite (proj1 encoded_struct). cbn [mbind option_bind].
  rewrite !field_member by in_names.
  rewrite (ht_chain _ _ _ Ht), (ht_family _ _ _ Ht), (ht_commitment _ _ _ Ht), (ht_number _ _ _ Ht),
    (ht_generation _ _ _ Ht), (ht_epoch _ _ _ Ht), (ht_pending _ _ _ Ht), (ht_observed _ _ _ Ht),
    (ht_changed _ _ _ Ht), (ht_origin _ _ _ Ht), (ht_hash _ _ _ Ht), (ht_parent _ _ _ Ht).
  pose proof (ht_header _ _ _ Ht) as Hc. simpl in Hc. rewrite Hc.
  destruct Hst as [Htext Hnum Htime Hh].
  rewrite !Forall_cons in Htext; rewrite !Forall_cons in Hnum; rewrite !Forall_cons in Htime.
  rewrite !string_member by tauto. rewrite !number_member by tauto. rewrite !time_member by tauto.
  rewrite !optional_member by tauto. cbn [mbind option_bind text_of].
  rewrite Unmarshal_bool_text. cbn [mbind option_bind].
  destruct (String.eqb_spec (Header h) "") as [E|E]; cbn [text_of].
  - cbn [mbind option_bind]. rewrite C3, <- E by done. by destruct h.
  - destruct Hh as [|(He & Hv & _)]; [done|]. rewrite Unmarshal_raw_text by by apply embedded_text.
    cbn [mbind option_bind]. by destruct h.
Qed.

Lemma encoded_table : head_table carries h (prod_map id lua_of <$> ms).
Proof using Hst Ht Hms.
  pose proof Hst as [Htext Hnum Htime Hh].
  rewrite !Forall_cons in Htext; rewrite !Forall_cons in Hnum; rewrite !Forall_cons in Htime. unfold time_ok in Htime.
  assert (∀ n, table_get (prod_map id lua_of <$> ms) n = from_option lua_of LNil (text_of (table_get t n))) as Hg
    by (intros n; by rewrite table_get_texts, (texts_of_assoc _ _ _ Hms)).
  assert (∀ s, valid_utf8 s = true → from_option lua_of LNil (text_of (optional s)) = optional s) as Hopt.
  { intros s Hs. unfold optional. destruct (String.eqb s ""); [done|]. simpl. by apply lua_of_string. }
  assert (∀ z, (0 ≤ z < exact_limit)%Z → from_option lua_of LNil (text_of (LNum z)) = LNum z) as Hz.
  { intros z Hz. simpl. rewrite format_number by done. by apply lua_of_number. }
  split; rewrite ?Hg.
  - destruct encoded_names as [Hsub Hnd]. rewrite <- list_fmap_compose. by split.
  - rewrite (ht_chain _ _ _ Ht). apply lua_of_string. tauto.
  - rewrite (ht_family _ _ _ Ht). apply lua_of_string. tauto.
  - rewrite (ht_commitment _ _ _ Ht). apply lua_of_string. tauto.
  - rewrite (ht_number _ _ _ Ht). apply Hz. tauto.
  - rewrite (ht_hash _ _ _ Ht). apply Hopt. tauto.
  - rewrite (ht_parent _ _ _ Ht). apply Hopt. tauto.
  - rewrite (ht_generation _ _ _ Ht). apply Hz. tauto.
  - rewrite (ht_epoch _ _ _ Ht). apply Hz. tauto.
  - rewrite (ht_pending _ _ _ Ht). apply lua_of_bool.
  - rewrite (ht_observed _ _ _ Ht). apply lua_of_string. tauto.
  - rewrite (ht_changed _ _ _ Ht). apply lua_of_string. tauto.
  - rewrite (ht_origin _ _ _ Ht). apply lua_of_string. tauto.
  - pose proof (ht_header _ _ _ Ht) as Hc. simpl in Hc |- *. rewrite Hc.
    destruct (String.eqb_spec (Header h) ""); [done|]. simpl. by destruct Hh as [|(_ & _ & _ & ?)].
Qed.
End encode.

#[export] Instance plain_cjson_laws : CjsonLaws W.
Proof.
  split.
  - done.
  - done.
  - intros h raw Hst Hraw. destruct (storable_json h Hst) as [Hj _].
    rewrite Marshal_Head_members in Hraw by apply Hj. injection Hraw as <-.
    exists (prod_map id lua_of <$> head_members h). split; [|by apply head_members_table].
    simpl. unfold head_members. rewrite <- app_comm_cons, decode_object; [done|].
    rewrite app_comm_cons. by apply head_members_ok.
  - intros h t text Hst Ht He. simpl in He. destruct (texts_of t) as [ms|] eqn:Hms; [|done]. injection He as <-.
    assert (recoded h = h) as -> by (by destruct h). split; [by eapply encoded_go| |done].
    exists (prod_map id lua_of <$> ms). split; [|by eapply encoded_table].
    simpl. by rewrite (proj2 (encoded_struct h t ms Hst Ht Hms)).
Qed.
End plain_laws.

(** ** A client that asks once *)

#[export] Instance roomy_dec `{World W} k : Decision (roomy (W := W) k).
Proof.
  unfold roomy. apply map_Forall_dec. intros key [o ttl]. simpl. destruct o as [s|m|i l].
  - destruct (ParseUint 10 s); simpl; apply _.
  - apply map_Forall_dec. intros c text. destruct (Unmarshal_Head text); simpl; apply _.
  - apply _.
Defined.

Abbreviation RedisSim := (Sim keyspace).

Section client.
  Context {S : Type} (keys : S → keyspace) (with_keys : keyspace → S → S).
  Hypothesis keys_with : ∀ k s, keys (with_keys k s) = k.

(** The keys are a part of the world. *)
Definition asking_client : RedisClient (Sim S) keyspace := {|
  redis_do A s ctx w :=
    if decide (roomy (W := Sim S) (keys (sim_state w))) then
      let* (res, k) := s (keys (sim_state w)) in
      (match res with Ok a => Ok a | Err e => Err (ErrNew ("ERR " +:+ e)) end, with_sim_state (with_keys k (sim_state w)) w)
    else (Err (ErrNew "ERR exhausted"), w);
  redis_Ping ctx w := (None, w);
  redis_Close w := (None, w);
  redis_ParseURL url := None;
  redis_error rp := ErrNew "redis: unexpected type";
  redis_ParseInt s := match numeral_of s with Some n => Ok n | None => Err (ErrNew "invalid syntax") end
|}.

Definition asking_client_laws others : @RedisClientLaws (Sim S) keyspace _ asking_client _ _ others.
Proof using keys_with.
  refine (@Build_RedisClientLaws (Sim S) keyspace _ asking_client _ _ others (λ w, keys (sim_state w))
    (λ k w, with_sim_state (with_keys k (sim_state w)) w) (λ k w, keys_with k _) _ _).
  - intros A s ctx w res w'. simpl. destruct (decide (roomy _)) as [Hroom|].
    + destruct (s (keys (sim_state w))) as [[e|a] k] eqn:Hs; intros [= <- <-]; simpl; rewrite keys_with.
      * apply rtc_once. right. split; [done|]. by eexists.
      * by exists (keys (sim_state w)), k.
    + by intros [= <- <-].
  - intros A s ctx w e w'. simpl. destruct (decide (roomy _)).
    + by destruct (s (keys (sim_state w))) as [[e1|a] k]; intros [= <- <-].
    + by intros [= <- <-].
Defined.
End client.

#[export] Instance sim_redis_client : RedisClient RedisSim keyspace := asking_client (λ k, k) (λ k _, k).

#[export] Instance sim_redis_client_laws others : RedisClientLaws RedisSim keyspace others :=
  asking_client_laws (λ k, k) (λ k _, k) (λ k _, eq_refl) others.

(** ** A run *)

Definition shared : RedisStore := mkRedisStore "rpc" 3.

Definition shared_head (n : Z) (hash parent : string) : Head :=
  mkHead "eth" "evm" Latest n hash parent 0 0 false 5 0 "alpha" (js "{'number':'0x1','uncles':[]}").

Definition redis_world : RedisSim := mkSim 0 (λ _, Err ErrCanceled) ∅.

Definition no_error (_ : string) : string := "json".

Definition acquired (w : RedisSim) (owner : string) : result store_error (string * bool) * RedisSim :=
  Acquire (R := keyspace) shared Background "eth" owner 1000000000 w.

Definition published (w : RedisSim) (token : string) (h : Head) : result store_error Head * RedisSim :=
  Publish (R := keyspace) no_error shared Background token h w.

(** The same as operations on the server *)
Definition evm_family (_ : string) : string := "evm".

Definition after (op : redis_op) (k : keyspace) : keyspace := (op_script shared op k).2.

Definition raw_of_head (h : Head) : RawMessage := default "" (Marshal_Head (W := RedisSim) h).

Lemma after_step op k : op_allowed (W := RedisSim) evm_family op → roomy (W := RedisSim) k →
  server_step (W := RedisSim) shared evm_family k (after op k).
Proof. intros Hok Hroom. eapply ss_script; [exact Hok|exact Hroom|apply surjective_pairing]. Qed.

(** The lease runs out. *)
Lemma expired_step k : (∃ o, k !! key shared "eth" "leader" = Some (o, true)) →
  server_step (W := RedisSim) shared evm_family k (delete (key shared "eth" "leader") k).
Proof.
  intros [o Ho]. apply ss_elapsed. intros c s _. simpl.
  destruct (decide (key shared "eth" "leader" = key shared c s)) as [<-|Hne].
  - right. exists o. split; [done|apply lookup_delete_eq].
  - left. by apply lookup_delete_ne.
Qed.

Lemma empty_server_wf : server_wf (W := RedisSim) (R := keyspace) shared evm_family ∅.
Proof. intros chain. eexists. split; [apply shows_empty|apply empty_rview_wf]. Qed.

Definition world_with (k : keyspace) : RedisSim := mkSim 0 (λ _, Err ErrCanceled) k.

Definition leader_keys : keyspace := after (RAcquire "eth" "a" 1000000000) ∅.
Definition head_a : Head := shared_head 7 "0xa" "0x9".
Definition head_b : Head := shared_head 8 "0xb" "0xa".
Definition first_keys : keyspace := after (RPublish "a:1" (stamp_ChangedAt head_a) (raw_of_head (stamp_ChangedAt head_a))) leader_keys.
Definition second_keys : keyspace := after (RPublish "a:1" (stamp_ChangedAt head_b) (raw_of_head (stamp_ChangedAt head_b))) first_keys.

Lemma head_publishable h : h = stamp_ChangedAt head_a ∨ h = stamp_ChangedAt head_b →
  op_allowed (W := RedisSim) evm_family (RPublish "a:1" h (raw_of_head h)).
Proof.
  intros Hh. split; [split|].
  - split.
    + by destruct Hh as [-> | ->]; repeat (apply Forall_cons; split; [by vm_compute|]).
    + unfold exact_limit. by destruct Hh as [-> | ->]; repeat (apply Forall_cons; split; [cbn; lia|]).
    + by destruct Hh as [-> | ->]; repeat (apply Forall_cons; split; [by split; vm_compute|]).
    + assert (Header h = js "{'number':'0x1','uncles':[]}") as -> by (by destruct Hh as [-> | ->]). right.
      split; [by vm_compute|]. split; [|split; by vm_compute].
      split; [by eexists _, _; vm_compute|]. exists (js "{'number':'0x1','uncles':[]").
      eexists. split; by vm_compute.
    + by destruct Hh as [-> | ->].
  - by destruct Hh as [-> | ->].
  - by destruct Hh as [-> | ->]; vm_compute.
Qed.

Lemma second_keys_run : rtc (server_step (W := RedisSim) shared evm_family) ∅ second_keys.
Proof.
  eapply rtc_l; [apply (after_step (RAcquire "eth" "a" 1000000000)); [done|]|].
  { apply (bool_decide_unpack _). by vm_compute. }
  eapply rtc_l; [apply (after_step (RPublish "a:1" (stamp_ChangedAt head_a) (raw_of_head (stamp_ChangedAt head_a))))|].
  { apply head_publishable. by left. }
  { apply (bool_decide_unpack _). by vm_compute. }
  apply rtc_once, (after_step (RPublish "a:1" (stamp_ChangedAt head_b) (raw_of_head (stamp_ChangedAt head_b)))).
  { apply head_publishable. by right. }
  { apply (bool_decide_unpack _). by vm_compute. }
Qed.

(** ** Witnesses *)

Definition read_result : result store_error (list Event) * RedisSim :=
  ReadEvents (R := keyspace) no_error shared Background "eth" (id_text (0, 1)%Z) 10 (world_with second_keys).


(** The first leader's lease runs out and another instance is elected. *)
Definition expired_world : RedisSim := world_with (delete (key shared "eth" "leader") leader_keys).

Lemma shared_tokens_fence_witness :
  (acquired (world_with ∅) "a").1 = Ok ("a:1", true) ∧ (acquired expired_world "b").1 = Ok ("b:2", true) ∧
  lost_or_failed (published (acquired expired_world "b").2 "a:1" head_a).1.
Proof.
  assert ((acquired (world_with ∅) "a").1 = Ok ("a:1", true)) as Ha by (vm_compute; reflexivity).
  assert ((acquired expired_world "b").1 = Ok ("b:2", true)) as Hb by (vm_compute; reflexivity).
  split; [exact Ha|]. split; [exact Hb|].
  destruct (shared_tokens_fence (W := RedisSim) (R := keyspace) shared evm_family no_error Background Background
    "eth" "a" "b" 1000000000 1000000000 (world_with ∅) (acquired (world_with ∅) "a").2 expired_world
    (acquired expired_world "b").2 (acquired expired_world "b").2 "a:1" "b:2") as (_ & _ & Hp & _).
  - exact empty_server_wf.
  - exact (pair_fst _ _ Ha).
  - apply rtc_once. apply expired_step. eexists. vm_compute. reflexivity.
  - exact (pair_fst _ _ Hb).
  - reflexivity.
  - eapply (Hp Background head_a); [reflexivity|apply surjective_pairing].
Defined.

Lemma shared_scripts_refine_witness :
  is_ok (op_script (R := keyspace) shared (RAcquire "eth" "a" 1000000000) ∅).1 = true ∧
  shows (W := RedisSim) shared leader_keys "sol" (mkRview None 0 0 ∅ (0, 0)%Z []) ∧
  ∃ v', shows (W := RedisSim) shared leader_keys "eth" v' ∧
    acquires "a" (mkRview None 0 0 ∅ (0, 0)%Z []) (LList [LNum 1; LStr "a:1"]) v'.
Proof.
  split; [vm_compute; reflexivity|].
  assert (∀ c : string, op_script (R := keyspace) shared (RAcquire "eth" "a" 1000000000) ∅ =
    ((op_script (R := keyspace) shared (RAcquire "eth" "a" 1000000000) ∅).1, leader_keys)) as Hrun
    by (intros _; apply surjective_pairing).
  pose proof (λ c Hroom, shared_scripts_refine (W := RedisSim) (R := keyspace) shared evm_family
    (RAcquire "eth" "a" 1000000000) ∅ _ leader_keys c (mkRview None 0 0 ∅ (0, 0)%Z []) I Hroom
    (shows_empty shared c) (empty_rview_wf evm_family c) (Hrun c)) as Hrefine.
  split.
  - destruct (Hrefine "sol") as [Hother _]; [apply (bool_decide_unpack _); vm_compute; reflexivity|].
    apply Hother. discriminate.
  - destruct (Hrefine "eth") as [_ Hown]; [apply (bool_decide_unpack _); vm_compute; reflexivity|].
    destruct (Hown eq_refl) as (v' & Hs & _ & Ha). exists v'. split; [exact Hs|]. apply Ha. vm_compute. reflexivity.
Defined.

