(* ===== verification/Upstream.v ===== *)
(** * The upstream JSON-RPC client — internal/upstream/client.go

    One client per configured provider: its failure circuit, its capability
    sets and [Call], which turns one HTTP exchange into a protocol response or a
    transport error.  The error text kept for the status page is redacted
    ([Redaction.v]), up to the texts of encoding/json, which are abstract.  Telemetry
    spans and counters do nothing here. *)

From S2P Require Import Prelude GoStrings GoJson JsonRpc Head World Redaction.
From Stdlib Require Import SpecFloat Ascii.

(** ** Go's float64

    The success rate and the score are computed in binary64, as in the source. *)

Definition fmul (x y : spec_float) : spec_float := SFmul 53 1024 x y.
Definition fadd (x y : spec_float) : spec_float := SFadd 53 1024 x y.
Definition fdiv (x y : spec_float) : spec_float := SFdiv 53 1024 x y.
Definition f_of_Z (z : Z) : spec_float := binary_normalize 53 1024 z 0 false.

Definition f0 : spec_float := S754_zero false.
Definition f1 : spec_float := f_of_Z 1.
Definition f0_5 : spec_float := S754_finite false 4503599627370496 (-53).
Definition f0_9 : spec_float := S754_finite false 8106479329266893 (-53).
Definition f0_1 : spec_float := S754_finite false 7205759403792794 (-56).

(** Conversion of a finite float to an integer type: truncation. *)
Definition Z_of_f (x : spec_float) : Z :=
  match x with
  | S754_finite s m e =>
      let a := if (0 <=? e)%Z then Z.shiftl (Zpos m) e else Z.shiftr (Zpos m) (- e) in
      if s then (- a)%Z else a
  | _ => 0
  end.

(** ** State *)

(* go: upstream/client.go:26-41 Client *)
Record Client := mkClient {
  cl_ID : string;
  cl_HTTPURL : string;
  cl_WebsocketURL : string;
  cl_Headers : list (string * string);
  cl_Family : string;
  cl_Chain : string
}.

(** Clients are shared by pointer; identifiers are unique within a chain. *)
Definition client_key (c : Client) : string * string := (cl_Chain c, cl_ID c).

(* go: upstream/client.go:43-50 healthState *)
Record healthState := mkHealth {
  latencyEWMA : Z;
  successEWMA : spec_float;
  failures : Z;
  openUntil : Z;
  lastError : string
}.

Definition zero_health : healthState := mkHealth 0 f0 0 0 "".

(** The fields of [Client] that its methods change. *)
Record ClientState := mkClientState {
  requestID : Z;
  health : healthState;
  eip1898 : bool;
  unsupported : gset string;
  pinnedMethods : gmap string bool
}.

Definition zero_ClientState : ClientState := mkClientState 0 zero_health false ∅ ∅.

Definition with_health (h : healthState) (s : ClientState) : ClientState :=
  mkClientState (requestID s) h (eip1898 s) (unsupported s) (pinnedMethods s).

Definition with_requestID (id : Z) (s : ClientState) : ClientState :=
  mkClientState id (health s) (eip1898 s) (unsupported s) (pinnedMethods s).

(* go: upstream/client.go:63-67 RPCResponse *)
Record RPCResponse := mkRPC { rpc_Result : RawMessage; rpc_Error : option Error }.

(** ** Capabilities *)

(* go: upstream/client.go:102-103 Client.SupportsEIP1898 *)
Definition SupportsEIP1898 (s : ClientState) : bool := eip1898 s.

(* go: upstream/client.go:105-106 Client.SetEIP1898 *)
Definition SetEIP1898 (supported : bool) (s : ClientState) : ClientState :=
  mkClientState (requestID s) (health s) supported (unsupported s) (pinnedMethods s).

(* go: upstream/client.go:108-111 Client.SetPinnedMethod *)
Definition SetPinnedMethod (method : string) (supported : bool) (s : ClientState) : ClientState :=
  mkClientState (requestID s) (health s) (eip1898 s) (unsupported s)
    (<[method := supported]> (pinnedMethods s)).

(* go: upstream/client.go:113-117 Client.SupportsPinnedMethod *)
Definition SupportsPinnedMethod (method : string) (s : ClientState) : bool :=
  default false (pinnedMethods s !! method).

(* go: upstream/client.go:119-123 Client.SupportsMethod *)
Definition SupportsMethod (method : string) (s : ClientState) : bool :=
  negb (bool_decide (method ∈ unsupported s)).

(* go: upstream/client.go:125-126 Client.MarkMethodUnsupported *)
Definition MarkMethodUnsupported (method : string) (s : ClientState) : ClientState :=
  mkClientState (requestID s) (health s) (eip1898 s) ({[method]} ∪ unsupported s) (pinnedMethods s).

(** ** Health *)

Definition second : Z := 1000000000.
Definition millisecond : Z := 1000000.

(* go: upstream/client.go:128-133 Client.Healthy *)
Definition Healthy (now : Z) (s : ClientState) : bool := (openUntil (health s) <? now)%Z.

(* go: upstream/client.go:135-148 Client.Score *)
Definition Score (s : ClientState) : Z :=
  let latency := if (latencyEWMA (health s) =? 0)%Z then second else latencyEWMA (health s) in
  let successRate := if SFltb (successEWMA (health s)) f0_1 then f0_1 else successEWMA (health s) in
  Z_of_f (fdiv (f_of_Z latency) successRate).

(* go: upstream/client.go:282-298 Client.recordSuccess *)
Definition recordSuccess (duration : Z) (h : healthState) : healthState :=
  mkHealth
    (if (latencyEWMA h =? 0)%Z then duration
     else Z.quot (latencyEWMA h * 8 + duration * 2) 10)
    (if SFeqb (successEWMA h) f0 then f1 else fadd (fmul (successEWMA h) f0_9) f0_1)
    0 0 "".

(** The error text of the client's own endpoint, redacted. *)
Definition sanitized (c : Client) (e : goerror) : string :=
  sanitizeError (cl_HTTPURL c) (cl_Headers c).*2 (error_text e).

(* go: upstream/client.go:300-314 Client.recordFailure *)
Definition recordFailure (c : Client) (e : goerror) (now : Z) (h : healthState) : healthState :=
  let n := (failures h + 1)%Z in
  let success := if SFeqb (successEWMA h) f0 then f0_5 else fmul (successEWMA h) f0_9 in
  let lastError := sanitized c e in
  if (5 <=? n)%Z then mkHealth (latencyEWMA h) success 0 (now + 10 * second) lastError
  else mkHealth (latencyEWMA h) success n (openUntil h) lastError.

(** ** The status page *)

(* go: upstream/client.go:52-61 Status *)
Record Status := mkStatus {
  us_ID : string;
  us_Healthy : bool;
  us_LatencyEWMA : Z;
  us_LastError : string;
  us_EIP1898 : bool;
  us_SuccessRate : spec_float;
  us_Unsupported : list string;
  us_PinnedMethods : list string
}.

(** [sort.Strings] *)
Definition sort_strings (l : list string) : list string := merge_sort String.le l.

(* go: upstream/client.go:150-168 Client.Status *)
Definition Client_Status (now : Z) (c : Client) (s : ClientState) : Status :=
  mkStatus (cl_ID c) (openUntil (health s) <? now)%Z (latencyEWMA (health s)) (lastError (health s)) (eip1898 s)
    (successEWMA (health s)) (sort_strings (base.elements (unsupported s)))
    (sort_strings (omap (λ '(method, supported), if (supported : bool) then Some method else None)
                     (map_to_list (pinnedMethods s)))).

(** ** Decoding an upstream response *)

(** Into [int]: plain decimal literals in the range of int64. *)
Definition ParseInt (s : string) : option Z :=
  match s with
  | String c r =>
      if is_char 45 c
      then n ← ParseUint 10 r; if (n <=? 9223372036854775808)%Z then Some (- n)%Z else None
      else n ← ParseUint 10 s; if (n <? 9223372036854775808)%Z then Some n else None
  | EmptyString => None
  end.

Definition Unmarshal_int (cur : Z) (t : RawMessage) : option Z :=
  match decode t with
  | Some JNull => Some cur
  | Some (JNumber l) => ParseInt l
  | _ => None
  end.

(** Into [*Error]; [null] gives nil, a repeated member updates the error. *)
Definition Unmarshal_Error (fmt : string → string) (cur : option Error) (t : RawMessage)
    : option (option Error) :=
  match decode t with
  | Some JNull => Some None
  | Some (JObject ms) =>
      let e := default (mkError 0 "" ANil) cur in
      code ← field Unmarshal_int (Code e) "code" ms;
      message ← field Unmarshal_string (Message e) "message" ms;
      data ← field (λ _ t, Some (Unmarshal_any (String.length t) fmt t)) (Data e) "data" ms;
      Some (Some (mkError code message data))
  | _ => None
  end.

Definition Unmarshal_Response (fmt : string → string) (t : RawMessage) : option Response :=
  ms ← Unmarshal_struct t;
  version ← field Unmarshal_string "" "jsonrpc" ms;
  id ← field Unmarshal_raw "" "id" ms;
  res ← field Unmarshal_raw "" "result" ms;
  err ← field (Unmarshal_Error fmt) None "error" ms;
  Some (mkResponse version id res err).

(** ** Calls *)

(** The mutable part of the clients, as a component of the world. *)
Class Clients (W : Type) := {
  client_state : string * string → W → ClientState;
  set_client_state : string * string → ClientState → W → W
}.

Definition update_client `{Clients W} (c : Client) (f : ClientState → ClientState) (w : W) : W :=
  set_client_state (client_key c) (f (client_state (client_key c) w)) w.

Definition maxUpstreamResponseBytes : Z := 67108864.

Section call.
  Context {W : Type} `{World W, Clients W}.

Definition fail_call (c : Client) (e : goerror) (w : W) : result goerror RPCResponse * W :=
    (Err e, update_client c (λ s, with_health (recordFailure c e (now w) (health s)) s) w).

(** An error of decoding is recorded as it is and returned wrapped. *)
Definition unwrapped (e : goerror) : goerror :=
  match e with Errorf _ e _ => e | e => e end.

Definition request_body (id : Z) (method : string) (parameters : RawMessage) : option RawMessage :=
    let params := if (len parameters =? 0)%Z then "[]" else parameters in
    p ← Marshal_raw params;
    Some (js "{'jsonrpc':" +:+ Marshal_string Version +:+ js ",'id':" +:+ pretty id
          +:+ js ",'method':" +:+ Marshal_string method +:+ js ",'params':" +:+ p +:+ "}").

  (** The checks [Call] makes on a body, in order; [inl] is the error. *)
Definition check_response (id : Z) (body : string) : result goerror RPCResponse :=
    match Unmarshal_Response fmt_float body with
    | None => Err (Errorf "decode upstream response: " (ErrNew "json") "")
    | Some r =>
        if negb (String.eqb (res_JSONRPC r) Version)
        then Err (ErrNew "invalid jsonrpc version from upstream")
        else if negb (String.eqb (res_ID r) (pretty id))
        then Err (ErrNew "upstream returned a mismatched jsonrpc id")
        else if Bool.eqb (0 <? len (res_Result r))%Z
                  (match res_Error r with Some _ => true | None => false end)
             || match res_Error r with Some e => String.eqb (Message e) "" | None => false end
        then Err (ErrNew "upstream must return exactly one result or valid error")
        else Ok (mkRPC (res_Result r) (res_Error r))
    end.

  (** From the request id on, with the semaphore slot taken. *)
Definition exchange (c : Client) (ctx : Context) (method : string) (parameters : RawMessage)
      (w : W) : result goerror RPCResponse * W :=
    let w := update_client c (λ s, with_requestID (u64_add (requestID s) 1) s) w in
    let id := requestID (client_state (client_key c) w) in
    match request_body id method parameters with
    | None => (Err (Errorf "encode upstream request: " (ErrNew "json") ""), w)
    | Some body =>
        if negb (http_NewRequest (cl_HTTPURL c))
        then (Err (ErrNew "create upstream request: invalid endpoint"), w) else
        let started := now w in
        let* (response, w) :=
          http_Do (mkHttpRequest (cl_HTTPURL c) (("Content-Type", "application/json") :: cl_Headers c)
                     body) ctx w in
        match response with
        | Err e => fail_call c (Errorf "send upstream request: " e "") w
        | Ok response =>
            if (hr_StatusCode response <? 200)%Z || (300 <=? hr_StatusCode response)%Z
            then fail_call c (ErrNew ("upstream http status " +:+ pretty (hr_StatusCode response))) w
            else if (maxUpstreamResponseBytes <? len (hr_Content response))%Z
            then fail_call c (ErrNew "upstream response exceeds limit") w
            else match hr_ReadError response with
                 | Some e => fail_call c (Errorf "read upstream response: " e "") w
                 | None =>
                     match check_response id (hr_Content response) with
                     | Err e => (Err e, (fail_call c (unwrapped e) w).2)
                     | Ok r =>
                         (Ok r, update_client c
                            (λ s, with_health (recordSuccess (now w - started) (health s)) s) w)
                     end
                 end
        end
    end.

  (* go: upstream/client.go:170-280 Client.Call *)
Definition Call (c : Client) (ctx : Context) (method : string) (parameters : RawMessage) (w : W)
      : result goerror RPCResponse * W :=
    if negb (Healthy (now w) (client_state (client_key c) w))
    then (Err (ErrNew "upstream circuit is open"), w)
    else
      let* (slot, w) := sem_acquire (client_key c) ctx w in
      match slot with
      | Err e => (Err e, w)
      | Ok _ =>
          let* (r, w) := exchange c ctx method parameters w in
          (r, sem_release (client_key c) w)
      end.
End call.

(** ** The circuit, in closed form

    A history is the list of outcomes recorded for a client: [Some t] a failure
    at time [t], [None] a success of some duration. *)

Inductive outcome := Failed (t : Z) (e : goerror) | Succeeded (duration : Z).

Definition record (c : Client) (h : healthState) (o : outcome) : healthState :=
  match o with Failed t e => recordFailure c e t h | Succeeded d => recordSuccess d h end.

(** The times of the failures since the last success, oldest first. *)
Definition trailing (l : list outcome) : list Z :=
  fold_left (λ acc o, match o with Failed t _ => acc ++ [t] | Succeeded _ => [] end) l [].

(** The time the circuit last tripped: at every fifth failure in a row. *)
Definition tripped (l : list Z) : option Z :=
  if decide (length l < 5)%nat then None else l !! (length l / 5 * 5 - 1)%nat.

Lemma trailing_snoc l o :
  trailing (l ++ [o]) = match o with Failed t _ => trailing l ++ [t] | Succeeded _ => [] end.
Proof. unfold trailing. by rewrite fold_left_app. Qed.

Lemma tripped_snoc l t :
  tripped (l ++ [t]) = if decide ((length l + 1) mod 5 = 0)%nat then Some t else tripped l.
Proof.
  unfold tripped. rewrite length_app. cbn [length].
  pose proof (Nat.div_mod_eq (length l) 5). pose proof (Nat.mod_upper_bound (length l) 5 ltac:(lia)).
  pose proof (Nat.div_mod_eq (length l + 1) 5).
  pose proof (Nat.mod_upper_bound (length l + 1) 5 ltac:(lia)).
  set (q := (length l / 5)%nat) in *. set (q' := ((length l + 1) / 5)%nat) in *.
  set (m := (length l mod 5)%nat) in *. set (m' := ((length l + 1) mod 5)%nat) in *.
  clearbody q q' m m'. destruct (decide (m' = 0)) as [Hm|Hm].
  - rewrite decide_False by lia. rewrite lookup_app_r by lia.
    by replace (q' * 5 - 1 - length l)%nat with 0%nat by lia.
  - destruct (decide (length l < 5)%nat); [by rewrite decide_True by lia|].
    rewrite decide_False by lia. rewrite lookup_app_l by lia. f_equal. lia.
Qed.

Lemma mod_succ_cases n : ((n + 1) mod 5 = 0 ∧ n mod 5 = 4 ∨ (n + 1) mod 5 = n mod 5 + 1 ∧ n mod 5 < 4)%nat.
Proof.
  pose proof (Nat.div_mod_eq n 5). pose proof (Nat.mod_upper_bound n 5 ltac:(lia)).
  pose proof (Nat.div_mod_eq (n + 1) 5). pose proof (Nat.mod_upper_bound (n + 1) 5 ltac:(lia)). lia.
Qed.

Lemma history_health c h0 l :
  failures h0 = 0%Z → openUntil h0 = 0%Z →
  let h := fold_left (record c) l h0 in
  failures h = Z.of_nat (length (trailing l) mod 5) ∧
  openUntil h = match tripped (trailing l) with Some t => t + 10 * second | None => 0 end%Z.
Proof.
  intros Hf Ho. induction l as [|o l [IHf IHo]] using rev_ind; [done|].
  cbn zeta in *. rewrite fold_left_app. cbn [fold_left].
  set (h := fold_left (record c) l h0) in *. clearbody h. rewrite trailing_snoc. destruct o as [t e|d]; [|done].
  rewrite tripped_snoc, length_app. cbn [length record]. unfold recordFailure. rewrite IHf.
  destruct (mod_succ_cases (length (trailing l))) as [[-> Hm]|[-> Hm]].
  - by rewrite Hm.
  - destruct (Z.leb_spec 5 (Z.of_nat (length (trailing l) mod 5) + 1)); [lia|].
    cbn [failures openUntil]. split; [lia|]. rewrite IHo. rewrite decide_False by lia. done.
Qed.

(** The failure circuit.  After any history of recorded outcomes a client
    refuses calls at time [t] exactly when the failures since its last success
    tripped the circuit (every fifth of them does) at most ten seconds before
    [t]; so a success closes the circuit at once and fewer than five failures in
    a row never open it. *)
Lemma circuit_breaker c l t :
  (0 < t)%Z →
  let s := with_health (fold_left (record c) l zero_health) zero_ClientState in
  (Healthy t s = false ↔
     ∃ τ, tripped (trailing l) = Some τ ∧ (t ≤ τ + 10 * second)%Z) ∧
  ((length (trailing l) < 5)%nat → Healthy t s = true).
Proof.
  intros Ht. destruct (history_health c zero_health l eq_refl eq_refl) as [_ Ho].
  unfold Healthy. simpl in *. rewrite Ho. split.
  - destruct (tripped (trailing l)) as [τ|].
    + rewrite Z.ltb_ge. split; [eauto|]. by intros (? & [= ->] & ?).
    + rewrite Z.ltb_ge. split; [lia|]. by intros (? & ? & _).
  - unfold tripped. intros Hlen. rewrite decide_True by done. by apply Z.ltb_lt.
Qed.

(** ** What a call returns *)

Section call_contract.
  Context {W : Type} `{World W, Clients W}.

(** A result or an error with a message, never both, never neither. *)
Definition valid_rpc (r : RPCResponse) : Prop :=
    (rpc_Error r = None ∧ rpc_Result r ≠ "") ∨
    (∃ e, rpc_Error r = Some e ∧ Message e ≠ "" ∧ rpc_Result r = "").

(** A reply of the provider's endpoint that answers request [id]. *)
Definition answers (id : Z) (resp : HttpResponse) (r : RPCResponse) : Prop :=
    (200 ≤ hr_StatusCode resp < 300)%Z ∧ hr_ReadError resp = None ∧
    (len (hr_Content resp) ≤ maxUpstreamResponseBytes)%Z ∧
    ∃ m, Unmarshal_Response fmt_float (hr_Content resp) = Some m ∧
         res_JSONRPC m = Version ∧ res_ID m = pretty id ∧
         r = mkRPC (res_Result m) (res_Error m).

Lemma check_response_Ok id body r :
    check_response id body = Ok r →
    valid_rpc r ∧ ∃ m, Unmarshal_Response fmt_float body = Some m ∧
      res_JSONRPC m = Version ∧ res_ID m = pretty id ∧ r = mkRPC (res_Result m) (res_Error m).
  Proof using Type.
    unfold check_response. destruct (Unmarshal_Response fmt_float body) as [m|]; [|done].
    destruct (negb (String.eqb (res_JSONRPC m) Version)) eqn:Hv; [done|].
    destruct (negb (String.eqb (res_ID m) (pretty id))) eqn:Hid; [done|].
    destruct (_ || _) eqn:Hc; [done|]. intros [= <-]. bool_to_prop. split; [|eauto 6].
    unfold valid_rpc. simpl. destruct (res_Error m) as [e|].
    - right. exists e. destruct (0 <? len (res_Result m))%Z eqn:Hl; [done|]. bool_to_prop.
      split_and!; [done|done|]. destruct (res_Result m); [done|]. unfold len in Hl. simpl in Hl. lia.
    - left. destruct (0 <? len (res_Result m))%Z eqn:Hl; [|done]. bool_to_prop.
      split; [done|]. intros Heq. rewrite Heq in Hl. unfold len in Hl. simpl in Hl. lia.
  Qed.

Lemma exchange_Ok c ctx method params w r w' :
    exchange c ctx method params w = (Ok r, w') →
    valid_rpc r ∧ ∃ req w1 resp w2 id,
      http_Do req ctx w1 = (Ok resp, w2) ∧ hr_URL req = cl_HTTPURL c ∧
      request_body id method params = Some (hr_Body req) ∧ answers id resp r.
  Proof using Type.
    unfold exchange. set (w1 := update_client _ _ w).
    set (id := requestID (client_state (client_key c) w1)).
    destruct (request_body id method params) as [body|] eqn:Hb; [|done].
    destruct (negb _); [done|].
    destruct (http_Do _ ctx w1) as [[e|resp] w2] eqn:Hdo; [done|].
    destruct (_ || _) eqn:Hst; [done|]. destruct (maxUpstreamResponseBytes <? _)%Z eqn:Hlen; [done|].
    destruct (hr_ReadError resp) eqn:Hread; [done|].
    destruct (check_response id (hr_Content resp)) as [e|r'] eqn:Hc; [done|]. intros [= <- _].
    apply check_response_Ok in Hc as [Hv Hm]. split; [done|]. bool_to_prop.
    eexists _, w1, resp, w2, id. split_and!; [exact Hdo|done|exact Hb|].
    unfold answers. split_and!; [lia|lia|done|lia|done].
  Qed.
End call_contract.

(** A call made while the circuit is open fails without touching the
    network, and a call that succeeds returns exactly one of a result and an
    error with a message, taken from a 2xx reply of the client's own endpoint, of
    at most 64 MiB, with the protocol version and the id of the request sent. *)
Lemma call_contract `{World W, Clients W} c ctx method params w :
  (Healthy (now w) (client_state (client_key c) w) = false →
   Call c ctx method params w = (Err (ErrNew "upstream circuit is open"), w)) ∧
  (∀ r w', Call c ctx method params w = (Ok r, w') →
   Healthy (now w) (client_state (client_key c) w) = true ∧
   valid_rpc r ∧ ∃ req w1 resp w2 id,
     http_Do req ctx w1 = (Ok resp, w2) ∧ hr_URL req = cl_HTTPURL c ∧
     request_body id method params = Some (hr_Body req) ∧ answers id resp r).
Proof.
  unfold Call. split; [by intros ->|]. intros r w'.
  destruct (Healthy _ _) eqn:Hh; [|done]. simpl.
  destruct (sem_acquire _ _ _) as [[e|u] w1]; [done|].
  destruct (exchange c ctx method params w1) as [r1 w2] eqn:He. intros [= -> _].
  split; [done|]. by eapply exchange_Ok.
Qed.

(** ** A scripted world, for concrete runs *)

#[export] Instance sim_clients : Clients (Sim (gmap (string * string) ClientState)) := {
  client_state k w := default zero_ClientState (sim_state w !! k);
  set_client_state k s w := with_sim_state (<[k := s]> (sim_state w)) w
}.

Definition demo_client : Client := mkClient "up" "http://up" "" [] "evm" "demo".

Definition demo_world : Sim (gmap (string * string) ClientState) :=
  mkSim 1000 (λ _, Ok (mkHttpResponse 200 (js "{'jsonrpc':'2.0','id':1,'result':'0x1'}") None)) ∅.

Lemma call_contract_witness :
  ∃ w', Call demo_client Background "eth_chainId" "null" demo_world =
          (Ok (mkRPC (js "'0x1'") None), w') ∧ valid_rpc (mkRPC (js "'0x1'") None).
Proof.
  eexists. split; [vm_compute; reflexivity|].
  eapply (proj2 (call_contract demo_client Background "eth_chainId" "null" demo_world)).
  vm_compute. reflexivity.
Defined.
