(* ===== verification/Chain.v ===== *)
(** * The per-chain runtime — internal/chain/runtime.go

    Header parsing, the ranking of upstreams, block lookup by hash and by number,
    and the resolution of a request's block reference to one exact header. *)

From S2P Require Import Prelude GoStrings GoJson Evm JsonRpc Head World Upstream.
From Stdlib Require Import Ascii.

(** ** Data *)

(* go: config/config.go:88-101 ChainConfig *)
Record ChainConfig := mkChainConfig {
  cfg_Name : string;
  cfg_Family : string;
  cfg_ChainID : string;
  cfg_GenesisHash : string;
  cfg_PollInterval : Z;
  cfg_HeadRequestTimeout : Z;
  cfg_MaxHeadAge : Z;
  cfg_ReorgDepth : Z
}.

(** The immutable part of a runtime; [RuntimeState] is the rest. *)
(* go: chain/runtime.go:23-33 Runtime *)
Record Runtime := mkRuntime { rt_Config : ChainConfig; rt_Upstreams : list Client }.

(* go: chain/runtime.go:35-38 availabilityRecord *)
Record availabilityRecord := mkAvailability { available : bool; expires : Z }.

Record RuntimeState := mkRuntimeState {
  valid : gmap string bool;
  validation : gmap string string;
  availability : gmap string availabilityRecord
}.

Definition zero_RuntimeState : RuntimeState := mkRuntimeState ∅ ∅ ∅.

Definition with_availability (a : gmap string availabilityRecord) (s : RuntimeState) : RuntimeState :=
  mkRuntimeState (valid s) (validation s) a.

(** The runtimes' mutable state, by chain name, as a component of the world. *)
Class Runtimes (W : Type) := {
  runtime_state : string → W → RuntimeState;
  set_runtime_state : string → RuntimeState → W → W
}.

(* go: chain/runtime.go:47-52 EVMHeadParseRequest *)
Record EVMHeadParseRequest := mkParseRequest {
  pr_Commitment : string;
  pr_Origin : string;
  pr_Header : RawMessage
}.

(* go: chain/runtime.go:54-59 EVMBlockByHashRequest *)
Record EVMBlockByHashRequest := mkByHash {
  bh_Hash : string;
  bh_Commitment : string;
  bh_PreferredUpstreamID : string
}.

(* go: chain/runtime.go:61-66 EVMBlockByNumberRequest *)
Record EVMBlockByNumberRequest := mkByNumber {
  bn_Number : Z;
  bn_Commitment : string;
  bn_UpstreamID : string
}.

Definition ErrInvalidEVMBlockReference : goerror := ErrNew "invalid EVM block reference".
Definition ErrUnsupportedEVMBlockReference : goerror := ErrNew "unsupported EVM block reference".
Definition ErrEVMBlockUnavailable : goerror := ErrNew "EVM block unavailable".

(** ** Parsing headers *)

Definition quantity_goerror (e : quantity_error) : goerror :=
  match e with
  | QuantityNotPrefixed => ErrNew "quantity must be 0x-prefixed"
  | QuantityLeadingZero => ErrNew "quantity has leading zero"
  | QuantityParse => Errorf "parse EVM quantity: " (ErrNew "strconv") ""
  end.

(* go: chain/runtime.go:569-598 Runtime.ParseEVMHead *)
Definition ParseEVMHead (r : Runtime) (now : Z) (request : EVMHeadParseRequest)
    : result goerror Head :=
  if String.eqb (pr_Header request) "" || String.eqb (pr_Header request) "null"
  then Err (ErrNew "block is null")
  else match Unmarshal_map (pr_Header request) with
  | None => Err (Errorf "decode block: " (ErrNew "json") "")
  | Some decoded =>
      let block := default ∅ decoded in
      let member k := default "" (block !! k) in
      match Unmarshal_string "" (member "number") with
      | None => Err (ErrNew "block has invalid number")
      | Some numberHex =>
      match Unmarshal_string "" (member "hash") with
      | None => Err (ErrNew "block has invalid hash")
      | Some hashValue =>
      if negb (IsEVMHash hashValue) then Err (ErrNew "block has invalid hash") else
      match Unmarshal_string "" (member "parentHash") with
      | None => Err (ErrNew "block has invalid parent hash")
      | Some parentHash =>
      if negb (IsEVMHash parentHash) then Err (ErrNew "block has invalid parent hash") else
      match ParseEVMQuantity numberHex with
      | Err e => Err (quantity_goerror e)
      | Ok number =>
      match Marshal_map (delete "transactions" block) with
      | None => Err (Errorf "encode block header: " (ErrNew "json") "")
      | Some header =>
          Ok (mkHead (cfg_Name (rt_Config r)) "evm" (pr_Commitment request) number hashValue
                parentHash 0 0 false now 0 (pr_Origin request) header)
      end end end end end
  end.

(* go: chain/runtime.go:600-607 IsUnavailableRPCError *)
Definition IsUnavailableRPCError (rpcErr : option Error) : bool :=
  match rpcErr with
  | None => false
  | Some e =>
      if (Code e =? CodeMethodNotFound)%Z then false else
      let message := ToLowerText (Message e +:+ " " +:+ Sprint (Data e)) in
      (Code e =? -32001)%Z || Contains message "not found" || Contains message "unknown block"
      || Contains message "minimum context slot" || Contains message "not canonical"
  end.

(** ** Candidates *)

Section runtime.
  Context {W : Type} `{World W, Clients W, Runtimes W}.

Definition state_of (c : Client) (w : W) : ClientState := client_state (client_key c) w.

  (* go: chain/runtime.go:250-255 Runtime.IsValid *)
Definition IsValid (r : Runtime) (id : string) (w : W) : bool :=
    default false (valid (runtime_state (cfg_Name (rt_Config r)) w) !! id).

  (* go: chain/runtime.go:271-285 Runtime.Candidates *)
Definition Candidates (r : Runtime) (requireEIP1898 : bool) (w : W) : list Client :=
    stable_sort (λ a b, Score (state_of a w) <? Score (state_of b w))%Z
      (filter (λ c, IsValid r (cl_ID c) w && Healthy (now w) (state_of c w)
                    && (negb requireEIP1898 || SupportsEIP1898 (state_of c w)) = true)
         (rt_Upstreams r)).

  (* go: chain/runtime.go:287-295 Runtime.Upstream *)
Definition Runtime_Upstream (r : Runtime) (id : string) : option Client :=
    snd <$> list_find (λ c, cl_ID c = id) (rt_Upstreams r).

  (* go: chain/runtime.go:464-473 Runtime.preferredCandidates *)
Definition preferredCandidates (r : Runtime) (preferredID : string) (w : W) : list Client :=
    let candidates := Candidates r false w in
    if String.eqb preferredID "" then candidates
    else stable_sort (λ a b, String.eqb (cl_ID a) preferredID && negb (String.eqb (cl_ID b) preferredID))
           candidates.

  (* go: chain/runtime.go:609-615 Runtime.call *)
Definition call (ctx : Context) (candidate : Client) (method : string)
      (arguments : list RawMessage) (w : W) : result goerror RPCResponse * W :=
    match MarshalCallParams arguments with
    | None => (Err (Errorf ("prepare " +:+ method +:+ " upstream call: ") (ErrNew "json") ""), w)
    | Some encodedParameters => Call candidate ctx method encodedParameters w
    end.

  (** ** Blocks by hash and by number *)

  (** The loop over candidates, with the failures collected so far. *)
Fixpoint try_candidates (r : Runtime) (ctx : Context) (request : EVMBlockByHashRequest)
      (candidates : list Client) (failures : list goerror) (w : W) : result goerror Head * W :=
    match candidates with
    | [] =>
        (Err (ErrJoin (ErrNew ("block " +:+ bh_Hash request +:+ " is unavailable")
                         :: (if decide (failures = []) then [] else [ErrJoin failures]))), w)
    | candidate :: rest =>
        let from := " from upstream " +:+ cl_ID candidate +:+ ": " in
        let* (blockCall, w) :=
          call ctx candidate "eth_getBlockByHash" [Marshal_string (bh_Hash request); Marshal_bool false] w in
        match blockCall with
        | Err e =>
            try_candidates r ctx request rest (failures ++ [Errorf ("query block" +:+ from) e ""]) w
        | Ok response =>
            match rpc_Error response with
            | Some e =>
                try_candidates r ctx request rest
                  (failures ++ [Errorf ("query block" +:+ from) (ErrRPC e) ""]) w
            | None =>
                if String.eqb (rpc_Result response) "null"
                then try_candidates r ctx request rest failures w
                else match ParseEVMHead r (now w) (mkParseRequest (bh_Commitment request)
                               (cl_ID candidate) (rpc_Result response)) with
                     | Ok block =>
                         if EqualFold (Hash block) (bh_Hash request) then (Ok block, w)
                         else try_candidates r ctx request rest failures w
                     | Err e =>
                         try_candidates r ctx request rest
                           (failures ++ [Errorf ("parse block" +:+ from) e ""]) w
                     end
            end
        end
    end.

  (* go: chain/runtime.go:408-438 Runtime.EVMBlockByHash *)
Definition EVMBlockByHash (r : Runtime) (ctx : Context) (request : EVMBlockByHashRequest) (w : W)
      : result goerror Head * W :=
    if negb (IsEVMHash (bh_Hash request)) then (Err (ErrNew "invalid block hash"), w)
    else try_candidates r ctx request
           (preferredCandidates r (bh_PreferredUpstreamID request) w) [] w.

  (* go: chain/runtime.go:440-462 Runtime.EVMBlockByNumberFrom *)
Definition EVMBlockByNumberFrom (r : Runtime) (ctx : Context) (request : EVMBlockByNumberRequest)
      (w : W) : result goerror Head * W :=
    let unavailable := ErrNew ("upstream " +:+ bn_UpstreamID request +:+ " is unavailable") in
    match Runtime_Upstream r (bn_UpstreamID request) with
    | None => (Err unavailable, w)
    | Some candidate =>
        if negb (IsValid r (bn_UpstreamID request) w) || negb (Healthy (now w) (state_of candidate w))
        then (Err unavailable, w)
        else
          let* (blockCall, w) :=
            call ctx candidate "eth_getBlockByNumber"
              [Marshal_string (FormatEVMQuantity (bn_Number request)); Marshal_bool false] w in
          match blockCall with
          | Err e => (Err e, w)
          | Ok response =>
              match rpc_Error response with
              | Some e => (Err (ErrRPC e), w)
              | None =>
                  match ParseEVMHead r (now w) (mkParseRequest (bn_Commitment request)
                          (cl_ID candidate) (rpc_Result response)) with
                  | Err e => (Err e, w)
                  | Ok block =>
                      if negb (Number block =? bn_Number request)%Z
                      then (Err (ErrNew "upstream returned a different block number"), w)
                      else (Ok block, w)
                  end
              end
          end
    end.

  (** ** Block references *)

  (* go: chain/runtime.go:376-382 Runtime.getRequiredHead *)
Definition getRequiredHead (snapshot : Snapshot) (commitment : string) : result goerror Head :=
    let* (acceptedHead, ok) := Get snapshot commitment in
    if negb ok || IsZero acceptedHead
    then Err (Errorf "" ErrEVMBlockUnavailable (": commitment " +:+ commitment))
    else Ok acceptedHead.

  (** The loop from the accepted head down its parent links.  [steps] is the
      number of iterations left; [getEVMBlockByQuantity] starts it at the height
      difference, and every iteration descends by exactly one. *)
Fixpoint ancestor (r : Runtime) (ctx : Context) (quantity : string) (number : Z) (steps : nat)
      (cursor : Head) (w : W) : result goerror Head * W :=
    match steps with
    | O => (Ok cursor, w)
    | S steps =>
        if (number <? Number cursor)%Z then
          let* (parent, w) :=
            EVMBlockByHash r ctx (mkByHash (ParentHash cursor) "explicit" (Origin cursor)) w in
          match parent with
          | Err e =>
              (Err (Errorf2 "" ErrEVMBlockUnavailable
                      (": get ancestor of block " +:+ quantity +:+ ": ") e), w)
          | Ok parent =>
              if negb (Number parent =? u64_sub (Number cursor) 1)%Z
              then (Err (Errorf "" ErrEVMBlockUnavailable
                           (": discontinuous ancestry for block " +:+ quantity)), w)
              else ancestor r ctx quantity number steps parent w
          end
        else (Ok cursor, w)
    end.

  (* go: chain/runtime.go:341-374 Runtime.getEVMBlockByQuantity *)
Definition getEVMBlockByQuantity (r : Runtime) (ctx : Context) (quantity : string)
      (snapshot : Snapshot) (w : W) : result goerror Head * W :=
    match ParseEVMQuantity quantity with
    | Err _ => (Err (Errorf "" ErrInvalidEVMBlockReference ": invalid block number"), w)
    | Ok number =>
        match getRequiredHead snapshot Latest with
        | Err e => (Err e, w)
        | Ok accepted =>
            if ReorgPending accepted || (Number accepted <? number)%Z
            then (Err (Errorf "" ErrEVMBlockUnavailable
                         (": block " +:+ quantity +:+ " is outside the accepted snapshot")), w)
            else if (cfg_ReorgDepth (rt_Config r) <? 0)%Z
                    || (cfg_ReorgDepth (rt_Config r) <? u64_sub (Number accepted) number)%Z
            then (Err (Errorf "" ErrEVMBlockUnavailable
                         (": block " +:+ quantity
                          +:+ " exceeds the ancestry window; use an explicit block hash")), w)
            else
              let ancestryCtx := WithTimeout ctx (cfg_HeadRequestTimeout (rt_Config r)) w in
              let* (found, w) :=
                ancestor r ancestryCtx quantity number
                  (Z.to_nat (u64_sub (Number accepted) number)) accepted w in
              match found with
              | Err e => (Err e, w)
              | Ok cursor => (Ok (with_Commitment "explicit" cursor), w)
              end
        end
    end.

  (** The EIP-1898 object. *)
Definition Unmarshal_BlockReference (t : RawMessage) : option (string * string * option bool) :=
    ms ← Unmarshal_struct t;
    blockHash ← field Unmarshal_string "" "blockHash" ms;
    blockNumber ← field Unmarshal_string "" "blockNumber" ms;
    requireCanonical ← field Unmarshal_bool_ptr None "requireCanonical" ms;
    Some (blockHash, blockNumber, requireCanonical).

  (* go: chain/runtime.go:297-339 Runtime.GetEVMBlock *)
Definition GetEVMBlock (r : Runtime) (ctx : Context) (blockReference : RawMessage)
      (snapshot : Snapshot) (w : W) : result goerror Head * W :=
    if (len blockReference =? 0)%Z || is_null_text blockReference
    then (getRequiredHead snapshot Latest, w)
    else match Unmarshal_string "" blockReference with
    | Some tagOrQuantity =>
        if String.eqb tagOrQuantity Latest then (getRequiredHead snapshot Latest, w)
        else if String.eqb tagOrQuantity Safe || String.eqb tagOrQuantity Finalized
        then (Err (Errorf "" ErrUnsupportedEVMBlockReference
                     (": " +:+ tagOrQuantity
                      +:+ " is not tracked; only latest is supported as a live EVM head")), w)
        else if String.eqb tagOrQuantity "pending"
        then (Err (Errorf "" ErrUnsupportedEVMBlockReference
                     ": pending state has no canonical block hash"), w)
        else
          let tagOrQuantity := if String.eqb tagOrQuantity "earliest" then "0x0" else tagOrQuantity in
          getEVMBlockByQuantity r ctx tagOrQuantity snapshot w
    | None =>
        match Unmarshal_BlockReference blockReference with
        | None =>
            (Err (Errorf "" ErrInvalidEVMBlockReference
                    ": expected a string or EIP-1898 object"), w)
        | Some (blockHash, blockNumber, requireCanonical) =>
            if (negb (String.eqb blockHash "") && negb (String.eqb blockNumber ""))
               || (bool_decide (requireCanonical ≠ None) && String.eqb blockHash "")
            then (Err (Errorf "" ErrInvalidEVMBlockReference ": inconsistent EIP-1898 fields"), w)
            else if negb (String.eqb blockHash "") then
              if negb (IsEVMHash blockHash)
              then (Err (Errorf "" ErrInvalidEVMBlockReference ": invalid block hash"), w)
              else (Ok (mkHead (cfg_Name (rt_Config r)) "evm" "explicit" 0 blockHash "" 0 0 false
                          (now w) 0 "" ""), w)
            else if String.eqb blockNumber ""
            then (Err (Errorf "" ErrInvalidEVMBlockReference
                         ": block identifier requires blockHash or blockNumber"), w)
            else getEVMBlockByQuantity r ctx blockNumber snapshot w
        end
    end.
End runtime.

(** ** Availability of a target at an upstream *)

Section availability.
  Context {W : Type} `{World W, Clients W, Runtimes W, SingleFlight W}.

  (** The order in which ranging over the availability map visits its keys. *)
  Variable range_order : gmap string availabilityRecord → list string.

  (* go: chain/runtime.go:565-567 Runtime.getEVMAvailabilityKey *)
Definition getEVMAvailabilityKey (candidateID : string) (target : Head) : string :=
    candidateID +:+ ":evm:" +:+ Hash target +:+ ":" +:+ Commitment target +:+ ":"
    +:+ pretty (Number target) +:+ ":" +:+ ParentHash target.

Definition getSolanaAvailabilityKey (candidateID : string) (target : Head) : string :=
    candidateID +:+ ":solana:" +:+ Commitment target +:+ ":" +:+ pretty (Number target).

Definition runtime_availability (r : Runtime) (w : W) : gmap string availabilityRecord :=
    availability (runtime_state (cfg_Name (rt_Config r)) w).

Definition set_runtime_availability (r : Runtime) (a : gmap string availabilityRecord) (w : W) : W :=
    set_runtime_state (cfg_Name (rt_Config r))
      (with_availability a (runtime_state (cfg_Name (rt_Config r)) w)) w.

  (* go: chain/runtime.go:550-555 Runtime.getCachedAvailability *)
Definition getCachedAvailability (r : Runtime) (key : string) (w : W) : option bool :=
    match runtime_availability r w !! key with
    | Some record => if (now w <? expires record)%Z then Some (available record) else None
    | None => None
    end.

Definition max_availability : nat := 4096.

  (** Deletes keys in order while the map is full. *)
Fixpoint delete_until_room (limit : nat) (keys : list string) (a : gmap string availabilityRecord)
      : gmap string availabilityRecord :=
    match keys with
    | [] => a
    | key :: keys => if decide (size a < limit)%nat then a
                     else delete_until_room limit keys (delete key a)
    end.

Definition make_room (limit : nat) (now : Z) (a : gmap string availabilityRecord)
      : gmap string availabilityRecord :=
    if decide (limit ≤ size a)%nat then
      let live := filter (λ kv, (expires kv.2 <? now)%Z = false) a in
      delete_until_room limit (range_order live) live
    else a.

  (** How long a probe's answer is kept. *)
Definition availability_ttl (r : Runtime) (available : bool) : Z :=
    let ttl := (2 * cfg_PollInterval (rt_Config r))%Z in
    let ttl := if (ttl <? 250 * millisecond)%Z then (250 * millisecond)%Z else ttl in
    if available then ttl else (75 * millisecond)%Z.

  (* go: chain/runtime.go:494-548 Runtime.probe *)
Definition probe (r : Runtime) (ctx : Context) (key : string)
      (checkAvailability : Context → W → result goerror bool * W) (w : W)
      : result goerror bool * W :=
    match getCachedAvailability r key w with
    | Some available => (Ok available, w)
    | None =>
        let* (outcome, _, w) :=
          flight (result goerror bool) ("probes:" +:+ cfg_Name (rt_Config r)) key
            (λ w,
              match getCachedAvailability r key w with
              | Some available => (Ok available, w)
              | None =>
                  let probeCtx := WithTimeout (WithoutCancel ctx) (1500 * millisecond) w in
                  let* (res, w) := checkAvailability probeCtx w in
                  match res with
                  | Err e => (Err e, w)
                  | Ok available =>
                      let a := make_room max_availability (now w) (runtime_availability r w) in
                      let record := mkAvailability available (now w + availability_ttl r available) in
                      (Ok available, set_runtime_availability r (<[key := record]> a) w)
                  end
              end) w in
        match select_done ctx w with
        | Some e => (Err e, w)
        | None => (outcome, w)
        end
    end.

  (** The block a provider returns is the target: by hash alone for an explicit
      target, by height and parent too for a tracked head. *)
Definition matches_target (block target : Head) : bool :=
    EqualFold (Hash block) (Hash target)
    && (String.eqb (Commitment target) "explicit"
        || (Number block =? Number target)%Z
           && (String.eqb (ParentHash target) "" || EqualFold (ParentHash block) (ParentHash target))).

Definition check_evm_block (r : Runtime) (candidate : Client) (target : Head)
      (probeCtx : Context) (w : W) : result goerror bool * W :=
    let* (blockCall, w) :=
      call probeCtx candidate "eth_getBlockByHash" [Marshal_string (Hash target); Marshal_bool false] w in
    match blockCall with
    | Err e => (Err (Errorf ("query target block from upstream " +:+ cl_ID candidate +:+ ": ") e ""), w)
    | Ok response =>
        if bool_decide (rpc_Error response ≠ None) || String.eqb (rpc_Result response) "null"
        then (Ok false, w)
        else match ParseEVMHead r (now w) (mkParseRequest (Commitment target) (cl_ID candidate)
                     (rpc_Result response)) with
             | Err e =>
                 (Err (Errorf ("parse target block from upstream " +:+ cl_ID candidate +:+ ": ") e ""), w)
             | Ok block => (Ok (matches_target block target), w)
             end
    end.

  (* go: chain/runtime.go:384-406 Runtime.HasEVMBlock *)
Definition HasEVMBlock (r : Runtime) (ctx : Context) (candidate : Client) (target : Head) (w : W)
      : result goerror bool * W :=
    if String.eqb (Hash target) "" then (Err (ErrNew "target block hash is required"), w)
    else probe r ctx (getEVMAvailabilityKey (cl_ID candidate) target)
           (check_evm_block r candidate target) w.

Definition check_solana_slot (candidate : Client) (target : Head) (probeCtx : Context) (w : W)
      : result goerror bool * W :=
    let* (slotCall, w) :=
      call probeCtx candidate "getSlot"
        [js "{'commitment':" +:+ Marshal_string (Commitment target)
         +:+ js ",'minContextSlot':" +:+ pretty (Number target) +:+ "}"] w in
    match slotCall with
    | Err e => (Err (Errorf ("query target slot from upstream " +:+ cl_ID candidate +:+ ": ") e ""), w)
    | Ok response =>
        if bool_decide (rpc_Error response ≠ None) then (Ok false, w)
        else match Unmarshal_uint64 0 (rpc_Result response) with
             | None =>
                 (Err (Errorf ("decode target slot from upstream " +:+ cl_ID candidate +:+ ": ")
                         (ErrNew "json") ""), w)
             | Some slot => (Ok (Number target <=? slot)%Z, w)
             end
    end.

  (* go: chain/runtime.go:475-492 Runtime.HasSolanaSlot *)
Definition HasSolanaSlot (r : Runtime) (ctx : Context) (candidate : Client) (target : Head) (w : W)
      : result goerror bool * W :=
    probe r ctx (getSolanaAvailabilityKey (cl_ID candidate) target)
      (check_solana_slot candidate target) w.

  (* go: chain/runtime.go:557-563 Runtime.InvalidateAvailability *)
Definition InvalidateAvailability (r : Runtime) (candidateID : string) (target : Head) (w : W) : W :=
    set_runtime_availability r
      (delete (getSolanaAvailabilityKey candidateID target)
         (delete (getEVMAvailabilityKey candidateID target) (runtime_availability r w))) w.
End availability.

(** ** Parsed headers *)

(** A header this runtime parsed from a provider's answer. *)
Record parsed_head (r : Runtime) (h : Head) : Prop := {
  ph_chain : Chain h = cfg_Name (rt_Config r);
  ph_family : Family h = "evm";
  ph_number : u64_wf (Number h);
  ph_hash : IsEVMHash (Hash h) = true;
  ph_parent : IsEVMHash (ParentHash h) = true;
  ph_epoch : ReorgEpoch h = 0%Z;
  ph_pending : ReorgPending h = false
}.

Lemma ParseEVMHead_Ok r now req h :
  ParseEVMHead r now req = Ok h →
  parsed_head r h ∧ Commitment h = pr_Commitment req ∧ Origin h = pr_Origin req ∧ ObservedAt h = now.
Proof.
  unfold ParseEVMHead. destruct (_ || _); [done|].
  destruct (Unmarshal_map _) as [m|]; [|done].
  set (block := default ∅ m). clearbody block.
  destruct (Unmarshal_string _ (default "" (block !! "number"))) as [n|]; [|done].
  destruct (Unmarshal_string _ (default "" (block !! "hash"))) as [hv|]; [|done].
  destruct (IsEVMHash hv) eqn:Hh; [|done]. simpl.
  destruct (Unmarshal_string _ (default "" (block !! "parentHash"))) as [ph|]; [|done].
  destruct (IsEVMHash ph) eqn:Hp; [|done]. simpl.
  destruct (ParseEVMQuantity n) as [e|number] eqn:Hn; [done|].
  destruct (Marshal_map _); [|done]. intros [= <-].
  apply ParseEVMQuantity_wf in Hn. done.
Qed.

(** ** Looking blocks up by hash

    The interface the receipt verifier, the coordinator and the block references
    rely on: a header found by hash has that hash. *)
Class BlockReader (W : Type) := {
  read_block : Context → EVMBlockByHashRequest → W → result goerror Head * W
}.

Class BlockReaderLaws (W : Type) `{BlockReader W} := {
  read_block_hash ctx req w h w' :
    read_block ctx req w = (Ok h, w') → EqualFold (Hash h) (bh_Hash req) = true;
  read_block_wf ctx req w h w' :
    read_block ctx req w = (Ok h, w') →
    u64_wf (Number h) ∧ IsEVMHash (Hash h) = true ∧ IsEVMHash (ParentHash h) = true ∧
    Commitment h = bh_Commitment req
}.

(** [descends h n h'] : following [n] parent links down from [h] reaches [h'],
    each header carrying the hash its child names and the preceding height. *)
Inductive descends (h : Head) : nat → Head → Prop :=
| descends_0 : descends h 0 h
| descends_S p n h' :
    EqualFold (Hash p) (ParentHash h) = true → Number p = (Number h - 1)%Z →
    descends p n h' → descends h (S n) h'.

Lemma descends_number h n h' : descends h n h' → Number h' = (Number h - Z.of_nat n)%Z.
Proof. induction 1 as [|h p n h' _ Hn _ IH]; lia. Qed.

Section lookup.
  Context {W : Type} `{World W, Clients W, Runtimes W}.

Lemma try_candidates_Ok r ctx req cs failures w h w' :
    try_candidates r ctx req cs failures w = (Ok h, w') →
    parsed_head r h ∧ EqualFold (Hash h) (bh_Hash req) = true ∧
    Commitment h = bh_Commitment req ∧ ∃ c, c ∈ cs ∧ Origin h = cl_ID c.
  Proof using Type.
    revert failures w. induction cs as [|c cs IH]; intros failures w; simpl; [done|].
    destruct (call ctx c _ _ w) as [[e|resp] w1].
    - intros Ht. destruct (IH _ _ Ht) as (? & ? & ? & c' & ? & ?). split_and!; try done.
      exists c'. split; [by right|done].
    - assert (∀ f, try_candidates r ctx req cs f w1 = (Ok h, w') →
        parsed_head r h ∧ EqualFold (Hash h) (bh_Hash req) = true ∧
        Commitment h = bh_Commitment req ∧ ∃ c0, c0 ∈ c :: cs ∧ Origin h = cl_ID c0) as Hrest.
      { intros f Ht. destruct (IH _ _ Ht) as (? & ? & ? & c' & ? & ?). split_and!; try done.
        exists c'. split; [by right|done]. }
      destruct (rpc_Error resp); [by apply Hrest|]. destruct (String.eqb _ _); [by apply Hrest|].
      destruct (ParseEVMHead r (now w1) _) as [e|b] eqn:Hp; [by apply Hrest|].
      destruct (EqualFold (Hash b) (bh_Hash req)) eqn:Hf; [|by apply Hrest].
      intros [= <- <-]. apply ParseEVMHead_Ok in Hp as (? & Hc & Ho & _). simpl in *.
      split_and!; try done. exists c. split; [by left|done].
  Qed.

Lemma preferred_elem r id w c :
    c ∈ preferredCandidates r id w →
    c ∈ rt_Upstreams r ∧ IsValid r (cl_ID c) w = true ∧ Healthy (now w) (state_of c w) = true.
  Proof using Type.
    unfold preferredCandidates. intros Hc.
    assert (c ∈ Candidates r false w) as Hin.
    { destruct (String.eqb id ""); [done|]. by rewrite elem_of_stable_sort in Hc. }
    unfold Candidates in Hin. rewrite elem_of_stable_sort, list_elem_of_filter in Hin.
    destruct Hin as [Hc' Hin]. bool_to_prop. done.
  Qed.

Lemma EVMBlockByHash_Ok r ctx req w h w' :
    EVMBlockByHash r ctx req w = (Ok h, w') →
    parsed_head r h ∧ EqualFold (Hash h) (bh_Hash req) = true ∧ Commitment h = bh_Commitment req ∧
    ∃ c, c ∈ rt_Upstreams r ∧ Origin h = cl_ID c ∧
         IsValid r (cl_ID c) w = true ∧ Healthy (now w) (state_of c w) = true.
  Proof using Type.
    unfold EVMBlockByHash. destruct (negb _); [done|].
    intros (? & ? & ? & c & Hc & ?)%try_candidates_Ok. apply preferred_elem in Hc as (? & ? & ?).
    split_and!; try done. eauto 6.
  Qed.

#[export] Instance runtime_reader (r : Runtime) : BlockReader W := {
    read_block := EVMBlockByHash r
  }.

#[export] Instance runtime_reader_laws (r : Runtime) : @BlockReaderLaws W (runtime_reader r).
  Proof using Type.
    split; intros ctx req w h w' Hr; apply EVMBlockByHash_Ok in Hr as (Hp & ? & ? & _); [done|].
    destruct Hp. done.
  Qed.

  (** ** Walking down the accepted branch *)

Lemma ancestor_Ok r ctx quantity number steps cursor w h w' :
    u64_wf (Number cursor) → Number cursor = (number + Z.of_nat steps)%Z → (0 ≤ number)%Z →
    ancestor r ctx quantity number steps cursor w = (Ok h, w') →
    descends cursor steps h ∧ (h = cursor ∨ parsed_head r h).
  Proof using Type.
    revert cursor w. induction steps as [|steps IH]; intros cursor w Hwf Hn Hpos; simpl.
    - intros [= -> _]. split; [constructor|by left].
    - destruct (Z.ltb_spec number (Number cursor)); [|lia].
      destruct (EVMBlockByHash r ctx _ w) as [[e|p] w1] eqn:Hb; [done|].
      apply EVMBlockByHash_Ok in Hb as (Hp & Hf & _ & _). simpl in Hf.
      destruct (negb _) eqn:Hnum; [done|]. bool_to_prop. intros Ha.
      rewrite u64_sub_small in Hnum by (done || lia).
      destruct (IH p w1) as [Hd Hor]; [by apply Hp|lia|done|done|].
      split; [by econstructor|]. right. by destruct Hor as [->|].
  Qed.

Definition is_reference_error (e : goerror) : Prop :=
    errors_Is ErrInvalidEVMBlockReference e = true ∨
    errors_Is ErrUnsupportedEVMBlockReference e = true ∨
    errors_Is ErrEVMBlockUnavailable e = true.

Lemma ancestor_Err r ctx quantity number steps cursor w e w' :
    ancestor r ctx quantity number steps cursor w = (Err e, w') →
    errors_Is ErrEVMBlockUnavailable e = true.
  Proof using Type.
    revert cursor w. induction steps as [|steps IH]; intros cursor w; simpl; [done|].
    destruct (_ <? _)%Z; [|done].
    destruct (EVMBlockByHash r ctx _ w) as [[e'|p] w1]; [by intros [= <- _]|].
    destruct (negb _); [by intros [= <- _]|]. apply IH.
  Qed.

Lemma getRequiredHead_Ok snapshot c h :
    getRequiredHead snapshot c = Ok h → sn_Heads snapshot !! c = Some h ∧ IsZero h = false.
  Proof using Type.
    unfold getRequiredHead, Get. destruct (sn_Heads snapshot !! c) as [h'|]; simpl; [|done].
    destruct (IsZero h') eqn:Hz; [done|]. intros [= ->]. done.
  Qed.

Lemma getRequiredHead_Err snapshot c e :
    getRequiredHead snapshot c = Err e → errors_Is ErrEVMBlockUnavailable e = true.
  Proof using Type.
    unfold getRequiredHead. destruct (Get snapshot c) as [h ok]. destruct (_ || _); [|done].
    by intros [= <-].
  Qed.
End lookup.

(** * Properties *)

(** The candidates of a runtime are exactly its upstreams that validated,
    whose circuit is closed and, when hash-pinned state is needed, that proved
    support for it; they come best score first, equal scores in configured order. *)
Lemma candidates_ranked `{World W, Clients W, Runtimes W} r require w :
  let l := Candidates r require w in
  (∀ c, c ∈ l ↔ c ∈ rt_Upstreams r ∧ IsValid r (cl_ID c) w = true ∧
          Healthy (now w) (state_of c w) = true ∧
          (require = true → SupportsEIP1898 (state_of c w) = true)) ∧
  StronglySorted (λ a b, Score (state_of a w) ≤ Score (state_of b w))%Z l ∧
  (∀ k, filter (λ c, Score (state_of c w) = k) l `sublist_of` rt_Upstreams r).
Proof.
  unfold Candidates. split_and!.
  - intros c. rewrite elem_of_stable_sort, list_elem_of_filter, !andb_true_iff, orb_true_iff,
      negb_true_iff. destruct require; intuition congruence.
  - by apply (stable_sort_sorted _ (λ c, Score (state_of c w))).
  - intros k. rewrite (stable_sort_rank _ (λ c, Score (state_of c w))) by done.
    etrans; apply sublist_filter.
Qed.

(** A header obtained by hash has the requested hash (up to hex case), comes
    from a configured, validated upstream with a closed circuit, and is a
    well-formed header of this chain with the commitment asked for; a malformed
    hash is refused without any call. *)
Lemma block_by_hash_sound `{World W, Clients W, Runtimes W} r ctx req w :
  (IsEVMHash (bh_Hash req) = false →
   EVMBlockByHash r ctx req w = (Err (ErrNew "invalid block hash"), w)) ∧
  (∀ h w', EVMBlockByHash r ctx req w = (Ok h, w') →
   parsed_head r h ∧ EqualFold (Hash h) (bh_Hash req) = true ∧ Commitment h = bh_Commitment req ∧
   ∃ c, c ∈ rt_Upstreams r ∧ Origin h = cl_ID c ∧
        IsValid r (cl_ID c) w = true ∧ Healthy (now w) (state_of c w) = true).
Proof.
  split; [unfold EVMBlockByHash; by intros ->|]. intros h w'. apply EVMBlockByHash_Ok.
Qed.

Lemma by_quantity_Ok `{World W, Clients W, Runtimes W} r ctx q snapshot w h w' :
  (∀ a, sn_Heads snapshot !! Latest = Some a → u64_wf (Number a)) →
  getEVMBlockByQuantity r ctx q snapshot w = (Ok h, w') →
  ∃ number accepted n h0,
    ParseEVMQuantity q = Ok number ∧ sn_Heads snapshot !! Latest = Some accepted ∧
    ReorgPending accepted = false ∧
    Number accepted = (number + Z.of_nat n)%Z ∧ (Z.of_nat n ≤ cfg_ReorgDepth (rt_Config r))%Z ∧
    descends accepted n h0 ∧ h = with_Commitment "explicit" h0 ∧ Number h = number.
Proof.
  intros Hwf. unfold getEVMBlockByQuantity.
  destruct (ParseEVMQuantity q) as [e|number] eqn:Hq; [done|].
  destruct (getRequiredHead snapshot Latest) as [e|a] eqn:Ha; [done|].
  apply getRequiredHead_Ok in Ha as [Ha _]. specialize (Hwf _ Ha).
  pose proof (ParseEVMQuantity_wf _ _ Hq) as Hnwf. unfold u64_wf in Hnwf.
  destruct (ReorgPending a || _) eqn:Hp; [done|]. bool_to_prop.
  rewrite u64_sub_small by (done || lia). destruct (_ || _) eqn:Hd; [done|]. bool_to_prop.
  destruct (ancestor _ _ _ _ _ _ _) as [[e|c] w1] eqn:Hc; [done|]. intros [= <- _].
  apply ancestor_Ok in Hc as [Hdesc _]; [|done|lia|lia].
  exists number, a, (Z.to_nat (Number a - number)), c.
  pose proof (descends_number _ _ _ Hdesc). split_and!; try done; simpl; lia.
Qed.

Lemma by_quantity_Err `{World W, Clients W, Runtimes W} r ctx q snapshot w e w' :
  getEVMBlockByQuantity r ctx q snapshot w = (Err e, w') → is_reference_error e.
Proof.
  unfold getEVMBlockByQuantity, is_reference_error.
  destruct (ParseEVMQuantity q) as [e'|number]; [intros [= <- _]; by left|].
  destruct (getRequiredHead snapshot Latest) as [e'|a] eqn:Ha.
  { intros [= <- _]. right; right. by eapply getRequiredHead_Err. }
  destruct (_ || _); [intros [= <- _]; by right; right|].
  destruct (_ || _); [intros [= <- _]; by right; right|].
  destruct (ancestor _ _ _ _ _ _ _) as [[e'|c] w1] eqn:Hc; [|done]. intros [= <- _].
  right; right. by eapply ancestor_Err.
Qed.

(** C9: a block number is resolved only against the accepted head of the
    snapshot, outside a reorg, and only through its parent hashes: the header
    returned is at the requested height and is reached from the accepted head by
    at most [ReorgDepth] verified parent links, never by a lookup by number. *)
Theorem numeric_reference_pinned `{World W, Clients W, Runtimes W} r ctx q snapshot w h w' :
  (∀ a, sn_Heads snapshot !! Latest = Some a → u64_wf (Number a)) →
  getEVMBlockByQuantity r ctx q snapshot w = (Ok h, w') →
  ∃ number accepted n h0,
    ParseEVMQuantity q = Ok number ∧ sn_Heads snapshot !! Latest = Some accepted ∧
    ReorgPending accepted = false ∧
    Number accepted = (number + Z.of_nat n)%Z ∧ (Z.of_nat n ≤ cfg_ReorgDepth (rt_Config r))%Z ∧
    descends accepted n h0 ∧ h = with_Commitment "explicit" h0 ∧ Number h = number.
Proof. apply by_quantity_Ok. Qed.

Lemma GetEVMBlock_spec `{World W, Clients W, Runtimes W} r ctx reference snapshot w :
  (∀ a, sn_Heads snapshot !! Latest = Some a → u64_wf (Number a)) →
  match GetEVMBlock r ctx reference snapshot w with
  | (Err e, _) => is_reference_error e
  | (Ok h, w') =>
      (sn_Heads snapshot !! Latest = Some h ∧ w' = w) ∨
      (IsEVMHash (Hash h) = true ∧ Commitment h = "explicit" ∧ Number h = 0%Z ∧ w' = w ∧
       Unmarshal_BlockReference reference ≠ None) ∨
      (∃ accepted n h0, sn_Heads snapshot !! Latest = Some accepted ∧
         ReorgPending accepted = false ∧ (Z.of_nat n ≤ cfg_ReorgDepth (rt_Config r))%Z ∧
         descends accepted n h0 ∧ h = with_Commitment "explicit" h0)
  end.
Proof.
  intros Hwf. unfold GetEVMBlock.
  assert (∀ q, match getEVMBlockByQuantity r ctx q snapshot w with
    | (Err e, _) => is_reference_error e
    | (Ok h, w') =>
        (sn_Heads snapshot !! Latest = Some h ∧ w' = w) ∨
        (IsEVMHash (Hash h) = true ∧ Commitment h = "explicit" ∧ Number h = 0%Z ∧ w' = w ∧
         Unmarshal_BlockReference reference ≠ None) ∨
        (∃ accepted n h0, sn_Heads snapshot !! Latest = Some accepted ∧
           ReorgPending accepted = false ∧ (Z.of_nat n ≤ cfg_ReorgDepth (rt_Config r))%Z ∧
           descends accepted n h0 ∧ h = with_Commitment "explicit" h0)
    end) as Hq.
  { intros q. destruct (getEVMBlockByQuantity r ctx q snapshot w) as [[e|h] w'] eqn:Hg.
    - by eapply by_quantity_Err.
    - apply by_quantity_Ok in Hg as (? & a & n & h0 & ? & ? & ? & ? & ? & ? & ? & ?); [|done].
      right; right. by exists a, n, h0. }
  assert (match getRequiredHead snapshot Latest with
          | Err e => is_reference_error e
          | Ok h => sn_Heads snapshot !! Latest = Some h end) as Hreq.
  { destruct (getRequiredHead snapshot Latest) eqn:Ha.
    - right; right. by eapply getRequiredHead_Err.
    - by apply getRequiredHead_Ok in Ha as [? _]. }
  assert (∀ e s, is_reference_error (Errorf "" ErrInvalidEVMBlockReference s) ∧
                 (e = ErrUnsupportedEVMBlockReference → is_reference_error (Errorf "" e s))) as He.
  { intros e s. split; [by left|intros ->; by right; left]. }
  destruct (_ || _); [destruct (getRequiredHead snapshot Latest); [done|by left]|].
  destruct (Unmarshal_string "" reference) as [s|].
  - destruct (String.eqb s Latest); [destruct (getRequiredHead snapshot Latest); [done|by left]|].
    destruct (_ || _); [by apply He|]. destruct (String.eqb s "pending"); [by apply He|]. apply Hq.
  - destruct (Unmarshal_BlockReference reference) as [[[bh bn] rc]|] eqn:Href; [|by apply (He ErrCanceled)].
    destruct (_ || _); [by apply (He ErrCanceled)|].
    destruct (negb (String.eqb bh "")).
    + destruct (IsEVMHash bh) eqn:Hh; simpl; [|by apply (He ErrCanceled)].
      right; left. split_and!; done.
    + destruct (String.eqb bn ""); [by apply (He ErrCanceled)|]. apply Hq.
Qed.


(** What a block reference may stand for. *)
Definition resolved_block (r : Runtime) (snapshot : Snapshot) (h : Head) : Prop :=
  sn_Heads snapshot !! Latest = Some h ∨
  (IsEVMHash (Hash h) = true ∧ Commitment h = "explicit" ∧ Number h = 0%Z) ∨
  (∃ accepted n h0, sn_Heads snapshot !! Latest = Some accepted ∧
     ReorgPending accepted = false ∧ (Z.of_nat n ≤ cfg_ReorgDepth (rt_Config r))%Z ∧
     descends accepted n h0 ∧ h = with_Commitment "explicit" h0).

Definition snapshot_wf (snapshot : Snapshot) : Prop :=
  ∀ a, sn_Heads snapshot !! Latest = Some a → u64_wf (Number a).

Lemma GetEVMBlock_resolved `{World W, Clients W, Runtimes W} r ctx reference snapshot w h w' :
  snapshot_wf snapshot → GetEVMBlock r ctx reference snapshot w = (Ok h, w') →
  resolved_block r snapshot h.
Proof.
  intros Hwf Hg. pose proof (GetEVMBlock_spec r ctx reference snapshot w Hwf) as Hs.
  rewrite Hg in Hs. destruct Hs as [[? _]|[(? & ? & ? & _)|?]]; [by left|by right; left|by right; right].
Qed.

(** ** A concrete chain *)

(** [X] is the state of whatever else a run needs. *)
Record ChainWorld (X : Type) := mkChainWorld {
  cw_clients : gmap (string * string) ClientState;
  cw_runtimes : gmap string RuntimeState;
  cw_rest : X
}.

Arguments mkChainWorld {X} _ _ _.
Arguments cw_clients {X} _.
Arguments cw_runtimes {X} _.
Arguments cw_rest {X} _.

#[export] Instance chain_sim_clients (X : Type) : Clients (Sim (ChainWorld X)) := {
  client_state k w := default zero_ClientState (cw_clients (sim_state w) !! k);
  set_client_state k s w :=
    with_sim_state (mkChainWorld (<[k := s]> (cw_clients (sim_state w))) (cw_runtimes (sim_state w))
                      (cw_rest (sim_state w))) w
}.

#[export] Instance chain_sim_runtimes (X : Type) : Runtimes (Sim (ChainWorld X)) := {
  runtime_state k w := default zero_RuntimeState (cw_runtimes (sim_state w) !! k);
  set_runtime_state k s w :=
    with_sim_state (mkChainWorld (cw_clients (sim_state w)) (<[k := s]> (cw_runtimes (sim_state w)))
                      (cw_rest (sim_state w))) w
}.

(** An endpoint that answers each method and parameters with a result. *)
Definition sim_rpc (answer : string → RawMessage → RawMessage) (req : HttpRequest)
    : result goerror HttpResponse :=
  match Unmarshal_Request (hr_Body req) with
  | Some r =>
      Ok (mkHttpResponse 200 (js "{'jsonrpc':'2.0','id':" +:+ req_ID r +:+ js ",'result':"
                              +:+ answer (req_Method r) (req_Params r) +:+ "}") None)
  | None => Err (ErrNew "bad request")
  end.

Fixpoint repeat_string (n : nat) (s : string) : string :=
  match n with O => "" | S n => s +:+ repeat_string n s end.

Definition sim_hash (two : string) : string := "0x" +:+ repeat_string 32 two.

Definition sim_block (number hash parent : string) : RawMessage :=
  js "{'number':" +:+ Marshal_string number +:+ js ",'hash':" +:+ Marshal_string hash
  +:+ js ",'parentHash':" +:+ Marshal_string parent +:+ "}".

Definition demo_config : ChainConfig := mkChainConfig "demo" "evm" "0x1" "" 1000000 1000000 60000000000 8.

Definition demo_runtime : Runtime := mkRuntime demo_config [demo_client].

Definition demo_answer (method : string) (params : RawMessage) : RawMessage :=
  if String.eqb params (js "['" +:+ sim_hash "bb" +:+ js "',false]")
  then sim_block "0x4" (sim_hash "bb") (sim_hash "cc") else "null".

Definition demo_chain_state {X} (x : X) : ChainWorld X :=
  mkChainWorld ∅ {[ "demo" := mkRuntimeState {[ "up" := true ]} ∅ ∅ ]} x.

Definition demo_chain_world : Sim (ChainWorld unit) :=
  mkSim 1000 (sim_rpc demo_answer) (demo_chain_state tt).

Definition demo_accepted : Head :=
  mkHead "demo" "evm" "latest" 5 (sim_hash "aa") (sim_hash "bb") 3 1 false 900 900 "up" "{}".

Definition demo_snapshot : Snapshot := mkSnapshot "demo" {[ "latest" := demo_accepted ]}.

Definition demo_parent : Head :=
  mkHead "demo" "evm" "explicit" 4 (sim_hash "bb") (sim_hash "cc") 0 0 false 1000 0 "up"
    (js "{'hash':'" +:+ sim_hash "bb" +:+ js "','number':'0x4','parentHash':'" +:+ sim_hash "cc" +:+ js "'}").

Lemma demo_snapshot_wf a : sn_Heads demo_snapshot !! Latest = Some a → u64_wf (Number a).
Proof. simpl. rewrite lookup_singleton_eq. intros [= <-]. by vm_compute. Qed.

Lemma block_by_hash_sound_witness :
  parsed_head demo_runtime demo_parent ∧ EqualFold (Hash demo_parent) (sim_hash "bb") = true.
Proof.
  destruct (proj2 (block_by_hash_sound demo_runtime Background
    (mkByHash (sim_hash "bb") "explicit" "up") demo_chain_world) demo_parent
    (EVMBlockByHash demo_runtime Background (mkByHash (sim_hash "bb") "explicit" "up")
       demo_chain_world).2) as (Hp & Hf & _).
  - apply pair_fst. vm_compute. reflexivity.
  - split; [exact Hp|exact Hf].
Defined.

Lemma numeric_reference_pinned_witness :
  ∃ number accepted n h0,
    ParseEVMQuantity "0x4" = Ok number ∧ sn_Heads demo_snapshot !! Latest = Some accepted ∧
    ReorgPending accepted = false ∧
    Number accepted = (number + Z.of_nat n)%Z ∧ (Z.of_nat n ≤ 8)%Z ∧
    descends accepted n h0 ∧ demo_parent = with_Commitment "explicit" h0 ∧ Number demo_parent = number.
Proof.
  apply (numeric_reference_pinned demo_runtime Background "0x4" demo_snapshot demo_chain_world
           demo_parent (getEVMBlockByQuantity demo_runtime Background "0x4" demo_snapshot
                          demo_chain_world).2 demo_snapshot_wf).
  apply pair_fst. vm_compute. reflexivity.
Defined.

