(* ===== verification/Validation.v ===== *)
(** * Startup validation — internal/chain/runtime.go

    Before an upstream serves anything it must be on the configured chain, and each
    pinned read method is enabled only for upstreams that answer it at a real block
    hash and refuse a hash that does not exist. *)

From S2P Require Import Prelude GoStrings GoJson Evm JsonRpc Head World Redaction Upstream Chain.

(** ** Definitions *)

Definition zeroAddress : string := "0x0000000000000000000000000000000000000000".

Definition missingHash : string :=
  "0x0000000000000000000000000000000000000000000000000000000000000000".

(** The methods probed, with the arguments before the block identifier. *)
Definition state_probes : list (string * list RawMessage) :=
  let zero := Marshal_string zeroAddress in
  [ ("eth_getBalance", [zero]);
    ("eth_getCode", [zero]);
    ("eth_getTransactionCount", [zero]);
    ("eth_getStorageAt", [zero; js "'0x0'"]);
    ("eth_getProof", [zero; "[]"]);
    ("eth_call", [js "{'data':'0x','to':" +:+ zero +:+ "}"]) ].

Definition block_argument (hash : string) : RawMessage :=
  js "{'blockHash':" +:+ Marshal_string hash +:+ js ",'requireCanonical':true}".

Section validation.
  Context {W : Type} `{World W, Clients W, Runtimes W}.

  (** The order in which the goroutines of [n] upstreams, or of the probes, run. *)
  Variable schedule : nat → list nat.

  (** The upstream has the state of a real block. *)
Definition state_served (response : result goerror RPCResponse) : bool :=
  match response with
  | Err _ => false
  | Ok response =>
      bool_decide (rpc_Error response = None) && (0 <? len (rpc_Result response))%Z
      && negb (String.eqb (rpc_Result response) "null")
  end.

  (** The upstream refuses the state of a block that does not exist. *)
Definition state_refused (response : result goerror RPCResponse) : bool :=
  match response with
  | Err _ => false
  | Ok response => IsUnavailableRPCError (rpc_Error response)
  end.

Definition probe_method (ctx : Context) (candidate : Client) (blockHash : string)
    (probe : string * list RawMessage) (w : W) : W :=
  let* (method, arguments) := probe in
  let* (positive, w) := call ctx candidate method (arguments ++ [block_argument blockHash]) w in
  let* (supported, w) :=
    if state_served positive then
      let* (negative, w) := call ctx candidate method (arguments ++ [block_argument missingHash]) w in
      (state_refused negative, w)
    else (false, w) in
  update_client candidate (SetPinnedMethod method supported) w.

Fixpoint run_probes (ctx : Context) (candidate : Client) (blockHash : string) (order : list nat) (w : W) : W :=
  match order with
  | [] => w
  | i :: rest =>
      match state_probes !! i with
      | Some probe => run_probes ctx candidate blockHash rest (probe_method ctx candidate blockHash probe w)
      | None => run_probes ctx candidate blockHash rest w
      end
  end.

  (* go: chain/runtime.go:212-248 Runtime.probeEVMStateMethods *)
Definition probeEVMStateMethods (ctx : Context) (candidate : Client) (blockHash : string) (w : W) : W :=
  let w := run_probes ctx candidate blockHash (schedule (length state_probes)) w in
  let anySupported := existsb (λ probe, SupportsPinnedMethod probe.1 (state_of candidate w)) state_probes in
  update_client candidate (SetEIP1898 anySupported) w.

  (** A call whose RPC error, if any, fails the validation. *)
Definition required_call (ctx : Context) (candidate : Client) (method : string) (arguments : list RawMessage)
    (w : W) : result goerror RawMessage * W :=
  let* (response, w) := call ctx candidate method arguments w in
  match response with
  | Err e => (Err e, w)
  | Ok response =>
      match rpc_Error response with
      | Some e => (Err (ErrRPC e), w)
      | None => (Ok (rpc_Result response), w)
      end
  end.

Definition check_chain_id (r : Runtime) (encoded : RawMessage) : option goerror :=
  match Unmarshal_string "" encoded with
  | None => Some (Errorf "invalid chain id response: " (ErrNew "json") "")
  | Some chainID =>
      match ParseEVMQuantity chainID with
      | Err e => Some (Errorf "parse upstream chain id: " (quantity_goerror e) "")
      | Ok actualChainID =>
          match ParseEVMQuantity (cfg_ChainID (rt_Config r)) with
          | Err e => Some (Errorf "parse configured chain id: " (quantity_goerror e) "")
          | Ok configuredChainID =>
              if negb (actualChainID =? configuredChainID)%Z
              then Some (ErrNew ("chain id mismatch: got " +:+ chainID)) else None
          end
      end
  end.

Definition check_genesis (r : Runtime) (ctx : Context) (candidate : Client) (w : W) : option goerror * W :=
  if String.eqb (cfg_GenesisHash (rt_Config r)) "" then (None, w)
  else
    let* (genesis, w) :=
      required_call ctx candidate "eth_getBlockByNumber" [js "'0x0'"; Marshal_bool false] w in
    match genesis with
    | Err e => (Some e, w)
    | Ok header =>
        match ParseEVMHead r (now w) (mkParseRequest Finalized (cl_ID candidate) header) with
        | Err e => (Some e, w)
        | Ok block =>
            if negb (EqualFold (Hash block) (cfg_GenesisHash (rt_Config r)))
            then (Some (ErrNew ("genesis hash mismatch: got " +:+ Hash block)), w) else (None, w)
        end
    end.

Definition validate_evm (r : Runtime) (ctx : Context) (candidate : Client) (w : W) : option goerror * W :=
  let* (chainID, w) := required_call ctx candidate "eth_chainId" [] w in
  match chainID with
  | Err e => (Some e, w)
  | Ok chainID =>
      match check_chain_id r chainID with
      | Some e => (Some e, w)
      | None =>
          let* (err, w) := check_genesis r ctx candidate w in
          match err with
          | Some e => (Some e, w)
          | None =>
              let* (latest, w) :=
                required_call ctx candidate "eth_getBlockByNumber" [js "'latest'"; Marshal_bool false] w in
              match latest with
              | Err e => (Some e, w)
              | Ok header =>
                  match ParseEVMHead r (now w) (mkParseRequest Latest (cl_ID candidate) header) with
                  | Err e => (Some e, w)
                  | Ok latest => (None, probeEVMStateMethods ctx candidate (Hash latest) w)
                  end
              end
          end
      end
  end.

Definition validate_solana (r : Runtime) (ctx : Context) (candidate : Client) (w : W) : option goerror * W :=
  let* (genesis, w) := required_call ctx candidate "getGenesisHash" [] w in
  match genesis with
  | Err e => (Some e, w)
  | Ok encoded =>
      match Unmarshal_string "" encoded with
      | None => (Some (Errorf "invalid genesis hash response: " (ErrNew "json") ""), w)
      | Some genesis =>
          if negb (String.eqb genesis (cfg_GenesisHash (rt_Config r)))
          then (Some (ErrNew ("genesis hash mismatch: got " +:+ genesis)), w)
          else
            let* (slot, w) := required_call ctx candidate "getSlot" [js "{'commitment':'finalized'}"] w in
            match slot with
            | Err e => (Some e, w)
            | Ok encoded =>
                match Unmarshal_uint64 0 encoded with
                | None => (Some (Errorf "invalid finalized slot response: " (ErrNew "json") ""), w)
                | Some slot =>
                    let* (capability, w) :=
                      call ctx candidate "getAccountInfo"
                        [js "'11111111111111111111111111111111'";
                         js "{'commitment':'finalized','minContextSlot':" +:+ pretty slot +:+ "}"] w in
                    match capability with
                    | Err e => (Some e, w)
                    | Ok capability =>
                        match rpc_Error capability with
                        | Some e => (Some (Errorf "minContextSlot capability probe failed: " (ErrRPC e) ""), w)
                        | None => (None, w)
                        end
                    end
                end
            end
      end
  end.

  (* go: chain/runtime.go:123-205 Runtime.validateUpstream *)
Definition validateUpstream (r : Runtime) (ctx : Context) (candidate : Client) (w : W) : option goerror * W :=
  if String.eqb (cfg_Family (rt_Config r)) "evm" then validate_evm r ctx candidate w
  else validate_solana r ctx candidate w.

  (** The verdict on one upstream is recorded with the text of its error. *)
Definition record_verdict (r : Runtime) (candidate : Client) (err : option goerror) (w : W) : W :=
  let name := cfg_Name (rt_Config r) in
  let s := runtime_state name w in
  let accepted := match err with None => true | Some _ => false end in
  let validation := match err with
                    | Some e => <[cl_ID candidate := redact (error_text e)]> (validation s)
                    | None => delete (cl_ID candidate) (validation s)
                    end in
  set_runtime_state name
    (mkRuntimeState (<[cl_ID candidate := accepted]> (valid s)) validation (availability s)) w.

Definition validate_one (r : Runtime) (ctx : Context) (candidate : Client) (w : W) : list goerror * W :=
  let* (err, w) := validateUpstream r ctx candidate w in
  (match err with
   | Some e => [Errorf ("validate upstream " +:+ cl_ID candidate +:+ ": ") e ""]
   | None => []
   end, record_verdict r candidate err w).

Fixpoint validate_all (r : Runtime) (ctx : Context) (order : list nat) (w : W) : list goerror * W :=
  match order with
  | [] => ([], w)
  | i :: rest =>
      match rt_Upstreams r !! i with
      | Some candidate =>
          let* (failures, w) := validate_one r ctx candidate w in
          let* (more, w) := validate_all r ctx rest w in
          (failures ++ more, w)
      | None => validate_all r ctx rest w
      end
  end.

  (** [errors.Join] of nothing is nil. *)
  (* go: chain/runtime.go:93-121 Runtime.Validate *)
Definition Runtime_Validate (r : Runtime) (ctx : Context) (w : W) : option goerror * W :=
  let* (failures, w) := validate_all r ctx (schedule (length (rt_Upstreams r))) w in
  (if decide (failures = []) then None else Some (ErrJoin failures), w).
End validation.

(** ** What only validation writes

    The capabilities of a client and the verdicts of a runtime are written by the
    operations above alone: exchanges and semaphores leave them as they are. *)

Definition capabilities {W} `{Clients W} (k : string * string) (w : W) : bool * gmap string bool :=
  (eip1898 (client_state k w), pinnedMethods (client_state k w)).

Definition verdicts {W} `{Runtimes W} (name : string) (w : W) : gmap string bool :=
  valid (runtime_state name w).

Class StartupLaws (W : Type) `{World W, Clients W, Runtimes W} := {
  sl_client k k' s (w : W) :
    client_state k' (set_client_state k s w) = if decide (k' = k) then s else client_state k' w;
  sl_client_runtime k s n (w : W) : runtime_state n (set_client_state k s w) = runtime_state n w;
  sl_runtime n n' s (w : W) :
    runtime_state n' (set_runtime_state n s w) = if decide (n' = n) then s else runtime_state n' w;
  sl_runtime_client n s k (w : W) : client_state k (set_runtime_state n s w) = client_state k w;
  sl_http req ctx (w : W) r w' : http_Do req ctx w = (r, w') →
    (∀ k, capabilities k w' = capabilities k w) ∧ ∀ n, verdicts n w' = verdicts n w;
  sl_acquire k ctx (w : W) r w' : sem_acquire k ctx w = (r, w') →
    (∀ k, capabilities k w' = capabilities k w) ∧ ∀ n, verdicts n w' = verdicts n w;
  sl_release k (w : W) :
    (∀ k', capabilities k' (sem_release k w) = capabilities k' w) ∧
    ∀ n, verdicts n (sem_release k w) = verdicts n w
}.

Section laws.
  Context {W : Type} `{StartupLaws W}.

Definition quiet (w w' : W) : Prop :=
  (∀ k, capabilities k w' = capabilities k w) ∧ ∀ n, verdicts n w' = verdicts n w.

#[local] Instance quiet_preorder : PreOrder quiet.
Proof.
  split; [by split|]. intros x y z [Hc Hv] [Hc' Hv']. split; intros; [by rewrite Hc'|by rewrite Hv'].
Qed.

Lemma update_client_quiet c f w :
  (∀ s, eip1898 (f s) = eip1898 s ∧ pinnedMethods (f s) = pinnedMethods s) → quiet w (update_client c f w).
Proof using Type*.
  intros Hf. unfold update_client. split.
  - intros k. unfold capabilities. rewrite sl_client. destruct (decide _) as [->|]; [|done].
    by destruct (Hf (client_state (client_key c) w)) as [-> ->].
  - intros n. unfold verdicts. by rewrite sl_client_runtime.
Qed.

Lemma Call_quiet c ctx m p w r w' : Call c ctx m p w = (r, w') → quiet w w'.
Proof using Type*.
  unfold Call. destruct (negb _); [by intros [= _ <-]|].
  destruct (sem_acquire _ ctx w) as [[e|u] w1] eqn:Hs; apply sl_acquire in Hs; [by intros [= _ <-]|].
  destruct (exchange c ctx m p w1) as [r1 w2] eqn:He. intros [= _ <-].
  etrans; [exact Hs|]. etrans; [|apply sl_release]. revert He. unfold exchange.
  set (w3 := update_client _ _ w1). assert (quiet w1 w3) as Hw3 by by apply update_client_quiet.
  clearbody w3. destruct (request_body _ _ _); [|by intros [= _ <-]].
  destruct (negb _); [by intros [= _ <-]|].
  destruct (http_Do _ ctx w3) as [[e|resp] w4] eqn:Hdo; apply sl_http in Hdo;
    (assert (quiet w1 w4) as Hw4 by (etrans; eassumption));
    assert (∀ e, quiet w1 (fail_call c e w4).2) as Hfail
      by (intros; simpl; etrans; [exact Hw4|by apply update_client_quiet]).
  - intros Hf. specialize (Hfail (Errorf "send upstream request: " e "")). by rewrite Hf in Hfail.
  - assert (∀ e, fail_call c e w4 = (r1, w2) → quiet w1 w2) as Hfailed.
    { intros e Hf. specialize (Hfail e). by rewrite Hf in Hfail. }
    destruct (_ || _); [apply Hfailed|]. destruct (maxUpstreamResponseBytes <? _)%Z; [apply Hfailed|].
    destruct (hr_ReadError resp); [apply Hfailed|]. destruct (check_response _ _) as [e|]; [intros [= _ <-]; exact (Hfail (unwrapped e))|].
    intros [= _ <-]. etrans; [exact Hw4|by apply update_client_quiet].
Qed.

Lemma call_quiet ctx c m args w r w' : call ctx c m args w = (r, w') → quiet w w'.
Proof using Type*. unfold call. destruct (MarshalCallParams args); [apply Call_quiet|by intros [= _ <-]]. Qed.

Lemma required_call_quiet ctx c m args w r w' : required_call ctx c m args w = (r, w') → quiet w w'.
Proof using Type*.
  unfold required_call. destruct (call ctx c m args w) as [[e|resp] w1] eqn:Hc; apply call_quiet in Hc;
    [by intros [= _ <-]|]. destruct (rpc_Error resp); by intros [= _ <-].
Qed.

(** The evidence behind a supported method: the upstream answered it at some block
    and refused it at a hash that does not exist. *)
Definition pins (ctx : Context) (c : Client) (method : string) (arguments : list RawMessage) : Prop :=
  ∃ hash w1 w2 w3 w4 (p q : result goerror RPCResponse),
    call ctx c method (arguments ++ [block_argument hash]) w1 = (p, w2) ∧ state_served p = true ∧
    call ctx c method (arguments ++ [block_argument missingHash]) w3 = (q, w4) ∧ state_refused q = true.

Definition only_client (c : Client) (w w' : W) : Prop :=
  (∀ k, k ≠ client_key c → capabilities k w' = capabilities k w) ∧ ∀ n, verdicts n w' = verdicts n w.

#[local] Instance only_client_preorder c : PreOrder (only_client c).
Proof.
  split; [by split|]. intros x y z [Hc Hv] [Hc' Hv']. split; intros; [by rewrite Hc', Hc|by rewrite Hv'].
Qed.

Lemma quiet_only c w w' : quiet w w' → only_client c w w'.
Proof using Type. intros [Hc Hv]. split; [intros k _; apply Hc|done]. Qed.

Lemma update_client_only c f w : only_client c w (update_client c f w).
Proof using Type*.
  unfold update_client. split.
  - intros k Hk. unfold capabilities. by rewrite sl_client, decide_False.
  - intros n. unfold verdicts. by rewrite sl_client_runtime.
Qed.

Definition pinned_at (c : Client) (w : W) (method : string) : option bool :=
  (capabilities (client_key c) w).2 !! method.

Lemma quiet_pinned c w w' method : quiet w w' → pinned_at c w' method = pinned_at c w method.
Proof using Type. intros [Hc _]. unfold pinned_at. by rewrite Hc. Qed.

Lemma probe_method_spec ctx c hash method arguments w :
  let w' := probe_method ctx c hash (method, arguments) w in
  only_client c w w' ∧ (∀ m, m ≠ method → pinned_at c w' m = pinned_at c w m) ∧
  (pinned_at c w' method = Some true → pins ctx c method arguments).
Proof using Type*.
  unfold probe_method.
  destruct (call ctx c method (arguments ++ [block_argument hash]) w) as [p w1] eqn:Hp.
  destruct (if state_served p then _ else _) as [supported w2] eqn:Hs.
  assert (quiet w w2 ∧ (supported = true → pins ctx c method arguments)) as [Hq Hpins].
  { pose proof (call_quiet _ _ _ _ _ _ _ Hp) as Hq1. destruct (state_served p) eqn:Hserved.
    - destruct (call ctx c method (arguments ++ [block_argument missingHash]) w1) as [q w3] eqn:Hneg.
      injection Hs as <- <-. split; [etrans; [exact Hq1|by eapply call_quiet]|].
      intros Hr. exists hash, w, w1, w1, w3, p, q. done.
    - injection Hs as <- <-. split; [done|done]. }
  split; [|split].
  - etrans; [by apply quiet_only|apply update_client_only].
  - intros m Hm. rewrite <- (quiet_pinned c w w2 m Hq). unfold pinned_at, capabilities, update_client.
    rewrite sl_client, decide_True by done. simpl. by rewrite lookup_insert_ne.
  - unfold pinned_at, capabilities, update_client. rewrite sl_client, decide_True by done. simpl.
    rewrite lookup_insert_eq. intros [= Hsup]. by apply Hpins.
Qed.

Lemma run_probes_spec ctx c hash order : ∀ w,
  let w' := run_probes ctx c hash order w in
  only_client c w w' ∧
  (∀ i m args, state_probes !! i = Some (m, args) → i ∈ order → pinned_at c w' m = Some true →
     pins ctx c m args) ∧
  (∀ i m args, state_probes !! i = Some (m, args) → i ∉ order → pinned_at c w' m = pinned_at c w m).
Proof using Type*.
  assert (∀ i j m args args', state_probes !! i = Some (m, args) → state_probes !! j = Some (m, args') → i = j) as Hinj.
  { intros i j m args args' Hi Hj. apply (f_equal (fmap fst)) in Hi, Hj. simpl in Hi, Hj.
    rewrite <- list_lookup_fmap in Hi, Hj. eapply NoDup_lookup; [|exact Hi|exact Hj].
    repeat (constructor; [by rewrite ?elem_of_cons, ?elem_of_nil; simpl; intuition|]). constructor. }
  induction order as [|j order IH]; intros w; simpl.
  { split; [done|]. split; [|done]. intros i m args _ Hi. by apply elem_of_nil in Hi. }
  destruct (state_probes !! j) as [[mj argsj]|] eqn:Hj.
  - destruct (probe_method_spec ctx c hash mj argsj w) as (Honly & Hother & Hpins).
    set (w1 := probe_method ctx c hash (mj, argsj) w) in *. clearbody w1.
    destruct (IH w1) as (Honly' & Hin & Hout). split; [by etrans|]. split.
    + intros i m args Hi Hio Hm. destruct (decide (i ∈ order)) as [Hd|Hd]; [by eapply Hin|].
      apply elem_of_cons in Hio as [->|Hio]; [|done]. rewrite Hj in Hi. injection Hi as -> ->.
      apply Hpins. by rewrite <- (Hout _ _ _ Hj Hd).
    + intros i m args Hi Hio. apply not_elem_of_cons in Hio as [Hne Hio].
      rewrite (Hout _ _ _ Hi Hio). apply Hother. intros ->. by apply Hne, (Hinj _ _ _ _ _ Hi Hj).
  - destruct (IH w) as (Honly & Hin & Hout). split; [done|]. split.
    + intros i m args Hi Hio. apply elem_of_cons in Hio as [->|Hio]; [congruence|by eapply Hin].
    + intros i m args Hi Hio. apply not_elem_of_cons in Hio as [_ Hio]. by eapply Hout.
Qed.

(** What the probes leave behind for an upstream. *)
Definition capabilities_earned (ctx : Context) (c : Client) (w : W) : Prop :=
  (∀ m args, (m, args) ∈ state_probes → SupportsPinnedMethod m (state_of c w) = true → pins ctx c m args) ∧
  (SupportsEIP1898 (state_of c w) = true →
   ∃ m args, (m, args) ∈ state_probes ∧ SupportsPinnedMethod m (state_of c w) = true).

Lemma supports_pinned_at c w m :
  SupportsPinnedMethod m (state_of c w) = true ↔ pinned_at c w m = Some true.
Proof using Type.
  unfold SupportsPinnedMethod, state_of, pinned_at, capabilities. simpl.
  destruct (pinnedMethods _ !! m) as [[]|]; simpl; naive_solver.
Qed.

Variable schedule : nat → list nat.
Hypothesis schedule_perm : ∀ n, schedule n ≡ₚ seq 0 n.

Lemma probeEVMStateMethods_spec ctx c hash w :
  let w' := probeEVMStateMethods schedule ctx c hash w in
  only_client c w w' ∧ capabilities_earned ctx c w'.
Proof using Type*.
  unfold probeEVMStateMethods. destruct (run_probes_spec ctx c hash (schedule (length state_probes)) w)
    as (Honly & Hin & _). set (w1 := run_probes _ _ _ _ w) in *. clearbody w1.
  set (any := existsb _ _). assert (∀ m, pinned_at c (update_client c (SetEIP1898 any) w1) m = pinned_at c w1 m) as Hsame.
  { intros m. unfold pinned_at, capabilities, update_client. by rewrite sl_client, decide_True. }
  split; [etrans; [exact Honly|apply update_client_only]|]. split.
  - intros m args Hm Hs. apply supports_pinned_at in Hs. rewrite Hsame in Hs.
    apply list_elem_of_lookup_1 in Hm as [i Hi]. apply (Hin i m args Hi); [|done].
    rewrite schedule_perm. apply elem_of_seq. apply lookup_lt_Some in Hi. lia.
  - intros He. assert (any = true) as Hany.
    { revert He. unfold SupportsEIP1898, state_of, update_client. by rewrite sl_client, decide_True. }
    unfold any in Hany. apply existsb_exists in Hany as ([m args] & Hm & Hs). exists m, args.
    split; [by apply list_elem_of_In|]. apply supports_pinned_at. rewrite Hsame. by apply supports_pinned_at.
Qed.

(** ** Upstreams on the configured chain *)

(** The upstream answered a method with that result. *)
Definition answered (ctx : Context) (c : Client) (method : string) (arguments : list RawMessage)
    (result : RawMessage) : Prop :=
  ∃ w1 w2, call ctx c method arguments w1 = (Ok (mkRPC result None), w2).

Definition on_chain (r : Runtime) (ctx : Context) (c : Client) : Prop :=
  if String.eqb (cfg_Family (rt_Config r)) "evm" then
    (∃ encoded chainID n, answered ctx c "eth_chainId" [] encoded ∧ Unmarshal_string "" encoded = Some chainID ∧
       ParseEVMQuantity chainID = Ok n ∧ ParseEVMQuantity (cfg_ChainID (rt_Config r)) = Ok n) ∧
    (cfg_GenesisHash (rt_Config r) ≠ "" → ∃ header now block,
       answered ctx c "eth_getBlockByNumber" [js "'0x0'"; "false"] header ∧
       ParseEVMHead r now (mkParseRequest Finalized (cl_ID c) header) = Ok block ∧
       EqualFold (Hash block) (cfg_GenesisHash (rt_Config r)) = true)
  else
    (∃ encoded, answered ctx c "getGenesisHash" [] encoded ∧
       Unmarshal_string "" encoded = Some (cfg_GenesisHash (rt_Config r))) ∧
    (∃ (slot : Z) result, answered ctx c "getAccountInfo"
       [js "'11111111111111111111111111111111'";
        js "{'commitment':'finalized','minContextSlot':" +:+ pretty slot +:+ "}"] result).

Lemma required_call_Ok ctx c m args w result w' :
  required_call ctx c m args w = (Ok result, w') → answered ctx c m args result.
Proof using Type.
  unfold required_call. destruct (call ctx c m args w) as [[e|[res err]] w1] eqn:Hc; [done|]. simpl.
  destruct err; [done|]. intros [= <- <-]. by exists w, w1.
Qed.

Lemma check_genesis_spec r ctx c w e w' :
  check_genesis r ctx c w = (e, w') → quiet w w' ∧
  (e = None → cfg_GenesisHash (rt_Config r) ≠ "" → ∃ header now block,
     answered ctx c "eth_getBlockByNumber" [js "'0x0'"; "false"] header ∧
     ParseEVMHead r now (mkParseRequest Finalized (cl_ID c) header) = Ok block ∧
     EqualFold (Hash block) (cfg_GenesisHash (rt_Config r)) = true).
Proof using Type*.
  unfold check_genesis. destruct (String.eqb_spec (cfg_GenesisHash (rt_Config r)) "").
  { intros [= <- <-]. by split. }
  destruct (required_call _ _ _ _ w) as [[err|header] w1] eqn:Hc.
  { intros [= <- <-]. split; [by eapply required_call_quiet|done]. }
  pose proof (required_call_quiet _ _ _ _ _ _ _ Hc) as Hq. apply required_call_Ok in Hc.
  destruct (ParseEVMHead r (now w1) _) as [err|block] eqn:Hp; [by intros [= <- <-]|].
  destruct (EqualFold _ _) eqn:Hf; simpl; intros [= <- <-]; (split; [done|]); [|done].
  intros _ _. by exists header, (now w1), block.
Qed.

Lemma validate_evm_spec r ctx c w e w' :
  cfg_Family (rt_Config r) = "evm" → validate_evm schedule r ctx c w = (e, w') →
  only_client c w w' ∧ (e = None → on_chain r ctx c ∧ capabilities_earned ctx c w').
Proof using Type*.
  intros Hfam. unfold validate_evm, on_chain. rewrite Hfam. simpl.
  destruct (required_call ctx c "eth_chainId" [] w) as [[err|encoded] w1] eqn:Hc.
  { intros [= <- <-]. split; [by eapply quiet_only, required_call_quiet|done]. }
  pose proof (quiet_only c _ _ (required_call_quiet _ _ _ _ _ _ _ Hc)) as Hq. apply required_call_Ok in Hc.
  destruct (check_chain_id r encoded) as [err|] eqn:Hid; [by intros [= <- <-]|].
  destruct (check_genesis r ctx c w1) as [[err|] w2] eqn:Hg; apply check_genesis_spec in Hg as [Hq2 Hg].
  { intros [= <- <-]. split; [etrans; [exact Hq|by apply quiet_only]|done]. }
  assert (only_client c w w2) as Hw2 by (etrans; [exact Hq|by apply quiet_only]).
  destruct (required_call ctx c _ _ w2) as [[err|header] w3] eqn:Hl;
    apply required_call_quiet in Hl; (assert (only_client c w w3) as Hw3 by (etrans; [exact Hw2|by apply quiet_only]));
    [by intros [= <- <-]|].
  destruct (ParseEVMHead r (now w3) _) as [err|latest]; [by intros [= <- <-]|]. intros [= <- <-].
  destruct (probeEVMStateMethods_spec ctx c (Hash latest) w3) as [Honly Hearned].
  split; [by etrans|]. intros _. split; [|done]. split; [|by apply Hg].
  unfold check_chain_id in Hid. destruct (Unmarshal_string "" encoded) as [chainID|] eqn:Hu; [|done].
  destruct (ParseEVMQuantity chainID) as [|n] eqn:Hn; [done|].
  destruct (ParseEVMQuantity (cfg_ChainID _)) as [|n'] eqn:Hn'; [done|].
  destruct (Z.eqb_spec n n') as [->|]; [|done]. by exists encoded, chainID, n'.
Qed.

Lemma validate_solana_spec r ctx c w e w' :
  cfg_Family (rt_Config r) ≠ "evm" → validate_solana r ctx c w = (e, w') →
  only_client c w w' ∧ (e = None → on_chain r ctx c).
Proof using Type*.
  intros Hfam. unfold validate_solana, on_chain. apply String.eqb_neq in Hfam. rewrite Hfam.
  destruct (required_call ctx c "getGenesisHash" [] w) as [[err|encoded] w1] eqn:Hc.
  { intros [= <- <-]. split; [by eapply quiet_only, required_call_quiet|done]. }
  pose proof (quiet_only c _ _ (required_call_quiet _ _ _ _ _ _ _ Hc)) as Hq. apply required_call_Ok in Hc.
  destruct (Unmarshal_string "" encoded) as [genesis|] eqn:Hu; [|by intros [= <- <-]].
  destruct (String.eqb_spec genesis (cfg_GenesisHash (rt_Config r))) as [->|]; simpl; [|by intros [= <- <-]].
  destruct (required_call ctx c "getSlot" _ w1) as [[err|slotText] w2] eqn:Hs;
    apply required_call_quiet in Hs; (assert (only_client c w w2) as Hw2 by (etrans; [exact Hq|by apply quiet_only]));
    [by intros [= <- <-]|].
  destruct (Unmarshal_uint64 0 slotText) as [slot|]; [|by intros [= <- <-]].
  destruct (call ctx c "getAccountInfo" _ w2) as [[err|[res err]] w3] eqn:Hcap; pose proof (call_quiet _ _ _ _ _ _ _ Hcap) as Hq3;
    (assert (only_client c w w3) as Hw3 by (etrans; [exact Hw2|by apply quiet_only])); [by intros [= <- <-]|].
  simpl. destruct err as [err|]; intros [= <- <-]; (split; [done|]); [done|]. intros _. split.
  - by exists encoded.
  - by exists slot, res, w2, w3.
Qed.

(** ** All upstreams *)


(** What a positive verdict stands for. *)
Definition qualified (r : Runtime) (ctx : Context) (c : Client) (w : W) : Prop :=
  on_chain r ctx c ∧ (cfg_Family (rt_Config r) = "evm" → capabilities_earned ctx c w).

Lemma qualified_capabilities r ctx c w w' :
  capabilities (client_key c) w' = capabilities (client_key c) w → qualified r ctx c w → qualified r ctx c w'.
Proof using Type.
  intros Hc [Ho He]. split; [done|]. intros Hf. destruct (He Hf) as [Hp Ha]. clear He.
  unfold capabilities in Hc. injection Hc as Heip Hpin. unfold capabilities_earned, SupportsPinnedMethod, SupportsEIP1898, state_of in *.
  rewrite Hpin, Heip. done.
Qed.

Lemma validate_one_spec r ctx c w fs w' :
  validate_one schedule r ctx c w = (fs, w') →
  (∀ k, k ≠ client_key c → capabilities k w' = capabilities k w) ∧
  ∃ b, verdicts (cfg_Name (rt_Config r)) w' = <[cl_ID c := b]> (verdicts (cfg_Name (rt_Config r)) w) ∧
    (fs = [] ↔ b = true) ∧ (b = true → qualified r ctx c w').
Proof using Type*.
  unfold validate_one. destruct (validateUpstream schedule r ctx c w) as [err w1] eqn:Hv. intros [= <- <-].
  assert (only_client c w w1 ∧ (err = None → qualified r ctx c w1)) as [[Hcaps Hver] Hq].
  { unfold validateUpstream in Hv. destruct (String.eqb_spec (cfg_Family (rt_Config r)) "evm") as [Hf|Hf].
    - apply validate_evm_spec in Hv as [Ho Hq]; [|done]. split; [done|]. intros He.
      destruct (Hq He). by split.
    - apply validate_solana_spec in Hv as [Ho Hq]; [|done]. split; [done|]. intros He. split; [by apply Hq|done]. }
  assert (∀ k, capabilities k (record_verdict r c err w1) = capabilities k w1) as Hrec.
  { intros k. unfold capabilities, record_verdict. by rewrite sl_runtime_client. }
  split; [intros k Hk; by rewrite Hrec, Hcaps|].
  exists (match err with None => true | Some _ => false end). split; [|split].
  - unfold record_verdict. unfold verdicts at 1. rewrite sl_runtime, decide_True by done. simpl.
    by rewrite <- Hver.
  - by destruct err.
  - destruct err; [done|]. intros _. eapply qualified_capabilities; [apply Hrec|by apply Hq].
Qed.

Section all.
  Variable (r : Runtime) (ctx : Context).
  Hypothesis unique_ids : NoDup (cl_ID <$> rt_Upstreams r).
  Hypothesis same_chain : ∀ c, c ∈ rt_Upstreams r → cl_Chain c = cfg_Name (rt_Config r).

Lemma upstream_index i j c c' :
  rt_Upstreams r !! i = Some c → rt_Upstreams r !! j = Some c' → cl_ID c = cl_ID c' → i = j.
Proof using unique_ids.
  intros Hi Hj Heq. eapply NoDup_lookup; [exact unique_ids| |]; rewrite list_lookup_fmap; [by rewrite Hi|].
  by rewrite Hj; simpl; rewrite Heq.
Qed.

Lemma validate_all_spec order : ∀ w fs w',
  NoDup order → validate_all schedule r ctx order w = (fs, w') →
  (∀ i c, rt_Upstreams r !! i = Some c → i ∉ order →
     verdicts (cfg_Name (rt_Config r)) w' !! cl_ID c = verdicts (cfg_Name (rt_Config r)) w !! cl_ID c ∧
     capabilities (client_key c) w' = capabilities (client_key c) w) ∧
  (∀ i c, rt_Upstreams r !! i = Some c → i ∈ order →
     verdicts (cfg_Name (rt_Config r)) w' !! cl_ID c = Some true → qualified r ctx c w') ∧
  (fs = [] ↔ ∀ i c, rt_Upstreams r !! i = Some c → i ∈ order →
     verdicts (cfg_Name (rt_Config r)) w' !! cl_ID c = Some true).
Proof using Type*.
  induction order as [|j order IH]; intros w fs w' Hnd; cbn [validate_all].
  { intros [= <- <-]. split; [done|]. split; [|split; [|done]]; intros; by destruct (not_elem_of_nil i). }
  apply NoDup_cons in Hnd as [Hj Hnd]. destruct (rt_Upstreams r !! j) as [cj|] eqn:Hcj.
  2: { intros Hall. destruct (IH _ _ _ Hnd Hall) as (Hout & Hin & Hfs). split; [|split].
       - intros i c Hi Hio. apply not_elem_of_cons in Hio as [_ Hio]. by eapply Hout.
       - intros i c Hi Hio. apply elem_of_cons in Hio as [->|Hio]; [congruence|by eapply Hin].
       - rewrite Hfs. split; intros Hv i c Hi Hio; [|by eapply Hv; [|right]].
         apply elem_of_cons in Hio as [->|Hio]; [congruence|by eapply Hv]. }
  destruct (validate_one schedule r ctx cj w) as [f1 w1] eqn:Hone.
  destruct (validate_all schedule r ctx order w1) as [more w2] eqn:Hall. intros [= <- <-].
  apply validate_one_spec in Hone as (Hcaps & b & Hver & Hb & Hqual).
  destruct (IH _ _ _ Hnd Hall) as (Hout & Hin & Hfs).
  destruct (Hout _ _ Hcj Hj) as [Hvj Hcapj]. rewrite Hver, lookup_insert_eq in Hvj. split; [|split].
  - intros i c Hi Hio. apply not_elem_of_cons in Hio as [Hne Hio]. destruct (Hout _ _ Hi Hio) as [-> ->].
    assert (cl_ID cj ≠ cl_ID c) as Hid by (intros Heq; apply Hne; by eapply upstream_index; [| |symmetry]).
    split; [by rewrite Hver, lookup_insert_ne|]. apply Hcaps. unfold client_key. congruence.
  - intros i c Hi Hio Hv. apply elem_of_cons in Hio as [->|Hio]; [|by eapply Hin].
    rewrite Hcj in Hi. injection Hi as <-. rewrite Hvj in Hv. injection Hv as Hv.
    eapply qualified_capabilities; [exact Hcapj|by apply Hqual].
  - rewrite app_nil, Hb, Hfs. split.
    + intros [-> Hrest] i c Hi Hio. apply elem_of_cons in Hio as [->|Hio]; [congruence|by eapply Hrest].
    + intros Hv. split; [|intros i c Hi Hio; by eapply Hv; [|right]].
      specialize (Hv j cj Hcj ltac:(by left)). congruence.
Qed.
End all.
End laws.

(** * Properties *)


(** ** A validated upstream *)

#[export] Instance sim_startup_laws (X : Type) : StartupLaws (Sim (ChainWorld X)).
Proof.
  split.
  - intros k k' s w. simpl. destruct (decide (k' = k)) as [->|].
    + by rewrite lookup_insert_eq.
    + by rewrite lookup_insert_ne.
  - done.
  - intros n n' s w. simpl. destruct (decide (n' = n)) as [->|].
    + by rewrite lookup_insert_eq.
    + by rewrite lookup_insert_ne.
  - done.
  - intros req ctx w r w' [= _ <-]. done.
  - intros k ctx w r w' [= _ <-]. done.
  - done.
Qed.

(** Reads at the missing hash are refused, and [eth_getProof] is not offered. *)
Definition startup_reply (req : HttpRequest) : result goerror HttpResponse :=
  match Unmarshal_Request (hr_Body req) with
  | Some q =>
      let answer body := Ok (mkHttpResponse 200 (js "{'jsonrpc':'2.0','id':" +:+ req_ID q +:+ body +:+ "}") None) in
      if String.eqb (req_Method q) "eth_getProof"
      then answer (js ",'error':{'code':-32601,'message':'no such method'}")
      else if Contains (req_Params q) missingHash
      then answer (js ",'error':{'code':-32001,'message':'resource not found'}")
      else if String.eqb (req_Method q) "eth_chainId" then answer (js ",'result':'0x1'")
      else if String.eqb (req_Method q) "eth_getBlockByNumber"
      then answer (js ",'result':" +:+ sim_block "0x5" (sim_hash "aa") (sim_hash "bb"))
      else answer (js ",'result':'0x0'")
  | None => Err (ErrNew "bad request")
  end.

Definition startup_world : Sim (ChainWorld unit) := mkSim 1000 startup_reply (mkChainWorld ∅ ∅ tt).

Definition startup_run : option goerror * Sim (ChainWorld unit) :=
  Runtime_Validate (λ n, rev (seq 0 n)) demo_runtime Background startup_world.

