(* ===== verification/RequestCache.v ===== *)
(** * The response cache — internal/services/requestcache/cache.go

    The Go service indexes a doubly linked list of entries, most recently used
    first, by a map from keys to list elements.  An element is a pointer: here
    an identifier, carried by the list node and held by the map.  Every method
    that touches them holds the mutex.  Payloads are immutable byte strings, so
    [bytes.Clone] is the identity. *)

From S2P Require Import Prelude GoStrings GoJson JsonRpc Head World.

(** ** State *)

(* go: config/config.go:52-59 CacheConfig *)
Record CacheConfig := mkCacheConfig {
  Disabled : bool;
  MaxEntries : Z;
  MaxBytes : Z;
  MaxEntryBytes : Z;
  TTL : Z
}.

(* go: services/requestcache/cache.go:18-24 Response *)
Record CachedResponse := mkCached { Payload : RawMessage; Upstream : string; SkipCache : bool }.

Definition zero_Cached : CachedResponse := mkCached "" "" false.

(* go: services/requestcache/cache.go:26-30 Lookup *)
Record Lookup := mkLookup { lk_Response : CachedResponse; lk_Status : string }.

(* go: services/requestcache/cache.go:58-63 entry *)
Record entry := mkEntry {
  en_key : string;
  en_response : CachedResponse;
  en_expires : Z;
  en_size : Z
}.

Abbreviation element := (nat * entry)%type.

(** [next] numbers the elements handed out by [PushFront]. *)
(* go: services/requestcache/cache.go:47-56 Service *)
Record Service := mkService {
  sv_config : CacheConfig;
  sv_loadTimeout : Z;
  sv_entries : gmap string nat;
  sv_recent : list element;
  sv_bytes : Z;
  sv_next : nat
}.

(* go: services/requestcache/cache.go:65-68 NewService *)
Definition NewService (config : CacheConfig) (loadTimeout : Z) : Service :=
  mkService config loadTimeout ∅ [] 0 0.

(* go: services/requestcache/cache.go:70-73 Service.Enabled *)
Definition Enabled (s : Service) : bool :=
  negb (Disabled (sv_config s)) && (0 <? MaxEntries (sv_config s))%Z.

(** ** List and map primitives *)

Definition with_state (s : Service) (entries : gmap string nat) (recent : list element)
    (bytes : Z) (next : nat) : Service :=
  mkService (sv_config s) (sv_loadTimeout s) entries recent bytes next.

Definition find_element (id : nat) (l : list element) : option element :=
  snd <$> list_find (λ e, e.1 = id) l.

(* go: services/requestcache/cache.go:165-170 Service.remove *)
Definition remove (e : element) (s : Service) : Service :=
  with_state s (delete (en_key e.2) (sv_entries s))
    (filter (λ x, x.1 ≠ e.1) (sv_recent s)) (sv_bytes s - en_size e.2) (sv_next s).

Definition move_to_front (e : element) (s : Service) : Service :=
  with_state s (sv_entries s) (e :: filter (λ x, x.1 ≠ e.1) (sv_recent s)) (sv_bytes s) (sv_next s).

(** The element the map holds for [key]. *)
Definition lookup_element (key : string) (s : Service) : option element :=
  sv_entries s !! key ≫= λ id, find_element id (sv_recent s).

(** ** Operations *)

(* go: services/requestcache/cache.go:128-143 Service.get *)
Definition get (now : Z) (key : string) (s : Service) : option CachedResponse * Service :=
  match lookup_element key s with
  | None => (None, s)
  | Some e =>
      if negb (now <? en_expires e.2)%Z then (None, remove e s)
      else (Some (en_response e.2), move_to_front e s)
  end.

Definition response_size (key : string) (r : CachedResponse) : Z :=
  len key + len (Payload r) + len (Upstream r).

Definition storable (config : CacheConfig) (key : string) (r : CachedResponse) : bool :=
  negb (SkipCache r || (len (Payload r) =? 0)%Z || is_null_text (Payload r)
        || (MaxEntryBytes config <? response_size key r)%Z || negb (Valid (Payload r))).

Definition over_capacity (size : Z) (s : Service) : bool :=
  (MaxEntries (sv_config s) <=? Z.of_nat (length (sv_recent s)))%Z
  || (MaxBytes (sv_config s) - size <? sv_bytes s)%Z.

(** The eviction loop of [put].  [None] is the nil dereference of removing the
    back of an empty list; one pass per list element is enough fuel. *)
Fixpoint evict (fuel : nat) (size : Z) (s : Service) : option Service :=
  if over_capacity size s then
    match last (sv_recent s), fuel with
    | Some e, S f => evict f size (remove e s)
    | _, _ => None
    end
  else Some s.

(* go: services/requestcache/cache.go:145-163 Service.put *)
Definition put (now : Z) (key : string) (response : CachedResponse) (s : Service)
    : option Service :=
  let size := response_size key response in
  if negb (storable (sv_config s) key response) then Some s
  else
    let s := match lookup_element key s with
             | Some previous => remove previous s
             | None => s
             end in
    s ← evict (length (sv_recent s)) size s;
    let cached := mkEntry key response (now + TTL (sv_config s)) size in
    Some (with_state s (<[key := sv_next s]> (sv_entries s))
            ((sv_next s, cached) :: sv_recent s) (sv_bytes s + size) (S (sv_next s))).

(** ** Loading through the cache *)

(** The process's cache, as a component of the world. *)
Class Caches (W : Type) := {
  cache_service : W → Service;
  set_cache_service : Service → W → W
}.

(* go: services/requestcache/cache.go:32-39 Request *)
Record LoadRequest (W : Type) := mkLoad {
  ld_Key : string;
  ld_FlightKey : string;
  ld_Load : Context → W → CachedResponse * option goerror * W
}.

Arguments mkLoad {W} _ _ _.
Arguments ld_Key {W} _.
Arguments ld_FlightKey {W} _.
Arguments ld_Load {W} _ _ _.

Section load.
  Context {W : Type} `{World W, SingleFlight W, Caches W}.

Definition cache_get (key : string) (w : W) : option CachedResponse * W :=
    let* (r, s) := get (now w) key (cache_service w) in
    (r, set_cache_service s w).

  (** The settings [Config.Validate] admits leave no panic here: [put_refines]. *)
Definition cache_put (key : string) (r : CachedResponse) (w : W) : W :=
    match put (now w) key r (cache_service w) with
    | Some s => set_cache_service s w
    | None => w
    end.

  (** The function the flight runs. *)
Definition load_once (ctx : Context) (request : LoadRequest W) (w : W)
      : (Lookup * option goerror) * W :=
    let* (cached, w) := cache_get (ld_Key request) w in
    match cached with
    | Some response => ((mkLookup response "hit", None), w)
    | None =>
        let loadCtx := WithTimeout (WithoutCancel ctx) (sv_loadTimeout (cache_service w)) w in
        let* (response, err, w) := ld_Load request loadCtx w in
        match err with
        | Some e => ((mkLookup response "miss", Some (Errorf "load cached response: " e "")), w)
        | None =>
            match ctx_Err loadCtx w with
            | Some e =>
                ((mkLookup zero_Cached "miss", Some (Errorf "complete cached response: " e "")), w)
            | None => ((mkLookup response "miss", None), cache_put (ld_Key request) response w)
            end
        end
    end.

  (* go: services/requestcache/cache.go:75-126 Service.GetOrLoad *)
Definition GetOrLoad (ctx : Context) (request : LoadRequest W) (w : W)
      : (Lookup * option goerror) * W :=
    match ctx_Err ctx w with
    | Some e => ((mkLookup zero_Cached "bypass", Some (Errorf "read response cache: " e "")), w)
    | None =>
        if negb (Enabled (cache_service w)) then
          let* (response, err, w) := ld_Load request ctx w in
          ((mkLookup response "bypass", err), w)
        else
          let* (cached, w) := cache_get (ld_Key request) w in
          match cached with
          | Some response => ((mkLookup response "hit", None), w)
          | None =>
              let flightKey :=
                if String.eqb (ld_FlightKey request) "" then ld_Key request else ld_FlightKey request in
              let* (lookup, err, shared, w) :=
                flight (Lookup * option goerror) "loads" flightKey (load_once ctx request) w in
              match select_done ctx w with
              | Some e =>
                  ((mkLookup zero_Cached "miss", Some (Errorf "wait for cached response: " e "")), w)
              | None =>
                  ((mkLookup (lk_Response lookup) (if shared : bool then "shared" else lk_Status lookup),
                    err), w)
              end
          end
    end.
End load.

(** ** Specification: a recency list

    [abs] forgets the element identifiers and the index.  The reference
    operations work on the plain list of entries; [keep] retains the longest
    prefix, most recently used first, that fits the remaining capacity. *)

Definition abs (s : Service) : list entry := snd <$> sv_recent s.

Definition without (key : string) (l : list entry) : list entry :=
  filter (λ e, en_key e ≠ key) l.

Definition find_key (key : string) (l : list entry) : option entry :=
  snd <$> list_find (λ e, en_key e = key) l.

Definition spec_get (now : Z) (key : string) (l : list entry)
    : option CachedResponse * list entry :=
  match find_key key l with
  | None => (None, l)
  | Some e => if (now <? en_expires e)%Z then (Some (en_response e), e :: without key l)
              else (None, without key l)
  end.

Fixpoint keep (slots budget : Z) (l : list entry) : list entry :=
  match l with
  | e :: r => if (0 <? slots)%Z && (en_size e <=? budget)%Z
              then e :: keep (slots - 1) (budget - en_size e) r else []
  | [] => []
  end.

Definition spec_put (config : CacheConfig) (now : Z) (key : string) (response : CachedResponse)
    (l : list entry) : list entry :=
  let size := response_size key response in
  if storable config key response
  then mkEntry key response (now + TTL config) size
       :: keep (MaxEntries config - 1) (MaxBytes config - size) (without key l)
  else l.

(** ** Invariant *)

Definition total (l : list element) : Z := foldr (λ e acc, en_size e.2 + acc)%Z 0%Z l.

Definition entry_wf (config : CacheConfig) (e : entry) : Prop :=
  en_size e = response_size (en_key e) (en_response e) ∧
  storable config (en_key e) (en_response e) = true.

Record index_wf (s : Service) : Prop := {
  wf_ids : NoDup (fst <$> sv_recent s);
  wf_fresh : Forall (λ e, (e.1 < sv_next s)%nat) (sv_recent s);
  wf_keys : NoDup ((λ e, en_key e.2) <$> sv_recent s);
  wf_index k id : sv_entries s !! k = Some id ↔ ∃ e, (id, e) ∈ sv_recent s ∧ en_key e = k;
  wf_bytes : sv_bytes s = total (sv_recent s);
  wf_entries : Forall (λ e, entry_wf (sv_config s) e.2) (sv_recent s)
}.

Definition within_capacity (s : Service) : Prop :=
  (Z.of_nat (length (sv_recent s)) ≤ MaxEntries (sv_config s))%Z ∧
  (sv_bytes s ≤ MaxBytes (sv_config s))%Z.

(** What [Config.Validate] requires of the cache settings. *)
Definition config_ok (c : CacheConfig) : Prop :=
  (0 < MaxEntries c ∧ 0 < MaxEntryBytes c ∧ MaxEntryBytes c ≤ MaxBytes c)%Z.

(** ** Lemmas on the primitives *)

Lemma total_cons e l : total (e :: l) = (en_size e.2 + total l)%Z.
Proof. done. Qed.

Lemma total_app l l' : total (l ++ l') = (total l + total l')%Z.
Proof. induction l as [|e l IH]; simpl; lia. Qed.

Lemma response_size_nonneg key r : (0 ≤ response_size key r)%Z.
Proof. unfold response_size. pose proof len_nonneg. pose proof (len_nonneg key).
  pose proof (len_nonneg (Payload r)). pose proof (len_nonneg (Upstream r)). lia. Qed.

Lemma entry_wf_size c e : entry_wf c e → (0 ≤ en_size e ≤ MaxEntryBytes c)%Z.
Proof.
  intros [-> Hs]. split; [apply response_size_nonneg|].
  unfold storable in Hs. bool_to_prop. lia.
Qed.

Lemma NoDup_fmap_eq {A B} (f : A → B) (l : list A) x y :
  NoDup (f <$> l) → x ∈ l → y ∈ l → f x = f y → x = y.
Proof.
  induction l as [|z l IH]; simpl; intros Hn Hx Hy He; [set_solver|].
  apply NoDup_cons in Hn as [Hz Hn].
  apply elem_of_cons in Hx as [->|Hx]; apply elem_of_cons in Hy as [->|Hy]; [done| | |by apply IH].
  - exfalso. apply Hz. rewrite He. by apply list_elem_of_fmap_2.
  - exfalso. apply Hz. rewrite <- He. by apply list_elem_of_fmap_2.
Qed.

Lemma list_find_unique {A} (P : A → Prop) `{∀ x, Decision (P x)} (l : list A) x :
  x ∈ l → P x → (∀ y, y ∈ l → P y → y = x) → snd <$> list_find P l = Some x.
Proof.
  intros Hx HP Hu. destruct (list_find P l) as [[i y]|] eqn:Hf.
  - apply list_find_Some in Hf as (Hi & HPy & _). simpl. f_equal. apply Hu; [|done].
    by eapply list_elem_of_lookup_2.
  - rewrite list_find_None, Forall_forall in Hf. by destruct (Hf x).
Qed.

Lemma lookup_element_Some s key id e :
  index_wf s → lookup_element key s = Some (id, e) ↔ (id, e) ∈ sv_recent s ∧ en_key e = key.
Proof.
  intros Hw. unfold lookup_element, find_element. rewrite bind_Some. split.
  - intros (id' & Hid & Hf). apply (wf_index _ Hw) in Hid as (e' & He' & Hk).
    rewrite (list_find_unique _ _ (id', e')) in Hf; [by simplify_eq|done|done|].
    intros y Hy Hyid. by apply (NoDup_fmap_eq fst _ _ _ (wf_ids _ Hw) Hy He').
  - intros [He Hk]. exists id. split; [apply (wf_index _ Hw); eauto|].
    apply list_find_unique; [done|done|].
    intros y Hy Hyid. by apply (NoDup_fmap_eq fst _ _ _ (wf_ids _ Hw) Hy He).
Qed.

Lemma lookup_element_find s key :
  index_wf s → snd <$> lookup_element key s = find_key key (abs s).
Proof.
  intros Hw. unfold find_key. destruct (lookup_element key s) as [[id e]|] eqn:Hl.
  - apply lookup_element_Some in Hl as [He Hk]; [|done]. simpl. symmetry.
    apply list_find_unique; [by apply (list_elem_of_fmap_2 snd _ (id, e))|done|].
    intros y Hy Hyk. unfold abs in Hy. apply list_elem_of_fmap in Hy as ((id' & y') & -> & Hy).
    simpl in *. enough ((id', y') = (id, e)) by congruence.
    eapply (NoDup_fmap_eq (λ e, en_key e.2)); [apply (wf_keys _ Hw)|done|done|simpl; congruence].
  - destruct (list_find _ (abs s)) as [[i e]|] eqn:Hf; [|done]. exfalso.
    apply list_find_Some in Hf as (Hi & Hk & _). apply list_elem_of_lookup_2 in Hi.
    unfold abs in Hi. apply list_elem_of_fmap in Hi as ((id & e') & -> & Hin).
    assert (lookup_element key s = Some (id, e')) as Hc; [|congruence].
    by apply lookup_element_Some.
Qed.

Lemma filter_ext_in {A} (P Q : A → Prop) `{∀ x, Decision (P x), ∀ x, Decision (Q x)} (l : list A) :
  (∀ x, x ∈ l → P x ↔ Q x) → filter P l = filter Q l.
Proof.
  induction l as [|x l IH]; intros Hl; [done|]. rewrite !filter_cons.
  rewrite IH by (intros y Hy; apply Hl, elem_of_cons; by right).
  specialize (Hl x ltac:(apply elem_of_cons; by left)). repeat case_decide; tauto || done.
Qed.

Lemma filter_id_all {A} (P : A → Prop) `{∀ x, Decision (P x)} (l : list A) :
  Forall P l → filter P l = l.
Proof.
  induction 1 as [|x l Hx Hl IH]; [done|]. rewrite filter_cons_True by done. by f_equal.
Qed.

Lemma fmap_filter_comm {A B} (f : A → B) (P : B → Prop) `{∀ x, Decision (P x)} (l : list A) :
  f <$> filter (λ x, P (f x)) l = filter P (f <$> l).
Proof.
  induction l as [|x l IH]; [done|].
  rewrite filter_cons, fmap_cons, filter_cons. case_decide; by rewrite ?fmap_cons, IH.
Qed.

Lemma NoDup_fmap_filter {A B} (f : A → B) (P : A → Prop) `{∀ x, Decision (P x)} (l : list A) :
  NoDup (f <$> l) → NoDup (f <$> filter P l).
Proof.
  induction l as [|x l IH]; [done|]. rewrite fmap_cons, filter_cons, NoDup_cons.
  intros [Hx Hn]. case_decide; [|by apply IH]. rewrite fmap_cons, NoDup_cons.
  split; [|by apply IH]. intros (y & Heq & Hy)%list_elem_of_fmap. apply Hx. rewrite Heq.
  apply list_elem_of_fmap_2. by apply list_elem_of_filter in Hy as [_ ?].
Qed.

(** Dropping an element by identifier drops its key. *)
Lemma filter_id_key s e :
  index_wf s → e ∈ sv_recent s →
  filter (λ x, x.1 ≠ e.1) (sv_recent s) = filter (λ x, en_key x.2 ≠ en_key e.2) (sv_recent s).
Proof.
  intros Hw He. apply filter_ext_in. intros x Hx. apply not_iff_compat. split; intros Heq.
  - by rewrite (NoDup_fmap_eq fst _ _ _ (wf_ids _ Hw) Hx He Heq).
  - by rewrite (NoDup_fmap_eq (λ e, en_key e.2) _ _ _ (wf_keys _ Hw) Hx He Heq).
Qed.

Lemma filter_id_abs s e :
  index_wf s → e ∈ sv_recent s →
  snd <$> filter (λ x, x.1 ≠ e.1) (sv_recent s) = without (en_key e.2) (abs s).
Proof.
  intros Hw He. rewrite filter_id_key by done.
  unfold without, abs. by rewrite <- fmap_filter_comm.
Qed.

Lemma total_filter_id s e :
  index_wf s → e ∈ sv_recent s →
  total (filter (λ x, x.1 ≠ e.1) (sv_recent s)) = (total (sv_recent s) - en_size e.2)%Z.
Proof.
  intros Hw He. pose proof (wf_ids _ Hw) as Hn. revert Hn He.
  induction (sv_recent s) as [|x l IH]; intros Hn He; [set_solver|].
  rewrite fmap_cons in Hn. apply NoDup_cons in Hn as [Hx Hn]. rewrite filter_cons.
  rewrite total_cons. case_decide as Hd.
  - apply elem_of_cons in He as [->|He]; [done|]. rewrite total_cons, IH by done. lia.
  - assert (e.1 = x.1) as Heq by (destruct (decide (x.1 = e.1)); [done|tauto]).
    apply elem_of_cons in He as [->|He].
    + rewrite filter_id_all; [lia|]. apply Forall_forall. intros y Hy Hyx.
      apply Hx. rewrite <- Hyx. by apply list_elem_of_fmap_2.
    + exfalso. apply Hx. rewrite <- Heq. by apply list_elem_of_fmap_2.
Qed.

(** ** The primitives against the recency list *)

Lemma abs_remove s e :
  index_wf s → e ∈ sv_recent s → abs (remove e s) = without (en_key e.2) (abs s).
Proof. apply filter_id_abs. Qed.

Lemma remove_wf s e : index_wf s → e ∈ sv_recent s → index_wf (remove e s).
Proof.
  intros Hw He. destruct (Hw) as [Hi Hf Hk Hx Hb Hentries]. split; simpl.
  - by apply NoDup_fmap_filter.
  - apply Forall_forall. intros x Hin. apply list_elem_of_filter in Hin as [_ Hin].
    rewrite Forall_forall in Hf. by apply Hf.
  - by apply (NoDup_fmap_filter (λ e, en_key e.2)).
  - intros k id. rewrite lookup_delete_Some, Hx. split.
    + intros [Hne (e' & He' & Hk')]. exists e'. split; [|done].
      apply list_elem_of_filter. split; [|done]. simpl. intros Hid.
      rewrite <- (NoDup_fmap_eq fst _ _ _ Hi He' He Hid) in Hne. by simpl in Hne.
    + intros (e' & He' & Hk'). apply list_elem_of_filter in He' as [Hne He'].
      split; [|eauto]. intros Heq. apply Hne.
      rewrite (NoDup_fmap_eq (λ e, en_key e.2) _ _ _ Hk He' He); [done|simpl; congruence].
  - rewrite total_filter_id by done. lia.
  - apply Forall_forall. intros x Hin. apply list_elem_of_filter in Hin as [_ Hin].
    rewrite Forall_forall in Hentries. by apply Hentries.
Qed.

Lemma move_to_front_wf s e : index_wf s → e ∈ sv_recent s → index_wf (move_to_front e s).
Proof.
  intros Hw He. pose proof (remove_wf _ _ Hw He) as Hr.
  destruct (Hw) as [Hi Hf Hk Hx Hb Hentries]. destruct Hr as [Ri Rf Rk Rx Rb Rentries].
  rewrite Forall_forall in Hf, Hentries. split; simpl in *.
  - apply NoDup_cons. split; [|done]. intros (x & Heq & Hin)%list_elem_of_fmap.
    apply list_elem_of_filter in Hin as [Hne _]. congruence.
  - apply Forall_cons. split; [by apply Hf|done].
  - apply NoDup_cons. split; [|done]. intros (x & Heq & Hin)%list_elem_of_fmap.
    apply list_elem_of_filter in Hin as [Hne Hin].
    by rewrite (NoDup_fmap_eq (λ e, en_key e.2) _ _ _ Hk Hin He) in Hne.
  - intros k id. rewrite Hx. split; intros (e' & Hin & Hk'); exists e'; (split; [|done]).
    + apply elem_of_cons. destruct (decide (id = e.1)) as [Heq|Hne].
      * left. by apply (NoDup_fmap_eq fst _ _ _ Hi Hin He).
      * right. by apply list_elem_of_filter.
    + apply elem_of_cons in Hin as [<-|Hin]; [done|].
      by apply list_elem_of_filter in Hin as [_ ?].
  - rewrite total_filter_id by done. lia.
  - apply Forall_cons. split; [by apply Hentries|done].
Qed.

Lemma lookup_element_in s key e :
  index_wf s → lookup_element key s = Some e → e ∈ sv_recent s ∧ en_key e.2 = key.
Proof. intros Hw Hl. destruct e as [id e]. by apply lookup_element_Some in Hl. Qed.

Lemma without_absent key l : find_key key l = None → without key l = l.
Proof.
  unfold find_key. destruct (list_find _ l) eqn:Hf; [done|]. intros _.
  rewrite list_find_None in Hf. by apply filter_id_all.
Qed.

(** ** Eviction keeps the longest prefix that fits *)

Definition entries_total (l : list entry) : Z := foldr (λ e acc, en_size e + acc)%Z 0%Z l.

Lemma total_abs l : total l = entries_total (snd <$> l).
Proof. induction l as [|x l IH]; simpl; [done|by rewrite IH]. Qed.

Lemma entries_total_snoc l e : entries_total (l ++ [e]) = (entries_total l + en_size e)%Z.
Proof. induction l as [|x l IH]; simpl; [lia|]. rewrite IH. lia. Qed.

Lemma entries_total_nonneg l : Forall (λ e, 0 ≤ en_size e)%Z l → (0 ≤ entries_total l)%Z.
Proof. induction 1; simpl; lia. Qed.

Lemma keep_snoc slots budget l e :
  Forall (λ e, 0 ≤ en_size e)%Z (l ++ [e]) →
  keep slots budget (l ++ [e]) =
    if (Z.of_nat (length l) <? slots)%Z && (entries_total l + en_size e <=? budget)%Z
    then l ++ [e] else keep slots budget l.
Proof.
  revert slots budget. induction l as [|x l IH]; intros slots budget Hn; simpl.
  - rewrite Z.add_0_l. by destruct (_ && _).
  - simpl in Hn. apply Forall_cons in Hn as [Hx Hn]. rewrite IH by done.
    assert (0 ≤ entries_total l + en_size e)%Z.
    { rewrite <- entries_total_snoc. by apply entries_total_nonneg. }
    repeat match goal with |- context [(?a <? ?b)%Z] => destruct (Z.ltb_spec a b) end;
    repeat match goal with |- context [(?a <=? ?b)%Z] => destruct (Z.leb_spec a b) end;
      simpl; try done; lia.
Qed.

Lemma keep_prefix slots budget l : keep slots budget l `prefix_of` l.
Proof.
  revert slots budget. induction l as [|x l IH]; intros; simpl; [done|].
  destruct (_ && _); [by apply prefix_cons|apply prefix_nil].
Qed.

Lemma abs_snoc s l e : sv_recent s = l ++ [e] → abs s = (snd <$> l) ++ [e.2].
Proof. unfold abs. intros ->. by rewrite fmap_app. Qed.

Lemma abs_remove_last s l e :
  index_wf s → sv_recent s = l ++ [e] → abs (remove e s) = snd <$> l.
Proof.
  intros Hw Hl. unfold abs. simpl. f_equal. pose proof (wf_ids _ Hw) as Hn.
  rewrite Hl in *. rewrite fmap_app, NoDup_app in Hn. destruct Hn as (_ & Hd & _).
  rewrite filter_app, filter_cons_False, filter_nil, app_nil_r by tauto.
  apply filter_id_all, Forall_forall. intros x Hx Heq.
  apply (Hd x.1); [by apply list_elem_of_fmap_2|]. rewrite Heq. simpl. set_solver.
Qed.

Lemma sizes_nonneg s : index_wf s → Forall (λ e, 0 ≤ en_size e)%Z (abs s).
Proof.
  intros Hw. apply Forall_fmap. eapply Forall_impl; [apply (wf_entries _ Hw)|].
  intros e He. apply (entry_wf_size _ _ He).
Qed.

Lemma over_capacity_spec s size :
  index_wf s →
  over_capacity size s = false ↔
    (Z.of_nat (length (abs s)) < MaxEntries (sv_config s))%Z ∧
    (entries_total (abs s) ≤ MaxBytes (sv_config s) - size)%Z.
Proof.
  intros Hw. unfold over_capacity, abs. rewrite (wf_bytes _ Hw), total_abs, length_fmap.
  rewrite orb_false_iff, Z.leb_gt, Z.ltb_ge. done.
Qed.

Lemma keep_fits slots budget l :
  Forall (λ e, 0 ≤ en_size e)%Z l → (Z.of_nat (length l) ≤ slots)%Z →
  (entries_total l ≤ budget)%Z → keep slots budget l = l.
Proof.
  intros Hn. destruct l as [|x l _] using rev_ind; [done|]. rewrite keep_snoc by done.
  rewrite length_app. simpl. intros Hs Ht.
  rewrite entries_total_snoc in Ht.
  destruct (Z.ltb_spec (Z.of_nat (length l)) slots); [|lia].
  destruct (Z.leb_spec (entries_total l + en_size x) budget); [done|lia].
Qed.

Lemma keep_total slots budget l :
  (0 ≤ slots)%Z → (0 ≤ budget)%Z →
  (Z.of_nat (length (keep slots budget l)) ≤ slots)%Z ∧
  (entries_total (keep slots budget l) ≤ budget)%Z.
Proof.
  revert slots budget. induction l as [|x l IH]; intros slots budget Hs Hb; simpl; [lia|].
  destruct (_ && _) eqn:Hc; simpl; [|lia]. bool_to_prop.
  destruct (IH (slots - 1) (budget - en_size x))%Z; lia.
Qed.

Lemma evict_keep fuel size s :
  index_wf s → (length (sv_recent s) ≤ fuel)%nat →
  (0 < MaxEntries (sv_config s))%Z → (size ≤ MaxBytes (sv_config s))%Z →
  ∃ s', evict fuel size s = Some s' ∧ index_wf s' ∧ sv_config s' = sv_config s ∧
        abs s' = keep (MaxEntries (sv_config s) - 1) (MaxBytes (sv_config s) - size) (abs s).
Proof.
  revert s. induction fuel as [|fuel IH]; intros s Hw Hf Hm Hb; simpl;
    (destruct (over_capacity size s) eqn:Hc;
     [|exists s; apply over_capacity_spec in Hc as [? ?]; [|done];
       rewrite keep_fits; [done|by apply sizes_nonneg|lia|done]]);
    (destruct (sv_recent s) as [|e l _] eqn:Hl using rev_ind;
     [unfold over_capacity in Hc; rewrite (wf_bytes _ Hw), Hl in Hc;
      apply orb_true_iff in Hc as [Hc|Hc]; simpl in Hc; bool_to_prop; lia|]);
    rewrite length_app in Hf; simpl in Hf; [lia|].
  rewrite last_snoc. assert (e ∈ sv_recent s) as He by (rewrite Hl; set_solver).
  destruct (IH (remove e s)) as (s' & Hev & Hw' & Hcfg & Habs);
    [by apply remove_wf| |done|done|].
  - pose proof (abs_remove_last _ _ _ Hw Hl) as Hr. apply (f_equal length) in Hr.
    unfold abs in Hr. rewrite !length_fmap in Hr. lia.
  - exists s'. repeat split; try done; [apply Hw'..|]. simpl in Habs.
    rewrite Habs, (abs_remove_last _ _ _ Hw Hl), (abs_snoc _ _ _ Hl), keep_snoc.
    + destruct (_ && _) eqn:Hk; [|done]. exfalso. bool_to_prop.
      enough (over_capacity size s = false) as Hnot by (by rewrite Hnot in Hc).
      apply over_capacity_spec; [done|].
      rewrite (abs_snoc _ _ _ Hl), length_app, entries_total_snoc. simpl. lia.
    + rewrite <- (abs_snoc _ _ _ Hl). by apply sizes_nonneg.
Qed.

Lemma keep_elem slots budget l e : e ∈ keep slots budget l → e ∈ l.
Proof. intros He. destruct (keep_prefix slots budget l) as [k ->]. set_solver. Qed.

(** Nothing that [put] stores, and nothing that it leaves, has the key twice. *)
Lemma insert_wf s key e :
  index_wf s → entry_wf (sv_config s) e → en_key e = key →
  lookup_element key s = None →
  index_wf (with_state s (<[key := sv_next s]> (sv_entries s))
              ((sv_next s, e) :: sv_recent s) (sv_bytes s + en_size e) (S (sv_next s))).
Proof.
  intros Hw He Hkey Hnone. destruct (Hw) as [Hi Hf Hk Hx Hb Hentries].
  rewrite Forall_forall in Hf.
  assert (∀ id x, (id, x) ∈ sv_recent s → en_key x ≠ key) as Habsent.
  { intros id x Hin Heq. assert (lookup_element key s = Some (id, x)) as Hc; [|congruence].
    by apply lookup_element_Some. }
  split; simpl.
  - apply NoDup_cons. split; [|done]. intros (x & Heq & Hin)%list_elem_of_fmap.
    specialize (Hf _ Hin). simpl in Hf. lia.
  - apply Forall_cons. split; [simpl; lia|]. apply Forall_forall. intros x Hin.
    specialize (Hf _ Hin). simpl in Hf. lia.
  - apply NoDup_cons. split; [|done]. intros ([id x] & Heq & Hin)%list_elem_of_fmap.
    apply (Habsent id x Hin). simpl in Heq. congruence.
  - intros k id. rewrite lookup_insert_Some, Hx. split.
    + intros [[-> <-]|[Hne (x & Hin & Hxk)]].
      * exists e. split; [apply elem_of_cons; by left|done].
      * exists x. split; [apply elem_of_cons; by right|done].
    + intros (x & Hin & Hxk). apply elem_of_cons in Hin as [Heq|Hin]; [inversion Heq; subst; by left|].
      right. split; [|eauto]. intros ->. by apply (Habsent id x).
  - rewrite Hb. fold (total (sv_recent s)). lia.
  - apply Forall_cons. done.
Qed.

(** ** The operations *)

Lemma get_refines now key s :
  index_wf s →
  let '(r, s') := get now key s in
  index_wf s' ∧ sv_config s' = sv_config s ∧
  (r, abs s') = spec_get now key (abs s).
Proof.
  intros Hw. unfold get, spec_get. pose proof (lookup_element_find s key Hw) as Hf.
  destruct (lookup_element key s) as [e|] eqn:Hl; simpl in Hf; rewrite <- Hf; [|done].
  apply lookup_element_in in Hl as [He Hk]; [|done].
  destruct (now <? en_expires e.2)%Z; simpl.
  - split; [by apply move_to_front_wf|]. split; [done|]. unfold abs at 1. simpl.
    rewrite filter_id_abs by done. by rewrite Hk.
  - split; [by apply remove_wf|]. split; [done|]. rewrite abs_remove by done. by rewrite Hk.
Qed.

Lemma storable_size config key r :
  storable config key r = true → (response_size key r ≤ MaxEntryBytes config)%Z.
Proof. unfold storable. intros H. bool_to_prop. lia. Qed.

Lemma drop_previous key s :
  index_wf s →
  let s' := match lookup_element key s with Some p => remove p s | None => s end in
  index_wf s' ∧ sv_config s' = sv_config s ∧ abs s' = without key (abs s).
Proof.
  intros Hw. pose proof (lookup_element_find s key Hw) as Hf.
  destruct (lookup_element key s) as [p|] eqn:Hl; simpl in *.
  - apply lookup_element_in in Hl as [Hp Hk]; [|done].
    split; [by apply remove_wf|]. split; [done|]. rewrite abs_remove by done. by rewrite Hk.
  - by rewrite without_absent.
Qed.

Lemma keep_absent key slots budget l :
  find_key key (keep slots budget (without key l)) = None.
Proof.
  unfold find_key. enough (list_find (λ e, en_key e = key) (keep slots budget (without key l)) = None)
    as -> by done.
  apply list_find_None, Forall_forall. intros e He%keep_elem.
  by apply list_elem_of_filter in He as [? _].
Qed.

Lemma put_refines now key r s :
  config_ok (sv_config s) → index_wf s →
  ∃ s', put now key r s = Some s' ∧ index_wf s' ∧ sv_config s' = sv_config s ∧
        abs s' = spec_put (sv_config s) now key r (abs s).
Proof.
  intros (Hm & _ & Hbytes) Hw. unfold put, spec_put.
  destruct (storable (sv_config s) key r) eqn:Hs; simpl; [|eauto].
  destruct (drop_previous key s Hw) as (Hw1 & Hc1 & Ha1).
  set (s1 := match lookup_element key s with Some p => remove p s | None => s end) in *.
  pose proof (storable_size _ _ _ Hs).
  destruct (evict_keep (length (sv_recent s1)) (response_size key r) s1)
    as (s2 & -> & Hw2 & Hc2 & Ha2); [done|lia|by rewrite Hc1|rewrite Hc1; lia|].
  simpl. eexists. split; [done|]. rewrite Hc1 in *.
  assert (lookup_element key s2 = None) as Hnone.
  { pose proof (lookup_element_find s2 key Hw2) as Hf.
    rewrite Ha2, Ha1, keep_absent in Hf. by destruct (lookup_element key s2). }
  split; [|split].
  - apply (insert_wf s2 key (mkEntry key r (now + TTL (sv_config s2)) (response_size key r)));
      try done. split; [done|]. simpl. by rewrite Hc2.
  - done.
  - unfold abs at 1. simpl. rewrite Hc2. f_equal. by rewrite <- Ha1, <- Ha2.
Qed.

(** ** Runs of the cache *)

Inductive cache_op : Type :=
| OpGet (now : Z) (key : string)
| OpPut (now : Z) (key : string) (response : CachedResponse).

(** One operation; [None] is a panic.  [put] has no result. *)
Definition exec (op : cache_op) (s : Service) : option (option CachedResponse * Service) :=
  match op with
  | OpGet now key => Some (get now key s)
  | OpPut now key r => (None,.) <$> put now key r s
  end.

Fixpoint run (ops : list cache_op) (s : Service) : option (list (option CachedResponse) * Service) :=
  match ops with
  | [] => Some ([], s)
  | op :: ops =>
      '(r, s) ← exec op s;
      '(rs, s) ← run ops s;
      Some (r :: rs, s)
  end.

Definition spec_exec (config : CacheConfig) (op : cache_op) (l : list entry)
    : option CachedResponse * list entry :=
  match op with
  | OpGet now key => spec_get now key l
  | OpPut now key r => (None, spec_put config now key r l)
  end.

Fixpoint spec_run (config : CacheConfig) (ops : list cache_op) (l : list entry)
    : list (option CachedResponse) * list entry :=
  match ops with
  | [] => ([], l)
  | op :: ops =>
      let* (r, l) := spec_exec config op l in
      let* (rs, l) := spec_run config ops l in
      (r :: rs, l)
  end.

Record cache_inv (config : CacheConfig) (s : Service) : Prop := {
  ci_wf : index_wf s;
  ci_config : sv_config s = config;
  ci_capacity : within_capacity s
}.

Lemma within_capacity_abs s :
  index_wf s →
  within_capacity s ↔ (Z.of_nat (length (abs s)) ≤ MaxEntries (sv_config s))%Z ∧
                      (entries_total (abs s) ≤ MaxBytes (sv_config s))%Z.
Proof.
  intros Hw. unfold within_capacity, abs. by rewrite (wf_bytes _ Hw), total_abs, length_fmap.
Qed.

Lemma without_total key l :
  Forall (λ e, 0 ≤ en_size e)%Z l →
  (length (without key l) ≤ length l)%nat ∧ (entries_total (without key l) ≤ entries_total l)%Z.
Proof.
  induction 1 as [|e l He Hl IH]; [done|]. unfold without in *. rewrite filter_cons.
  case_decide; simpl; lia.
Qed.

Lemma find_key_total key l e :
  Forall (λ e, 0 ≤ en_size e)%Z l → find_key key l = Some e →
  en_key e = key ∧
  (S (length (without key l)) ≤ length l)%nat ∧
  (en_size e + entries_total (without key l) ≤ entries_total l)%Z.
Proof.
  unfold find_key. intros Hl. induction Hl as [|x l Hx Hl IH]; [done|].
  simpl. pose proof (without_total key l Hl). unfold without in *. rewrite filter_cons.
  destruct (decide (en_key x = key)) as [Hk|Hk]; simpl.
  - intros [= <-]. rewrite decide_False by tauto. split; [done|]. lia.
  - rewrite decide_True by done. intros Hf.
    destruct (list_find _ l) as [[i y]|] eqn:Hfind; simpl in Hf; simplify_eq.
    destruct (IH ltac:(done)) as (? & ? & ?). simpl. split; [done|]. lia.
Qed.

Lemma spec_get_capacity now key l n b :
  Forall (λ e, 0 ≤ en_size e)%Z l →
  (Z.of_nat (length l) ≤ n)%Z → (entries_total l ≤ b)%Z →
  (Z.of_nat (length (spec_get now key l).2) ≤ n)%Z ∧ (entries_total (spec_get now key l).2 ≤ b)%Z.
Proof.
  intros Hl Hn Hb. unfold spec_get. destruct (find_key key l) as [e|] eqn:Hf; [|done].
  destruct (find_key_total _ _ _ Hl Hf) as (_ & ? & ?).
  pose proof (without_total key l Hl). destruct (now <? en_expires e)%Z; simpl; [lia|].
  unfold find_key in Hf. destruct (list_find _ l) as [[i x]|] eqn:Hfind; simplify_eq/=.
  apply list_find_Some in Hfind as (Hx & _). apply list_elem_of_lookup_2 in Hx.
  rewrite Forall_forall in Hl. specialize (Hl _ Hx). simpl in Hl. lia.
Qed.

Lemma spec_put_capacity config now key r l :
  config_ok config →
  (Z.of_nat (length l) ≤ MaxEntries config)%Z → (entries_total l ≤ MaxBytes config)%Z →
  (Z.of_nat (length (spec_put config now key r l)) ≤ MaxEntries config)%Z ∧
  (entries_total (spec_put config now key r l) ≤ MaxBytes config)%Z.
Proof.
  intros (Hm & _ & Hb) Hn Ht. unfold spec_put. destruct (storable config key r) eqn:Hs; [|done].
  pose proof (storable_size _ _ _ Hs).
  destruct (keep_total (MaxEntries config - 1) (MaxBytes config - response_size key r)
              (without key l)); simpl; lia.
Qed.

Lemma cache_exec_refines config op s :
  config_ok config → cache_inv config s →
  ∃ r s', exec op s = Some (r, s') ∧ cache_inv config s' ∧
          (r, abs s') = spec_exec config op (abs s).
Proof.
  intros Hok [Hw <- Hcap]. pose proof (proj1 (within_capacity_abs s Hw) Hcap) as [Hn Ht].
  destruct op as [now key|now key r]; simpl.
  - pose proof (get_refines now key s Hw) as Hg. destruct (get now key s) as [r s'].
    destruct Hg as (Hw' & Hc & Heq). exists r, s'. split; [done|]. split; [|done].
    split; [done|done|]. apply within_capacity_abs; [done|]. rewrite Hc.
    apply (f_equal snd) in Heq. simpl in Heq. rewrite Heq.
    by apply spec_get_capacity; [apply sizes_nonneg|..].
  - destruct (put_refines now key r s Hok Hw) as (s' & -> & Hw' & Hc & Heq).
    exists None, s'. simpl. split; [done|]. split; [|by rewrite Heq].
    split; [done|done|]. apply within_capacity_abs; [done|]. rewrite Hc, Heq.
    by apply spec_put_capacity.
Qed.

Lemma cache_run_refines config ops s :
  config_ok config → cache_inv config s →
  ∃ rs s', run ops s = Some (rs, s') ∧ cache_inv config s' ∧
           (rs, abs s') = spec_run config ops (abs s).
Proof.
  intros Hok. revert s. induction ops as [|op ops IH]; intros s Hs; simpl; [by exists [], s|].
  destruct (cache_exec_refines config op s Hok Hs) as (r & s1 & -> & Hs1 & Heq). simpl.
  rewrite <- Heq. destruct (IH s1 Hs1) as (rs & s2 & -> & Hs2 & Heq2). simpl.
  rewrite <- Heq2. eauto.
Qed.

Lemma NewService_inv config timeout : config_ok config → cache_inv config (NewService config timeout).
Proof.
  intros (? & ? & ?). split; [|done|].
  - split; simpl; try constructor; try done. intros (e & He & _). by apply elem_of_nil in He.
  - unfold within_capacity. simpl. lia.
Qed.

(** A stored value is found until its expiry, whatever was cached before. *)
Lemma spec_put_get config t key r l :
  storable config key r = true →
  find_key key (spec_put config t key r l) =
    Some (mkEntry key r (t + TTL config) (response_size key r)).
Proof. intros Hs. unfold spec_put, find_key. rewrite Hs. simpl. by rewrite decide_True. Qed.

(** ** Where a hit comes from

    The entry a lookup finds is the latest [put] of that key in the run. *)

Fixpoint last_put (config : CacheConfig) (key : string) (ops : list cache_op)
    (acc : option (Z * CachedResponse)) : option (Z * CachedResponse) :=
  match ops with
  | [] => acc
  | OpPut t k r :: ops =>
      last_put config key ops
        (if String.eqb k key && storable config k r then Some (t, r) else acc)
  | OpGet _ _ :: ops => last_put config key ops acc
  end.

(** Every entry for [key] is the put recorded in [acc]. *)
Definition tracks (config : CacheConfig) (key : string) (acc : option (Z * CachedResponse))
    (l : list entry) : Prop :=
  ∀ e, e ∈ l → en_key e = key →
    ∃ t r, acc = Some (t, r) ∧ en_response e = r ∧ en_expires e = (t + TTL config)%Z ∧
           storable config key r = true.

Lemma find_key_elem key l e : find_key key l = Some e → e ∈ l ∧ en_key e = key.
Proof.
  unfold find_key. destruct (list_find _ l) as [[i x]|] eqn:Hf; intros; simplify_eq/=.
  apply list_find_Some in Hf as (Hi & Hk & _). split; [by eapply list_elem_of_lookup_2|done].
Qed.

Lemma without_elem key l e : e ∈ without key l → e ∈ l ∧ en_key e ≠ key.
Proof. unfold without. intros [? ?]%list_elem_of_filter. done. Qed.

Lemma tracks_step config key op acc l :
  tracks config key acc l →
  tracks config key (last_put config key [op] acc) (spec_exec config op l).2.
Proof.
  intros Ht e He Hk. destruct op as [now k|now k r]; simpl in *.
  - apply Ht; [|done]. unfold spec_get in He. destruct (find_key k l) as [x|] eqn:Hf; [|done].
    apply find_key_elem in Hf as [Hx _].
    destruct (now <? en_expires x)%Z; simpl in He; [apply elem_of_cons in He as [->|He]; [done|]|];
      by apply without_elem in He as [? _].
  - unfold spec_put in He. destruct (storable config k r) eqn:Hs.
    + rewrite andb_true_r. apply elem_of_cons in He as [->|He].
      * simpl in *. subst. rewrite String.eqb_refl. eauto 6.
      * apply keep_elem, without_elem in He as [He Hne].
        destruct (String.eqb_spec k key); [congruence|]. by apply Ht.
    + rewrite andb_false_r. by apply Ht.
Qed.

Lemma tracks_run config key ops acc l :
  tracks config key acc l →
  tracks config key (last_put config key ops acc) (spec_run config ops l).2.
Proof.
  revert acc l. induction ops as [|op ops IH]; intros acc l Ht; [done|].
  pose proof (tracks_step config key op acc l Ht) as Hstep. simpl.
  destruct (spec_exec config op l) as [r l']. specialize (IH _ _ Hstep).
  destruct (spec_run config ops l') as [rs l''] eqn:Hrun. simpl in *. rewrite Hrun in IH.
  destruct op; exact IH.
Qed.

(** * Properties *)

(** C10: Every run of [get] and [put] from a new service with settings that
    [Config.Validate] admits completes (the eviction loop never dereferences the
    back of an empty list), returns exactly what the recency-list specification
    returns (expiry at lookup, least recently used entries evicted, the longest
    most recent prefix that fits kept), and ends with an exact index and byte
    count, at most [MaxEntries] entries and at most [MaxBytes] bytes. *)
Theorem cache_refines_lru config timeout ops :
  config_ok config →
  ∃ rs s, run ops (NewService config timeout) = Some (rs, s) ∧
    (rs, abs s) = spec_run config ops [] ∧
    index_wf s ∧ within_capacity s.
Proof.
  intros Hok. destruct (cache_run_refines config ops _ Hok (NewService_inv config timeout Hok))
    as (rs & s & Hrun & [Hw _ Hcap] & Heq). eauto 7.
Qed.

Definition demo_config : CacheConfig := mkCacheConfig false 2 40 30 100.

Definition demo_ops : list cache_op :=
  [ OpPut 0 "a" (mkCached "1" "up" false); OpPut 1 "b" (mkCached "2" "up" false);
    OpGet 2 "a"; OpPut 3 "c" (mkCached "3" "up" false); OpPut 4 "d" (mkCached "null" "up" false);
    OpGet 5 "b"; OpGet 6 "a"; OpGet 7 "d"; OpGet 100 "a" ].

Lemma cache_refines_lru_witness :
  config_ok demo_config ∧
  ∃ rs s, run demo_ops (NewService demo_config 10) = Some (rs, s) ∧
    (rs, abs s) = spec_run demo_config demo_ops [] ∧ index_wf s ∧ within_capacity s.
Proof.
  assert (config_ok demo_config) as H by (unfold config_ok; simpl; lia).
  split; [exact H|exact (cache_refines_lru demo_config 10 demo_ops H)].
Defined.

Example demo_run :
  fst <$> run demo_ops (NewService demo_config 10) =
    Some [None; None; Some (mkCached "1" "up" false); None; None; None;
          Some (mkCached "1" "up" false); None; None].
Proof. vm_compute. reflexivity. Qed.

(** In every run, a lookup that hits returns the response of the latest
    admissible [put] of that very key, before its time to live has passed, and
    that response is valid JSON, not null and not marked to be skipped;
    and directly after an admissible [put] a lookup within the time to live
    hits, whatever was cached before. *)
Lemma cache_serves_latest_put config timeout ops key now :
  config_ok config →
  ∃ rs s, run ops (NewService config timeout) = Some (rs, s) ∧
    (∀ r, (get now key s).1 = Some r →
       ∃ t, last_put config key ops None = Some (t, r) ∧ (now < t + TTL config)%Z ∧
            SkipCache r = false ∧ is_null_text (Payload r) = false ∧ Valid (Payload r) = true) ∧
    (∀ t r, storable config key r = true → (now < t + TTL config)%Z →
       ∃ s', put t key r s = Some s' ∧ (get now key s').1 = Some r).
Proof.
  intros Hok. destruct (cache_run_refines config ops _ Hok (NewService_inv config timeout Hok))
    as (rs & s & Hrun & [Hw Hc _] & Heq). exists rs, s. split; [done|]. split.
  - intros r Hget. pose proof (get_refines now key s Hw) as Hg.
    destruct (get now key s) as [r' s']. destruct Hg as (_ & _ & Hspec). simpl in Hget. subst r'.
    unfold spec_get in Hspec. destruct (find_key key (abs s)) as [e|] eqn:Hf; [|done].
    destruct (now <? en_expires e)%Z eqn:Hlt; [|done]. bool_to_prop.
    apply find_key_elem in Hf as [He Hk].
    assert (tracks config key (last_put config key ops None) (abs s)) as Ht.
    { apply (f_equal snd) in Heq. simpl in Heq. rewrite Heq. apply tracks_run. intros x Hx.
      by apply elem_of_nil in Hx. }
    destruct (Ht e He Hk) as (t & r' & Hlast & Hresp & Hexp & Hs).
    assert (r' = r) as -> by congruence. exists t. split; [done|]. rewrite <- Hexp.
    unfold storable in Hs. bool_to_prop. done.
  - intros t r Hs Hlt. rewrite <- Hc in Hok, Hs, Hlt.
    destruct (put_refines t key r s Hok Hw) as (s' & Hput & Hw' & Hc' & Habs).
    exists s'. split; [done|]. pose proof (get_refines now key s' Hw') as Hg.
    destruct (get now key s') as [r' s'']. destruct Hg as (_ & _ & Hspec).
    unfold spec_get in Hspec. rewrite Habs, spec_put_get in Hspec by done. simpl in Hspec.
    destruct (Z.ltb_spec now (t + TTL (sv_config s))); [|lia]. simpl. congruence.
Qed.

Lemma cache_serves_latest_put_witness :
  config_ok demo_config ∧
  ∃ rs s, run demo_ops (NewService demo_config 10) = Some (rs, s) ∧
    (∀ r, (get 8 "a" s).1 = Some r →
       ∃ t, last_put demo_config "a" demo_ops None = Some (t, r) ∧ (8 < t + TTL demo_config)%Z ∧
            SkipCache r = false ∧ is_null_text (Payload r) = false ∧ Valid (Payload r) = true) ∧
    (∀ t r, storable demo_config "a" r = true → (8 < t + TTL demo_config)%Z →
       ∃ s', put t "a" r s = Some s' ∧ (get 8 "a" s').1 = Some r).
Proof.
  assert (config_ok demo_config) as H by (unfold config_ok; simpl; lia).
  split; [exact H|exact (cache_serves_latest_put demo_config 10 demo_ops "a" 8 H)].
Defined.

(** A response [GetOrLoad] returns without error was found unexpired in the
    cache under the request's key, or was loaded without error by the request's
    own function, or comes from another caller's flight under the same flight key
    and is then marked shared; a caller whose context has ended gets an error and
    the cache is not touched; without caching every call loads. *)
Lemma get_or_load_sources `{World W, SingleFlightLaws W, Caches W}
    ctx (request : LoadRequest W) w lookup w' :
  (∀ e, ctx_Err ctx w = Some e → ∃ l e', GetOrLoad ctx request w = ((l, Some e'), w)) ∧
  (GetOrLoad ctx request w = ((lookup, None), w') →
   (∃ w1, (get (now w1) (ld_Key request) (cache_service w1)).1 = Some (lk_Response lookup)) ∨
   (∃ ctx' w1 w2, ld_Load request ctx' w1 = (lk_Response lookup, None, w2)) ∨
   (lk_Status lookup = "shared" ∧ ∃ status,
      flight_others (Lookup * option goerror) "loads"
        (if String.eqb (ld_FlightKey request) "" then ld_Key request else ld_FlightKey request)
        (mkLookup (lk_Response lookup) status, None))).
Proof.
  unfold GetOrLoad. split; [intros e ->; eauto|].
  destruct (ctx_Err ctx w); [done|]. destruct (Enabled (cache_service w)); simpl.
  2: { destruct (ld_Load request ctx w) as [[r err] w1] eqn:Hl. intros [= <- -> <-].
       right; left. eauto. }
  unfold cache_get at 1. destruct (get _ _ (cache_service w)) as [[c|] s] eqn:Hget.
  { intros [= <- <-]. left. exists w. by rewrite Hget. }
  set (key := if String.eqb _ _ then _ else _).
  destruct (flight _ _ _ _ _) as [[[l err] shared] w1] eqn:Hf.
  destruct (select_done ctx w1); [done|]. intros [= <- -> <-]. simpl.
  apply flight_spec in Hf as [(w2 & w3 & Hf)|[-> Ho]].
  - unfold load_once, cache_get in Hf.
    destruct (get _ _ (cache_service w2)) as [[c|] s2] eqn:Hget2.
    + simplify_eq. left. exists w2. by rewrite Hget2.
    + destruct (ld_Load request _ _) as [[r err] w4] eqn:Hl.
      destruct err; [done|]. destruct (ctx_Err _ w4); [done|]. simplify_eq/=. right; left. eauto.
  - right; right. split; [done|]. exists (lk_Status l). by destruct l.
Qed.

#[export] Instance sim_cache : Caches (Sim Service) := {
  cache_service w := sim_state w;
  set_cache_service s w := with_sim_state s w
}.

Definition demo_load : LoadRequest (Sim Service) :=
  mkLoad "k" "" (λ _ w, (mkCached "7" "up" false, None, w)).

Definition demo_cache_world : Sim Service :=
  mkSim 10 (λ _, Err ErrCanceled) (NewService demo_config 5).

Example get_or_load_sources_witness :
  ∃ lookup w', GetOrLoad Background demo_load demo_cache_world = ((lookup, None), w') ∧
    ((∃ w1 : Sim Service, (get (now w1) "k" (cache_service w1)).1 = Some (lk_Response lookup)) ∨
     (∃ ctx' w1 w2, ld_Load demo_load ctx' w1 = (lk_Response lookup, None, w2)) ∨
     lk_Status lookup = "shared").
Proof.
  eexists (mkLookup (mkCached "7" "up" false) "miss"), _. split.
  - apply pair_fst. vm_compute. reflexivity.
  - destruct (proj2 (get_or_load_sources Background demo_load demo_cache_world
                       (mkLookup (mkCached "7" "up" false) "miss")
                       (GetOrLoad Background demo_load demo_cache_world).2)) as [Hc|[Hl|[Hs _]]].
    + apply pair_fst. vm_compute. reflexivity.
    + left. exact Hc.
    + right. left. exact Hl.
    + right. right. exact Hs.
Defined.
