(* ===== verification/Receipts.v ===== *)
(** * Receipt inclusion — internal/services/receipts/receipts.go

    Before a receipt may stay cached across head advancement its block must lie
    on the parent chain of the accepted head.  The verifier only knows a block
    reader, the interface of [Chain.v], and shares fetched headers through the
    response cache. *)

From S2P Require Import Prelude GoStrings GoJson Evm JsonRpc Head World Upstream Chain RequestCache.

(** ** Definitions *)

(* go: services/receipts/receipts.go:29-34 Service *)
Record ReceiptService := mkReceipts { rs_cache : bool; rs_maxDepth : Z }.

(* go: services/receipts/receipts.go:42-44 NewService *)
Definition NewReceiptService (cache : bool) (maxDepth : Z) : ReceiptService := mkReceipts cache maxDepth.

(* go: services/receipts/receipts.go:36-40 BlockRequest *)
Record BlockRequest := mkBlockRequest { br_Block : Head; br_Accepted : Head }.

Section receipts.
  Context {W : Type} `{World W, SingleFlight W, Caches W, BlockReader W}.

  (** The key prints the chain with %q; configured chain names need no escape. *)
Definition header_key (child : Head) : string :=
    "receipt-header:" +:+ String dquote (Chain child +:+ String dquote (":" +:+ ParentHash child)).

  (** The load of one header through the cache. *)
Definition load_header (blockRequest : EVMBlockByHashRequest) (loadCtx : Context) (w : W)
      : CachedResponse * option goerror * W :=
    let* (parent, w) := read_block loadCtx blockRequest w in
    match parent with
    | Err e => (zero_Cached, Some (Errorf "fetch receipt ancestor: " e ""), w)
    | Ok parent =>
        match Marshal_Head parent with
        | None => (zero_Cached, Some (Errorf "encode receipt ancestor: " (ErrNew "json") ""), w)
        | Some encodedParent => (mkCached encodedParent (Origin parent) false, None, w)
        end
    end.

  (* go: services/receipts/receipts.go:79-108 Service.getParent *)
Definition getParent (s : ReceiptService) (ctx : Context) (child : Head) (w : W)
      : result goerror Head * W :=
    let blockRequest := mkByHash (ParentHash child) "explicit" (Origin child) in
    if negb (rs_cache s) then read_block ctx blockRequest w
    else
      let* (lookup, err, w) :=
        GetOrLoad ctx (mkLoad (header_key child) "" (load_header blockRequest)) w in
      match err with
      | Some e => (Err (Errorf "load receipt ancestor: " e ""), w)
      | None =>
          match Unmarshal_Head (Payload (lk_Response lookup)) with
          | None => (Err (Errorf "decode receipt ancestor: " (ErrNew "json") ""), w)
          | Some parent => (Ok parent, w)
          end
      end.

  (** The descent, with the number of iterations left: the height difference. *)
Fixpoint follow_parents (s : ReceiptService) (ctx : Context) (block : Head) (steps : nat)
      (cursor : Head) (w : W) : result goerror bool * W :=
    match steps with
    | O => (Ok (EqualFold (Hash cursor) (Hash block)), w)
    | S steps =>
        if (Number block <? Number cursor)%Z then
          match ctx_Err ctx w with
          | Some e => (Err (Errorf "verify receipt ancestry: " e ""), w)
          | None =>
              if (u64_sub (Number cursor) 1 =? Number block)%Z
              then (Ok (EqualFold (ParentHash cursor) (Hash block)), w)
              else
                let* (parent, w) := getParent s ctx cursor w in
                match parent with
                | Err e => (Err (Errorf "get receipt ancestor: " e ""), w)
                | Ok parent =>
                    if negb (Number parent =? u64_sub (Number cursor) 1)%Z
                       || negb (EqualFold (Hash parent) (ParentHash cursor))
                    then (Err (ErrNew "receipt ancestry contains a discontinuous parent"), w)
                    else follow_parents s ctx block steps parent w
                end
          end
        else (Ok (EqualFold (Hash cursor) (Hash block)), w)
    end.

  (** [uint64(s.maxDepth)] of a negative depth wraps, as in the source. *)
  (* go: services/receipts/receipts.go:47-77 Service.ContainsBlock *)
Definition ContainsBlock (s : ReceiptService) (ctx : Context) (request : BlockRequest) (w : W)
      : result goerror bool * W :=
    let block := br_Block request in
    let accepted := br_Accepted request in
    match ctx_Err ctx w with
    | Some e => (Err (Errorf "verify receipt inclusion: " e ""), w)
    | None =>
        if negb (IsEVMHash (Hash block)) || negb (IsEVMHash (Hash accepted))
        then (Err (ErrNew "receipt inclusion requires valid block and accepted head hashes"), w)
        else if ReorgPending accepted || (Number accepted <? Number block)%Z
                || (rs_maxDepth s mod two64 <? u64_sub (Number accepted) (Number block))%Z
        then (Ok false, w)
        else follow_parents s ctx block (Z.to_nat (u64_sub (Number accepted) (Number block))) accepted w
    end.

  (** ** Soundness *)

Lemma follow_parents_sound s ctx block steps cursor w w' :
    u64_wf (Number cursor) → Number cursor = (Number block + Z.of_nat steps)%Z →
    (0 ≤ Number block)%Z →
    follow_parents s ctx block steps cursor w = (Ok true, w') →
    (steps = 0%nat ∧ EqualFold (Hash cursor) (Hash block) = true) ∨
    (0 < steps)%nat ∧ descends cursor steps block.
  Proof using Type.
    revert cursor w. induction steps as [|steps IH]; intros cursor w Hwf Hn Hpos; simpl.
    { intros [= Hf _]. by left. }
    destruct (Z.ltb_spec (Number block) (Number cursor)); [|lia].
    destruct (ctx_Err ctx w); [done|]. rewrite u64_sub_small by (done || lia).
    destruct (Z.eqb_spec (Number cursor - 1) (Number block)) as [Heq|Hne].
    { intros [= Hf _]. right. split; [lia|]. assert (steps = 0%nat) as -> by lia.
      econstructor; [by rewrite EqualFold_sym|lia|constructor]. }
    destruct (getParent s ctx cursor w) as [[e|p] w1]; [done|].
    destruct (_ || _) eqn:Hc; [done|]. bool_to_prop. intros Hf.
    apply IH in Hf as [[-> _]|[_ Hd]]; [lia| |u64_lia|lia|done].
    right. split; [lia|]. econstructor; [done|lia|done].
  Qed.
End receipts.

(** * Properties *)

(** C27: a receipt's block is reported as included only outside a reorg, at most
    [maxDepth] below the accepted head, and when the block is the accepted head
    or is reached from it through parent links, each header having the hash its
    child names and the height below it: no header served by a provider or kept in
    the cache can make an unrelated block pass. *)
Theorem contains_block_sound `{World W, SingleFlight W, Caches W, BlockReader W}
    s ctx block accepted w w' :
  u64_wf (Number accepted) → (0 ≤ Number block)%Z →
  ContainsBlock s ctx (mkBlockRequest block accepted) w = (Ok true, w') →
  ReorgPending accepted = false ∧
  ∃ n, Number accepted = (Number block + Z.of_nat n)%Z ∧ (Z.of_nat n ≤ rs_maxDepth s mod two64)%Z ∧
    ((n = 0%nat ∧ EqualFold (Hash accepted) (Hash block) = true) ∨
     (0 < n)%nat ∧ descends accepted n block).
Proof.
  intros Hwf Hpos. unfold ContainsBlock. simpl.
  destruct (ctx_Err ctx w); [done|]. destruct (_ || _); [done|].
  destruct (_ || _ || _) eqn:Hc; [done|]. bool_to_prop.
  match goal with H : _ |- _ => rewrite u64_sub_small in H by (done || lia) end.
  rewrite u64_sub_small by (done || lia). intros Hf. split; [done|].
  exists (Z.to_nat (Number accepted - Number block)). split; [lia|]. split; [lia|].
  eapply follow_parents_sound; [done| |done|done]. lia.
Qed.

#[export] Instance sim_chain_cache (X : Type) : Caches (Sim (ChainWorld (Service * X))) := {
  cache_service w := (cw_rest (sim_state w)).1;
  set_cache_service c w :=
    with_sim_state (mkChainWorld (cw_clients (sim_state w)) (cw_runtimes (sim_state w))
                      (c, (cw_rest (sim_state w)).2)) w
}.

Definition demo_receipt_world : Sim (ChainWorld (Service * unit)) :=
  mkSim 1000 (sim_rpc demo_answer)
    (demo_chain_state (NewService (mkCacheConfig false 10 100000 10000 1000000) 5000, tt)).

Definition demo_receipt_block : Head :=
  mkHead "" "evm" "" 3 (sim_hash "cc") "" 0 0 false 0 0 "" "".

Lemma contains_block_sound_witness :
  ReorgPending demo_accepted = false ∧
  ∃ n, Number demo_accepted = (Number demo_receipt_block + Z.of_nat n)%Z ∧
    (Z.of_nat n ≤ 8 mod two64)%Z ∧
    ((n = 0%nat ∧ EqualFold (Hash demo_accepted) (Hash demo_receipt_block) = true) ∨
     (0 < n)%nat ∧ descends demo_accepted n demo_receipt_block).
Proof.
  apply (contains_block_sound (H2 := runtime_reader demo_runtime) (mkReceipts true 8) Background
           demo_receipt_block demo_accepted demo_receipt_world
           (ContainsBlock (H2 := runtime_reader demo_runtime) (mkReceipts true 8) Background
              (mkBlockRequest demo_receipt_block demo_accepted) demo_receipt_world).2).
  - vm_compute. split; [discriminate|reflexivity].
  - vm_compute. discriminate.
  - apply pair_fst. vm_compute. reflexivity.
Defined.
