(* ===== verification/Coordinator.v ===== *)
(** * The head coordinator — internal/coordinator

    The leader of a chain observes heads at the providers and decides which one
    the store accepts next.  This file models the observation of one provider,
    the choice among observations, the verification of a transition between EVM
    heads and the handling of one observation up to the publication. *)

From S2P Require Import Prelude GoStrings GoJson Evm JsonRpc Head MemoryStore World Upstream Chain.

(** ** Observing heads *)

(* go: coordinator/coordinator.go:303-325 Coordinator.selectFreshest *)
Definition selectFreshest (current : Head) (candidates : list Head) : option Head :=
  match candidates with
  | [] => None
  | first :: rest =>
      let selected := fold_left (λ selected c, if (Number selected <? Number c)%Z then c else selected)
                        rest first in
      if negb (IsZero current) then
        match list_find (λ c, String.eqb (Identity c) (Identity current)
                              && (Number c =? Number selected)%Z = true) candidates with
        | Some (_, c) => Some c
        | None =>
            if (Number selected <? Number current)%Z then
              match list_find (λ c, Identity c = Identity current) candidates with
              | Some (_, c) => Some c
              | None => Some selected
              end
            else Some selected
        end
      else Some selected
  end.

Section observe.
  Context {W : Type} `{World W, Clients W, Runtimes W}.
  Variable r : Runtime.

  (* go: coordinator/coordinator.go:631-637 Coordinator.call *)
Definition coordinator_call (ctx : Context) (candidate : Client) (method : string)
      (arguments : list RawMessage) (w : W) : result goerror RPCResponse * W :=
    match MarshalCallParams arguments with
    | None => (Err (Errorf ("prepare " +:+ method +:+ " coordinator call: ") (ErrNew "json") ""), w)
    | Some encodedParameters => Call candidate ctx method encodedParameters w
    end.

  (** The two branches of [pollOne] by family. *)
Definition poll_evm (ctx : Context) (candidate : Client) (commitment : string) (w : W)
      : result goerror Head * W :=
    let* (headCall, w) :=
      coordinator_call ctx candidate "eth_getBlockByNumber"
        [Marshal_string commitment; Marshal_bool false] w in
    match headCall with
    | Err e => (Err e, w)
    | Ok resp =>
    match rpc_Error resp with
    | Some e => (Err (ErrRPC e), w)
    | None =>
    match ParseEVMHead r (now w) (mkParseRequest commitment (cl_ID candidate) (rpc_Result resp)) with
    | Err e => (Err e, w)
    | Ok observedHead =>
        let* (confirmedCall, w) :=
          coordinator_call ctx candidate "eth_getBlockByHash"
            [Marshal_string (Hash observedHead); Marshal_bool false] w in
        match confirmedCall with
        | Err e => (Err e, w)
        | Ok resp =>
        match rpc_Error resp with
        | Some e => (Err (ErrRPC e), w)
        | None =>
            let mismatch := ErrNew "block hash lookup did not match head" in
            match ParseEVMHead r (now w)
                    (mkParseRequest commitment (cl_ID candidate) (rpc_Result resp)) with
            | Err _ => (Err mismatch, w)
            | Ok confirmedHead =>
                if negb (EqualFold (Hash confirmedHead) (Hash observedHead))
                   || negb (Number confirmedHead =? Number observedHead)%Z
                   || negb (EqualFold (ParentHash confirmedHead) (ParentHash observedHead))
                then (Err mismatch, w)
                else (Ok observedHead, w)
            end
        end end
    end end end.

Definition poll_solana (ctx : Context) (candidate : Client) (commitment : string) (w : W)
      : result goerror Head * W :=
    let* (slotCall, w) :=
      coordinator_call ctx candidate "getSlot"
        [js "{'commitment':" +:+ Marshal_string commitment +:+ "}"] w in
    match slotCall with
    | Err e => (Err e, w)
    | Ok resp =>
        match rpc_Error resp with
        | Some e => (Err (ErrRPC e), w)
        | None =>
            match Unmarshal_uint64 0 (rpc_Result resp) with
            | None =>
                (Err (Errorf ("decode " +:+ commitment +:+ " slot from upstream " +:+ cl_ID candidate
                              +:+ ": ") (ErrNew "json") ""), w)
            | Some slot =>
                (Ok (mkHead (cfg_Name (rt_Config r)) "solana" commitment slot "" "" 0 0 false (now w)
                       0 (cl_ID candidate) ""), w)
            end
        end
    end.

  (* go: coordinator/coordinator.go:263-301 Coordinator.pollOne *)
Definition pollOne (ctx : Context) (candidate : Client) (commitment : string) (w : W)
      : result goerror Head * W :=
    if String.eqb (cfg_Family (rt_Config r)) "evm" then poll_evm ctx candidate commitment w
    else poll_solana ctx candidate commitment w.

  (** ** Evidence that the accepted head is still canonical *)

  (* go: coordinator/coordinator.go:61-64 canonicalEvidence *)
Record canonicalEvidence := mkEvidence { observed : bool; allCurrent : bool }.

  (** What one provider says about the block at the accepted height: [None] is
      uncertain, [Some b] a block of that height that is the current one or not. *)
Definition check_canonical (ctx : Context) (current : Head) (candidate : Client) (w : W)
      : option bool * W :=
    let queryCtx := WithTimeout ctx second w in
    let* (blockCall, w) :=
      coordinator_call queryCtx candidate "eth_getBlockByNumber"
        [Marshal_string (FormatEVMQuantity (Number current)); Marshal_bool false] w in
    match blockCall with
    | Err _ => (None, w)
    | Ok resp =>
        match rpc_Error resp with
        | Some _ => (None, w)
        | None =>
            match ParseEVMHead r (now w)
                    (mkParseRequest (Commitment current) (cl_ID candidate) (rpc_Result resp)) with
            | Err _ => (None, w)
            | Ok observedHead =>
                if negb (Number observedHead =? Number current)%Z then (None, w)
                else (Some (EqualFold (Hash observedHead) (Hash current)), w)
            end
        end
    end.

Fixpoint check_all (ctx : Context) (current : Head) (candidates : list Client) (w : W)
      : list (option bool) * W :=
    match candidates with
    | [] => ([], w)
    | candidate :: rest =>
        let* (answer, w) := check_canonical ctx current candidate w in
        let* (answers, w) := check_all ctx current rest w in
        (answer :: answers, w)
    end.

  (* go: coordinator/coordinator.go:576-605 Coordinator.getCanonicalEvidence *)
Definition getCanonicalEvidence (ctx : Context) (current : Head) (w : W)
      : result goerror canonicalEvidence * W :=
    let* (answers, w) := check_all ctx current (Candidates r false w) w in
    let uncertain := bool_decide (None ∈ answers) in
    let checked := length (filter (λ a, a ≠ None) answers) in
    let matching := length (filter (λ a, a = Some true) answers) in
    if (0 <? Z.of_nat matching)%Z
    then (Ok (mkEvidence true (negb uncertain && bool_decide (matching = checked))), w)
    else if uncertain || bool_decide (checked = 0%nat)
    then (Err (ErrNew "cannot prove accepted head was displaced"), w)
    else (Ok (mkEvidence false false), w).
End observe.

(** ** Verifying a transition between EVM heads

    Blocks are read through the reader interface of [Chain.v].  [X] is the state
    of the caller's variables that the divergence callback captures. *)

Section transition.
  Context {W : Type} `{BlockReader W}.
  Context {X : Type}.

  (** The order in which ranging over the ancestor map visits its entries. *)
  Variable range_order : gmap string Z → list (string * Z).

  (* go: coordinator/coordinator.go:639-646 Coordinator.getAncestorNumber *)
Definition getAncestorNumber (ancestors : gmap string Z) (hashValue : string) : option Z :=
    (λ '(_, (_, number)), number) <$>
      list_find (λ '(ancestorHash, _), EqualFold ancestorHash hashValue = true)
        (range_order ancestors).

  (* go: coordinator/coordinator.go:55-59 evmTransitionRequest *)
Record evmTransitionRequest := mkTransition {
    tr_current : Head;
    tr_candidate : Head;
    tr_onDivergence : option (X → W → option goerror * X * W)
  }.

  (** [reportDivergence]: the callback runs at most once. *)
Definition report (request : evmTransitionRequest) (reported : bool) (x : X) (w : W)
      : option goerror * bool * X * W :=
    match tr_onDivergence request with
    | Some callback =>
        if reported then (None, reported, x, w)
        else let* (e, x, w) := callback x w in (e, true, x, w)
    | None => (None, reported, x, w)
    end.

Definition read_parent (ctx : Context) (commitment origin : string) (child : Head) (w : W)
      : result goerror Head * W :=
    read_block ctx (mkByHash (ParentHash child) commitment origin) w.

  (** A parent answers [child] when it is one lower and has the hash named. *)
Definition proper_parent (parent child : Head) : bool :=
    (u64_add (Number parent) 1 =? Number child)%Z && EqualFold (Hash parent) (ParentHash child).

  (** From a higher candidate down to the current height; [budget] steps left. *)
Fixpoint close_gap (ctx : Context) (current candidate : Head) (budget : nat) (cursor : Head)
      (w : W) : result goerror Head * W :=
    if (Number current <? Number cursor)%Z then
      match budget with
      | O => (Err (ErrNew "candidate gap exceeds continuity window"), w)
      | S budget =>
          let* (parent, w) := read_parent ctx (Commitment candidate) (Origin candidate) cursor w in
          match parent with
          | Err e => (Err (Errorf "verify candidate continuity: " e ""), w)
          | Ok parent =>
              if (Number cursor <=? Number parent)%Z
                 || negb (u64_add (Number parent) 1 =? Number cursor)%Z
              then (Err (ErrNew "candidate chain has invalid parent linkage"), w)
              else close_gap ctx current candidate budget parent w
          end
      end
    else (Ok cursor, w).

Inductive collected :=
  | Lagging                              (* the candidate is an ancestor *)
  | Invalid (e : goerror)
  | Ancestors (m : gmap string Z).

Fixpoint collect_ancestors (ctx : Context) (current candidate : Head) (budget : nat)
      (cursor : Head) (m : gmap string Z) (w : W) : collected * W :=
    match budget with
    | O => (Ancestors m, w)
    | S budget =>
        if negb (0 <? Number cursor)%Z || String.eqb (ParentHash cursor) "" then (Ancestors m, w)
        else
          let* (parent, w) := read_parent ctx (Commitment current) (Origin current) cursor w in
          match parent with
          | Err _ => (Ancestors m, w)
          | Ok parent =>
              if negb (proper_parent parent cursor)
              then (Invalid (ErrNew "current chain has invalid parent linkage"), w)
              else
                let m := <[Hash parent := Number parent]> m in
                if (Number parent =? Number candidate)%Z && EqualFold (Hash parent) (Hash candidate)
                then (Lagging, w)
                else collect_ancestors ctx current candidate budget parent m w
          end
    end.

Fixpoint find_common (no_common : goerror) (ctx : Context) (candidate : Head) (m : gmap string Z)
      (budget : nat) (cursor : Head) (w : W) : result goerror unit * W :=
    if match getAncestorNumber m (Hash cursor) with
       | Some number => (number =? Number cursor)%Z
       | None => false
       end
    then (Ok tt, w)
    else match budget with
    | O => (Err no_common, w)
    | S budget =>
        if (Number cursor =? 0)%Z || String.eqb (ParentHash cursor) ""
        then (Err no_common, w)
        else
          let* (parent, w) := read_parent ctx (Commitment candidate) (Origin candidate) cursor w in
          match parent with
          | Err e => (Err (Errorf "verify candidate ancestry: " e ""), w)
          | Ok parent =>
              if negb (proper_parent parent cursor)
              then (Err (ErrNew "candidate chain has invalid parent linkage"), w)
              else find_common no_common ctx candidate m budget parent w
          end
    end.

  (** The candidate's own parent, checked before any walk. *)
Definition check_parent (ctx : Context) (candidate : Head) (w : W) : option goerror * W :=
    if (0 <? Number candidate)%Z then
      let* (parent, w) := read_parent ctx (Commitment candidate) (Origin candidate) candidate w in
      match parent with
      | Err e => (Some (Errorf "verify candidate parent: " e ""), w)
      | Ok parent =>
          if negb (proper_parent parent candidate)
          then (Some (ErrNew "candidate head has invalid parent linkage"), w)
          else (None, w)
      end
    else (None, w).

Definition one_above (a b : Z) : bool := (b <? a)%Z && (u64_sub a b =? 1)%Z.

  (** From the second divergence report on, with the cursor at [current]'s height
      or below. *)
Definition compare_branches (depth : Z) (ctx : Context) (request : evmTransitionRequest)
      (candidateCursor : Head) (reported : bool) (x : X) (w : W)
      : result goerror bool * X * W :=
    let current := tr_current request in
    let candidate := tr_candidate request in
    let* (e, reported, x, w) :=
      if (Number candidateCursor =? Number current)%Z then report request reported x w
      else (None, reported, x, w) in
    match e with
    | Some e => (Err e, x, w)
    | None =>
        let* (ancestors, w) :=
          collect_ancestors ctx current candidate (Z.to_nat depth) current
            {[Hash current := Number current]} w in
        match ancestors with
        | Lagging => (Ok false, x, w)
        | Invalid e => (Err e, x, w)
        | Ancestors m =>
            let* (e, reported, x, w) := report request reported x w in
            match e with
            | Some e => (Err e, x, w)
            | None =>
                let no_common := ErrNew ("candidate has no common ancestor within reorg depth "
                                         +:+ pretty depth) in
                let* (common, w) :=
                  find_common no_common ctx candidate m (Z.to_nat depth) candidateCursor w in
                match common with
                | Err e => (Err e, x, w)
                | Ok _ => (Ok true, x, w)
                end
            end
        end
    end.

  (* go: coordinator/coordinator.go:425-527 Coordinator.validateEVMTransition *)
Definition validateEVMTransition (depth : Z) (ctx : Context) (request : evmTransitionRequest)
      (x : X) (w : W) : result goerror bool * X * W :=
    let current := tr_current request in
    let candidate := tr_candidate request in
    if one_above (Number candidate) (Number current) && EqualFold (ParentHash candidate) (Hash current)
    then (Ok false, x, w)
    else if one_above (Number current) (Number candidate)
            && EqualFold (ParentHash current) (Hash candidate)
    then (Ok false, x, w)
    else
      let* (e, reported, x, w) :=
        if ((Number candidate =? Number current)%Z || one_above (Number candidate) (Number current))
           && negb (EqualFold (Hash candidate) (Hash current))
        then report request false x w else (None, false, x, w) in
      match e with
      | Some e => (Err e, x, w)
      | None =>
          if (depth <? 1)%Z then (Err (ErrNew "reorg depth must be positive"), x, w)
          else
            let* (e, w) := check_parent ctx candidate w in
            match e with
            | Some e => (Err e, x, w)
            | None =>
                let* (cursor, w) := close_gap ctx current candidate (Z.to_nat depth) candidate w in
                match cursor with
                | Err e => (Err e, x, w)
                | Ok candidateCursor =>
                    if (Number candidateCursor =? Number current)%Z
                       && EqualFold (Hash candidateCursor) (Hash current)
                    then (Ok false, x, w)
                    else compare_branches depth ctx request candidateCursor reported x w
                end
            end
      end.
End transition.

Arguments evmTransitionRequest W X : clear implicits.
Arguments mkTransition {W X} _ _ _.

(** ** Handling one observation *)

(** What [consider] does after the checks: keep the accepted head, publish a
    head (with the value of [current] it was decided against), or fail. *)
Inductive decision :=
| Keep
| PublishHead (h current : Head)
| Reject (e : goerror).

Section consider.
  Context {W : Type} `{World W, Clients W, Runtimes W, HeadStore W, BlockReader W}.
  Variable range_order : gmap string Z → list (string * Z).
  Variable r : Runtime.

  (** The divergence callback: fence pinned reads, unless they already are. *)
Definition begin_reorg (chain token : string) (current : Head) (w : W)
      : option goerror * Head * W :=
    if ReorgPending current then (None, current, w)
    else
      let* (guarded, w) := store_BeginReorg (now w) chain token w in
      match guarded with
      | Err e => (Some (ErrStore e), current, w)
      | Ok guarded => (None, guarded, w)
      end.

  (** The barrier is acknowledged under the epoch the decision was made in. *)
Definition acknowledge (candidate current : Head) : decision :=
    PublishHead (with_Reorg (ReorgEpoch current) false candidate) current.

  (** The same block again: it ends a reorg only when every provider agrees. *)
Definition reobserve (ctx : Context) (candidate current : Head) (w : W) : decision * W :=
    if ReorgPending current then
      let* (evidence, w) := getCanonicalEvidence r ctx current w in
      match evidence with
      | Err e => (Reject e, w)
      | Ok evidence => if negb (allCurrent evidence) then (Keep, w) else (acknowledge candidate current, w)
      end
    else (acknowledge candidate current, w).

  (** Another block than the accepted one. *)
Definition transition (ctx : Context) (token : string) (candidate current : Head) (w : W)
      : decision * W :=
    let request :=
      mkTransition current candidate
        (Some (λ x w, begin_reorg (Chain candidate) token x w)) in
    let* (reorg, current, w) :=
      validateEVMTransition range_order (cfg_ReorgDepth (rt_Config r)) ctx request current w in
    match reorg with
    | Err e => (Reject e, w)
    | Ok reorg =>
        if (Number candidate <=? Number current)%Z then
          if negb reorg then (Keep, w)
          else
            let* (evidence, w) := getCanonicalEvidence r ctx current w in
            match evidence with
            | Err e => (Reject e, w)
            | Ok evidence =>
                if observed evidence then
                  if negb (allCurrent evidence) then (Keep, w)
                  else (acknowledge (with_ObservedAt (now w) current) current, w)
                else (acknowledge candidate current, w)
            end
        else (acknowledge candidate current, w)
    end.

  (** The first EVM head of a chain must name a real parent. *)
Definition initial_parent (ctx : Context) (candidate : Head) (w : W) : option goerror * W :=
    let* (parent, w) :=
      read_block ctx (mkByHash (ParentHash candidate) (Commitment candidate) (Origin candidate)) w in
    match parent with
    | Err e => (Some (Errorf "verify initial head parent: " e ""), w)
    | Ok parent =>
        if (Number candidate <=? Number parent)%Z
           || negb (u64_sub (Number candidate) (Number parent) =? 1)%Z
        then (Some (ErrNew "initial head has invalid parent linkage"), w)
        else (None, w)
    end.

Definition decide_head (ctx : Context) (token : string) (candidate : Head) (w : W) : decision * W :=
    let* (snapshot, w) := store_Snapshot (Chain candidate) w in
    match snapshot with
    | Err e => (Reject (ErrStore e), w)
    | Ok snapshot =>
        let* (current, exists_) := Get snapshot (Commitment candidate) in
        let evm := String.eqb (Family candidate) "evm" in
        let* (e, w) :=
          if evm && negb exists_ && (0 <? Number candidate)%Z
          then initial_parent ctx candidate w else (None, w) in
        match e with
        | Some e => (Reject e, w)
        | None =>
            if String.eqb (Family candidate) "solana" && exists_
               && (Number candidate <? Number current)%Z
            then (Keep, w)
            else if evm && exists_ then
              if EqualFold (Hash candidate) (Hash current)
              then reobserve ctx candidate current w
              else transition ctx token candidate current w
            else (PublishHead candidate current, w)
        end
    end.

  (* go: coordinator/coordinator.go:327-423 Coordinator.consider *)
Definition consider (ctx : Context) (token : string) (candidate : Head) (w : W)
      : option goerror * W :=
    let* (d, w) := decide_head ctx token candidate w in
    match d with
    | Reject e => (Some e, w)
    | Keep => (None, w)
    | PublishHead h _ =>
        let* (published, w) := store_Publish (now w) token h w in
        match published with
        | Err e => (Some (ErrStore e), w)
        | Ok _ => (None, w)
        end
    end.
End consider.

(** ** What the verification of a transition proves *)

(** [a] has [b] among its ancestors, at most [n] links down. *)
Definition linked (a b : Head) : Prop :=
  ∃ n c, descends a n c ∧ Number c = Number b ∧ EqualFold (Hash c) (Hash b) = true.

(** The branches of [a] and [b] meet in a block at most [depth] below [b]. *)
Definition common_ancestor (depth : Z) (a b : Head) : Prop :=
  ∃ n c m d, descends a n c ∧ descends b m d ∧ (Z.of_nat m ≤ depth)%Z ∧
    Number c = Number d ∧ EqualFold (Hash d) (Hash c) = true.

Lemma descends_trans a n b m c : descends a n b → descends b m c → descends a (n + m) c.
Proof. induction 1; simpl; [done|]. econstructor; eauto. Qed.

Lemma descends_snoc a n b p :
  descends a n b → EqualFold (Hash p) (ParentHash b) = true → Number p = (Number b - 1)%Z →
  descends a (S n) p.
Proof.
  intros Hd Hh Hn. replace (S n) with (n + 1)%nat by lia. eapply descends_trans; [done|].
  econstructor; [done|done|constructor].
Qed.

Lemma u64_succ_lower p c :
  u64_wf p → u64_wf c → (0 < c)%Z → u64_add p 1 = c → p = (c - 1)%Z.
Proof. intros Hp Hc Hpos Hs. destruct (u64_succ_eq _ _ Hp Hc Hs) as [?|[? ?]]; u64_lia. Qed.

Lemma one_above_spec a b : u64_wf a → u64_wf b → one_above a b = true → a = (b + 1)%Z.
Proof.
  unfold one_above. intros Ha Hb Ho. bool_to_prop. rewrite u64_sub_small in * by (done || u64_lia).
  lia.
Qed.

Section transition_proofs.
  Context {W : Type} `{BlockReaderLaws W}.
  Context {X : Type}.
  Variable range_order : gmap string Z → list (string * Z).
  Hypothesis range_perm : ∀ m, range_order m ≡ₚ map_to_list m.

Lemma read_parent_Ok ctx commitment origin child w p w' :
    read_parent ctx commitment origin child w = (Ok p, w') →
    u64_wf (Number p) ∧ EqualFold (Hash p) (ParentHash child) = true.
  Proof using Type*.
    unfold read_parent. intros Hr. split; [by apply read_block_wf in Hr as (? & _)|].
    by apply read_block_hash in Hr.
  Qed.

Lemma proper_parent_spec p c :
    u64_wf (Number p) → u64_wf (Number c) → (0 < Number c)%Z → proper_parent p c = true →
    Number p = (Number c - 1)%Z ∧ EqualFold (Hash p) (ParentHash c) = true.
  Proof using Type.
    unfold proper_parent. intros Hp Hc Hpos Ht. bool_to_prop. split; [|done].
    by apply u64_succ_lower.
  Qed.

Lemma close_gap_Ok ctx current candidate budget cursor w c w' :
    u64_wf (Number cursor) → u64_wf (Number current) →
    close_gap ctx current candidate budget cursor w = (Ok c, w') →
    (∃ n, descends cursor n c) ∧ (Number c ≤ Number current)%Z ∧ u64_wf (Number c).
  Proof using Type*.
    intros Hwf Hcur. revert cursor w Hwf. induction budget as [|budget IH]; intros cursor w Hwf; simpl;
      (destruct (Z.ltb_spec (Number current) (Number cursor)) as [Hlt|Hge];
       [|intros [= <- _]; split_and!; [exists 0%nat; constructor|lia|apply Hwf..]]); [done|].
    destruct (read_parent _ _ _ _ w) as [[e|p] w1] eqn:Hr; [done|].
    apply read_parent_Ok in Hr as [Hp Hh]. destruct (_ || _) eqn:Hc; [done|]. bool_to_prop.
    intros Hg. destruct (IH p w1 Hp Hg) as ([n Hd] & Hle & Hcwf).
    split_and!; [|done|apply Hcwf..]. exists (S n).
    econstructor; [done| |done]. apply u64_succ_lower; [done|done|u64_lia|done].
  Qed.

  (** Every entry of the ancestor map is a block linked from [current]. *)
Definition ancestors_of (current : Head) (depth : nat) (m : gmap string Z) : Prop :=
    ∀ h n, m !! h = Some n →
      ∃ k x, (k ≤ depth)%nat ∧ descends current k x ∧ Hash x = h ∧ Number x = n.

Lemma collect_ancestors_spec ctx current candidate depth budget k cursor m w :
    u64_wf (Number cursor) → descends current k cursor → (k + budget = depth)%nat →
    ancestors_of current depth m →
    match (collect_ancestors ctx current candidate budget cursor m w).1 with
    | Lagging => linked current candidate
    | Invalid _ => True
    | Ancestors m' => ancestors_of current depth m'
    end.
  Proof using Type*.
    revert k cursor m w. induction budget as [|budget IH]; intros k cursor m w Hwf Hd Hk Hm; simpl; [done|].
    destruct (_ || _) eqn:Hc; [done|]. bool_to_prop.
    destruct (read_parent _ _ _ _ w) as [[e|p] w1] eqn:Hr; [done|].
    apply read_parent_Ok in Hr as [Hp Hh]. destruct (negb _) eqn:Hpp; [done|]. bool_to_prop.
    apply proper_parent_spec in Hpp as [Hn _]; [|done|done|done].
    assert (descends current (S k) p) as Hd' by by eapply descends_snoc.
    destruct (_ && _) eqn:Hl; simpl.
    - bool_to_prop. exists (S k), p. done.
    - apply (IH (S k)); [done|done|lia|]. intros h n. rewrite lookup_insert_Some.
      intros [[<- <-]|[_ Hlook]]; [|by apply Hm]. exists (S k), p. split_and!; [lia|done|done|done].
  Qed.

Lemma getAncestorNumber_Some m h n :
    getAncestorNumber range_order m h = Some n → ∃ h', m !! h' = Some n ∧ EqualFold h' h = true.
  Proof using range_perm.
    unfold getAncestorNumber. destruct (list_find _ _) as [[i [h' n']]|] eqn:Hf; [|done].
    intros [= <-]. apply list_find_Some in Hf as (Hi & Hh & _).
    apply list_elem_of_lookup_2 in Hi. rewrite range_perm in Hi.
    apply elem_of_map_to_list in Hi. eauto.
  Qed.

Lemma find_common_Ok no_common ctx candidate m budget cursor w w' :
    u64_wf (Number cursor) →
    find_common range_order no_common ctx candidate m budget cursor w = (Ok tt, w') →
    ∃ n c h, descends cursor n c ∧ m !! h = Some (Number c) ∧ EqualFold h (Hash c) = true.
  Proof using Type* range_perm.
    revert cursor w. induction budget as [|budget IH]; intros cursor w Hwf; simpl;
      (destruct (getAncestorNumber range_order m (Hash cursor)) as [n|] eqn:Hg;
       [destruct (Z.eqb_spec n (Number cursor)) as [->|Hne];
         [intros _; apply getAncestorNumber_Some in Hg as (h & ? & ?);
          exists 0%nat, cursor, h; split_and!; [constructor|done|done]|]|]); try done;
      (destruct (_ || _) eqn:Hc; [done|]; bool_to_prop;
       destruct (read_parent _ _ _ _ w) as [[e|p] w1] eqn:Hr; [done|];
       apply read_parent_Ok in Hr as [Hp Hh]; destruct (negb _) eqn:Hpp; [done|]; bool_to_prop;
       apply proper_parent_spec in Hpp as [Hn _]; [|done|done|u64_lia];
       intros Hf; destruct (IH p w1 Hp Hf) as (k & c & h & ? & ? & ?);
       exists (S k), c, h; split_and!; [by econstructor|done|done]).
  Qed.
End transition_proofs.

Section transition_sound.
  Context {W : Type} `{BlockReaderLaws W}.
  Context {X : Type}.
  Variable range_order : gmap string Z → list (string * Z).
  Hypothesis range_perm : ∀ m, range_order m ≡ₚ map_to_list m.
  Variable callback : X → W → option goerror * X * W.

  (** The callback has run, once and without error. *)
Definition ran (x x' : X) : Prop := ∃ w1 w2, callback x w1 = (None, x', w2).

Definition reported_inv (x0 : X) (reported : bool) (x : X) : Prop :=
    if reported then ran x0 x else x = x0.

Lemma report_ran current candidate x0 reported x w reported' x' w' :
    reported_inv x0 reported x →
    report (mkTransition current candidate (Some callback)) reported x w = (None, reported', x', w') →
    reported' = true ∧ ran x0 x'.
  Proof using Type.
    unfold report. simpl. destruct reported; simpl.
    - by intros Hr [= <- <- <-].
    - intros -> Hc. destruct (callback x0 w) as [[e x1] w1] eqn:Hcb. injection Hc as -> <- <- <-.
      split; [done|]. by exists w, w1.
  Qed.

Lemma compare_branches_Ok depth ctx current candidate cursor x0 reported x w reorg x' w' :
    u64_wf (Number current) → u64_wf (Number cursor) → (0 ≤ depth)%Z → reported_inv x0 reported x →
    compare_branches range_order depth ctx (mkTransition current candidate (Some callback))
      cursor reported x w = (Ok reorg, x', w') →
    (x' = x0 ∨ ran x0 x') ∧
    (reorg = false → linked current candidate) ∧
    (reorg = true → ran x0 x' ∧ common_ancestor depth cursor current).
  Proof using Type* range_perm.
    intros Hcur Hwf Hdepth Hinv. unfold compare_branches. cbn [tr_current tr_candidate].
    assert (∀ e rep x1 w1,
      (if (Number cursor =? Number current)%Z
       then report (mkTransition current candidate (Some callback)) reported x w
       else (None, reported, x, w)) = (e, rep, x1, w1) →
      e = None → reported_inv x0 rep x1) as Hfirst.
    { intros e rep x1 w1 Heq ->. destruct (_ =? _)%Z; [|by injection Heq as <- <- <-].
      by apply (report_ran _ _ x0) in Heq as [-> ?]. }
    destruct (if (Number cursor =? Number current)%Z then _ else _) as [[[e rep1] x1] w1] eqn:Hr1.
    specialize (Hfirst _ _ _ _ eq_refl). destruct e as [e|]; [done|]. specialize (Hfirst eq_refl).
    pose proof (collect_ancestors_spec ctx current candidate (Z.to_nat depth) (Z.to_nat depth) 0
                  current {[Hash current := Number current]} w1 Hcur (descends_0 _) ltac:(lia)) as Hcol.
    destruct (collect_ancestors _ _ _ _ _ _ w1) as [[|e|m] w2]; simpl in Hcol; [| done|].
    - intros [= <- <- _]. split; [|split; [|done]].
      + destruct rep1; simpl in Hfirst; [by right|by left].
      + intros _. apply Hcol. intros h n. rewrite lookup_singleton_Some. intros [<- <-].
        exists 0%nat, current. split_and!; [lia|constructor|done|done].
    - destruct (report _ rep1 x1 w2) as [[[e rep2] x2] w3] eqn:Hr2.
      destruct e as [e|]; [done|]. apply (report_ran _ _ x0) in Hr2 as [_ Hran]; [|done].
      destruct (find_common _ _ _ _ _ _ _ w3) as [[e|[]] w4] eqn:Hfc; [done|].
      intros [= <- <- _]. split; [by right|]. split; [done|]. intros _. split; [done|].
      apply find_common_Ok in Hfc as (n & c & h & Hd & Hm & Hh); [|done..].
      destruct (Hcol ltac:(intros h' n'; rewrite lookup_singleton_Some; intros [<- <-];
                           exists 0%nat, current; split_and!; [lia|constructor|done|done]) _ _ Hm)
        as (k & d & Hk & Hdd & Hhd & Hnd).
      exists n, c, k, d. split_and!; [done|done|lia|by rewrite Hnd|by rewrite Hhd].
  Qed.

Lemma validate_Ok depth ctx current candidate x w reorg x' w' :
    u64_wf (Number current) → u64_wf (Number candidate) →
    validateEVMTransition range_order depth ctx
      (mkTransition current candidate (Some callback)) x w = (Ok reorg, x', w') →
    (x' = x ∨ ran x x') ∧
    (reorg = false → linked candidate current ∨ linked current candidate) ∧
    (reorg = true → ran x x' ∧ common_ancestor depth candidate current).
  Proof using Type* range_perm.
    intros Hcur Hcand. unfold validateEVMTransition. cbn [tr_current tr_candidate].
    destruct (_ && _) eqn:H1.
    { bool_to_prop. intros [= <- <- _]. split; [by left|]. split; [|done]. intros _. left.
      exists 1%nat, current. apply one_above_spec in H1; [|done..].
      split_and!; [|done|apply EqualFold_refl].
      econstructor; [by rewrite EqualFold_sym|lia|constructor]. }
    destruct (one_above (Number current) _ && _) eqn:H2.
    { bool_to_prop. intros [= <- <- _]. split; [by left|]. split; [|done]. intros _. right.
      exists 1%nat, candidate. apply one_above_spec in H2; [|done..].
      split_and!; [|done|apply EqualFold_refl].
      econstructor; [by rewrite EqualFold_sym|lia|constructor]. }
    destruct (if _ && negb _ then _ else _) as [[[e rep] x1] w1] eqn:Hr.
    destruct e as [e|]; [done|].
    assert (reported_inv x rep x1) as Hinv.
    { destruct (_ && negb _); [|by injection Hr as <- <- <-].
      by apply (report_ran _ _ x) in Hr as [-> ?]. }
    destruct (Z.ltb_spec depth 1); [done|].
    destruct (check_parent ctx candidate w1) as [[e|] w2]; [done|].
    destruct (close_gap ctx current candidate _ candidate w2) as [[e|cursor] w3] eqn:Hg; [done|].
    apply close_gap_Ok in Hg as ([n Hd] & Hle & Hwf); [|done..].
    destruct ((Number cursor =? _)%Z && _) eqn:Heq.
    - intros [= <- <- _]. split; [destruct rep; simpl in Hinv; [by right|by left]|].
      split; [|done]. intros _. left. bool_to_prop. by exists n, cursor.
    - intros Hc. apply (compare_branches_Ok _ _ _ _ _ x) in Hc as (Hx & Hf & Ht); [|done..|lia|done].
      split; [done|]. split; [intros Hr'; right; by apply Hf|]. intros Hr'.
      destruct (Ht Hr') as [Hran (k & c & m & d & Hc & Hrest)]. split; [done|].
      exists (n + k)%nat, c, m, d. split; [by eapply descends_trans|done].
  Qed.
End transition_sound.

(** ** The decision *)

Section decision_proofs.
  Context {W : Type} `{World W, Clients W, Runtimes W, HeadStore W, BlockReaderLaws W}.
  Variable range_order : gmap string Z → list (string * Z).
  Hypothesis range_perm : ∀ m, range_order m ≡ₚ map_to_list m.
  Variable r : Runtime.

  (** Reads of the old branch are fenced before another branch is published:
      [current] was already pending, or recovery was begun and gave [current']. *)
Definition fenced (chain token : string) (current current' : Head) : Prop :=
    (ReorgPending current = true ∧ current' = current) ∨
    (ReorgPending current = false ∧ ∃ w1 w2,
       store_BeginReorg (now w1) chain token w1 = (Ok current', w2)).

Lemma begin_reorg_ran chain token current current' :
    ran (λ x w, begin_reorg chain token x w) current current' → fenced chain token current current'.
  Proof using Type.
    intros (w1 & w2 & Hb). unfold begin_reorg in Hb. unfold fenced.
    destruct (ReorgPending current); [left; by inversion Hb|]. right. split; [done|].
    destruct (store_BeginReorg _ _ _ w1) as [[e|g] w3] eqn:Hs; [done|].
    inversion Hb; subst. eauto.
  Qed.

  (** Why [h] may replace the accepted EVM head [current]: it is the same block,
      it extends it, or reads are fenced and the two branches meet within the
      reorg depth.  In each case the barrier is acknowledged under the epoch that
      was decided against. *)
Definition justified (chain token : string) (candidate current h current' : Head) : Prop :=
    ReorgEpoch h = ReorgEpoch current' ∧ ReorgPending h = false ∧
    ((EqualFold (Hash h) (Hash current) = true ∧ current' = current) ∨
     (h = with_Reorg (ReorgEpoch current') false candidate ∧ linked candidate current ∧
      (current' = current ∨ fenced chain token current current')) ∨
     (fenced chain token current current' ∧
      (Hash h = Hash candidate ∨ Hash h = Hash current') ∧
      (common_ancestor (cfg_ReorgDepth (rt_Config r)) candidate current ∨
       linked current candidate))).

Lemma reobserve_sound ctx chain token candidate current w h current' w' :
    EqualFold (Hash candidate) (Hash current) = true →
    reobserve r ctx candidate current w = (PublishHead h current', w') →
    justified chain token candidate current h current'.
  Proof using Type.
    intros Hh. unfold reobserve, acknowledge.
    assert (justified chain token candidate current
              (with_Reorg (ReorgEpoch current) false candidate) current) as Hj.
    { split; [done|]. split; [done|]. by left. }
    destruct (ReorgPending current); [|by intros [= <- <- _]].
    destruct (getCanonicalEvidence _ _ _ w) as [[e|ev] w1]; [done|].
    destruct (negb _); [done|]. by intros [= <- <- _].
  Qed.

Lemma linked_number a b : linked a b → (Number b ≤ Number a)%Z.
  Proof using Type. intros (n & c & Hd & Hn & _). apply descends_number in Hd. lia. Qed.

Lemma transition_sound ctx token candidate current w h current' w' :
    u64_wf (Number current) → u64_wf (Number candidate) →
    transition range_order r ctx token candidate current w = (PublishHead h current', w') →
    justified (Chain candidate) token candidate current h current'.
  Proof using Type* range_perm.
    intros Hcur Hcand. unfold transition.
    destruct (validateEVMTransition _ _ _ _ _ _) as [[[e|reorg] c1] w1] eqn:Hv; [done|].
    apply validate_Ok in Hv as (Hx & Hf & Ht); [|done..].
    assert (c1 = current ∨ fenced (Chain candidate) token current c1) as Hx'.
    { destruct Hx as [->|Hr]; [by left|right; by apply begin_reorg_ran]. }
    assert (reorg = true → fenced (Chain candidate) token current c1 ∧
              common_ancestor (cfg_ReorgDepth (rt_Config r)) candidate current) as Hfork.
    { intros Hr. destruct (Ht Hr) as [Hran ?]. split; [by apply begin_reorg_ran|done]. }
    assert (reorg = true → ∀ h', (Hash h' = Hash candidate ∨ Hash h' = Hash c1) →
              ReorgEpoch h' = ReorgEpoch c1 → ReorgPending h' = false →
              justified (Chain candidate) token candidate current h' c1) as Hpub.
    { intros Hr h' Hh He Hp. destruct (Hfork Hr) as [? ?]. split; [done|]. split; [done|].
      right; right. auto. }
    unfold acknowledge. destruct (Z.leb_spec (Number candidate) (Number c1)) as [Hle|Hgt].
    - destruct reorg; [|done]. simpl. destruct (getCanonicalEvidence _ _ _ w1) as [[e|ev] w2]; [done|].
      destruct (observed ev); [destruct (negb _); [done|]|]; intros [= <- <- _];
        (apply Hpub; [done| |done|done]); [by right|by left].
    - intros [= <- <- _]. destruct reorg; [apply Hpub; [done|by left|done|done]|].
      split; [done|]. split; [done|].
      destruct (Hf eq_refl) as [Hl|Hl]; [by right; left|].
      destruct Hx' as [->|Hfen]; [apply linked_number in Hl; lia|].
      right; right. auto.
  Qed.
End decision_proofs.

(** ** Choosing among observations *)

Lemma highest_spec first rest :
  let s := fold_left (λ s c, if (Number s <? Number c)%Z then c else s) rest first in
  s ∈ first :: rest ∧ ∀ c, c ∈ first :: rest → (Number c ≤ Number s)%Z.
Proof.
  revert first. induction rest as [|x rest IH]; intros first; simpl.
  - split; [by apply list_elem_of_singleton|]. intros c Hc%list_elem_of_singleton. by subst.
  - destruct (IH (if (Number first <? Number x)%Z then x else first)) as [Hin Hmax].
    set (s := fold_left _ rest _) in *. clearbody s.
    pose proof (Hmax _ (proj2 (elem_of_cons _ _ _) (or_introl eq_refl))) as H0.
    split.
    + apply elem_of_cons in Hin as [->|Hin].
      * destruct (_ <? _)%Z; rewrite !elem_of_cons; auto.
      * rewrite !elem_of_cons; auto.
    + intros c. rewrite !elem_of_cons. intros [->|[->|Hc]].
      * destruct (Z.ltb_spec (Number first) (Number x)); lia.
      * destruct (Z.ltb_spec (Number first) (Number x)); lia.
      * apply Hmax. apply elem_of_cons. by right.
Qed.

(** * Properties *)

(** The chosen observation is one of those made, and is the highest of them;
    only when all of them are below the accepted head and one of them is that
    very head is that one taken instead.  Among the highest the accepted head has
    precedence. *)
Lemma select_freshest_spec current first rest :
  let l := first :: rest in
  ∃ h, selectFreshest current l = Some h ∧ h ∈ l ∧
    ((∀ c, c ∈ l → (Number c ≤ Number h)%Z) ∨
     (Identity h = Identity current ∧ ∀ c, c ∈ l → (Number c < Number current)%Z)) ∧
    (IsZero current = false →
     ∀ c, c ∈ l → Identity c = Identity current →
       (∀ c', c' ∈ l → (Number c' ≤ Number c)%Z) → Identity h = Identity current).
Proof.
  intros l. unfold selectFreshest. subst l. cbv beta iota.
  destruct (highest_spec first rest) as [Hin Hmax]. set (s := fold_left _ rest first) in *.
  clearbody s. destruct (IsZero current); simpl negb; cbv iota.
  { exists s. split_and!; [done|done|by left|done]. }
  destruct (list_find (λ c, _ && _ = true) _) as [[i c]|] eqn:H1.
  - apply list_find_Some in H1 as (Hc & Heq & _). apply list_elem_of_lookup_2 in Hc.
    bool_to_prop. exists c. split_and!; [done|done| |done].
    left. intros c' Hc'. specialize (Hmax _ Hc'). lia.
  - assert (∀ h, Identity h = Identity current ∨
      IsZero current = IsZero current ∧
      ∀ c, c ∈ first :: rest → Identity c = Identity current →
        (∀ c', c' ∈ first :: rest → (Number c' ≤ Number c)%Z) → Identity h = Identity current) as Hnone.
    { intros h. right. split; [done|]. intros c Hc Hid Hhigh. exfalso.
      rewrite list_find_None, Forall_forall in H1. apply (H1 c Hc).
      rewrite Hid, String.eqb_refl. simpl. apply Z.eqb_eq.
      pose proof (Hmax _ Hc). pose proof (Hhigh _ Hin). lia. }
    destruct (Z.ltb_spec (Number s) (Number current)) as [Hlt|Hge].
    + destruct (list_find (λ c, Identity c = _) _) as [[i c]|] eqn:H2.
      * apply list_find_Some in H2 as (Hc & Heq & _). apply list_elem_of_lookup_2 in Hc.
        exists c. split_and!; [done|done| |done]. right. split; [done|].
        intros c' Hc'. specialize (Hmax _ Hc'). lia.
      * exists s. split_and!; [done|done|by left|]. intros _.
        destruct (Hnone s) as [?|[_ ?]]; [done|done].
    + exists s. split_and!; [done|done|by left|]. intros _.
      destruct (Hnone s) as [?|[_ ?]]; [done|done].
Qed.

(** C3: what [consider] publishes is justified against the head accepted when it
    looked: a Solana slot never goes below it; an EVM head is the same block,
    extends it through verified parent links, or replaces it on another branch
    that meets it within the reorg depth, and then recovery was begun in the store
    (or already under way) first.  The epoch acknowledged is the one decided
    against, and the first head of an EVM chain names a real parent. *)
Theorem publication_justified `{World W, Clients W, Runtimes W, HeadStore W, BlockReaderLaws W}
    range_order r ctx token candidate w h current' w' :
  (∀ m, range_order m ≡ₚ map_to_list m) →
  u64_wf (Number candidate) →
  decide_head range_order r ctx token candidate w = (PublishHead h current', w') →
  ∃ sn w0, store_Snapshot (Chain candidate) w = (Ok sn, w0) ∧
  match sn_Heads sn !! Commitment candidate with
  | None => h = candidate ∧
      (Family candidate = "evm" → (0 < Number candidate)%Z →
       ∃ parent, EqualFold (Hash parent) (ParentHash candidate) = true ∧
                 Number parent = (Number candidate - 1)%Z)
  | Some current =>
      u64_wf (Number current) →
      (Family candidate = "solana" → h = candidate ∧ (Number current ≤ Number h)%Z) ∧
      (Family candidate = "evm" → justified r (Chain candidate) token candidate current h current')
  end.
Proof.
  intros Hperm Hwf. unfold decide_head.
  destruct (store_Snapshot (Chain candidate) w) as [[e|sn] w0]; [done|].
  intros Hd. exists sn, w0. split; [done|]. revert Hd. unfold Get.
  destruct (sn_Heads sn !! Commitment candidate) as [current|]; cbv beta iota zeta.
  - rewrite andb_false_r. simpl andb. cbv iota. intros Hd Hcur. split.
    + intros Hf. rewrite Hf in Hd. simpl in Hd.
      destruct (Z.ltb_spec (Number candidate) (Number current)); [done|].
      by injection Hd as <- <- _.
    + intros Hf. rewrite Hf in Hd. simpl in Hd.
      destruct (EqualFold (Hash candidate) (Hash current)) eqn:Heq.
      * by eapply reobserve_sound.
      * by eapply transition_sound.
  - rewrite andb_true_r, !andb_false_r. simpl andb. cbv iota.
    destruct (if _ && _ then _ else _) as [[e|] w1] eqn:Hi; [done|].
    intros [= <- <- _]. split; [done|]. intros Hf Hpos. rewrite Hf in Hi. simpl in Hi.
    destruct (Z.ltb_spec 0 (Number candidate)); [|lia]. unfold initial_parent in Hi.
    destruct (read_block _ _ w0) as [[e|p] w2] eqn:Hr; [done|].
    destruct (_ || _) eqn:Hc; [done|]. bool_to_prop.
    pose proof (read_block_hash _ _ _ _ _ Hr) as Hh. simpl in Hh.
    apply read_block_wf in Hr as (Hp & _). exists p. split; [done|].
    rewrite u64_sub_small in * by (done || u64_lia). lia.
Qed.

(** A world whose store is the in-process one: providers have moved to another
    block at the accepted height, and the coordinator holds the lease. *)
#[export] Instance sim_chain_store (X : Type) : HeadStore (Sim (ChainWorld (X * MemoryStore))) :=
  lift_store (λ w, (cw_rest (sim_state w)).2)
    (λ m w, with_sim_state (mkChainWorld (cw_clients (sim_state w)) (cw_runtimes (sim_state w))
                              ((cw_rest (sim_state w)).1, m)) w).

Definition fork_head : Head :=
  mkHead "demo" "evm" "latest" 5 (sim_hash "ee") (sim_hash "bb") 0 0 false 990 0 "up" "{}".

Definition fork_answer (method : string) (params : RawMessage) : RawMessage :=
  if String.eqb method "eth_getBlockByNumber"
  then sim_block "0x5" (sim_hash "ee") (sim_hash "bb") else demo_answer method params.

Definition fork_world : Sim (ChainWorld (unit * MemoryStore)) :=
  mkSim 1000 (sim_rpc fork_answer)
    (demo_chain_state (tt, (Publish 900 "a:1" (with_Reorg 0 false demo_accepted)
                              (Acquire 5 "demo" "a" 100000 NewMemoryStore).2).2)).

Definition fork_decision : decision * Sim (ChainWorld (unit * MemoryStore)) :=
  decide_head (H3 := runtime_reader demo_runtime) map_to_list demo_runtime Background "a:1"
    fork_head fork_world.

Lemma publication_justified_witness :
  ∃ h current', fork_decision.1 = PublishHead h current' ∧
    ReorgEpoch h = 1%Z ∧ Hash h = sim_hash "ee" ∧
    ∃ sn w0, store_Snapshot "demo" fork_world = (Ok sn, w0).
Proof.
  eexists _, _. split; [vm_compute; reflexivity|]. split; [vm_compute; reflexivity|].
  split; [vm_compute; reflexivity|].
  destruct (publication_justified (H3 := runtime_reader demo_runtime)
    map_to_list demo_runtime Background "a:1" fork_head fork_world
    (with_Reorg 1 false fork_head)
    (match fork_decision.1 with PublishHead _ c => c | _ => zero_Head end) fork_decision.2)
    as (sn & w0 & Hs & _).
  - reflexivity.
  - vm_compute. split; [discriminate|reflexivity].
  - apply pair_fst. vm_compute. reflexivity.
  - exists sn, w0. exact Hs.
Defined.
