(* ===== verification/Observers.v ===== *)
(** * Observing heads — coordinator/coordinator.go (polling) and subscription.go

    While it leads, an instance observes the heads of its providers: in rounds of
    polling, and for EVM through WebSocket subscriptions.  Both put their observations
    in the channel of the leader's loop. *)

From S2P Require Import Prelude GoStrings GoJson Evm JsonRpc Head MemoryStore World Upstream Chain Coordinator.

(** ** State *)

(** The mutable part of a coordinator: the commitments being polled, the time of the
    last head of every active subscription, and the last height of every provider by
    commitment. *)
(* go: coordinator/coordinator.go:23-40 Coordinator *)
Record CoordinatorState := mkCoordinatorState {
  polling : gset string;
  subscriptions : gmap string Z;
  providerHeads : gmap (string * string) Z
}.

(** The state by chain name, as a component of the world. *)
Class Coordinators (W : Type) := {
  coordinator_state : string → W → CoordinatorState;
  set_coordinator_state : string → CoordinatorState → W → W
}.

(** The channel of observations: [false] if the context ended first. *)
Class Observations (W : Type) := {
  send_observation : Context → Head → W → bool * W
}.

(** The connection of a client's subscription: whether dialling and writing succeed,
    and the next frame. *)
Class HeadSockets (W : Type) := {
  ws_Dial : Client → Context → W → bool * W;
  ws_Write : Client → string → Context → W → bool * W;
  ws_Read : Client → Context → W → option string * W
}.

Section observe.
  Context {W : Type} `{World W, Clients W, Runtimes W, SingleFlight W, HeadStore W, Coordinators W,
    Observations W, HeadSockets W}.
  Variable r : Runtime.

  (** [WebsocketIdleTimeout] of the chain. *)
Variable idle_timeout : Z.

  (** The order in which [n] goroutines run, and in which the availability map is
      ranged over. *)
Variable schedule : nat → list nat.
Variable availability_order : gmap string availabilityRecord → list string.

Definition chain : string := cfg_Name (rt_Config r).
Definition evm : bool := String.eqb (cfg_Family (rt_Config r)) "evm".

Definition update_coordinator (f : CoordinatorState → CoordinatorState) (w : W) : W :=
  set_coordinator_state chain (f (coordinator_state chain w)) w.

  (* go: coordinator/subscription.go:16-21 Coordinator.hasFreshSubscription *)
Definition hasFreshSubscription (upstreamID : string) (w : W) : bool :=
  match subscriptions (coordinator_state chain w) !! upstreamID with
  | Some lastHead => (now w - lastHead <? idle_timeout)%Z
  | None => false
  end.

  (* go: coordinator/subscription.go:23-28 Coordinator.setSubscriptionHead *)
Definition setSubscriptionHead (upstreamID : string) (observedAt : Z) (w : W) : W :=
  update_coordinator
    (λ s, mkCoordinatorState (polling s) (<[upstreamID := observedAt]> (subscriptions s)) (providerHeads s)) w.

  (* go: coordinator/subscription.go:30-35 Coordinator.clearSubscription *)
Definition clearSubscription (upstreamID : string) (w : W) : W :=
  update_coordinator
    (λ s, mkCoordinatorState (polling s) (delete upstreamID (subscriptions s)) (providerHeads s)) w.

  (* go: coordinator/coordinator.go:569-574 Coordinator.recordProviderHead *)
Definition recordProviderHead (h : Head) (w : W) : W :=
  update_coordinator
    (λ s, mkCoordinatorState (polling s) (subscriptions s)
            (<[(Origin h, Commitment h) := Number h]> (providerHeads s))) w.

Definition set_polling (commitment : string) (running : bool) (w : W) : W :=
  update_coordinator
    (λ s, mkCoordinatorState
            (if running then {[commitment]} ∪ polling s else polling s ∖ {[commitment]})
            (subscriptions s) (providerHeads s)) w.

  (** ** A round of polling *)

  (** The candidates that are asked: not those whose subscription is fresh. *)
  (* go: coordinator/coordinator.go:197-202 Coordinator.poll *)
Definition asked (commitment : string) (w : W) : list Client :=
  filter (λ c, negb (evm && String.eqb commitment Latest && hasFreshSubscription (cl_ID c) w) = true)
    (Candidates r false w).

  (** The goroutines of one round, in the order they run; the heads they observe. *)
  (* go: coordinator/coordinator.go:203-224 Coordinator.poll *)
Fixpoint query_all (ctx : Context) (commitment : string) (candidates : list Client) (w : W)
    : list Head * W :=
  match candidates with
  | [] => ([], w)
  | candidate :: rest =>
      let* (polled, w) :=
        pollOne r (WithTimeout ctx (cfg_HeadRequestTimeout (rt_Config r)) w) candidate commitment w in
      match polled with
      | Err _ => query_all ctx commitment rest w
      | Ok h =>
          let* (observed, w) := query_all ctx commitment rest (recordProviderHead h w) in
          (h :: observed, w)
      end
  end.

Definition scheduled {A} (l : list A) : list A := omap (λ i, l !! i) (schedule (length l)).

  (** Sends in order until the context ends; what was sent, and whether all was. *)
Fixpoint send_all (ctx : Context) (l : list Head) (w : W) : list Head * bool * W :=
  match l with
  | [] => ([], true, w)
  | h :: rest =>
      let* (ok, w) := send_observation ctx h w in
      if ok then let* (sent, complete, w) := send_all ctx rest w in (h :: sent, complete, w)
      else ([], false, w)
  end.

  (** The candidates whose identity has not been seen, each identity once. *)
Fixpoint unseen (seen : list string) (l : list Head) : list Head :=
  match l with
  | [] => []
  | h :: rest =>
      if bool_decide (Identity h ∈ seen) then unseen seen rest
      else h :: unseen (Identity h :: seen) rest
  end.

  (** What a round reports: the freshest head first, then for EVM every other one. *)
  (* go: coordinator/coordinator.go:239-256 Coordinator.poll *)
Definition reported (selected : Head) (observed : list Head) : list Head :=
  selected :: if evm then unseen [Identity selected] observed else [].

  (** The goroutine of one commitment. *)
  (* go: coordinator/coordinator.go:193-259 Coordinator.poll *)
Definition poll_worker (ctx : Context) (commitment : string) (w : W) : list Head * bool * W :=
  let* (observed, w) := query_all ctx commitment (scheduled (asked commitment w)) w in
  match observed with
  | [] => ([], true, w)
  | _ =>
      let* (snapshot, w) := store_Snapshot chain w in
      match snapshot with
      | Err _ => ([], false, w)
      | Ok snapshot =>
          let* (current, _) := Get snapshot commitment in
          match selectFreshest current observed with
          | None => ([], true, w)
          | Some selected => send_all ctx (reported selected observed) w
          end
      end
  end.

  (* go: coordinator/coordinator.go:187-195 Coordinator.poll *)
Definition poll_commitment (ctx : Context) (commitment : string) (w : W) : list Head * W :=
  if decide (commitment ∈ polling (coordinator_state chain w)) then ([], w)
  else
    let* (sent, _, w) := poll_worker ctx commitment (set_polling commitment true w) in
    (sent, set_polling commitment false w).

  (* go: coordinator/coordinator.go:186-261 Coordinator.poll *)
Fixpoint poll (ctx : Context) (commitments : list string) (w : W) : list Head * W :=
  match commitments with
  | [] => ([], w)
  | commitment :: rest =>
      let* (sent, w) := poll_commitment ctx commitment w in
      let* (more, w) := poll ctx rest w in
      (sent ++ more, w)
  end.

  (** ** A subscription *)

  (** The subscription the provider acknowledges. *)
  (* go: coordinator/subscription.go:62-71 Coordinator.watchEVMSession *)
Definition acknowledged (payload : RawMessage) : option string :=
  ms ← Unmarshal_struct payload;
  version ← field Unmarshal_string "" "jsonrpc" ms;
  id ← field Unmarshal_raw "" "id" ms;
  subscription ← field Unmarshal_string "" "result" ms;
  error ← field Unmarshal_raw "" "error" ms;
  if negb (String.eqb version "2.0") || negb (String.eqb id "1") || String.eqb subscription ""
     || negb (len error =? 0)%Z
  then None else Some subscription.

Definition Unmarshal_params (cur : string * RawMessage) (t : RawMessage) : option (string * RawMessage) :=
  ms ← Unmarshal_struct t;
  subscription ← field Unmarshal_string cur.1 "subscription" ms;
  res ← field Unmarshal_raw cur.2 "result" ms;
  Some (subscription, res).

  (** The header in a notification of the subscription. *)
  (* go: coordinator/subscription.go:99-109 Coordinator.watchEVMSession *)
Definition notified (subscription : string) (payload : RawMessage) : option RawMessage :=
  ms ← Unmarshal_struct payload;
  version ← field Unmarshal_string "" "jsonrpc" ms;
  method ← field Unmarshal_string "" "method" ms;
  params ← field Unmarshal_params ("", "") "params" ms;
  if negb (String.eqb version "2.0") || negb (String.eqb method "eth_subscription")
     || negb (String.eqb params.1 subscription)
  then None else Some params.2.

Inductive frame :=
| SkipFrame
| EndSession
| NextHead (h : Head).

  (** One frame, after [last]. *)
  (* go: coordinator/subscription.go:99-135 Coordinator.watchEVMSession *)
Definition handle_frame (ctx : Context) (candidate : Client) (subscription : string) (last : Head)
    (payload : RawMessage) (w : W) : frame * W :=
  match notified subscription payload with
  | None => (SkipFrame, w)
  | Some header =>
      match ParseEVMHead r (now w) (mkParseRequest Latest (cl_ID candidate) header) with
      | Err _ => (SkipFrame, w)
      | Ok observedHead =>
          if EqualFold (Hash observedHead) (Hash last) then (SkipFrame, w)
          else if negb (IsValid r (cl_ID candidate) w) || negb (Healthy (now w) (state_of candidate w))
          then (EndSession, w)
          else
            let queryCtx := WithTimeout ctx (cfg_HeadRequestTimeout (rt_Config r)) w in
            let* (available, w) := HasEVMBlock availability_order r queryCtx candidate observedHead w in
            match available with
            | Ok true =>
                let* (ok, w) := send_observation ctx observedHead (recordProviderHead observedHead w) in
                if ok then (NextHead observedHead, setSubscriptionHead (cl_ID candidate) (ObservedAt observedHead) w)
                else (EndSession, w)
            | _ => (EndSession, w)
            end
      end
  end.

  (** The loop over frames, for a number of rounds; the heads sent. *)
  (* go: coordinator/subscription.go:88-136 Coordinator.watchEVMSession *)
Fixpoint follow_frames (rounds : nat) (ctx : Context) (candidate : Client) (subscription : string)
    (last : Head) (w : W) : list Head * W :=
  match rounds with
  | O => ([], w)
  | S rounds =>
      if bool_decide (is_Some (ctx_Err ctx w)) then ([], w)
      else
        let* (payload, w) := ws_Read candidate (WithDeadline ctx (ObservedAt last + idle_timeout)) w in
        match payload with
        | None => ([], w)
        | Some payload =>
            let* (next, w) := handle_frame ctx candidate subscription last payload w in
            match next with
            | SkipFrame => follow_frames rounds ctx candidate subscription last w
            | EndSession => ([], w)
            | NextHead h => let* (sent, w) := follow_frames rounds ctx candidate subscription h w in (h :: sent, w)
            end
        end
  end.

Definition subscribe_request : RawMessage :=
  js "{'id':1,'jsonrpc':'2.0','method':'eth_subscribe','params':['newHeads']}".

  (** Dialling and subscribing; the subscription, if all goes well. *)
  (* go: coordinator/subscription.go:39-72 Coordinator.watchEVMSession *)
Definition open_subscription (ctx : Context) (candidate : Client) (w : W) : option string * W :=
  let setupCtx := WithTimeout ctx (cfg_HeadRequestTimeout (rt_Config r)) w in
  let* (ok, w) := ws_Dial candidate setupCtx w in
  if negb ok then (None, w)
  else
    let* (ok, w) := ws_Write candidate subscribe_request setupCtx w in
    if negb ok then (None, w)
    else
      let* (payload, w) := ws_Read candidate setupCtx w in
      (payload ≫= acknowledged, w).

Definition watch_session (rounds : nat) (ctx : Context) (candidate : Client) (w : W) : list Head * W :=
  let* (subscription, w) := open_subscription ctx candidate w in
  match subscription with
  | None => ([], w)
  | Some subscription =>
      let* (polled, w) :=
        pollOne r (WithTimeout ctx (cfg_HeadRequestTimeout (rt_Config r)) w) candidate Latest w in
      match polled with
      | Err _ => ([], w)
      | Ok lastHead =>
          let* (ok, w) := send_observation ctx lastHead (recordProviderHead lastHead w) in
          if negb ok then ([], w)
          else
            let* (sent, w) :=
              follow_frames rounds ctx candidate subscription lastHead
                (setSubscriptionHead (cl_ID candidate) (ObservedAt lastHead) w) in
            (lastHead :: sent, w)
      end
  end.

  (** However the session ends, the subscription is no longer active. *)
  (* go: coordinator/subscription.go:37-137 Coordinator.watchEVMSession *)
Definition watchEVMSession (rounds : nat) (ctx : Context) (candidate : Client) (w : W) : list Head * W :=
  let* (sent, w) := watch_session rounds ctx candidate w in
  (sent, clearSubscription (cl_ID candidate) w).

  (** The wait before the next session: a second and a random part of half a second. *)
Variable jitter : W → Z.

  (* go: coordinator/coordinator.go:622-629 Coordinator.waitReconnect *)
Definition waitReconnect (ctx : Context) (w : W) : W :=
  let* (_, w) := sleep (second + jitter w * millisecond) ctx w in w.

  (* go: coordinator/coordinator.go:607-620 Coordinator.watchEVM *)
Fixpoint watchEVM (rounds : nat) (ctx : Context) (candidate : Client) (w : W) : list (list Head) * W :=
  match rounds with
  | O => ([], w)
  | S rounds' =>
      if bool_decide (is_Some (ctx_Err ctx w)) then ([], w)
      else if negb (IsValid r (cl_ID candidate) w) || negb (Healthy (now w) (state_of candidate w))
      then watchEVM rounds' ctx candidate (waitReconnect ctx w)
      else
        let* (sent, w) := watchEVMSession rounds ctx candidate w in
        if bool_decide (is_Some (ctx_Err ctx w)) then ([sent], w)
        else let* (more, w) := watchEVM rounds' ctx candidate (waitReconnect ctx w) in (sent :: more, w)
  end.
End observe.

(** ** Lemmas *)

Lemma omap_seq {A} (pre l : list A) : omap (λ i, (pre ++ l) !! i) (seq (length pre) (length l)) = l.
Proof.
  revert pre. induction l as [|x l IH]; intros pre; [done|]. simpl.
  rewrite lookup_app_r, Nat.sub_diag by done. simpl. f_equal.
  specialize (IH (pre ++ [x])). by rewrite <- app_assoc, length_app, Nat.add_1_r in IH.
Qed.

(** A schedule runs every goroutine once. *)
Lemma scheduled_perm {A} schedule (l : list A) :
  (∀ n, schedule n ≡ₚ seq 0 n) → scheduled schedule l ≡ₚ l.
Proof. intros Hs. unfold scheduled. rewrite Hs. apply reflexive_eq. exact (omap_seq [] l). Qed.

Lemma unseen_spec seen l :
  NoDup (Identity <$> unseen seen l) ∧
  (∀ h, h ∈ unseen seen l → h ∈ l ∧ Identity h ∉ seen) ∧
  (∀ h, h ∈ l → Identity h ∈ seen ∨ ∃ h', h' ∈ unseen seen l ∧ Identity h' = Identity h).
Proof.
  revert seen. induction l as [|x l IH]; intros seen; simpl.
  { split; [constructor|]. split; intros h Hh; by apply elem_of_nil in Hh. }
  destruct (bool_decide (Identity x ∈ seen)) eqn:Hx; [apply bool_decide_eq_true in Hx|apply bool_decide_eq_false in Hx].
  - destruct (IH seen) as (Hnd & Hin & Hall). split; [done|]. split.
    + intros h Hh. apply Hin in Hh as [??]. split; [by right|done].
    + intros h Hh. apply elem_of_cons in Hh as [->|Hh]; [by left|by apply Hall].
  - destruct (IH (Identity x :: seen)) as (Hnd & Hin & Hall). split; [|split].
    + simpl. constructor; [|done]. intros Hd. apply list_elem_of_fmap in Hd as (y & Hy & Hd).
      apply Hin in Hd as [_ Hd]. apply Hd. rewrite <- Hy. by left.
    + intros h Hh. apply elem_of_cons in Hh as [->|Hh]; [split; [by left|done]|].
      apply Hin in Hh as [Hh Hs]. split; [by right|]. intros Hd. apply Hs. by right.
    + intros h Hh. apply elem_of_cons in Hh as [->|Hh]; [right; exists x; split; [by left|done]|].
      destruct (Hall h Hh) as [Hd|(h' & Hh' & Hid)].
      * apply elem_of_cons in Hd as [Hd|Hd]; [right; exists x; split; [by left|done]|by left].
      * right. exists h'. split; [by right|done].
Qed.

Lemma selectFreshest_elem current l h : selectFreshest current l = Some h → h ∈ l.
Proof.
  unfold selectFreshest. destruct l as [|first rest]; [done|].
  pose proof (highest_spec first rest) as [Hin _]. revert Hin. cbv zeta.
  generalize (fold_left (λ s c, if (Number s <? Number c)%Z then c else s) rest first). intros s Hin.
  destruct (negb (IsZero current)); [|by intros [= <-]].
  destruct (list_find (λ c, _ && _ = true) _) as [[i c]|] eqn:H1.
  - intros [= <-]. apply list_find_Some in H1 as [H1 _]. by eapply list_elem_of_lookup_2.
  - destruct (_ <? _)%Z; [|by intros [= <-]].
    destruct (list_find (λ c, Identity c = _) _) as [[i c]|] eqn:H2; [|by intros [= <-]].
    intros [= <-]. apply list_find_Some in H2 as [H2 _]. by eapply list_elem_of_lookup_2.
Qed.

Section lemmas.
  Context {W : Type} `{World W, Clients W, Runtimes W, SingleFlight W, HeadStore W, Coordinators W,
    Observations W, HeadSockets W}.
  Variable r : Runtime.

  (** What a round reports of the heads it observed. *)
Lemma reported_spec selected observed :
  selected ∈ observed →
  NoDup (Identity <$> reported r selected observed) ∧
  (∀ h, h ∈ reported r selected observed → h ∈ observed) ∧
  (evm r = true → ∀ h, h ∈ observed → ∃ h', h' ∈ reported r selected observed ∧ Identity h' = Identity h).
Proof.
  intros Hsel. unfold reported. destruct (unseen_spec [Identity selected] observed) as (Hnd & Hin & Hall).
  destruct (evm r); simpl.
  - split; [|split].
    + constructor; [|done]. intros Hd. apply list_elem_of_fmap in Hd as (y & Hy & Hd).
      apply Hin in Hd as [_ Hd]. apply Hd. rewrite <- Hy. by left.
    + intros h Hh. apply elem_of_cons in Hh as [->|Hh]; [done|]. by apply Hin.
    + intros _ h Hh. destruct (Hall h Hh) as [Hd|(h' & Hh' & Hid)].
      * apply list_elem_of_singleton in Hd. exists selected. split; [by left|done].
      * exists h'. split; [by right|done].
  - split; [apply NoDup_singleton|]. split; [|done]. intros h Hh. by apply list_elem_of_singleton in Hh as ->.
Qed.

Lemma send_all_spec ctx l w sent complete w' :
  send_all ctx l w = (sent, complete, w') → sent `prefix_of` l ∧ (complete = true → sent = l).
Proof.
  revert w w' sent complete. induction l as [|h l IH]; intros w w' sent complete; simpl; [by intros [= <- <- _]|].
  destruct (send_observation ctx h w) as [[|] w1]; [|intros [= <- <- _]; split; [apply prefix_nil|done]].
  destruct (send_all ctx l w1) as [[s c] w2] eqn:Hs. intros [= <- <- _].
  apply IH in Hs as [Hp Hc]. split; [by apply prefix_cons|]. intros Ht. by rewrite Hc.
Qed.

  (** Every head of a round was polled from one of its candidates. *)
Definition polled_from (commitment : string) (c : Client) (h : Head) : Prop :=
  ∃ ctx w w', pollOne r ctx c commitment w = (Ok h, w').

Lemma query_all_spec ctx commitment cs w observed w' :
  query_all r ctx commitment cs w = (observed, w') →
  ∀ h, h ∈ observed → ∃ c, c ∈ cs ∧ polled_from commitment c h.
Proof.
  revert w w' observed. induction cs as [|c cs IH]; intros w w' observed; simpl.
  { intros [= <- _] h Hh. by apply elem_of_nil in Hh. }
  destruct (pollOne r _ c commitment w) as [[e|h0] w1] eqn:Hp.
  - intros Hq h Hh. destruct (IH _ _ _ Hq h Hh) as (c' & ? & ?). exists c'. split; [by right|done].
  - destruct (query_all _ _ _ cs _) as [obs w2] eqn:Hq. intros [= <- _] h Hh.
    apply elem_of_cons in Hh as [->|Hh].
    + exists c. split; [by left|]. eexists _, _, _. exact Hp.
    + destruct (IH _ _ _ Hq h Hh) as (c' & ? & ?). exists c'. split; [by right|done].
Qed.
End lemmas.

(** ** Subscriptions *)

Section subscription_lemmas.
  Context {W : Type} `{World W, Clients W, Runtimes W, SingleFlight W, HeadStore W, Coordinators W,
    Observations W, HeadSockets W}.
  Variable r : Runtime.
  Variable idle_timeout : Z.
  Variable availability_order : gmap string availabilityRecord → list string.

  (** A head a session sends after [last]: another block, in a notification of the
      acknowledged subscription, whose upstream was valid and healthy and served it. *)
Definition confirmed (candidate : Client) (subscription : string) (last h : Head) : Prop :=
  EqualFold (Hash h) (Hash last) = false ∧ Commitment h = Latest ∧ Origin h = cl_ID candidate ∧
  ∃ payload header w ctx w',
    notified subscription payload = Some header ∧
    ParseEVMHead r (now w) (mkParseRequest Latest (cl_ID candidate) header) = Ok h ∧
    IsValid r (cl_ID candidate) w = true ∧ Healthy (now w) (state_of candidate w) = true ∧
    HasEVMBlock availability_order r ctx candidate h w = (Ok true, w').

  (** Every head of the list is confirmed after the one before it. *)
Fixpoint follows (candidate : Client) (subscription : string) (last : Head) (l : list Head) : Prop :=
  match l with
  | [] => True
  | h :: rest => confirmed candidate subscription last h ∧ follows candidate subscription h rest
  end.

Lemma handle_frame_next ctx candidate subscription last payload w h w' :
  handle_frame r availability_order ctx candidate subscription last payload w = (NextHead h, w') →
  confirmed candidate subscription last h.
Proof.
  unfold handle_frame. destruct (notified subscription payload) as [header|] eqn:Hn; [|done].
  destruct (ParseEVMHead _ _ _) as [e|h0] eqn:Hp; [done|].
  destruct (EqualFold (Hash h0) _) eqn:Heq; [done|].
  destruct (negb (IsValid r (cl_ID candidate) w) || _) eqn:Hguard; [done|].
  apply orb_false_iff in Hguard as [Hv Hh]. rewrite negb_false_iff in Hv, Hh.
  destruct (HasEVMBlock _ _ _ _ _ w) as [[e|[|]] w1] eqn:Ha; [done| |done].
  destruct (send_observation _ _ _) as [[|] w2]; [|done]. intros [= <- _].
  destruct (ParseEVMHead_Ok _ _ _ _ Hp) as (_ & Hc & Ho & _).
  split_and!; [done|done|done|]. eexists payload, header, w, _, w1. done.
Qed.

Lemma follow_frames_spec rounds ctx candidate subscription last w sent w' :
  follow_frames r idle_timeout availability_order rounds ctx candidate subscription last w = (sent, w') →
  follows candidate subscription last sent.
Proof.
  revert last w w' sent. induction rounds as [|rounds IH]; intros last w w' sent; simpl; [by intros [= <- _]|].
  destruct (bool_decide _); [by intros [= <- _]|].
  destruct (ws_Read candidate _ w) as [[payload|] w1]; [|by intros [= <- _]].
  destruct (handle_frame _ _ _ _ _ _ _ w1) as [[| |h] w2] eqn:Hf; [apply IH|by intros [= <- _]|].
  destruct (follow_frames _ _ _ rounds _ _ _ h w2) as [s w3] eqn:Hr. intros [= <- _].
  split; [by eapply handle_frame_next|by eapply IH].
Qed.
End subscription_lemmas.

(** * Properties *)

(** C36: a round of polling reports every view of the head there is.  Every eligible
    provider without a fresh subscription is asked once, in whatever order the
    goroutines run.  If any of them answers and the store can be read, the freshest
    observation is reported first and then, for an EVM chain, every other head
    observed, each identity once: a fork at the same height is never hidden behind the
    preferred head.  What is sent is that report, or a beginning of it if the context
    ended first, and nothing that no provider answered. *)
Theorem poll_reports `{World W, Clients W, Runtimes W, SingleFlight W, HeadStore W, Coordinators W, Observations W}
    r idle_timeout schedule ctx commitment w sent complete w' :
  (∀ n, schedule n ≡ₚ seq 0 n) →
  poll_worker r idle_timeout schedule ctx commitment w = (sent, complete, w') →
  ∃ providers observed w1,
    providers ≡ₚ asked r idle_timeout commitment w ∧
    query_all r ctx commitment providers w = (observed, w1) ∧
    (∀ h, h ∈ observed → ∃ c, c ∈ providers ∧ polled_from r commitment c h) ∧
    (observed = [] → sent = []) ∧
    (observed ≠ [] → ∀ answer w2, store_Snapshot (chain r) w1 = (answer, w2) →
      match answer with
      | Err _ => sent = []
      | Ok sn =>
          ∃ selected rest,
            selectFreshest (Get sn commitment).1 observed = Some selected ∧
            sent `prefix_of` selected :: rest ∧ (complete = true → sent = selected :: rest) ∧
            NoDup (Identity <$> selected :: rest) ∧
            (∀ h, h ∈ selected :: rest → h ∈ observed) ∧
            (evm r = true → ∀ h, h ∈ observed → ∃ h', h' ∈ selected :: rest ∧ Identity h' = Identity h)
      end).
Proof.
  intros Hsched. unfold poll_worker. set (providers := scheduled _ _).
  destruct (query_all r ctx commitment providers w) as [observed w1] eqn:Hq. intros Hrun.
  exists providers, observed, w1. split; [by apply scheduled_perm|]. split; [done|].
  split; [by eapply query_all_spec|]. destruct observed as [|first rest].
  { injection Hrun as <- _ _. done. }
  split; [done|]. intros _ answer w2 Hsn. rewrite Hsn in Hrun. destruct answer as [e|sn].
  { by injection Hrun as <- _ _. }
  destruct (Get sn commitment) as [current known]. simpl.
  destruct (selectFreshest current (first :: rest)) as [selected|] eqn:Hsel.
  - pose proof (selectFreshest_elem _ _ _ Hsel) as Hin. apply send_all_spec in Hrun as [Hp Hc].
    destruct (reported_spec r selected _ Hin) as (Hnd & Hsub & Hall).
    exists selected. eexists. split; [done|]. split_and!; [exact Hp|exact Hc|exact Hnd|exact Hsub|exact Hall].
  - exfalso. revert Hsel. unfold selectFreshest. repeat case_match; congruence.
Qed.


(** ** Two providers on different branches *)

Record ObserverState := mkObservers {
  os_states : gmap string CoordinatorState;
  os_sent : list Head;
  os_frames : list string;
  os_signals : list nat
}.

Definition map_observers (f : ObserverState → ObserverState)
    (w : Sim (ChainWorld (ObserverState * MemoryStore))) : Sim (ChainWorld (ObserverState * MemoryStore)) :=
  with_sim_state (mkChainWorld (cw_clients (sim_state w)) (cw_runtimes (sim_state w))
                    (f (cw_rest (sim_state w)).1, (cw_rest (sim_state w)).2)) w.

#[export] Instance sim_signals : Signals (ChainWorld (ObserverState * MemoryStore)) := {
  signaled signal s := bool_decide (signal ∈ os_signals (cw_rest s).1)
}.

#[export] Instance sim_coordinators : Coordinators (Sim (ChainWorld (ObserverState * MemoryStore))) := {
  coordinator_state name w := default (mkCoordinatorState ∅ ∅ ∅) (os_states (cw_rest (sim_state w)).1 !! name);
  set_coordinator_state name s :=
    map_observers (λ o, mkObservers (<[name := s]> (os_states o)) (os_sent o) (os_frames o) (os_signals o))
}.

#[export] Instance sim_observations : Observations (Sim (ChainWorld (ObserverState * MemoryStore))) := {
  send_observation _ h w :=
    (true, map_observers (λ o, mkObservers (os_states o) (os_sent o ++ [h]) (os_frames o) (os_signals o)) w)
}.

#[export] Instance sim_sockets : HeadSockets (Sim (ChainWorld (ObserverState * MemoryStore))) := {
  ws_Dial _ _ w := (true, w);
  ws_Write _ _ _ w := (true, w);
  ws_Read _ _ w :=
    (head (os_frames (cw_rest (sim_state w)).1),
     map_observers (λ o, mkObservers (os_states o) (os_sent o) (tail (os_frames o)) (os_signals o)) w)
}.

Definition second_client : Client := mkClient "two" "http://two" "" [] "evm" "demo".

Definition fork_runtime : Runtime := mkRuntime demo_config [demo_client; second_client].

(** The second provider is still on the accepted block when it is polled. *)
Definition split_reply (req : HttpRequest) : result goerror HttpResponse :=
  let latest := if String.eqb (hr_URL req) "http://two" then "aa" else "ee" in
  sim_rpc (λ _ params,
    let hash := if Contains params (sim_hash "ee") then "ee" else latest in
    sim_block "0x5" (sim_hash hash) (sim_hash "bb")) req.

Definition subscription_frames : list string :=
  [ js "{'jsonrpc':'2.0','id':1,'result':'0x7'}";
    js "{'jsonrpc':'2.0','method':'eth_subscription','params':{'subscription':'0x7','result':"
      +:+ sim_block "0x5" (sim_hash "ee") (sim_hash "bb") +:+ "}}" ].

Definition observed_world : Sim (ChainWorld (ObserverState * MemoryStore)) :=
  mkSim 1000 split_reply
    (mkChainWorld ∅ {[ "demo" := mkRuntimeState {[ "up" := true; "two" := true ]} ∅ ∅ ]}
       (mkObservers ∅ [] subscription_frames [],
        (Publish 900 "a:1" (with_Reorg 0 false demo_accepted)
           (Acquire 5 "demo" "a" 100000 NewMemoryStore).2).2)).

Definition fork_round : list Head * bool * Sim (ChainWorld (ObserverState * MemoryStore)) :=
  poll_worker fork_runtime second (λ n, rev (seq 0 n)) Background Latest observed_world.

Lemma poll_reports_witness :
  ((λ h, (Origin h, Hash h)) <$> fork_round.1.1) = [("two", sim_hash "aa"); ("up", sim_hash "ee")] ∧
  ∃ providers, providers ≡ₚ asked fork_runtime second Latest observed_world.
Proof.
  split; [vm_compute; reflexivity|].
  destruct (poll_reports fork_runtime second (λ n, rev (seq 0 n)) Background Latest observed_world
    fork_round.1.1 fork_round.1.2 fork_round.2) as (providers & _ & _ & Hp & _).
  - intros n. symmetry. apply Permutation_rev.
  - exact (triple_eta fork_round _ eq_refl).
  - exists providers. exact Hp.
Defined.

Definition demo_session : list Head * Sim (ChainWorld (ObserverState * MemoryStore)) :=
  watchEVMSession fork_runtime second (λ m, (map_to_list m).*1) 3 Background second_client observed_world.

