(* ===== verification/Transform.v ===== *)
(** * Pinning requests — internal/gateway/transform.go and the static methods of cache.go

    Every request is rewritten against the snapshot of accepted heads before it
    goes upstream: EVM reads name an exact block hash or carry boundary checks,
    Solana reads a minimum context slot; writes and methods outside the
    registries are refused. *)

From S2P Require Import Prelude GoStrings GoJson Evm JsonRpc Head World Upstream Chain.

(** ** Data *)

(* go: gateway/transform.go:30-33 evmLogRange *)
Record evmLogRange := mkLogRange { lr_from : Z; lr_to : Z }.

(* go: gateway/transform.go:17-28 preparedRequest *)
Record preparedRequest := mkPrepared {
  pq_method : string;
  pq_parameters : RawMessage;
  pq_target : option Head;
  pq_requireEIP1898 : bool;
  pq_localResponse : RawMessage;
  pq_verifyBoundaries : list Head;
  pq_verifyContextSlot : bool;
  pq_unwrapContext : bool;
  pq_receiptHash : string;
  pq_logRange : option evmLogRange
}.

(** The fields most requests set. *)
Definition prepared (method : string) (parameters : RawMessage) (target : option Head)
    : preparedRequest :=
  mkPrepared method parameters target false "" [] false false "" None.

(* go: gateway/transform.go:40-43 evmBlockMethod *)
Record evmBlockMethod := mkBlockMethod { bm_blockIndex : nat; bm_replacement : string }.

(** ** Method registries *)

(** [switch method { case l... }] *)
Definition one_of (method : string) (l : list string) : bool := existsb (String.eqb method) l.

(* go: gateway/cache.go:118-120 Gateway.isStaticMethod *)
Definition isStaticMethod (method family : string) : bool :=
  String.eqb family "evm" && String.eqb method "eth_chainId"
  || String.eqb family "solana" && String.eqb method "getGenesisHash".

Definition write_prefixes : list string :=
  ["eth_send"; "eth_sign"; "personal_"; "wallet_"; "miner_"; "admin_"; "engine_"; "txpool_"].

(* go: gateway/transform.go:436-449 Gateway.isWriteMethod *)
Definition isWriteMethod (method family : string) : bool :=
  if String.eqb family "evm" then
    String.eqb method "eth_accounts" || existsb (HasPrefix method) write_prefixes
  else one_of method ["sendTransaction"; "sendRawTransaction"; "requestAirdrop"].

(* go: gateway/transform.go:488-497 Gateway.getEVMStateBlockIndex *)
Definition getEVMStateBlockIndex (method : string) : option nat :=
  if one_of method ["eth_getBalance"; "eth_getTransactionCount"; "eth_getCode"; "eth_call"]
  then Some 1%nat
  else if one_of method ["eth_getStorageAt"; "eth_getProof"] then Some 2%nat
  else None.

(* go: gateway/transform.go:499-514 Gateway.getEVMBlockMethod *)
Definition getEVMBlockMethod (method : string) : option evmBlockMethod :=
  if String.eqb method "eth_getBlockByNumber"
  then Some (mkBlockMethod 0 "eth_getBlockByHash")
  else if String.eqb method "eth_getBlockTransactionCountByNumber"
  then Some (mkBlockMethod 0 "eth_getBlockTransactionCountByHash")
  else if String.eqb method "eth_getTransactionByBlockNumberAndIndex"
  then Some (mkBlockMethod 0 "eth_getTransactionByBlockHashAndIndex")
  else if String.eqb method "eth_getUncleByBlockNumberAndIndex"
  then Some (mkBlockMethod 0 "eth_getUncleByBlockHashAndIndex")
  else if String.eqb method "eth_getUncleCountByBlockNumber"
  then Some (mkBlockMethod 0 "eth_getUncleCountByBlockHash")
  else None.

(* go: gateway/transform.go:516-523 Gateway.isEVMHeadNeutralMethod *)
Definition isEVMHeadNeutralMethod (method : string) : bool :=
  one_of method ["eth_chainId"; "net_version"; "web3_clientVersion"].

(* go: gateway/transform.go:525-532 Gateway.isEVMExplicitHashMethod *)
Definition isEVMExplicitHashMethod (method : string) : bool :=
  one_of method ["eth_getBlockByHash"; "eth_getBlockTransactionCountByHash";
    "eth_getTransactionByBlockHashAndIndex"; "eth_getUncleByBlockHashAndIndex";
    "eth_getUncleCountByBlockHash"].

(* go: gateway/transform.go:534-545 Gateway.getSolanaConfigIndex *)
Definition getSolanaConfigIndex (method : string) : option nat :=
  if one_of method ["getBlockHeight"; "getEpochInfo"; "getLatestBlockhash"; "getSlot";
       "getSlotLeader"; "getStakeMinimumDelegation"; "getTransactionCount"]
  then Some 0%nat
  else if one_of method ["getAccountInfo"; "getBalance"; "getFeeForMessage"; "getMultipleAccounts";
       "getProgramAccounts"; "getSignaturesForAddress"; "isBlockhashValid"; "simulateTransaction"]
  then Some 1%nat
  else if one_of method ["getTokenAccountsByDelegate"; "getTokenAccountsByOwner"] then Some 2%nat
  else None.

(* go: gateway/transform.go:547-554 Gateway.hasSolanaContext *)
Definition hasSolanaContext (method : string) : bool :=
  negb (one_of method ["getBlockHeight"; "getEpochInfo"; "getSlot"; "getSlotLeader";
          "getTransactionCount"; "getSignaturesForAddress"]).

(* go: gateway/transform.go:556-563 Gateway.isSolanaHeadNeutralMethod *)
Definition isSolanaHeadNeutralMethod (method : string) : bool :=
  one_of method ["getGenesisHash"; "getVersion"; "getBlock"; "getBlockCommitment"; "getBlockTime";
    "getHealth"; "getEpochSchedule"].

(* go: gateway/transform.go:565-572 Gateway.isSolanaUnpinnedRead *)
Definition isSolanaUnpinnedRead (method : string) : bool :=
  one_of method ["getBlock"; "getBlockCommitment"; "getBlockTime"].

(** ** Shared steps *)

(* go: gateway/transform.go:480-486 Gateway.encodeParameters *)
Definition encodeParameters (parameters : list RawMessage) : result Error RawMessage :=
  match MarshalParams parameters with
  | None => Err (InternalError "encode JSON-RPC parameters")
  | Some encodedParameters => Ok encodedParameters
  end.

(* go: gateway/transform.go:411-417 Gateway.getSnapshotHead *)
Definition getSnapshotHead (snapshot : Snapshot) (commitment : string) : result Error Head :=
  let* (acceptedHead, ok) := Get snapshot commitment in
  if negb ok || IsZero acceptedHead
  then Err (ConsistencyUnavailable
              (AMap [("chain", AStr (sn_Chain snapshot)); ("commitment", AStr commitment)]))
  else Ok acceptedHead.

(** Appends [filler] until the parameter at [index] exists. *)
Definition pad_parameters (filler : RawMessage) (index : nat) (parameters : list RawMessage)
    : list RawMessage :=
  parameters ++ replicate (index + 1 - length parameters) filler.

(* go: gateway/cache.go:122-139 Gateway.prepareStaticRequest *)
Definition prepareStaticRequest (r : Runtime) (request : Request) : result Error preparedRequest :=
  let? parameters := ParseParams (req_Params request) in
  if negb (Z.of_nat (length parameters) =? 0)%Z
  then Err (InvalidParams (req_Method request +:+ " does not accept parameters"))
  else
    let identity := if String.eqb (cfg_Family (rt_Config r)) "solana"
                    then cfg_GenesisHash (rt_Config r) else cfg_ChainID (rt_Config r) in
    Ok (mkPrepared (req_Method request) "" None false (Marshal_string identity) [] false false "" None).

(** ** EVM *)

Section evm.
  Context {W : Type} `{World W, Clients W, Runtimes W}.

  (* go: gateway/transform.go:419-434 Gateway.getEVMBlock *)
Definition getEVMBlock (r : Runtime) (ctx : Context) (reference : RawMessage) (snapshot : Snapshot)
      (w : W) : result Error Head * W :=
    let* (target, w) := GetEVMBlock r ctx reference snapshot w in
    match target with
    | Ok target => (Ok target, w)
    | Err err =>
        (Err (if errors_Is ErrInvalidEVMBlockReference err then InvalidParams (error_text err)
              else if errors_Is ErrUnsupportedEVMBlockReference err
              then UnsupportedConsistency "pending" (error_text err)
              else if errors_Is ErrEVMBlockUnavailable err
              then ConsistencyUnavailable
                     (AMap [("chain", AStr (cfg_Name (rt_Config r)));
                            ("reason", AStr "requested block is unavailable")])
              else InternalError "get EVM block target"), w)
    end.

Definition block_identifier (hash : string) : RawMessage :=
    js "{'blockHash':" +:+ Marshal_string hash +:+ js ",'requireCanonical':true}".

  (** State methods take an EIP-1898 identifier of the exact block. *)
  (* go: gateway/transform.go:70-94 Gateway.transformEVMRequest *)
Definition transform_state (r : Runtime) (ctx : Context) (snapshot : Snapshot) (method : string)
      (blockIndex : nat) (parameters : list RawMessage) (w : W) : result Error preparedRequest * W :=
    if decide (length parameters < blockIndex)%nat
    then (Err (InvalidParams "missing required parameters"), w)
    else
      let parameters := pad_parameters (js "'latest'") blockIndex parameters in
      let* (target, w) := getEVMBlock r ctx (default "" (parameters !! blockIndex)) snapshot w in
      (let? target := target in
       let? encoded := encodeParameters (<[blockIndex := block_identifier (Hash target)]> parameters) in
       Ok (mkPrepared method encoded (Some target) true "" [] false false "" None), w).

  (** Methods by block number become their counterparts by hash. *)
  (* go: gateway/transform.go:96-117 Gateway.transformEVMRequest *)
Definition transform_block (r : Runtime) (ctx : Context) (snapshot : Snapshot)
      (blockMethod : evmBlockMethod) (parameters : list RawMessage) (w : W)
      : result Error preparedRequest * W :=
    if decide (length parameters ≤ bm_blockIndex blockMethod)%nat
    then (Err (InvalidParams "missing block parameter"), w)
    else
      let* (target, w) :=
        getEVMBlock r ctx (default "" (parameters !! bm_blockIndex blockMethod)) snapshot w in
      (let? target := target in
       let? encoded :=
         encodeParameters (<[bm_blockIndex blockMethod := Marshal_string (Hash target)]> parameters) in
       Ok (prepared (bm_replacement blockMethod) encoded (Some target)), w).

  (* go: gateway/transform.go:119-132 Gateway.transformEVMRequest *)
Definition transform_block_number (snapshot : Snapshot) (method : string)
      (parameters : list RawMessage) : result Error preparedRequest :=
    if negb (Z.of_nat (length parameters) =? 0)%Z
    then Err (InvalidParams "eth_blockNumber does not accept parameters")
    else
      let? target := getSnapshotHead snapshot Latest in
      Ok (mkPrepared method "" (Some target) false
            (Marshal_string (FormatEVMQuantity (Number target))) [] false false "" None).

  (* go: gateway/transform.go:299-316 Gateway.getEVMLogBound *)
Definition getEVMLogBound (selector : string) (accepted : Head) : result Error Z :=
    if String.eqb selector Latest then Ok (Number accepted)
    else if String.eqb selector "earliest" then Ok 0%Z
    else if String.eqb selector "pending" || String.eqb selector Safe || String.eqb selector Finalized
    then Err (UnsupportedConsistency "eth_getLogs" "only latest is supported as a live EVM head")
    else match ParseEVMQuantity selector with
         | Err _ => Err (InvalidParams "invalid log block number")
         | Ok number =>
             if (Number accepted <? number)%Z
             then Err (ConsistencyUnavailable
                         (AMap [("chain", AStr (Chain accepted));
                                ("reason", AStr "log bound exceeds pinned head");
                                ("retryable", ABool true)]))
             else Ok number
         end.

  (* go: gateway/transform.go:318-328 Gateway.prepareEVMLogRequest *)
Definition prepareEVMLogRequest (filter : gmap string RawMessage) (target : Head)
      (boundaries : list Head) (logRange : option evmLogRange) : result Error preparedRequest :=
    match Marshal_map filter with
    | None => Err (InternalError "encode EVM log filter")
    | Some encodedFilter =>
        let? encodedParameters := encodeParameters [encodedFilter] in
        Ok (mkPrepared "eth_getLogs" encodedParameters (Some target) false "" boundaries false false ""
              logRange)
    end.

  (** A filter that names a block hash goes upstream as it is. *)
Definition logs_by_hash (r : Runtime) (filter : gmap string RawMessage) (rawHash : RawMessage)
      (parameters : list RawMessage) : result Error preparedRequest :=
    if bool_decide (is_Some (filter !! "fromBlock")) || bool_decide (is_Some (filter !! "toBlock"))
    then Err (InvalidParams "blockHash cannot be combined with fromBlock or toBlock")
    else match Unmarshal_string "" rawHash with
    | None => Err (InvalidParams "invalid blockHash")
    | Some blockHash =>
        if negb (IsEVMHash blockHash) then Err (InvalidParams "invalid blockHash")
        else
          let? encodedParameters := encodeParameters parameters in
          Ok (prepared "eth_getLogs" encodedParameters
                (Some (mkHead (cfg_Name (rt_Config r)) "evm" "explicit" 0 blockHash "" 0 0 false 0 0
                         "" "")))
    end.

  (** The selectors of a range, and its numeric bounds under the accepted head. *)
Definition log_bounds (filter : gmap string RawMessage) (snapshot : Snapshot)
      : result Error (RawMessage * Head * Z * Z) :=
    let bound key := match filter !! key with
                     | Some t => if (len t =? 0)%Z then js "'latest'" else t
                     | None => js "'latest'"
                     end in
    match Unmarshal_string "" (bound "fromBlock"), Unmarshal_string "" (bound "toBlock") with
    | Some fromSelector, Some toSelector =>
        if String.eqb fromSelector "" || String.eqb toSelector ""
        then Err (InvalidParams "log bounds must be block numbers or tags")
        else
          let? accepted := getSnapshotHead snapshot Latest in
          let? fromNumber := getEVMLogBound fromSelector accepted in
          let? toNumber := getEVMLogBound toSelector accepted in
          if (toNumber <? fromNumber)%Z then Err (InvalidParams "fromBlock exceeds toBlock")
          else Ok (bound "toBlock", accepted, fromNumber, toNumber)
    | _, _ => Err (InvalidParams "log bounds must be block numbers or tags")
    end.

  (* go: gateway/transform.go:212-297 Gateway.transformEVMLogs *)
Definition transformEVMLogs (r : Runtime) (ctx : Context) (snapshot : Snapshot)
      (parameters : list RawMessage) (w : W) : result Error preparedRequest * W :=
    match parameters with
    | [parameter] =>
        match Unmarshal_map parameter with
        | Some (Some filter) =>
            match filter !! "blockHash" with
            | Some rawHash => (logs_by_hash r filter rawHash parameters, w)
            | None =>
                match log_bounds filter snapshot with
                | Err e => (Err e, w)
                | Ok (toBlock, accepted, fromNumber, toNumber) =>
                    if (fromNumber =? toNumber)%Z
                       && (u64_sub (Number accepted) fromNumber
                             <=? cfg_ReorgDepth (rt_Config r) mod two64)%Z
                    then
                      let* (target, w) := getEVMBlock r ctx toBlock snapshot w in
                      (let? target := target in
                       prepareEVMLogRequest
                         (<["blockHash" := Marshal_string (Hash target)]>
                            (delete "toBlock" (delete "fromBlock" filter))) target [] None, w)
                    else
                      (prepareEVMLogRequest
                         (<["toBlock" := Marshal_string (FormatEVMQuantity toNumber)]>
                            (<["fromBlock" := Marshal_string (FormatEVMQuantity fromNumber)]> filter))
                         accepted [accepted] (Some (mkLogRange fromNumber toNumber)), w)
                end
            end
        | _ => (Err (InvalidParams "invalid eth_getLogs filter"), w)
        end
    | _ => (Err (InvalidParams "eth_getLogs requires one filter object"), w)
    end.

  (** The newest block becomes a number whose block is checked around the call. *)
  (* go: gateway/transform.go:138-162 Gateway.transformEVMRequest *)
Definition transform_fee_history (r : Runtime) (ctx : Context) (snapshot : Snapshot)
      (method : string) (parameters : list RawMessage) (w : W) : result Error preparedRequest * W :=
    if decide (length parameters < 2)%nat
    then (Err (InvalidParams "eth_feeHistory requires blockCount and newestBlock"), w)
    else
      let newest := default "" (parameters !! 1%nat) in
      match Unmarshal_string "" newest with
      | None => (Err (InvalidParams "newestBlock must be a block number or tag"), w)
      | Some newestBlock =>
          if String.eqb newestBlock ""
          then (Err (InvalidParams "newestBlock must be a block number or tag"), w)
          else
            let* (target, w) := getEVMBlock r ctx newest snapshot w in
            (let? target := target in
             let? encoded :=
               encodeParameters
                 (<[1%nat := Marshal_string (FormatEVMQuantity (Number target))]> parameters) in
             Ok (mkPrepared method encoded (Some target) false "" [target] false false "" None), w)
      end.

  (** A receipt is looked up by transaction hash under the accepted head. *)
  (* go: gateway/transform.go:164-182 Gateway.transformEVMRequest *)
Definition transform_receipt (snapshot : Snapshot) (method : string) (parameters : list RawMessage)
      : result Error preparedRequest :=
    match parameters with
    | [parameter] =>
        match Unmarshal_string "" parameter with
        | None => Err (InvalidParams "invalid transaction hash")
        | Some transactionHash =>
            if negb (IsEVMHash transactionHash) then Err (InvalidParams "invalid transaction hash")
            else
              let? encodedParameters := encodeParameters parameters in
              let? target := getSnapshotHead snapshot Latest in
              Ok (mkPrepared method encodedParameters (Some target) false "" [] false false
                    transactionHash None)
        end
    | _ => Err (InvalidParams "eth_getTransactionReceipt requires one transaction hash")
    end.

  (* go: gateway/transform.go:192-207 Gateway.transformEVMRequest *)
Definition transform_explicit_hash (r : Runtime) (method : string) (parameters : list RawMessage)
      : result Error preparedRequest :=
    match parameters with
    | [] => Err (InvalidParams "missing block hash")
    | parameter :: _ =>
        match Unmarshal_string "" parameter with
        | None => Err (InvalidParams "invalid block hash")
        | Some blockHash =>
            if negb (IsEVMHash blockHash) then Err (InvalidParams "invalid block hash")
            else
              let? encodedParameters := encodeParameters parameters in
              Ok (prepared method encodedParameters
                    (Some (mkHead (cfg_Name (rt_Config r)) "evm" "explicit" 0 blockHash "" 0 0 false
                             0 0 "" "")))
        end
    end.

Definition transform_neutral (method : string) (parameters : list RawMessage)
      : result Error preparedRequest :=
    let? encodedParameters := encodeParameters parameters in
    Ok (prepared method encodedParameters None).

  (* go: gateway/transform.go:64-210 Gateway.transformEVMRequest *)
Definition transformEVMRequest (r : Runtime) (ctx : Context) (snapshot : Snapshot)
      (request : Request) (w : W) : result Error preparedRequest * W :=
    let method := req_Method request in
    match ParseParams (req_Params request) with
    | Err e => (Err e, w)
    | Ok parameters =>
        match getEVMStateBlockIndex method with
        | Some blockIndex => transform_state r ctx snapshot method blockIndex parameters w
        | None =>
        match getEVMBlockMethod method with
        | Some blockMethod => transform_block r ctx snapshot blockMethod parameters w
        | None =>
            if String.eqb method "eth_blockNumber"
            then (transform_block_number snapshot method parameters, w)
            else if String.eqb method "eth_getLogs" then transformEVMLogs r ctx snapshot parameters w
            else if String.eqb method "eth_feeHistory"
            then transform_fee_history r ctx snapshot method parameters w
            else if String.eqb method "eth_getTransactionReceipt"
            then (transform_receipt snapshot method parameters, w)
            else if isEVMHeadNeutralMethod method then (transform_neutral method parameters, w)
            else if isEVMExplicitHashMethod method
            then (transform_explicit_hash r method parameters, w)
            else (Err (UnsupportedConsistency method
                         "method is not in the strict EVM read registry"), w)
        end end
    end.
End evm.

(** ** Solana *)

(** The commitment a configuration object asks for. *)
Definition solana_commitment (config : gmap string RawMessage) : result Error string :=
  let invalid := InvalidParams "invalid Solana commitment" in
  let? commitment :=
    match config !! "commitment" with
    | None => Ok Finalized
    | Some configured =>
        if String.eqb configured "null" then Err invalid
        else match Unmarshal_string Finalized configured with
             | Some commitment => Ok commitment
             | None => Err invalid
             end
    end in
  if one_of commitment [Processed; Confirmed; Finalized] then Ok commitment else Err invalid.

(** The slot floor: the accepted one, or the caller's if that is higher. *)
Definition solana_minimum (config : gmap string RawMessage) (target : Head) : result Error Z :=
  match config !! "minContextSlot" with
  | None => Ok (Number target)
  | Some encodedSlot =>
      match Unmarshal_uint64_ptr None encodedSlot with
      | Some (Some callerSlot) => Ok (Z.max (Number target) callerSlot)
      | _ => Err (InvalidParams "minContextSlot must be an unsigned integer")
      end
  end.

(** [getProgramAccounts] always asks for the context and unwraps it again unless
    the caller asked for it too. *)
Definition solana_unwrap (method : string) (config : gmap string RawMessage)
    : result Error (bool * gmap string RawMessage) :=
  if String.eqb method "getProgramAccounts" then
    let? withContext :=
      match config !! "withContext" with
      | None => Ok false
      | Some encodedFlag =>
          if String.eqb encodedFlag "null" then Err (InvalidParams "withContext must be a boolean")
          else match Unmarshal_bool false encodedFlag with
               | Some b => Ok b
               | None => Err (InvalidParams "withContext must be a boolean")
               end
      end in
    Ok (negb withContext, <["withContext" := "true"]> config)
  else Ok (false, config).

Definition solana_config (parameter : RawMessage) : result Error (gmap string RawMessage) :=
  if is_null_text parameter then Ok ∅
  else match Unmarshal_map parameter with
       | Some config => Ok (default ∅ config)
       | None => Err (InvalidParams "invalid Solana configuration object")
       end.

(* go: gateway/transform.go:330-409 Gateway.transformSolanaRequest *)
Definition transformSolanaRequest (snapshot : Snapshot) (request : Request)
    : result Error preparedRequest :=
  let method := req_Method request in
  let? parameters := ParseParams (req_Params request) in
  match getSolanaConfigIndex method with
  | Some configIndex =>
      if decide (length parameters < configIndex)%nat
      then Err (InvalidParams "missing required parameters")
      else
        let parameters := pad_parameters "{}" configIndex parameters in
        let? config := solana_config (default "" (parameters !! configIndex)) in
        let? commitment := solana_commitment config in
        let? target := getSnapshotHead snapshot commitment in
        let? minimumSlot := solana_minimum config target in
        let config :=
          <["minContextSlot" := pretty minimumSlot]>
            (<["commitment" := Marshal_string commitment]> config) in
        let? (unwrapContext, config) := solana_unwrap method config in
        match Marshal_map config with
        | None => Err (InternalError "encode Solana configuration")
        | Some encodedConfig =>
            let? encoded := encodeParameters (<[configIndex := encodedConfig]> parameters) in
            Ok (mkPrepared method encoded (Some (with_Number minimumSlot target)) false "" []
                  (hasSolanaContext method) unwrapContext "" None)
        end
  | None =>
      if isSolanaHeadNeutralMethod method then
        let? encodedParameters := encodeParameters parameters in
        Ok (prepared method encodedParameters None)
      else Err (UnsupportedConsistency method "method is not in the strict Solana read registry")
  end.

(** Members of an object decoded into a map, by exact key. *)
(* go: gateway/transform.go:451-478 Gateway.verifySolanaContext *)
Definition verifySolanaContext (response : RawMessage) (minimumSlot : Z) : option goerror :=
  match TrimSpace response with
  | String c _ =>
      if negb (is_char 123 c) then Some (ErrNew "Solana response is missing its context envelope")
      else match Unmarshal_map response with
      | None => Some (Errorf "decode Solana context: " (ErrNew "json") "")
      | Some envelope =>
          match default ∅ envelope !! "context" with
          | None => Some (ErrNew "Solana response is missing its context")
          | Some rawContext =>
              if String.eqb rawContext "null"
              then Some (ErrNew "Solana response is missing its context")
              else match (ms ← Unmarshal_struct rawContext; field Unmarshal_uint64_ptr None "slot" ms) with
              | None => Some (Errorf "decode Solana response context: " (ErrNew "json") "")
              | Some None => Some (ErrNew "Solana response contains an invalid context slot")
              | Some (Some slot) =>
                  if (slot <? minimumSlot)%Z
                  then Some (ErrNew ("response context slot " +:+ pretty slot
                                     +:+ " is below required slot " +:+ pretty minimumSlot))
                  else None
              end
          end
      end
  | EmptyString => Some (ErrNew "Solana response is missing its context envelope")
  end.

Section transform.
  Context {W : Type} `{World W, Clients W, Runtimes W}.

  (* go: gateway/transform.go:51-62 Gateway.transformRequest *)
Definition transformRequest (r : Runtime) (ctx : Context) (snapshot : Snapshot) (request : Request)
      (w : W) : result Error preparedRequest * W :=
    let family := cfg_Family (rt_Config r) in
    if isStaticMethod (req_Method request) family then (prepareStaticRequest r request, w)
    else if isWriteMethod (req_Method request) family
    then (Err (WritesDisabled (req_Method request)), w)
    else if String.eqb family "evm" then transformEVMRequest r ctx snapshot request w
    else (transformSolanaRequest snapshot request, w).
End transform.

(** ** What a prepared request is pinned to *)

(** The parameters sent are the encoding of these. *)
Definition sends (p : preparedRequest) (parameters : list RawMessage) : Prop :=
  MarshalParams parameters = Some (pq_parameters p).

Inductive evm_pinned (r : Runtime) (snapshot : Snapshot) (method : string) (p : preparedRequest) : Prop :=
| pinned_local_identity :
    isStaticMethod method "evm" = true → pq_target p = None → pq_localResponse p ≠ "" →
    evm_pinned r snapshot method p
| pinned_neutral :
    isEVMHeadNeutralMethod method = true → pq_target p = None → pq_method p = method →
    evm_pinned r snapshot method p
| pinned_state i parameters t :
    getEVMStateBlockIndex method = Some i → pq_method p = method → pq_requireEIP1898 p = true →
    pq_target p = Some t → resolved_block r snapshot t → sends p parameters →
    parameters !! i = Some (block_identifier (Hash t)) → evm_pinned r snapshot method p
| pinned_block b parameters t :
    getEVMBlockMethod method = Some b → pq_method p = bm_replacement b →
    pq_target p = Some t → resolved_block r snapshot t → sends p parameters →
    parameters !! bm_blockIndex b = Some (Marshal_string (Hash t)) → evm_pinned r snapshot method p
| pinned_head_number t :
    method = "eth_blockNumber" → sn_Heads snapshot !! Latest = Some t → pq_target p = Some t →
    pq_localResponse p = Marshal_string (FormatEVMQuantity (Number t)) →
    evm_pinned r snapshot method p
| pinned_logs_hash t :
    method = "eth_getLogs" → pq_method p = "eth_getLogs" → pq_target p = Some t →
    Commitment t = "explicit" → IsEVMHash (Hash t) = true → pq_logRange p = None →
    evm_pinned r snapshot method p
| pinned_logs_block t filter encoded :
    method = "eth_getLogs" → pq_method p = "eth_getLogs" → pq_target p = Some t →
    resolved_block r snapshot t → Marshal_map filter = Some encoded → sends p [encoded] →
    filter !! "blockHash" = Some (Marshal_string (Hash t)) → filter !! "fromBlock" = None →
    filter !! "toBlock" = None → pq_logRange p = None → evm_pinned r snapshot method p
| pinned_logs_range t filter encoded from to :
    method = "eth_getLogs" → pq_method p = "eth_getLogs" → pq_target p = Some t →
    sn_Heads snapshot !! Latest = Some t → (0 ≤ from ≤ to)%Z → (to ≤ Number t)%Z →
    Marshal_map filter = Some encoded → sends p [encoded] →
    filter !! "fromBlock" = Some (Marshal_string (FormatEVMQuantity from)) →
    filter !! "toBlock" = Some (Marshal_string (FormatEVMQuantity to)) →
    filter !! "blockHash" = None → pq_logRange p = Some (mkLogRange from to) →
    pq_verifyBoundaries p = [t] → evm_pinned r snapshot method p
| pinned_fee_history parameters t :
    method = "eth_feeHistory" → pq_method p = method → pq_target p = Some t →
    resolved_block r snapshot t → pq_verifyBoundaries p = [t] → sends p parameters →
    parameters !! 1%nat = Some (Marshal_string (FormatEVMQuantity (Number t))) →
    evm_pinned r snapshot method p
| pinned_receipt t :
    method = "eth_getTransactionReceipt" → pq_method p = method → pq_target p = Some t →
    sn_Heads snapshot !! Latest = Some t → IsEVMHash (pq_receiptHash p) = true →
    evm_pinned r snapshot method p
| pinned_explicit t :
    isEVMExplicitHashMethod method = true → pq_method p = method → pq_target p = Some t →
    Commitment t = "explicit" → IsEVMHash (Hash t) = true → evm_pinned r snapshot method p.

Lemma encodeParameters_Ok l e : encodeParameters l = Ok e → MarshalParams l = Some e.
Proof. unfold encodeParameters. by destruct (MarshalParams l); intros [= ->]. Qed.

Lemma getSnapshotHead_Ok snapshot c h :
  getSnapshotHead snapshot c = Ok h → sn_Heads snapshot !! c = Some h ∧ IsZero h = false.
Proof.
  unfold getSnapshotHead, Get. destruct (sn_Heads snapshot !! c) as [h'|]; simpl; [|done].
  destruct (IsZero h') eqn:Hz; [done|]. intros [= ->]. done.
Qed.

Lemma pad_parameters_length filler i l :
  (i ≤ length l)%nat → (i < length (pad_parameters filler i l))%nat.
Proof. unfold pad_parameters. rewrite length_app, length_replicate. lia. Qed.

Lemma getEVMLogBound_Ok selector accepted n :
  u64_wf (Number accepted) → getEVMLogBound selector accepted = Ok n →
  (0 ≤ n ≤ Number accepted)%Z.
Proof.
  unfold getEVMLogBound, u64_wf. intros Hwf.
  destruct (String.eqb selector Latest); [intros [= <-]; lia|].
  destruct (String.eqb selector "earliest"); [intros [= <-]; lia|].
  destruct (_ || _); [done|]. destruct (ParseEVMQuantity selector) as [e|m] eqn:Hp; [done|].
  destruct (Z.ltb_spec (Number accepted) m); [done|]. intros [= <-].
  apply ParseEVMQuantity_wf in Hp. u64_lia.
Qed.

(** Split a successful [let?] chain in a hypothesis. *)
Ltac bind_ok H :=
  match type of H with
  | result_bind ?m _ = Ok _ =>
      let a := fresh "a" in let Ha := fresh "Ha" in
      apply result_bind_Ok in H as (a & Ha & H)
  end.

Lemma log_bounds_Ok filter snapshot toBlock a from to :
  snapshot_wf snapshot → log_bounds filter snapshot = Ok (toBlock, a, from, to) →
  sn_Heads snapshot !! Latest = Some a ∧ (0 ≤ from ≤ to)%Z ∧ (to ≤ Number a)%Z.
Proof.
  intros Hwf. unfold log_bounds.
  destruct (Unmarshal_string _ _) as [fs|]; [|done]. destruct (Unmarshal_string _ _) as [ts|]; [|done].
  destruct (_ || _); [done|]. intros H. repeat bind_ok H.
  destruct (Z.ltb_spec a2 a1); [done|]. injection H as <- <- <- <-.
  apply getSnapshotHead_Ok in Ha as [Ha _]. pose proof (Hwf _ Ha) as Hn.
  apply getEVMLogBound_Ok in Ha0, Ha1; [|done..]. split; [done|]. lia.
Qed.

Section pinned.
  Context {W : Type} `{World W, Clients W, Runtimes W}.
  Variable r : Runtime.
  Variable snapshot : Snapshot.
  Hypothesis Hwf : snapshot_wf snapshot.

Lemma getEVMBlock_Ok ctx reference w t w' :
    getEVMBlock r ctx reference snapshot w = (Ok t, w') → resolved_block r snapshot t.
  Proof using Type* Hwf.
    unfold getEVMBlock. destruct (GetEVMBlock r ctx reference snapshot w) as [[e|h] w1] eqn:Hg; [done|].
    intros [= <- _]. by eapply GetEVMBlock_resolved.
  Qed.

Lemma transform_state_pinned ctx method i parameters w p w' :
    getEVMStateBlockIndex method = Some i →
    transform_state r ctx snapshot method i parameters w = (Ok p, w') →
    evm_pinned r snapshot method p.
  Proof using Type* Hwf.
    intros Hi. unfold transform_state. destruct (decide _); [done|].
    destruct (getEVMBlock _ _ _ _ _) as [t w1] eqn:Ht. intros [= Hp _]. repeat bind_ok Hp. subst.
    injection Hp as <-. apply getEVMBlock_Ok in Ht. apply encodeParameters_Ok in Ha0.
    eapply pinned_state; [done|done|done|done|done|exact Ha0|].
    apply list_lookup_insert_eq, pad_parameters_length. lia.
  Qed.

Lemma transform_block_pinned ctx method b parameters w p w' :
    getEVMBlockMethod method = Some b →
    transform_block r ctx snapshot b parameters w = (Ok p, w') →
    evm_pinned r snapshot method p.
  Proof using Type* Hwf.
    intros Hi. unfold transform_block. destruct (decide _); [done|].
    destruct (getEVMBlock _ _ _ _ _) as [t w1] eqn:Ht. intros [= Hp _]. repeat bind_ok Hp. subst.
    injection Hp as <-. apply getEVMBlock_Ok in Ht. apply encodeParameters_Ok in Ha0.
    eapply pinned_block; [done|done|done|done|exact Ha0|]. apply list_lookup_insert_eq. lia.
  Qed.

Lemma prepareEVMLogRequest_Ok filter t bs range p :
    prepareEVMLogRequest filter t bs range = Ok p →
    ∃ encoded, Marshal_map filter = Some encoded ∧ sends p [encoded] ∧
      pq_method p = "eth_getLogs" ∧ pq_target p = Some t ∧ pq_verifyBoundaries p = bs ∧
      pq_logRange p = range.
  Proof using Type.
    unfold prepareEVMLogRequest. destruct (Marshal_map filter) as [encoded|]; [|done].
    intros Hp. bind_ok Hp. injection Hp as <-. apply encodeParameters_Ok in Ha. eauto 8.
  Qed.

Lemma transformEVMLogs_pinned ctx parameters w p w' :
    transformEVMLogs r ctx snapshot parameters w = (Ok p, w') →
    evm_pinned r snapshot "eth_getLogs" p.
  Proof using Type* Hwf.
    unfold transformEVMLogs. destruct parameters as [|par [|]]; [done| |done].
    destruct (Unmarshal_map par) as [[filter|]|]; [|done|done].
    destruct (filter !! "blockHash") as [raw|] eqn:Hbh.
    - unfold logs_by_hash. destruct (_ || _); [done|].
      destruct (Unmarshal_string "" raw) as [hash|]; [|done].
      destruct (IsEVMHash hash) eqn:Hh; [|done]. simpl. intros [= Hp _]. bind_ok Hp.
      injection Hp as <-. by eapply pinned_logs_hash.
    - destruct (log_bounds filter snapshot) as [e|[[[tb a] from] to]] eqn:Hb; [done|].
      apply log_bounds_Ok in Hb as (Ha & Hr & Hto); [|done]. destruct (_ && _).
      + destruct (getEVMBlock _ _ _ _ _) as [t w1] eqn:Ht. intros [= Hp _]. bind_ok Hp. subst.
        apply getEVMBlock_Ok in Ht.
        apply prepareEVMLogRequest_Ok in Hp as (enc & ? & ? & ? & ? & ? & ?).
        eapply (pinned_logs_block _ _ _ _ _ _ enc); try done.
        * apply lookup_insert_eq.
        * rewrite lookup_insert_ne, lookup_delete_ne by done. apply lookup_delete_eq.
        * rewrite lookup_insert_ne by done. apply lookup_delete_eq.
      + intros [= Hp _]. apply prepareEVMLogRequest_Ok in Hp as (enc & ? & ? & ? & ? & ? & ?).
        eapply (pinned_logs_range _ _ _ _ _ _ enc from to); try done.
        * rewrite lookup_insert_ne by done. apply lookup_insert_eq.
        * apply lookup_insert_eq.
        * by rewrite !lookup_insert_ne by done.
  Qed.

Lemma transform_fee_history_pinned ctx parameters w p w' :
    transform_fee_history r ctx snapshot "eth_feeHistory" parameters w = (Ok p, w') →
    evm_pinned r snapshot "eth_feeHistory" p.
  Proof using Type* Hwf.
    unfold transform_fee_history. destruct (decide _) as [|Hlen]; [done|].
    destruct (Unmarshal_string _ _) as [s|]; [|done]. destruct (String.eqb s ""); [done|].
    destruct (getEVMBlock _ _ _ _ _) as [t w1] eqn:Ht. intros [= Hp _]. repeat bind_ok Hp. subst.
    injection Hp as <-. apply getEVMBlock_Ok in Ht. apply encodeParameters_Ok in Ha0.
    eapply pinned_fee_history; [done|done|done|done|done|exact Ha0|]. apply list_lookup_insert_eq. lia.
  Qed.

Lemma transformEVMRequest_pinned ctx request w p w' :
    transformEVMRequest r ctx snapshot request w = (Ok p, w') →
    evm_pinned r snapshot (req_Method request) p.
  Proof using Type* Hwf.
    unfold transformEVMRequest. set (method := req_Method request). clearbody method.
    destruct (ParseParams _) as [e|parameters]; [done|].
    destruct (getEVMStateBlockIndex method) as [i|] eqn:Hi; [by apply transform_state_pinned|].
    destruct (getEVMBlockMethod method) as [b|] eqn:Hb; [by apply transform_block_pinned|].
    destruct (String.eqb_spec method "eth_blockNumber") as [->|_].
    { unfold transform_block_number. destruct (negb _); [done|]. intros [= Hp _]. bind_ok Hp.
      injection Hp as <-. apply getSnapshotHead_Ok in Ha as [Ha _]. by eapply pinned_head_number. }
    destruct (String.eqb_spec method "eth_getLogs") as [->|_]; [apply transformEVMLogs_pinned|].
    destruct (String.eqb_spec method "eth_feeHistory") as [->|_]; [apply transform_fee_history_pinned|].
    destruct (String.eqb_spec method "eth_getTransactionReceipt") as [->|_].
    { unfold transform_receipt. destruct parameters as [|par [|]]; [done| |done].
      destruct (Unmarshal_string "" par) as [tx|]; [|done].
      destruct (IsEVMHash tx) eqn:Hh; [|done]. simpl. intros [= Hp _]. repeat bind_ok Hp.
      injection Hp as <-. apply getSnapshotHead_Ok in Ha0 as [Ha0 _]. by eapply pinned_receipt. }
    destruct (isEVMHeadNeutralMethod method) eqn:Hn.
    { unfold transform_neutral. intros [= Hp _]. bind_ok Hp. injection Hp as <-. by apply pinned_neutral. }
    destruct (isEVMExplicitHashMethod method) eqn:Hx; [|done].
    unfold transform_explicit_hash. destruct parameters as [|par rest]; [done|].
    destruct (Unmarshal_string "" par) as [hash|]; [|done].
    destruct (IsEVMHash hash) eqn:Hh; [|done]. simpl. intros [= Hp _]. bind_ok Hp.
    injection Hp as <-. by eapply pinned_explicit.
  Qed.
End pinned.

Lemma solana_minimum_Ok config target m :
  solana_minimum config target = Ok m →
  (Number target ≤ m)%Z ∧
  (∀ t s, config !! "minContextSlot" = Some t → Unmarshal_uint64_ptr None t = Some (Some s) →
     (s ≤ m)%Z).
Proof.
  unfold solana_minimum. destruct (config !! "minContextSlot") as [t|]; [|intros [= <-]; split; [lia|done]].
  destruct (Unmarshal_uint64_ptr None t) as [[s|]|] eqn:Hu; [|done|done]. intros [= <-].
  split; [lia|]. intros t' s' [= <-]. rewrite Hu. intros [= <-]. lia.
Qed.

Lemma solana_unwrap_Ok method config b config' :
  solana_unwrap method config = Ok (b, config') →
  (∀ k, k ≠ "withContext" → config' !! k = config !! k) ∧
  (method = "getProgramAccounts" → config' !! "withContext" = Some "true") ∧
  (b = true → method = "getProgramAccounts").
Proof.
  unfold solana_unwrap. destruct (String.eqb_spec method "getProgramAccounts") as [->|Hne].
  - intros Hu. bind_ok Hu. injection Hu as <- <-. split_and!; [|intros; apply lookup_insert_eq|done].
    intros k Hk. by rewrite lookup_insert_ne.
  - intros [= <- <-]. done.
Qed.

(** What a Solana request is bound to. *)
Inductive solana_pinned (snapshot : Snapshot) (method : string) (p : preparedRequest) : Prop :=
| solana_neutral :
    isSolanaHeadNeutralMethod method = true → pq_target p = None → pq_method p = method →
    solana_pinned snapshot method p
| solana_floor i commitment accepted slot config encoded parameters original parameter :
    getSolanaConfigIndex method = Some i → pq_method p = method →
    solana_config parameter = Ok original →
    (∀ k, k ≠ "commitment" → k ≠ "minContextSlot" → k ≠ "withContext" →
       config !! k = original !! k) →
    (∀ t s, original !! "minContextSlot" = Some t → Unmarshal_uint64_ptr None t = Some (Some s) →
       (s ≤ slot)%Z) →
    commitment ∈ [Processed; Confirmed; Finalized] →
    sn_Heads snapshot !! commitment = Some accepted → (Number accepted ≤ slot)%Z →
    pq_target p = Some (with_Number slot accepted) →
    Marshal_map config = Some encoded → sends p parameters → parameters !! i = Some encoded →
    config !! "minContextSlot" = Some (pretty slot) →
    config !! "commitment" = Some (Marshal_string commitment) →
    (pq_unwrapContext p = true → config !! "withContext" = Some "true") →
    pq_verifyContextSlot p = hasSolanaContext method → solana_pinned snapshot method p.

Lemma solana_commitment_Ok config c :
  solana_commitment config = Ok c → c ∈ [Processed; Confirmed; Finalized].
Proof.
  unfold solana_commitment. intros Hc. bind_ok Hc. destruct (one_of a _) eqn:Ho; [|done].
  injection Hc as <-. unfold one_of in Ho. apply existsb_exists in Ho as (x & Hx & Heq).
  bool_to_prop. subst. by apply list_elem_of_In.
Qed.

Lemma transformSolanaRequest_pinned snapshot request p :
  transformSolanaRequest snapshot request = Ok p → solana_pinned snapshot (req_Method request) p.
Proof.
  unfold transformSolanaRequest. set (method := req_Method request). clearbody method.
  intros Hp. bind_ok Hp. rename a into parameters. clear Ha.
  destruct (getSolanaConfigIndex method) as [i|] eqn:Hi.
  - destruct (decide _) as [|Hlen]; [done|]. bind_ok Hp. bind_ok Hp. bind_ok Hp. bind_ok Hp.
    apply result_bind_Ok in Hp as ([u config'] & Hu & Hp).
    apply solana_commitment_Ok in Ha0. apply getSnapshotHead_Ok in Ha1 as [Ha1 _].
    apply solana_minimum_Ok in Ha2 as [Hmin Hcaller]. apply solana_unwrap_Ok in Hu as (Hkeep & Hctx & Hu).
    destruct (Marshal_map config') as [encoded|] eqn:Hm; [|done]. bind_ok Hp.
    injection Hp as <-. apply encodeParameters_Ok in Ha2.
    eapply (solana_floor _ _ _ i a0 a1 a2 config' encoded _ a);
      [done|done|exact Ha| |done|done|done|done|done|done|exact Ha2| | | | |done].
    + intros k K1 K2 K3. by rewrite Hkeep, !lookup_insert_ne by done.
    + apply list_lookup_insert_eq, pad_parameters_length. lia.
    + rewrite Hkeep by done. apply lookup_insert_eq.
    + rewrite Hkeep, lookup_insert_ne by done. apply lookup_insert_eq.
    + intros Hb. apply Hctx, Hu, Hb.
  - destruct (isSolanaHeadNeutralMethod method) eqn:Hn; [|done]. bind_ok Hp. injection Hp as <-.
    by apply solana_neutral.
Qed.

Lemma transformRequest_pinned `{World W, Clients W, Runtimes W} r ctx snapshot request w p w' :
  cfg_Family (rt_Config r) = "evm" → snapshot_wf snapshot →
  transformRequest r ctx snapshot request w = (Ok p, w') →
  evm_pinned r snapshot (req_Method request) p.
Proof.
  intros Hf Hwf. unfold transformRequest. rewrite Hf. destruct (isStaticMethod _ _) eqn:Hs.
  - intros [= Hp _]. unfold prepareStaticRequest in Hp. bind_ok Hp.
    destruct (negb _); [done|]. injection Hp as <-. by apply pinned_local_identity.
  - destruct (isWriteMethod _ _); [done|]. simpl. intros Hp.
    by eapply transformEVMRequest_pinned.
Qed.

(** A receipt lookup carries one transaction hash and is held under the accepted head. *)
Lemma transform_receipt_shape `{World W, Clients W, Runtimes W} r ctx snapshot request w p w' :
  cfg_Family (rt_Config r) = "evm" → req_Method request = "eth_getTransactionReceipt" →
  transformRequest r ctx snapshot request w = (Ok p, w') →
  ∃ par accepted, ParseParams (req_Params request) = Ok [par] ∧
    Unmarshal_string "" par = Some (pq_receiptHash p) ∧ pq_receiptHash p ≠ "" ∧
    pq_target p = Some accepted ∧ sn_Heads snapshot !! Latest = Some accepted ∧
    pq_unwrapContext p = false ∧ pq_localResponse p = "".
Proof.
  intros Hf Hm. unfold transformRequest. rewrite Hf, Hm. simpl. unfold transformEVMRequest. rewrite Hm.
  destruct (ParseParams _) as [e|parameters]; [done|]. simpl. unfold transform_receipt.
  destruct parameters as [|par [|]]; [done| |done].
  destruct (Unmarshal_string "" par) as [tx|] eqn:Htx; [|done].
  destruct (IsEVMHash tx) eqn:Hh; [|done]. simpl. intros [= Hp _]. repeat bind_ok Hp.
  injection Hp as <-. apply getSnapshotHead_Ok in Ha0 as [Ha0 _].
  exists par, a0. simpl. split_and!; try done. by intros ->.
Qed.

(** * Properties *)



(** Writes are refused with the dedicated error, and an EVM or Solana method
    outside the read registries is never prepared, in both cases without any call
    upstream. *)
Lemma writes_and_unknown_refused `{World W, Clients W, Runtimes W} r ctx snapshot request w :
  let family := cfg_Family (rt_Config r) in
  let method := req_Method request in
  isStaticMethod method family = false →
  (isWriteMethod method family = true →
   transformRequest r ctx snapshot request w = (Err (WritesDisabled method), w)) ∧
  (family = "evm" → isWriteMethod method family = false →
   getEVMStateBlockIndex method = None → getEVMBlockMethod method = None →
   one_of method ["eth_blockNumber"; "eth_getLogs"; "eth_feeHistory"; "eth_getTransactionReceipt"] = false →
   isEVMHeadNeutralMethod method = false → isEVMExplicitHashMethod method = false →
   ∃ e, transformRequest r ctx snapshot request w = (Err e, w)) ∧
  (family ≠ "evm" → isWriteMethod method family = false →
   getSolanaConfigIndex method = None → isSolanaHeadNeutralMethod method = false →
   ∃ e, transformRequest r ctx snapshot request w = (Err e, w)).
Proof.
  intros family method Hs. unfold transformRequest. fold family method. rewrite Hs. split_and!.
  - by intros ->.
  - intros Hf -> R1 R2 R3 R4 R5. rewrite Hf. simpl. unfold transformEVMRequest. fold method.
    destruct (ParseParams _) as [e|parameters]; [eauto|]. rewrite R1, R2, R4, R5.
    unfold one_of in R3. simpl in R3. rewrite !orb_false_iff in R3.
    destruct R3 as (-> & -> & -> & -> & _). eauto.
  - intros Hf -> R1 R2. destruct (String.eqb_spec family "evm"); [done|].
    unfold transformSolanaRequest. fold method. destruct (ParseParams _) as [e|parameters]; [eauto|].
    simpl. rewrite R1, R2. eauto.
Qed.

Definition demo_balance : Request :=
  mkRequest "2.0" "1" "eth_getBalance" (js "['0x0000000000000000000000000000000000000001','0x4']").

Definition demo_prepared : preparedRequest :=
  mkPrepared "eth_getBalance"
    (js "['0x0000000000000000000000000000000000000001',{'blockHash':'" +:+ sim_hash "bb"
     +:+ js "','requireCanonical':true}]")
    (Some demo_parent) true "" [] false false "" None.


Definition demo_slot_head : Head :=
  mkHead "sol" "solana" "confirmed" 250 "" "" 4 0 false 900 900 "up" "".

Definition demo_slots : Snapshot := mkSnapshot "sol" {[ "confirmed" := demo_slot_head ]}.

Definition demo_account : Request :=
  mkRequest "2.0" "1" "getAccountInfo"
    (js "['11111111111111111111111111111111',{'commitment':'confirmed','minContextSlot':260,'encoding':'base64'}]").

Definition demo_solana_prepared : preparedRequest :=
  mkPrepared "getAccountInfo"
    (js "['11111111111111111111111111111111',{'commitment':'confirmed','encoding':'base64','minContextSlot':260}]")
    (Some (with_Number 260 demo_slot_head)) false "" [] true false "" None.


Lemma writes_and_unknown_refused_witness :
  let request := mkRequest "2.0" "1" "eth_sendRawTransaction" (js "['0x00']") in
  transformRequest demo_runtime Background demo_snapshot request demo_chain_world =
    (Err (WritesDisabled "eth_sendRawTransaction"), demo_chain_world).
Proof.
  apply (proj1 (writes_and_unknown_refused demo_runtime Background demo_snapshot
    (mkRequest "2.0" "1" "eth_sendRawTransaction" (js "['0x00']")) demo_chain_world eq_refl)).
  reflexivity.
Defined.
