(* ===== verification/Router.v ===== *)
(** * Routing and response checks — internal/gateway/router.go and verification.go

    [route] asks the ranked upstreams in turn, but only those that can serve the
    pinned target, and lets an answer through only after it has been checked
    against that target. *)

From S2P Require Import Prelude GoStrings GoJson Evm JsonRpc Head World Upstream Chain Transform.
From Stdlib Require Import Ascii.

(** ** Checks on responses *)

(** One entry of a log response. *)
Definition Unmarshal_log (t : RawMessage) : option (string * string * bool) :=
  ms ← Unmarshal_struct t;
  blockHash ← field Unmarshal_string "" "blockHash" ms;
  blockNumber ← field Unmarshal_string "" "blockNumber" ms;
  removed ← field Unmarshal_bool false "removed" ms;
  Some (blockHash, blockNumber, removed).

(** The checks on one log: not removed, and inside the range or of the block. *)
Definition check_log (p : preparedRequest) (target : Head) (log : string * string * bool)
    : option goerror :=
  let* (blockHash, blockNumber, removed) := log in
  if (removed : bool) then Some (ErrNew "log response contains removed logs")
  else match pq_logRange p with
  | Some range =>
      match ParseEVMQuantity blockNumber with
      | Err _ => Some (ErrNew "log response exceeds requested block range")
      | Ok number =>
          if (number <? lr_from range)%Z || (lr_to range <? number)%Z
          then Some (ErrNew "log response exceeds requested block range") else None
      end
  | None =>
      if negb (EqualFold blockHash (Hash target))
      then Some (ErrNew "log response does not match requested block") else None
  end.

Fixpoint check_logs (p : preparedRequest) (target : Head) (logs : list (string * string * bool))
    : option goerror :=
  match logs with
  | [] => None
  | log :: rest =>
      match check_log p target log with Some e => Some e | None => check_logs p target rest end
  end.

(** The cases by method, for a payload pinned to [target]. *)
Definition verify_block (r : Runtime) (now : Z) (target : Head) (payload : RawMessage)
    : option goerror :=
  match ParseEVMHead r now (mkParseRequest "" "" payload) with
  | Err e => Some (Errorf "read pinned block response: " e "")
  | Ok block =>
      if negb (EqualFold (Hash block) (Hash target))
      then Some (ErrNew "block response does not match requested hash") else None
  end.

Definition verify_logs (p : preparedRequest) (target : Head) (payload : RawMessage) : option goerror :=
  match Unmarshal_slice payload with
  | None => Some (Errorf "read pinned log response: " (ErrNew "json") "")
  | Some None => Some (ErrNew "pinned logs response is null")
  | Some (Some elements) =>
      match mapM Unmarshal_log elements with
      | None => Some (Errorf "read pinned log response: " (ErrNew "json") "")
      | Some logs => check_logs p target logs
      end
  end.

Definition verify_count (payload : RawMessage) : option goerror :=
  match Unmarshal_string "" payload with
  | None => Some (Errorf "read pinned block count: " (ErrNew "json") "")
  | Some count =>
      match ParseEVMQuantity count with
      | Err e => Some (Errorf "validate pinned block count: " (quantity_goerror e) "")
      | Ok _ => None
      end
  end.

Definition verify_transaction (target : Head) (payload : RawMessage) : option goerror :=
  match (ms ← Unmarshal_struct payload; field Unmarshal_string "" "blockHash" ms) with
  | None => Some (Errorf "read pinned transaction: " (ErrNew "json") "")
  | Some blockHash =>
      if negb (EqualFold blockHash (Hash target))
      then Some (ErrNew "transaction response does not match requested block") else None
  end.

(* go: gateway/verification.go:20-87 Gateway.verifyEVMResponse *)
Definition verifyEVMResponse (r : Runtime) (now : Z) (p : preparedRequest) (target : Head)
    (payload : RawMessage) : option goerror :=
  if pq_requireEIP1898 p then
    if is_null_text payload then Some (ErrNew "pinned state response is null") else None
  else if String.eqb (pq_method p) "eth_getBlockByHash" then verify_block r now target payload
  else if String.eqb (pq_method p) "eth_getLogs" then verify_logs p target payload
  else if one_of (pq_method p) ["eth_getBlockTransactionCountByHash"; "eth_getUncleCountByBlockHash"]
  then verify_count payload
  else if String.eqb (pq_method p) "eth_getTransactionByBlockHashAndIndex"
          && negb (is_null_text payload)
  then verify_transaction target payload
  else None.

(* go: gateway/router.go:437-454 Gateway.getEVMReceiptBlock *)
Definition getEVMReceiptBlock (receipt : RawMessage) (transactionHash : string)
    : result goerror Head :=
  match (ms ← Unmarshal_struct receipt;
         tx ← field Unmarshal_string "" "transactionHash" ms;
         hash ← field Unmarshal_string "" "blockHash" ms;
         number ← field Unmarshal_string "" "blockNumber" ms;
         Some (tx, hash, number)) with
  | None => Err (Errorf "decode transaction receipt: " (ErrNew "json") "")
  | Some (tx, hash, number) =>
      if negb (IsEVMHash tx) || negb (EqualFold tx transactionHash) || negb (IsEVMHash hash)
      then Err (ErrNew "receipt has an invalid transaction or block hash")
      else match ParseEVMQuantity number with
           | Err e => Err (Errorf "invalid receipt block number: " (quantity_goerror e) "")
           | Ok blockNumber => Ok (mkHead "" "evm" "" blockNumber hash "" 0 0 false 0 0 "" "")
           end
  end.

(** ** Routing *)

Section route.
  Context {W : Type} `{World W, Clients W, Runtimes W, SingleFlight W}.
  Variable range_order : gmap string availabilityRecord → list string.

  (* go: gateway/router.go:456-472 Gateway.verifyEVMBoundaries *)
Fixpoint verifyEVMBoundaries (r : Runtime) (ctx : Context) (candidate : Client)
    (targets : list Head) (w : W) : bool * W :=
  match targets with
  | [] => (true, w)
  | target :: rest =>
      match MarshalCallParams [Marshal_string (FormatEVMQuantity (Number target)); Marshal_bool false] with
      | None => (false, w)
      | Some parameters =>
          let* (blockCall, w) := Call candidate ctx "eth_getBlockByNumber" parameters w in
          match blockCall with
          | Err _ => (false, w)
          | Ok resp =>
              match rpc_Error resp with
              | Some _ => (false, w)
              | None =>
                  match ParseEVMHead r (now w)
                          (mkParseRequest (Commitment target) (cl_ID candidate) (rpc_Result resp)) with
                  | Err _ => (false, w)
                  | Ok block =>
                      if negb (Number block =? Number target)%Z
                         || negb (EqualFold (Hash block) (Hash target))
                      then (false, w)
                      else verifyEVMBoundaries r ctx candidate rest w
                  end
              end
          end
      end
  end.

  (* go: gateway/router.go:474-489 Gateway.getTargetErrorData *)
Definition getTargetErrorData (chainName : string) (target : option Head) (attempted : gset string)
    : any :=
  AMap ([("chain", AStr chainName);
         ("attempted_upstreams", AList (AStr <$> merge_sort String.le (base.elements attempted)))]
        ++ match target with
           | Some t =>
               [("target_number", ANum (pretty (Number t)))]
               ++ (if String.eqb (Hash t) "" then [] else [("target_hash", AStr (Hash t))])
               ++ [("commitment", AStr (Commitment t))]
           | None => []
           end).

  (** What a round over the candidates has counted; [attempted] spans rounds. *)
Record round := mkRound {
  rd_attempted : gset string;
  rd_eligible : Z;
  rd_nullReceipts : Z;
  rd_nullUpstream : string
}.

  (** Trying one candidate: go on to the next, or return. *)
Inductive attempt :=
| Next (st : round)
| Return (payload : RawMessage) (upstream : string) (e : option Error).

Definition is_available (r : Runtime) (ctx : Context) (candidate : Client) (target : Head) (w : W)
    : bool * W :=
  let probeCtx := WithTimeout ctx (1500 * millisecond) w in
  let* (res, w) :=
    if String.eqb (cfg_Family (rt_Config r)) "evm"
    then HasEVMBlock range_order r probeCtx candidate target w
    else if String.eqb (cfg_Family (rt_Config r)) "solana"
    then HasSolanaSlot range_order r probeCtx candidate target w
    else (Ok false, w) in
  (match res with Ok b => b | Err _ => false end, w).

  (** The checks after the call that need no further call: [None] rejects the
      candidate and drops its availability record, or just goes on. *)
Definition check_slot_result (p : preparedRequest) (target : Head) (payload : RawMessage) : bool :=
  if String.eqb (pq_method p) "getSlot" then
    match Unmarshal_uint64_ptr None payload with
    | Some (Some slot) => (Number target <=? slot)%Z
    | _ => false
    end
  else if String.eqb (pq_method p) "getEpochInfo" then
    match (ms ← Unmarshal_struct payload; field Unmarshal_uint64_ptr None "absoluteSlot" ms) with
    | Some (Some slot) => (Number target <=? slot)%Z
    | _ => false
    end
  else true.

Definition unwrap (p : preparedRequest) (payload : RawMessage) : option RawMessage :=
  if pq_unwrapContext p then
    v ← (ms ← Unmarshal_struct payload; field Unmarshal_raw "" "value" ms);
    if String.eqb v "" then None else Some v
  else Some payload.

  (** The verdict on a result that carries no RPC error. *)
Inductive verdict :=
| Accept (payload : RawMessage)
| Mismatch                        (* and the availability record is dropped *)
| Ignore
| NullReceipt.

Definition judge_receipt (p : preparedRequest) (target : Head) (payload : RawMessage) : verdict :=
  if String.eqb (pq_receiptHash p) "" then Accept payload
  else if is_null_text payload then NullReceipt
  else match getEVMReceiptBlock payload (pq_receiptHash p) with
       | Err _ => Ignore
       | Ok block => if (Number target <? Number block)%Z then NullReceipt else Accept payload
       end.

Definition judge_slots (r : Runtime) (p : preparedRequest) (payload : RawMessage) : verdict :=
  match pq_target p with
  | Some t =>
      if pq_verifyContextSlot p && bool_decide (verifySolanaContext payload (Number t) ≠ None)
      then Mismatch
      else if String.eqb (cfg_Family (rt_Config r)) "solana" && negb (check_slot_result p t payload)
      then Ignore
      else Accept payload
  | None => Accept payload
  end.

Definition judge (r : Runtime) (now : Z) (p : preparedRequest) (payload : RawMessage) : verdict :=
  let target := default zero_Head (pq_target p) in
  if String.eqb (cfg_Family (rt_Config r)) "evm" && bool_decide (pq_target p ≠ None)
     && bool_decide (verifyEVMResponse r now p target payload ≠ None)
  then Mismatch
  else match judge_receipt p target payload with
  | Accept payload =>
      match judge_slots r p payload with
      | Accept payload =>
          match unwrap p payload with Some payload => Accept payload | None => Ignore end
      | v => v
      end
  | v => v
  end.

Definition count_null (candidate : Client) (st : round) : round :=
  mkRound (rd_attempted st) (rd_eligible st) (rd_nullReceipts st + 1) (cl_ID candidate).

  (** A candidate whose answer does not fit is not trusted with the target again. *)
Definition drop_availability (r : Runtime) (candidate : Client) (p : preparedRequest) (w : W) : W :=
  match pq_target p with
  | Some t => InvalidateAvailability r (cl_ID candidate) t w
  | None => w
  end.

  (** The candidate has been counted: call it and judge the answer. *)
Definition ask (r : Runtime) (ctx : Context) (p : preparedRequest) (candidate : Client) (st : round)
    (w : W) : attempt * W :=
  let* (response, w) := Call candidate ctx (pq_method p) (pq_parameters p) w in
  match response with
  | Err _ => (Next st, w)
  | Ok response =>
      let method_missing := match rpc_Error response with
                            | Some e => (Code e =? CodeMethodNotFound)%Z | None => false end in
      if method_missing then
        let w := update_client candidate (MarkMethodUnsupported (pq_method p)) w in
        (Next (if String.eqb (pq_receiptHash p) "" then st
               else mkRound (rd_attempted st) (rd_eligible st - 1) (rd_nullReceipts st)
                      (rd_nullUpstream st)), w)
      else if IsUnavailableRPCError (rpc_Error response)
      then (Next st, drop_availability r candidate p w)
      else match rpc_Error response with
      | Some e => (Return "" (cl_ID candidate) (Some e), w)
      | None =>
          match judge r (now w) p (rpc_Result response) with
          | Mismatch => (Next st, drop_availability r candidate p w)
          | Ignore => (Next st, w)
          | NullReceipt => (Next (count_null candidate st), w)
          | Accept payload =>
              if decide (pq_verifyBoundaries p = []) then (Return payload (cl_ID candidate) None, w)
              else
                let* (same, w) := verifyEVMBoundaries r ctx candidate (pq_verifyBoundaries p) w in
                if (same : bool) then (Return payload (cl_ID candidate) None, w)
                else (Next st, drop_availability r candidate p w)
          end
      end
  end.

Definition try_candidate (r : Runtime) (ctx : Context) (p : preparedRequest) (candidate : Client)
    (st : round) (w : W) : attempt * W :=
  let supports := state_of candidate w in
  if bool_decide (cl_ID candidate ∈ rd_attempted st) || negb (SupportsMethod (pq_method p) supports)
  then (Next st, w)
  else if pq_requireEIP1898 p && negb (SupportsPinnedMethod (pq_method p) supports)
  then (Next st, w)
  else
    let* (available, w) :=
      match pq_target p with
      | Some t => if String.eqb (pq_receiptHash p) "" then is_available r ctx candidate t w
                  else (true, w)
      | None => (true, w)
      end in
    if negb available then (Next st, w)
    else
      let st := mkRound ({[cl_ID candidate]} ∪ rd_attempted st) (rd_eligible st + 1)
                  (rd_nullReceipts st) (rd_nullUpstream st) in
      let* (same, w) := verifyEVMBoundaries r ctx candidate (pq_verifyBoundaries p) w in
      if negb same then (Next st, w) else ask r ctx p candidate st w.

Fixpoint try_all (r : Runtime) (ctx : Context) (p : preparedRequest) (candidates : list Client)
    (st : round) (w : W) : attempt * W :=
  match candidates with
  | [] => (Next st, w)
  | candidate :: rest =>
      let* (a, w) := try_candidate r ctx p candidate st w in
      match a with
      | Next st => try_all r ctx p rest st w
      | Return _ _ _ => (a, w)
      end
  end.

  (** The origin of the target goes first. *)
Definition route_candidates (r : Runtime) (p : preparedRequest) (w : W) : list Client :=
  let candidates := Candidates r (pq_requireEIP1898 p) w in
  match pq_target p with
  | Some t =>
      if String.eqb (Origin t) "" then candidates
      else stable_sort (λ a b, String.eqb (cl_ID a) (Origin t) && negb (String.eqb (cl_ID b) (Origin t)))
             candidates
  | None => candidates
  end.

  (** The answer of [route]: payload, upstream and error. *)
Definition answer : Type := RawMessage * string * option Error.

  (** Rounds over the candidates, 75 ms apart.  [None] means that [fuel] rounds
      were not enough. *)
  (* go: gateway/router.go:279-435 Gateway.route *)
Fixpoint route (fuel : nat) (r : Runtime) (ctx : Context) (p : preparedRequest)
    (attempted : gset string) (w : W) : option answer * W :=
  match fuel with
  | O => (None, w)
  | S fuel =>
      let candidates := route_candidates r p w in
      let unavailable attempted :=
        ("", "", Some (ConsistencyUnavailable
                         (getTargetErrorData (cfg_Name (rt_Config r)) (pq_target p) attempted))) in
      let* (a, w) := try_all r ctx p candidates (mkRound attempted 0 0 "") w in
      match a with
      | Return payload upstream e => (Some (payload, upstream, e), w)
      | Next st =>
          let tried := Z.of_nat (size (rd_attempted st)) in
          if negb (String.eqb (pq_receiptHash p) "") && (0 <? tried)%Z then
            if (0 <? rd_nullReceipts st)%Z && (rd_nullReceipts st =? rd_eligible st)%Z
            then (Some ("null", rd_nullUpstream st, None), w)
            else (Some (unavailable (rd_attempted st)), w)
          else if (rd_eligible st =? 0)%Z && (Z.of_nat (length candidates) <=? tried)%Z
                  && (0 <? Z.of_nat (length candidates))%Z
          then (Some (unavailable (rd_attempted st)), w)
          else
            let* (done, w) := sleep (75 * millisecond) ctx w in
            match done with
            | Some _ => (Some (unavailable (rd_attempted st)), w)
            | None => route fuel r ctx p (rd_attempted st) w
            end
      end
  end.
End route.

(** ** What an accepted answer has passed *)

Section accepted.
  Context {W : Type} `{World W, Clients W, Runtimes W, SingleFlight W}.
  Variable range_order : gmap string availabilityRecord → list string.

  (** [candidate] could serve the target, was asked, and its result was accepted
      as [payload]; a range was checked at its boundary before and after. *)
Definition served (r : Runtime) (ctx : Context) (p : preparedRequest) (candidate : Client)
    (payload : RawMessage) : Prop :=
  (∀ t, pq_target p = Some t → pq_receiptHash p = "" →
     ∃ w1 w2, is_available range_order r ctx candidate t w1 = (true, w2)) ∧
  (∃ w1 raw w2, Call candidate ctx (pq_method p) (pq_parameters p) w1 = (Ok (mkRPC raw None), w2) ∧
     judge r (now w2) p raw = Accept payload ∧
     ∃ wb wb' wa wa', verifyEVMBoundaries r ctx candidate (pq_verifyBoundaries p) wb = (true, wb') ∧
       verifyEVMBoundaries r ctx candidate (pq_verifyBoundaries p) wa = (true, wa')).

Lemma ask_Return r ctx p candidate st w payload up w' wb wb' :
  verifyEVMBoundaries r ctx candidate (pq_verifyBoundaries p) wb = (true, wb') →
  ask r ctx p candidate st w = (Return payload up None, w') →
  up = cl_ID candidate ∧
  ∃ w1 raw w2, Call candidate ctx (pq_method p) (pq_parameters p) w1 = (Ok (mkRPC raw None), w2) ∧
     judge r (now w2) p raw = Accept payload ∧
     ∃ wb wb' wa wa', verifyEVMBoundaries r ctx candidate (pq_verifyBoundaries p) wb = (true, wb') ∧
       verifyEVMBoundaries r ctx candidate (pq_verifyBoundaries p) wa = (true, wa').
Proof using Type.
  intros Hb. unfold ask. destruct (Call _ _ _ _ w) as [[e|[raw err]] w1] eqn:Hc; [done|]. simpl.
  destruct (match err with Some e => _ | None => false end); [done|].
  destruct (IsUnavailableRPCError err); [done|]. destruct err as [e|]; [done|].
  destruct (judge r (now w1) p raw) as [q| | |] eqn:Hj; [|done..].
  destruct (decide _) as [Hnil|_].
  - intros [= <- <- _]. split; [done|]. exists w, raw, w1. split_and!; [done|done|].
    exists wb, wb', wb, wb'. done.
  - destruct (verifyEVMBoundaries _ _ _ _ w1) as [[] w2] eqn:Hv; [|done]. intros [= <- <- _].
    split; [done|]. exists w, raw, w1. split_and!; [done|done|]. exists wb, wb', w1, w2. done.
Qed.

Lemma try_candidate_Return r ctx p candidate st w payload up w' :
  try_candidate range_order r ctx p candidate st w = (Return payload up None, w') →
  up = cl_ID candidate ∧ served r ctx p candidate payload.
Proof using Type.
  unfold try_candidate. destruct (_ || _); [done|]. destruct (_ && _); [done|].
  destruct (match pq_target p with Some t => _ | None => _ end) as [available w1] eqn:Ha.
  destruct available; [|done]. simpl.
  destruct (verifyEVMBoundaries _ _ _ _ w1) as [[] w2] eqn:Hv; [|done]. simpl. intros Hask.
  eapply ask_Return in Hask as [-> Hserved]; [|exact Hv]. split; [done|]. split; [|exact Hserved].
  intros t Ht Hr. rewrite Ht, Hr in Ha. simpl in Ha. eauto.
Qed.

Lemma try_all_Return r ctx p candidates st w payload up w' :
  try_all range_order r ctx p candidates st w = (Return payload up None, w') →
  ∃ candidate, candidate ∈ candidates ∧ up = cl_ID candidate ∧ served r ctx p candidate payload.
Proof using Type.
  revert st w. induction candidates as [|c cs IH]; intros st w; simpl; [done|].
  destruct (try_candidate _ _ _ _ c st w) as [[st'|payload' up' e] w1] eqn:Hc.
  - intros Ht. destruct (IH _ _ Ht) as (c' & ? & ? & ?). exists c'. split; [by right|done].
  - intros [= -> -> -> ->]. apply try_candidate_Return in Hc as [-> Hs]. exists c.
    split; [by left|done].
Qed.

Lemma route_candidates_elem r p w c :
  c ∈ route_candidates r p w →
  c ∈ rt_Upstreams r ∧ IsValid r (cl_ID c) w = true.
Proof using Type.
  intros Hc. assert (c ∈ Candidates r (pq_requireEIP1898 p) w) as Hin.
  { unfold route_candidates in Hc. destruct (pq_target p) as [t|]; [|done].
    destruct (String.eqb _ _); [done|]. by rewrite elem_of_stable_sort in Hc. }
  unfold Candidates in Hin. rewrite elem_of_stable_sort, list_elem_of_filter in Hin.
  destruct Hin as [Hv ?]. bool_to_prop. done.
Qed.
End accepted.

(** What [judge] has established when it accepts a result of an EVM chain. *)
Lemma judge_evm r now p t raw payload :
  cfg_Family (rt_Config r) = "evm" → pq_target p = Some t → judge r now p raw = Accept payload →
  verifyEVMResponse r now p t raw = None ∧
  (pq_receiptHash p ≠ "" → is_null_text raw = false ∧
     ∃ block, getEVMReceiptBlock raw (pq_receiptHash p) = Ok block ∧ (Number block ≤ Number t)%Z).
Proof.
  intros Hf Ht. unfold judge. rewrite Hf, Ht. cbn [default].
  rewrite (bool_decide_eq_true_2 (Some t ≠ None)) by done. simpl.
  destruct (bool_decide _) eqn:Hv; [done|]. apply bool_decide_eq_false, dec_stable in Hv.
  intros Hj. split; [done|]. intros Hr. unfold judge_receipt in Hj.
  destruct (String.eqb_spec (pq_receiptHash p) ""); [done|]. destruct (is_null_text raw); [done|].
  split; [done|]. destruct (getEVMReceiptBlock raw _) as [e|b]; [done|].
  destruct (Z.ltb_spec (Number t) (Number b)); [done|]. eauto.
Qed.

Lemma check_logs_all p target logs :
  check_logs p target logs = None → Forall (λ log, check_log p target log = None) logs.
Proof.
  induction logs as [|log logs IH]; simpl; [done|]. destruct (check_log p target log) eqn:Hc; [done|].
  intros Hl. constructor; [done|by apply IH].
Qed.

Lemma judge_solana_slot r now p t raw payload :
  cfg_Family (rt_Config r) = "solana" → pq_target p = Some t → pq_receiptHash p = "" →
  judge r now p raw = Accept payload →
  (pq_verifyContextSlot p = true → verifySolanaContext raw (Number t) = None) ∧
  check_slot_result p t raw = true ∧ unwrap p raw = Some payload.
Proof.
  intros Hf Ht Hr. unfold judge. rewrite Hf, Ht. simpl andb. cbv iota. cbn [default].
  unfold judge_receipt. rewrite Hr. simpl. unfold judge_slots. rewrite Ht, Hf.
  destruct (pq_verifyContextSlot p && _) eqn:Hc; [done|]. simpl.
  destruct (check_slot_result p t raw) eqn:Hs; [|done]. simpl.
  destruct (unwrap p raw) eqn:Hu; [|done]. intros [= ->]. split_and!; [|done|done].
  intros Hv. rewrite Hv in Hc. simpl in Hc. by apply bool_decide_eq_false, dec_stable in Hc.
Qed.

(** ** Successful answers *)

Lemma route_success `{World W, Clients W, Runtimes W, SingleFlight W}
    range_order fuel r ctx p attempted w payload up w' :
  route range_order fuel r ctx p attempted w = (Some (payload, up, None), w') →
  (pq_receiptHash p ≠ "" ∧ payload = "null") ∨
  (∃ candidate, candidate ∈ rt_Upstreams r ∧ up = cl_ID candidate ∧
     (∃ w0, IsValid r up w0 = true) ∧ served range_order r ctx p candidate payload).
Proof.
  revert attempted w. induction fuel as [|fuel IH]; intros attempted w; simpl; [done|].
  destruct (try_all _ _ _ _ _ _ w) as [[st|q up' e] w1] eqn:Ht.
  - destruct (negb _ && _) eqn:Hr.
    + destruct ((0 <? rd_nullReceipts st)%Z && _); [|done]. intros [= <- _ _]. left.
      bool_to_prop. done.
    + destruct ((rd_eligible st =? 0)%Z && _ && _); [done|]. destruct (sleep _ ctx w1) as [[e|] w2]; [done|]. apply IH.
  - intros [= -> -> -> ->]. right. apply try_all_Return in Ht as (c & Hc & -> & Hs).
    apply route_candidates_elem in Hc as [Hin Hv]. exists c. split_and!; [done|done|eauto|done].
Qed.

(** * Properties *)


(** C7: a result of an EVM chain that is accepted for a target agrees with it:
    pinned state is not null; a block is a well-formed header with the target's
    hash; logs are not removed and lie in the requested range, or belong to the
    target block; a transaction in a block names that block; and a receipt is the
    one of the transaction asked for, included no higher than the accepted head. *)
Theorem accepted_evm_result r now p t raw payload :
  cfg_Family (rt_Config r) = "evm" → pq_target p = Some t → judge r now p raw = Accept payload →
  (pq_requireEIP1898 p = true → is_null_text raw = false) ∧
  (pq_requireEIP1898 p = false →
     (pq_method p = "eth_getBlockByHash" →
        ∃ block, ParseEVMHead r now (mkParseRequest "" "" raw) = Ok block ∧ parsed_head r block ∧
                 EqualFold (Hash block) (Hash t) = true) ∧
     (pq_method p = "eth_getLogs" →
        ∃ elements logs, Unmarshal_slice raw = Some (Some elements) ∧
          mapM Unmarshal_log elements = Some logs ∧
          Forall (λ '(hash, number, removed), removed = false ∧
            match pq_logRange p with
            | Some range => ∃ n, ParseEVMQuantity number = Ok n ∧ (lr_from range ≤ n ≤ lr_to range)%Z
            | None => EqualFold hash (Hash t) = true
            end) logs) ∧
     (pq_method p = "eth_getTransactionByBlockHashAndIndex" → is_null_text raw = false →
        ∃ ms hash, Unmarshal_struct raw = Some ms ∧ field Unmarshal_string "" "blockHash" ms = Some hash ∧
          EqualFold hash (Hash t) = true)) ∧
  (pq_receiptHash p ≠ "" → is_null_text raw = false ∧
     ∃ block, getEVMReceiptBlock raw (pq_receiptHash p) = Ok block ∧ (Number block ≤ Number t)%Z).
Proof.
  intros Hf Ht Hj. destruct (judge_evm _ _ _ _ _ _ Hf Ht Hj) as [Hv Hr]. clear Hj.
  split_and!; [| |exact Hr]; clear Hr; revert Hv; unfold verifyEVMResponse.
  - intros Hv He. rewrite He in Hv. by destruct (is_null_text raw).
  - intros Hv He. rewrite He in Hv. split_and!; intros Hm; rewrite Hm in Hv; simpl in Hv.
    + unfold verify_block in Hv. destruct (ParseEVMHead r now _) as [e|b] eqn:Hp; [done|].
      destruct (EqualFold (Hash b) (Hash t)) eqn:Heq; [|done]. exists b.
      split_and!; [done|by apply ParseEVMHead_Ok in Hp as [? _]|done].
    + unfold verify_logs in Hv. destruct (Unmarshal_slice raw) as [[elems|]|]; [|done|done].
      destruct (mapM Unmarshal_log elems) as [logs|] eqn:Hlogs; [|done]. apply check_logs_all in Hv.
      exists elems, logs. split_and!; [done|done|]. eapply Forall_impl; [exact Hv|].
      intros [[hash number] removed] Hc. unfold check_log in Hc. destruct removed; [done|].
      split; [done|]. destruct (pq_logRange p) as [range|].
      * destruct (ParseEVMQuantity number) as [e|n]; [done|].
        destruct ((n <? lr_from range)%Z || _) eqn:Hb; [done|]. bool_to_prop. exists n. split; [done|lia].
      * by destruct (EqualFold hash (Hash t)).
    + intros Hn. rewrite Hn in Hv. simpl in Hv. unfold verify_transaction in Hv.
      destruct (Unmarshal_struct raw) as [ms|]; [|done]. simpl in Hv.
      destruct (field Unmarshal_string "" "blockHash" ms) as [hash|] eqn:Hfield; [|done].
      exists ms, hash. split_and!; [done|done|]. by destruct (EqualFold hash (Hash t)).
Qed.


(** ** Concrete answers *)

Definition demo_block_request : preparedRequest :=
  prepared "eth_getBlockByHash" (js "['" +:+ sim_hash "bb" +:+ js "',false]") (Some demo_parent).

Definition demo_block : RawMessage := sim_block "0x4" (sim_hash "bb") (sim_hash "cc").

Definition demo_order (a : gmap string availabilityRecord) : list string := (map_to_list a).*1.


Lemma accepted_evm_result_witness :
  ∃ block, ParseEVMHead demo_runtime 7 (mkParseRequest "" "" demo_block) = Ok block ∧
    parsed_head demo_runtime block ∧ EqualFold (Hash block) (Hash demo_parent) = true.
Proof.
  refine (proj1 (proj1 (proj2 (accepted_evm_result demo_runtime 7 demo_block_request demo_parent
    demo_block demo_block eq_refl eq_refl _)) eq_refl) eq_refl).
  vm_compute. reflexivity.
Defined.

Definition solana_runtime : Runtime :=
  mkRuntime (mkChainConfig "sol" "solana" "" "genesis" 1000000 1000000 60000000000 0) [].

