(* ===== verification/Activity.v ===== *)
(** * Activity: what a request does to the world, step by step

    Every operation of the proxy changes the world through a few primitives: an
    HTTP exchange, a slot of a semaphore, a shared call, a timer, and writes to the
    state it keeps.  A relation that holds across each primitive and composes
    therefore holds across whole requests.  [Liveness.v] uses it for the clock,
    [Serve.v] for the head store, which requests read but never write. *)

From S2P Require Import Prelude GoStrings GoJson Evm JsonRpc Head World Upstream Chain RequestCache.
From S2P Require Import Validation Receipts Transform Router.

Class Activity {W : Type} `{World W, Clients W, Runtimes W, SingleFlight W} (R : relation W) := {
  act_preorder :: PreOrder R;
  act_http req ctx w r w' : http_Do req ctx w = (r, w') → R w w';
  act_acquire k ctx w r w' : sem_acquire k ctx w = (r, w') → R w w';
  act_release k w : R w (sem_release k w);
  act_client k s w : R w (set_client_state k s w);
  act_runtime k s w : R w (set_runtime_state k s w);
  act_flight A group key f w r shared w' :
    (∀ w r w', f w = (r, w') → R w w') → flight A group key f w = (r, shared, w') → R w w';
  act_sleep d ctx w r w' : sleep d ctx w = (r, w') → R w w'
}.

Section activity.
  Context {W : Type} `{World W, Clients W, Runtimes W, SingleFlight W}.
  Context (R : relation W) {act : Activity R}.
  Variable range_order : gmap string availabilityRecord → list string.

Lemma update_client_active c f w : R w (update_client c f w).
Proof using Type*. apply act_client. Qed.

Lemma http_active req ctx w r w' : http_Do req ctx w = (r, w') → R w w'.
Proof using Type*. apply act_http. Qed.

Lemma fail_call_active c e w r w' : fail_call c e w = (r, w') → R w w'.
Proof using Type*. unfold fail_call. intros [= _ <-]. apply update_client_active. Qed.

Lemma exchange_active c ctx m p w r w' : exchange c ctx m p w = (r, w') → R w w'.
Proof using Type*.
  unfold exchange. set (w1 := update_client _ _ w).
  assert (R w w1) as Hw1 by apply update_client_active. clearbody w1.
  destruct (request_body _ _ _); [|by intros [= _ <-]]. destruct (negb _); [by intros [= _ <-]|].
  destruct (http_Do _ ctx w1) as [[e|resp] w2] eqn:Hdo; apply http_active in Hdo;
    (assert (R w w2) as Hw2 by (etrans; eassumption)).
  - intros Hf%fail_call_active. by etrans.
  - destruct (_ || _); [intros Hf%fail_call_active; by etrans|].
    destruct (maxUpstreamResponseBytes <? _)%Z; [intros Hf%fail_call_active; by etrans|].
    destruct (hr_ReadError resp); [intros Hf%fail_call_active; by etrans|].
    destruct (check_response _ _); [intros [= _ <-]; etrans; [done|apply update_client_active]|].
    intros [= _ <-]. etrans; [done|apply update_client_active].
Qed.

Lemma Call_active c ctx m p w r w' : Call c ctx m p w = (r, w') → R w w'.
Proof using Type*.
  unfold Call. destruct (negb _); [by intros [= _ <-]|].
  destruct (sem_acquire _ ctx w) as [[e|u] w1] eqn:Hs; apply act_acquire in Hs;
    [by intros [= _ <-]|].
  destruct (exchange c ctx m p w1) as [r1 w2] eqn:He. intros [= _ <-].
  etrans; [exact Hs|]. etrans; [by eapply exchange_active|]. apply act_release.
Qed.

Lemma call_active ctx c m args w r w' : call ctx c m args w = (r, w') → R w w'.
Proof using Type*. unfold call. destruct (MarshalCallParams args); [apply Call_active|by intros [= _ <-]]. Qed.

Lemma check_evm_block_active r c t ctx w res w' : check_evm_block r c t ctx w = (res, w') → R w w'.
Proof using Type*.
  unfold check_evm_block. destruct (call ctx c _ _ w) as [[e|resp] w1] eqn:Hc; apply call_active in Hc.
  - by intros [= _ <-].
  - destruct (_ || _); [by intros [= _ <-]|]. destruct (ParseEVMHead _ _ _); by intros [= _ <-].
Qed.

Lemma check_solana_slot_active c t ctx w res w' : check_solana_slot c t ctx w = (res, w') → R w w'.
Proof using Type*.
  unfold check_solana_slot. destruct (call ctx c _ _ w) as [[e|resp] w1] eqn:Hc; apply call_active in Hc.
  - by intros [= _ <-].
  - destruct (bool_decide _); [by intros [= _ <-]|]. destruct (Unmarshal_uint64 _ _); by intros [= _ <-].
Qed.

Lemma probe_active r ctx key check w res w' :
  (∀ ctx w r w', check ctx w = (r, w') → R w w') →
  probe range_order r ctx key check w = (res, w') → R w w'.
Proof using Type*.
  intros Hcheck. unfold probe. destruct (getCachedAvailability r key w); [by intros [= _ <-]|].
  destruct (flight _ _ _ _ w) as [[out shared] w1] eqn:Hf. apply act_flight in Hf.
  - destruct (select_done ctx w1); by intros [= _ <-].
  - clear w res w' Hf. intros w res w'. destruct (getCachedAvailability r key w); [by intros [= _ <-]|].
    destruct (check _ w) as [[e|b] w2] eqn:Hc; apply Hcheck in Hc; intros [= _ <-]; [done|].
    etrans; [exact Hc|]. apply act_runtime.
Qed.

Lemma is_available_active r ctx c t w b w' : is_available range_order r ctx c t w = (b, w') → R w w'.
Proof using Type*.
  unfold is_available.
  destruct (if String.eqb _ "evm" then _ else _) as [res w1] eqn:Hr. intros [= _ <-].
  destruct (String.eqb _ "evm").
  - unfold HasEVMBlock in Hr. destruct (String.eqb _ ""); [by injection Hr as _ <-|].
    eapply probe_active; [|exact Hr]. intros ctx' w2 r' w3. apply check_evm_block_active.
  - destruct (String.eqb _ "solana"); [|by injection Hr as _ <-].
    eapply probe_active; [|exact Hr]. intros ctx' w2 r' w3. apply check_solana_slot_active.
Qed.

Lemma boundaries_active r ctx c ts w b w' : verifyEVMBoundaries r ctx c ts w = (b, w') → R w w'.
Proof using Type*.
  revert w. induction ts as [|t ts IH]; intros w; simpl; [by intros [= _ <-]|].
  split_match; [|by intros [= _ <-]].
  destruct (Call c ctx _ _ w) as [[e|resp] w1] eqn:Hc; apply Call_active in Hc; [by intros [= _ <-]|].
  destruct (rpc_Error resp); [by intros [= _ <-]|]. destruct (ParseEVMHead _ _ _); [by intros [= _ <-]|].
  destruct (_ || _); [by intros [= _ <-]|]. intros Hb. etrans; [exact Hc|]. by apply IH.
Qed.

Lemma drop_active r c p w : R w (drop_availability r c p w).
Proof using Type*. unfold drop_availability. destruct (pq_target p); [apply act_runtime|done]. Qed.

Lemma ask_active r ctx p c st w a w' : ask r ctx p c st w = (a, w') → R w w'.
Proof using Type*.
  unfold ask. destruct (Call c ctx _ _ w) as [[e|resp] w1] eqn:Hc; apply Call_active in Hc;
    [by intros [= _ <-]|].
  destruct (match rpc_Error resp with Some e => _ | None => _ end).
  { intros [= _ <-]. etrans; [exact Hc|apply update_client_active]. }
  destruct (IsUnavailableRPCError _); [intros [= _ <-]; etrans; [exact Hc|apply drop_active]|].
  destruct (rpc_Error resp); [by intros [= _ <-]|].
  destruct (judge _ _ _ _); [|intros [= _ <-]; etrans; [exact Hc|apply drop_active]|by intros [= _ <-]..].
  destruct (decide _); [by intros [= _ <-]|].
  destruct (verifyEVMBoundaries _ _ _ _ w1) as [[] w2] eqn:Hb; apply boundaries_active in Hb;
    intros [= _ <-]; (etrans; [exact Hc|]); [done|]. etrans; [exact Hb|apply drop_active].
Qed.

Lemma try_candidate_active r ctx p c st w a w' :
  try_candidate range_order r ctx p c st w = (a, w') → R w w'.
Proof using Type*.
  unfold try_candidate. destruct (_ || _); [by intros [= _ <-]|]. destruct (_ && _); [by intros [= _ <-]|].
  destruct (match pq_target p with Some t => _ | None => _ end) as [b w1] eqn:Ha.
  assert (R w w1) as Hw1.
  { destruct (pq_target p); [|by injection Ha as _ <-].
    destruct (String.eqb _ _); [by eapply is_available_active|by injection Ha as _ <-]. }
  destruct (negb b); [by intros [= _ <-]|].
  destruct (verifyEVMBoundaries _ _ _ _ w1) as [b' w2] eqn:Hb. apply boundaries_active in Hb.
  destruct (negb b'); [intros [= _ <-]; by etrans|]. intros Hask%ask_active.
  etrans; [exact Hw1|]. by etrans.
Qed.

Lemma try_all_active r ctx p cs st w a w' :
  try_all range_order r ctx p cs st w = (a, w') → R w w'.
Proof using Type*.
  revert st w. induction cs as [|c cs IH]; intros st w; simpl; [by intros [= _ <-]|].
  destruct (try_candidate _ _ _ _ c st w) as [[st'|q up e] w1] eqn:Hc; apply try_candidate_active in Hc.
  - intros Ht. etrans; [exact Hc|]. by eapply IH.
  - by intros [= _ <-].
Qed.

Lemma route_active fuel r ctx p attempted w a w' :
  route range_order fuel r ctx p attempted w = (a, w') → R w w'.
Proof using Type*.
  revert attempted w. induction fuel as [|fuel IH]; intros attempted w; cbn [route]; [by intros [= _ <-]|].
  destruct (try_all _ _ _ _ _ _ w) as [[st|q up e] w1] eqn:Ht; apply try_all_active in Ht;
    [|by intros [= _ <-]].
  destruct (negb _ && _); [destruct ((0 <? rd_nullReceipts st)%Z && _); by intros [= _ <-]|].
  destruct ((rd_eligible st =? 0)%Z && _ && _); [by intros [= _ <-]|].
  destruct (sleep _ ctx w1) as [[e|] w2] eqn:Hs; apply act_sleep in Hs.
  - intros [= _ <-]. by etrans.
  - intros Hr. etrans; [exact Ht|]. etrans; [exact Hs|]. by eapply IH.
Qed.

(** ** Reading blocks *)

Lemma try_candidates_active r ctx req cs failures w h w' :
  try_candidates r ctx req cs failures w = (h, w') → R w w'.
Proof using Type*.
  revert failures w. induction cs as [|c cs IH]; intros failures w; simpl; [by intros [= _ <-]|].
  destruct (call ctx c _ _ w) as [[e|resp] w1] eqn:Hc; apply call_active in Hc.
  - intros Ht. etrans; [exact Hc|]. by eapply IH.
  - destruct (rpc_Error resp); [intros Ht; etrans; [exact Hc|by eapply IH]|].
    destruct (String.eqb _ _); [intros Ht; etrans; [exact Hc|by eapply IH]|].
    destruct (ParseEVMHead _ _ _) as [e|b]; [intros Ht; etrans; [exact Hc|by eapply IH]|].
    destruct (EqualFold _ _); [by intros [= _ <-]|]. intros Ht. etrans; [exact Hc|by eapply IH].
Qed.

Lemma EVMBlockByHash_active r ctx req w h w' : EVMBlockByHash r ctx req w = (h, w') → R w w'.
Proof using Type*.
  unfold EVMBlockByHash. destruct (negb _); [by intros [= _ <-]|]. apply try_candidates_active.
Qed.

Lemma ancestor_active r ctx q n steps cursor w h w' :
  ancestor r ctx q n steps cursor w = (h, w') → R w w'.
Proof using Type*.
  revert cursor w. induction steps as [|steps IH]; intros cursor w; simpl; [by intros [= _ <-]|].
  destruct (_ <? _)%Z; [|by intros [= _ <-]].
  destruct (EVMBlockByHash r ctx _ w) as [[e|parent] w1] eqn:Hb; apply EVMBlockByHash_active in Hb;
    [by intros [= _ <-]|].
  destruct (negb _); [by intros [= _ <-]|]. intros Ha. etrans; [exact Hb|by eapply IH].
Qed.

Lemma GetEVMBlock_active r ctx reference snapshot w h w' :
  GetEVMBlock r ctx reference snapshot w = (h, w') → R w w'.
Proof using Type*.
  assert (∀ q w h w', getEVMBlockByQuantity r ctx q snapshot w = (h, w') → R w w') as Hq.
  { intros q w0 h0 w1. unfold getEVMBlockByQuantity.
    destruct (ParseEVMQuantity q); [by intros [= _ <-]|].
    destruct (getRequiredHead _ _); [by intros [= _ <-]|]. destruct (_ || _); [by intros [= _ <-]|].
    destruct (_ || _); [by intros [= _ <-]|].
    destruct (ancestor _ _ _ _ _ _ w0) as [[e|b] w2] eqn:Ha; apply ancestor_active in Ha;
      by intros [= _ <-]. }
  unfold GetEVMBlock. destruct (_ || _); [by intros [= _ <-]|].
  destruct (Unmarshal_string _ _) as [tag|].
  - repeat case_match; try (by intros [= _ <-]); apply Hq.
  - destruct (Unmarshal_BlockReference _) as [[[bh bn] rc]|]; [|by intros [= _ <-]].
    repeat case_match; try (by intros [= _ <-]); apply Hq.
Qed.

Lemma transformRequest_active r ctx snapshot request w res w' :
  transformRequest r ctx snapshot request w = (res, w') → R w w'.
Proof using Type*.
  assert (∀ reference w h w', getEVMBlock r ctx reference snapshot w = (h, w') → R w w') as Hg.
  { intros reference w0 h w1. unfold getEVMBlock.
    destruct (GetEVMBlock _ _ _ _ w0) as [[e|b] w2] eqn:Hb; apply GetEVMBlock_active in Hb;
      by intros [= _ <-]. }
  unfold transformRequest. destruct (isStaticMethod _ _); [by intros [= _ <-]|].
  destruct (isWriteMethod _ _); [by intros [= _ <-]|].
  destruct (String.eqb _ "evm"); [|by intros [= _ <-]].
  unfold transformEVMRequest. destruct (ParseParams _); [by intros [= _ <-]|].
  unfold transform_state, transform_block, transformEVMLogs, transform_fee_history.
  repeat case_match; try (by intros [= _ <-]);
    (match goal with H : getEVMBlock _ _ _ _ _ = _ |- _ => apply Hg in H end); by intros [= _ <-].
Qed.

(** ** The response cache *)

Section cached.
  Context `{Caches W}.
  Hypothesis act_cache : ∀ c w, R w (set_cache_service c w).

Lemma cache_get_active key w c w' : cache_get key w = (c, w') → R w w'.
Proof using Type*. unfold cache_get. destruct (get _ _ _). intros [= _ <-]. apply act_cache. Qed.

Lemma cache_put_active key c w : R w (cache_put key c w).
Proof using Type*. unfold cache_put. destruct (put _ _ _ _); [apply act_cache|done]. Qed.

Lemma load_once_active ctx request w res w' :
  (∀ ctx w r e w', ld_Load request ctx w = (r, e, w') → R w w') →
  load_once ctx request w = (res, w') → R w w'.
Proof using Type*.
  intros Hl. unfold load_once. destruct (cache_get _ w) as [[c|] w1] eqn:Hg; apply cache_get_active in Hg;
    [by intros [= _ <-]|].
  destruct (ld_Load request _ w1) as [[r err] w2] eqn:Hload. apply Hl in Hload.
  destruct err; [intros [= _ <-]; by etrans|]. destruct (ctx_Err _ w2); intros [= _ <-]; [by etrans|].
  etrans; [exact Hg|]. etrans; [exact Hload|]. apply cache_put_active.
Qed.

Lemma GetOrLoad_active ctx request w res w' :
  (∀ ctx w r e w', ld_Load request ctx w = (r, e, w') → R w w') →
  GetOrLoad ctx request w = (res, w') → R w w'.
Proof using Type*.
  intros Hl. unfold GetOrLoad. destruct (ctx_Err ctx w); [by intros [= _ <-]|].
  destruct (negb _).
  { destruct (ld_Load request ctx w) as [[r err] w1] eqn:Hload. apply Hl in Hload. by intros [= _ <-]. }
  destruct (cache_get _ w) as [[c|] w1] eqn:Hg; apply cache_get_active in Hg; [by intros [= _ <-]|].
  destruct (flight _ _ _ _ w1) as [[[l err] shared] w2] eqn:Hf. apply act_flight in Hf.
  - destruct (select_done ctx w2); intros [= _ <-]; by etrans.
  - intros w3 r w4. by apply load_once_active.
Qed.

Lemma getParent_active r s ctx child w h w' :
  getParent (H2 := runtime_reader r) s ctx child w = (h, w') → R w w'.
Proof using Type*.
  unfold getParent. destruct (negb _); [apply EVMBlockByHash_active|].
  destruct (GetOrLoad _ _ w) as [[l err] w1] eqn:Hg. apply GetOrLoad_active in Hg.
  - destruct err; [by intros [= _ <-]|]. destruct (Unmarshal_Head _); by intros [= _ <-].
  - intros ctx0 w0 r0 e w2. simpl. unfold load_header. simpl.
    destruct (EVMBlockByHash _ _ _ w0) as [[e0|b] w3] eqn:Hb; apply EVMBlockByHash_active in Hb;
      [by intros [= _ _ <-]|]. destruct (Marshal_Head b); by intros [= _ _ <-].
Qed.

Lemma ContainsBlock_active r s ctx request w b w' :
  ContainsBlock (H2 := runtime_reader r) s ctx request w = (b, w') → R w w'.
Proof using Type*.
  unfold ContainsBlock. destruct (ctx_Err ctx w); [by intros [= _ <-]|].
  destruct (_ || _); [by intros [= _ <-]|]. destruct (_ || _ || _); [by intros [= _ <-]|].
  generalize (Z.to_nat (u64_sub (Number (br_Accepted request)) (Number (br_Block request)))) as steps.
  intros steps. generalize (br_Accepted request) as cursor. revert w.
  induction steps as [|steps IH]; intros w cursor; simpl; [by intros [= _ <-]|].
  destruct (_ <? _)%Z; [|by intros [= _ <-]]. destruct (ctx_Err ctx w); [by intros [= _ <-]|].
  destruct (_ =? _)%Z; [by intros [= _ <-]|].
  destruct (getParent _ _ _ w) as [[e|p] w1] eqn:Hp; apply getParent_active in Hp; [by intros [= _ <-]|].
  destruct (_ || _); [by intros [= _ <-]|]. intros Hf. etrans; [exact Hp|by eapply IH].
Qed.
End cached.
End activity.

(** ** Validation *)

Section validation.
  Context {W : Type} `{World W, Clients W, Runtimes W, SingleFlight W}.
  Context (R : relation W) {act : Activity R}.
  Variable schedule : nat → list nat.

Lemma probe_method_active ctx c hash probe w : R w (probe_method ctx c hash probe w).
Proof using Type*.
  unfold probe_method. destruct probe as [method arguments].
  destruct (call ctx c method _ w) as [positive w1] eqn:H1'; apply (call_active R) in H1'.
  destruct (state_served positive).
  - destruct (call ctx c method _ w1) as [negative w2] eqn:H2'; apply (call_active R) in H2'.
    etrans; [exact H1'|]. etrans; [exact H2'|]. apply act_client.
  - etrans; [exact H1'|]. apply act_client.
Qed.

Lemma probeEVMStateMethods_active ctx c hash w : R w (probeEVMStateMethods schedule ctx c hash w).
Proof using Type*.
  unfold probeEVMStateMethods. etrans; [|apply act_client]. generalize (schedule (length state_probes)) as order.
  intros order. revert w. induction order as [|i order IH]; intros w; simpl; [reflexivity|].
  destruct (state_probes !! i); [|apply IH]. etrans; [apply probe_method_active|apply IH].
Qed.

Lemma required_call_active ctx c m args w r w' : required_call ctx c m args w = (r, w') → R w w'.
Proof using Type*.
  unfold required_call. destruct (call ctx c m args w) as [[e|resp] w1] eqn:Hc; apply (call_active R) in Hc;
    [by intros [= _ <-]|]. destruct (rpc_Error resp); by intros [= _ <-].
Qed.

Lemma check_genesis_active r ctx c w e w' : check_genesis r ctx c w = (e, w') → R w w'.
Proof using Type*.
  unfold check_genesis. destruct (String.eqb _ ""); [by intros [= _ <-]|].
  destruct (required_call _ _ _ _ w) as [res w1] eqn:Hc. apply required_call_active in Hc.
  repeat case_match; by intros [= _ <-].
Qed.

Lemma validateUpstream_active r ctx c w e w' : validateUpstream schedule r ctx c w = (e, w') → R w w'.
Proof using Type*.
  unfold validateUpstream, validate_evm, validate_solana. destruct (String.eqb _ "evm");
    destruct (required_call _ _ _ _ w) as [[e1|x] w1] eqn:H1'; apply required_call_active in H1';
    try (by intros [= _ <-]).
  - destruct (check_chain_id r x); [by intros [= _ <-]|].
    destruct (check_genesis r ctx c w1) as [[e2|] w2] eqn:H2'; apply check_genesis_active in H2';
      [intros [= _ <-]; by etrans|].
    destruct (required_call _ _ _ _ w2) as [[e3|y] w3] eqn:H3'; apply required_call_active in H3';
      [intros [= _ <-]; etrans; [exact H1'|by etrans]|].
    destruct (ParseEVMHead _ _ _); intros [= _ <-]; (etrans; [exact H1'|etrans; [exact H2'|]]); [done|].
    etrans; [exact H3'|apply probeEVMStateMethods_active].
  - destruct (Unmarshal_string _ _); [|by intros [= _ <-]]. destruct (negb _); [by intros [= _ <-]|].
    destruct (required_call _ _ _ _ w1) as [[e2|y] w2] eqn:H2'; apply required_call_active in H2';
      [intros [= _ <-]; by etrans|].
    destruct (Unmarshal_uint64 _ _); [|intros [= _ <-]; by etrans].
    destruct (call _ _ _ _ w2) as [res w3] eqn:H3'; apply (call_active R) in H3'.
    repeat case_match; intros [= _ <-]; (etrans; [exact H1'|by etrans]).
Qed.

Lemma Runtime_Validate_active r ctx w e w' : Runtime_Validate schedule r ctx w = (e, w') → R w w'.
Proof using Type*.
  unfold Runtime_Validate. destruct (validate_all _ _ _ _ w) as [failures w1] eqn:Hv. intros [= _ <-].
  revert w failures w1 Hv. generalize (schedule (length (rt_Upstreams r))) as order.
  induction order as [|i order IH]; intros w failures w1; simpl; [by intros [= _ <-]|].
  destruct (rt_Upstreams r !! i) as [c|]; [|apply IH]. unfold validate_one.
  destruct (validateUpstream _ _ _ _ w) as [err w2] eqn:Hu. apply validateUpstream_active in Hu.
  destruct (validate_all _ _ _ _ _) as [more w3] eqn:Hm. intros [= _ <-]. apply IH in Hm.
  etrans; [exact Hu|]. etrans; [|exact Hm]. apply act_runtime.
Qed.
End validation.
