(* ===== verification/Leadership.v ===== *)
(** * Leading a chain — internal/coordinator/coordinator.go (Run, runLeader, maintainLease)

    An instance competes for the lease of a chain.  While it holds one it polls the
    providers, follows their subscriptions, handles the observations and renews the
    lease; when the lease is lost it stops and competes again.  The goroutines of a
    leader are taken step by step: an event is one step of one of them, and a run is
    any sequence of events. *)

From S2P Require Import Prelude GoStrings GoJson Evm JsonRpc Head MemoryStore World Upstream Chain RequestCache.
From S2P Require Import Coordinator Observers Receipts Transform Router Activity.

(** ** What a leader uses of its surroundings *)

(** [context.WithCancel] (the signal of the derived context) and its cancel function;
    the receiving end of the channel of observations, [None] while it is empty; the
    wait for a tick of the backoff ticker, [false] if the end of the context is taken
    instead; and the gauges of telemetry, before their conversion to float64. *)
Class Leading (W : Type) := {
  new_signal : Context → W → nat * W;
  cancel : nat → W → W;
  receive_observation : W → option Head * W;
  backoff : Context → W → bool * W;
  Gauge : string → Z → list string → W → W
}.

Definition WithCancel `{Leading W} (parent : Context) (w : W) : Context * nat * W :=
  let* (signal, w) := new_signal parent w in
  (mkContext (ctx_deadline parent) (Some signal), signal, w).

(** One step of a goroutine of the leader.  [Done], [Tick] and [Observation] are the
    cases of the leader's select, [LeaseDone] and [LeaseTick] those of the lease's;
    [Watch i n] is the goroutine of the
    [i]-th subscription for [n] rounds.  The schedule is the
    order in which [n] goroutines of a poll run. *)
Inductive leader_event :=
| Done
| Tick (schedule : nat → list nat)
| Observation
| LeaseDone
| LeaseTick
| Watch (i rounds : nat).

Section lead.
  Context {W : Type} `{World W, Clients W, Runtimes W, SingleFlight W, HeadStore W, BlockReader W,
    Coordinators W, Observations W, HeadSockets W, Leading W}.

  (** The chain and the options of the coordinator. *)
Variable r : Runtime.
Variables (owner : string) (leaderTTL idle_timeout : Z).

  (** The orders of ranging over maps, and the random wait. *)
Variable ancestor_order : gmap string Z → list (string * Z).
Variable availability_order : gmap string availabilityRecord → list string.
Variable heads_order : gmap string Head → list (string * Head).
Variable jitter : W → Z.

Definition done (ctx : Context) (w : W) : bool := bool_decide (is_Some (ctx_Err ctx w)).

  (** ** The lease *)

  (** A tick of the lease: whether the goroutine goes on. *)
  (* go: coordinator/coordinator.go:163-184 Coordinator.maintainLease *)
Definition maintainLease_tick (signal : nat) (token : string) (w : W) : bool * W :=
  let* (renewed, w) := store_Renew (now w) (chain r) token leaderTTL w in
  match renewed with
  | Ok true => (true, w)
  | _ => (false, cancel signal w)
  end.

  (** ** Telemetry of the accepted heads *)

Definition lag_gauges (h : Head) (commitment : string) (candidates : list Client) (w : W) : W :=
  foldl (λ w c,
    match providerHeads (coordinator_state (chain r) w) !! (cl_ID c, commitment) with
    | None => w
    | Some number =>
        let lag := if (number <? Number h)%Z then u64_sub (Number h) number else 0%Z in
        Gauge "provider.head_lag" lag
          ["chain:" +:+ Chain h; "family:" +:+ Family h; "commitment:" +:+ commitment;
           "upstream:" +:+ cl_ID c] w
    end) w candidates.

Definition head_gauges (w : W) (entry : string * Head) : W :=
  let commitment := entry.1 in
  let h := entry.2 in
  let tags := ["chain:" +:+ Chain h; "family:" +:+ Family h; "commitment:" +:+ commitment] in
  if evm r && negb (String.eqb commitment Latest) then w
  else
    let w := if String.eqb (Family h) "evm"
             then Gauge "head.reorg_pending" (if ReorgPending h then 1 else 0) ["chain:" +:+ Chain h] w
             else w in
    let w := if negb (time_IsZero (ObservedAt h))
             then Gauge "head.age" (now w - ObservedAt h) tags w else w in
    let w := if negb (time_IsZero (ChangedAt h))
             then Gauge "head.stuck_age" (now w - ChangedAt h) tags w else w in
    lag_gauges h commitment (rt_Upstreams r) w.

  (* go: coordinator/coordinator.go:529-567 Coordinator.emitHeadAges *)
Definition emitHeadAges (w : W) : W :=
  let* (snapshot, w) := store_Snapshot (chain r) w in
  match snapshot with
  | Err _ => w
  | Ok snapshot => foldl head_gauges w (heads_order (sn_Heads snapshot))
  end.

  (** ** A term *)

  (* go: coordinator/coordinator.go:140-143 Coordinator.runLeader *)
Definition commitments : list string :=
  if String.eqb (cfg_Family (rt_Config r)) "solana" then [Processed; Confirmed; Finalized] else [Latest].

  (** The candidates whose subscriptions are followed. *)
  (* go: coordinator/coordinator.go:128-137 Coordinator.runLeader *)
Definition watched : list Client :=
  if evm r then filter (λ c, negb (String.eqb (cl_WebsocketURL c) "") = true) (rt_Upstreams r) else [].

Record term := mkTerm {
    tm_ctx : Context;
    tm_signal : nat;
    tm_token : string;
    tm_leased : bool        (* the lease goroutine still runs *)
  }.

Definition set_leased (b : bool) (t : term) : term := mkTerm (tm_ctx t) (tm_signal t) (tm_token t) b.

  (** One event; [false] once the loop has returned.  An event that is not ready, the
      end of a context that has not ended, a channel that is empty or a goroutine that
      does not run, does nothing. *)
  (* go: coordinator/coordinator.go:112-161 Coordinator.runLeader *)
Definition leader_step (e : leader_event) (t : term) (w : W) : bool * term * W :=
  match e with
  | Done => (negb (done (tm_ctx t) w), t, w)
  | Tick schedule =>
      let* (_, w) := poll r idle_timeout schedule (tm_ctx t) commitments w in
      (true, t, emitHeadAges w)
  | Observation =>
      let* (candidate, w) := receive_observation w in
      match candidate with
      | None => (true, t, w)
      | Some candidate =>
          let* (e, w) := consider ancestor_order r (tm_ctx t) (tm_token t) candidate w in
          match e with
          | Some e => (negb (errors_Is (ErrStore ErrLeadershipLost) e), t, w)
          | None => (true, t, w)
          end
      end
  | LeaseDone => (true, set_leased (tm_leased t && negb (done (tm_ctx t) w)) t, w)
  | LeaseTick =>
      if tm_leased t then
        let* (leased, w) := maintainLease_tick (tm_signal t) (tm_token t) w in
        (true, set_leased leased t, w)
      else (true, t, w)
  | Watch i rounds =>
      match watched !! i with
      | Some candidate =>
          let* (_, w) := watchEVM r idle_timeout availability_order jitter rounds (tm_ctx t) candidate w in
          (true, t, w)
      | None => (true, t, w)
      end
  end.

  (** The loop over a sequence of events; whether it has returned by the end of it. *)
Fixpoint leader_loop (events : list leader_event) (t : term) (w : W) : bool * term * W :=
  match events with
  | [] => (false, t, w)
  | e :: events =>
      let* (going, t, w) := leader_step e t w in
      if going then leader_loop events t w else (true, t, w)
  end.

  (** The deferred calls cancel the context and wait for the goroutines, which return
      because of it. *)
  (* go: coordinator/coordinator.go:112-161 Coordinator.runLeader *)
Definition runLeader (schedule : nat → list nat) (events : list leader_event) (parent : Context)
    (token : string) (w : W) : bool * W :=
  let* (ctx, signal, w) := WithCancel parent w in
  let* (_, w) := poll r idle_timeout schedule ctx commitments w in
  let* (returned, _, w) := leader_loop events (mkTerm ctx signal token true) w in
  (returned, cancel signal w).

  (** ** Competing for leadership *)

  (** A round: an attempt, the term if it is won, and the release of its token. *)
  (* go: coordinator/coordinator.go:83-103 Coordinator.Run *)
Definition run_round (schedule : nat → list nat) (events : list leader_event) (ctx : Context) (w : W)
    : option string * W :=
  let* (acquired, w) := store_Acquire (now w) (chain r) owner leaderTTL w in
  match acquired with
  | Ok (token, true) =>
      let* (_, w) := runLeader schedule events ctx token w in
      let* (_, w) := store_Release (chain r) token w in
      (Some token, w)
  | _ => (None, w)
  end.

  (** The rounds, one every half lease, until the context ends; the tokens held, one after the other. *)
  (* go: coordinator/coordinator.go:79-110 Coordinator.Run *)
Fixpoint Run (rounds : list ((nat → list nat) * list leader_event)) (ctx : Context) (w : W)
    : list string * W :=
  match rounds with
  | [] => ([], w)
  | (schedule, events) :: rounds =>
      let* (token, w) := run_round schedule events ctx w in
      let* (again, w) := backoff ctx w in
      if again then let* (tokens, w) := Run rounds ctx w in (option_list token ++ tokens, w)
      else (option_list token, w)
  end.
End lead.

Lemma watched_evm r i c : watched r !! i = Some c → evm r = true.
Proof. unfold watched. by destruct (evm r). Qed.

(** ** What a coordinator does to the world

    As in [Activity.v], a relation that holds across the primitives holds across the
    coordinator's operations.  [calls] chains the lemmas of the calls of a body. *)

Create HintDb active.

Ltac calls R :=
  repeat case_match; simplify_eq;
  repeat match goal with
  | H : _ = (_, ?w1) |- R ?w0 ?w2 =>
      lazymatch w0 with w1 => fail | _ => idtac end;
      assert (R w0 w1) by (solve [eauto with active]); etrans; [eassumption|]; clear H
  end; try reflexivity; try (solve [eauto with active]).

Section coordinator_activity.
  Context {W : Type} `{World W, Clients W, Runtimes W, SingleFlight W, HeadStore W, BlockReader W,
    Coordinators W, Observations W, HeadSockets W, Leading W}.
  Context (R : relation W) {act : Activity R}.
  Variable r : Runtime.

  (** ** Observing *)

Lemma coordinator_call_active ctx c m args w res w' : coordinator_call ctx c m args w = (res, w') → R w w'.
Proof using act.
  unfold coordinator_call. destruct (MarshalCallParams args); [by apply Call_active|by intros [= _ <-]].
Qed.
#[local] Hint Resolve coordinator_call_active : active.

Lemma pollOne_active ctx c commitment w res w' : pollOne r ctx c commitment w = (res, w') → R w w'.
Proof using act. unfold pollOne, poll_evm, poll_solana. intros. calls R. Qed.
#[local] Hint Resolve pollOne_active : active.

Lemma check_canonical_active ctx current c w res w' : check_canonical r ctx current c w = (res, w') → R w w'.
Proof using act. unfold check_canonical. intros. calls R. Qed.
#[local] Hint Resolve check_canonical_active : active.

Lemma check_all_active ctx current cs w res w' : check_all r ctx current cs w = (res, w') → R w w'.
Proof using act. revert w res. induction cs as [|c cs IH]; simpl; intros; calls R. Qed.
#[local] Hint Resolve check_all_active : active.

Lemma getCanonicalEvidence_active ctx current w res w' :
  getCanonicalEvidence r ctx current w = (res, w') → R w w'.
Proof using act. unfold getCanonicalEvidence. intros. calls R. Qed.

  (** ** Polling and subscriptions

      The heads that are sent are the heads that were polled, and the headers of a
      subscription: [Sent] tells what holds of both. *)

Variable Sent : Head → Prop.
Hypothesis polled_Sent : ∀ ctx c commitment w h w',
  commitment ∈ commitments r → pollOne r ctx c commitment w = (Ok h, w') → Sent h.
Hypothesis parsed_Sent : ∀ t c header h,
  evm r = true → ParseEVMHead r t (mkParseRequest Latest (cl_ID c) header) = Ok h → Sent h.
Hypothesis act_send : ∀ ctx h w ok w', Sent h → send_observation ctx h w = (ok, w') → R w w'.
Hypothesis act_coordinator : ∀ name s w, R w (set_coordinator_state name s w).
Hypothesis act_snapshot : ∀ chain w res w', store_Snapshot chain w = (res, w') → R w w'.
#[local] Hint Resolve act_send act_snapshot polled_Sent parsed_Sent : active.

Lemma update_coordinator_active f w : R w (update_coordinator r f w).
Proof using act_coordinator. apply act_coordinator. Qed.

  (** An update of the coordinator's state before, or after, what is done. *)
Lemma after_update f w w' : R (update_coordinator r f w) w' → R w w'.
Proof using act act_coordinator. intros Hw. etrans; [apply update_coordinator_active|done]. Qed.

Lemma before_update f w w' : R w w' → R w (update_coordinator r f w').
Proof using act act_coordinator. intros Hw. etrans; [done|apply update_coordinator_active]. Qed.

Lemma after_record h w w' : R (recordProviderHead r h w) w' → R w w'.
Proof using act act_coordinator. apply after_update. Qed.

Lemma after_fresh i at_ w w' : R (setSubscriptionHead r i at_ w) w' → R w w'.
Proof using act act_coordinator. apply after_update. Qed.

Lemma after_polling c b w w' : R (set_polling r c b w) w' → R w w'.
Proof using act act_coordinator. apply after_update. Qed.
#[local] Hint Resolve after_record after_fresh after_polling before_update : active.

Lemma query_all_active ctx commitment cs w observed w' :
  query_all r ctx commitment cs w = (observed, w') → R w w'.
Proof using act act_coordinator.
  revert w observed. induction cs as [|c cs IH]; simpl; intros; calls R.
Qed.
#[local] Hint Resolve query_all_active : active.

Lemma send_all_active ctx l w sent complete w' :
  Forall Sent l → send_all ctx l w = (sent, complete, w') → R w w'.
Proof using act act_send.
  intros Hl. revert w sent complete. induction Hl as [|h l Hh Hl IH]; simpl; intros; calls R.
Qed.

  (** A round sends heads it polled. *)
Lemma reported_Sent ctx commitment cs w observed w1 current selected :
  commitment ∈ commitments r → query_all r ctx commitment cs w = (observed, w1) →
  selectFreshest current observed = Some selected → Forall Sent (reported r selected observed).
Proof using polled_Sent.
  intros Hc Hq Hs%selectFreshest_elem. apply Forall_forall. intros h Hh.
  apply (reported_spec r _ _ Hs) in Hh. destruct (query_all_spec r _ _ _ _ _ _ Hq h Hh) as (c & _ & cx & w2 & w3 & Hp).
  by eapply polled_Sent.
Qed.

Lemma poll_worker_active idle schedule ctx commitment w sent complete w' :
  commitment ∈ commitments r → poll_worker r idle schedule ctx commitment w = (sent, complete, w') → R w w'.
Proof using Type*.
  intros Hc. unfold poll_worker. destruct (query_all _ _ _ _ w) as [observed w1] eqn:Hq.
  apply query_all_active in Hq as Hw. destruct observed as [|first rest]; [by intros [= _ _ <-]|].
  destruct (store_Snapshot _ w1) as [sn w2] eqn:Hsn. apply act_snapshot in Hsn.
  assert (R w w2) as Hw2 by (by etrans). destruct sn as [e|sn]; [by intros [= _ _ <-]|].
  destruct (Get sn commitment) as [current known].
  destruct (selectFreshest current _) as [selected|] eqn:Hs; [|by intros [= _ _ <-]].
  intros Hsend%send_all_active; [by etrans|]. by eapply reported_Sent.
Qed.
#[local] Hint Resolve poll_worker_active : active.

Lemma poll_commitment_active idle schedule ctx c w sent w' :
  c ∈ commitments r → poll_commitment r idle schedule ctx c w = (sent, w') → R w w'.
Proof using Type*. unfold poll_commitment. intros. calls R. Qed.
#[local] Hint Resolve poll_commitment_active : active.

Lemma poll_active idle schedule ctx cs w sent w' :
  cs ⊆ commitments r → poll r idle schedule ctx cs w = (sent, w') → R w w'.
Proof using Type*.
  revert w sent. induction cs as [|c cs IH]; simpl; intros w sent Hcs; [by intros [= _ <-]|].
  assert (c ∈ commitments r) by (apply Hcs; by left). assert (cs ⊆ commitments r) by (intros x ?; apply Hcs; by right).
  intros. calls R.
Qed.

  (** ** Telemetry *)

Hypothesis act_gauge : ∀ g v tags w, R w (Gauge g v tags w).

Lemma lag_gauges_active h commitment cs w : R w (lag_gauges r h commitment cs w).
Proof using act act_gauge.
  unfold lag_gauges. revert w. induction cs as [|c cs IH]; intros w; simpl; [done|].
  destruct (_ !! _); [|apply IH]. etrans; [|apply IH]. apply act_gauge.
Qed.

Lemma head_gauges_active w entry : R w (head_gauges r w entry).
Proof using act act_gauge.
  unfold head_gauges. destruct (_ && _); [done|].
  repeat case_match; repeat (etrans; [|apply lag_gauges_active || apply act_gauge]); done.
Qed.

Lemma emitHeadAges_active heads_order w : R w (emitHeadAges r heads_order w).
Proof using act act_snapshot act_gauge.
  unfold emitHeadAges. destruct (store_Snapshot _ w) as [[e|sn] w1] eqn:Hs; apply act_snapshot in Hs; [done|].
  etrans; [exact Hs|]. generalize (heads_order (sn_Heads sn)). intros l. clear Hs. revert w1.
  induction l as [|x l IH]; intros w1; simpl; [done|]. etrans; [apply head_gauges_active|apply IH].
Qed.

  (** ** Subscriptions *)

Hypothesis act_dial : ∀ c ctx w ok w', ws_Dial c ctx w = (ok, w') → R w w'.
Hypothesis act_write : ∀ c m ctx w ok w', ws_Write c m ctx w = (ok, w') → R w w'.
Hypothesis act_read : ∀ c ctx w p w', ws_Read c ctx w = (p, w') → R w w'.
#[local] Hint Resolve act_dial act_write act_read : active.

Lemma HasEVMBlock_active order ctx c h w res w' : HasEVMBlock order r ctx c h w = (res, w') → R w w'.
Proof using act.
  unfold HasEVMBlock. destruct (String.eqb _ _); [by intros [= _ <-]|]. apply probe_active; [done|].
  intros. by eapply check_evm_block_active.
Qed.
#[local] Hint Resolve HasEVMBlock_active : active.

  (** Only a chain of the EVM family is followed. *)
Hypothesis is_evm : evm r = true.

Lemma latest_followed : Latest ∈ commitments r.
Proof using is_evm. unfold evm in is_evm. unfold commitments. apply String.eqb_eq in is_evm as ->. by left. Qed.
#[local] Hint Resolve latest_followed : active.

Lemma handle_frame_active order ctx c s last payload w f w' :
  handle_frame r order ctx c s last payload w = (f, w') → R w w'.
Proof using Type*.
  unfold handle_frame. intros. calls R.
Qed.
#[local] Hint Resolve handle_frame_active : active.

Lemma follow_frames_active idle order rounds ctx c s last w sent w' :
  follow_frames r idle order rounds ctx c s last w = (sent, w') → R w w'.
Proof using Type*. revert last w sent. induction rounds as [|n IH]; simpl; intros; calls R. Qed.
#[local] Hint Resolve follow_frames_active : active.

Lemma open_subscription_active ctx c w s w' : open_subscription r ctx c w = (s, w') → R w w'.
Proof using Type*. unfold open_subscription. intros. calls R. Qed.
#[local] Hint Resolve open_subscription_active : active.

Lemma watchEVMSession_active idle order rounds ctx c w sent w' :
  watchEVMSession r idle order rounds ctx c w = (sent, w') → R w w'.
Proof using Type*.
  unfold watchEVMSession, watch_session. destruct (open_subscription r ctx c w) as [s w1] eqn:Ho.
  destruct s as [s|]; [|intros; calls R]. destruct (pollOne r _ c Latest w1) as [[e|h] w2] eqn:Hp; [intros; calls R|].
  assert (Sent h) by (by eapply polled_Sent; [apply latest_followed|]). intros. calls R.
Qed.
#[local] Hint Resolve watchEVMSession_active : active.

Lemma watchEVM_active idle order jitter rounds ctx c w sent w' :
  watchEVM r idle order jitter rounds ctx c w = (sent, w') → R w w'.
Proof using Type*.
  assert (∀ w w', R (waitReconnect jitter ctx w) w' → R w w') as Hwait.
  { intros x y Hx. etrans; [|exact Hx]. unfold waitReconnect. destruct (sleep _ _ _) as [e z] eqn:Hs.
    by eapply act_sleep. }
  revert w sent. induction rounds as [|n IH]; cbn [watchEVM]; intros; calls R.
Qed.
End coordinator_activity.

(** ** Verifying a transition

    [T x w x' w'] relates the callback's variables and the world before and after. *)

Section transition_activity.
  Context {W : Type} `{BlockReader W}.
  Context {X : Type}.
  Variable range_order : gmap string Z → list (string * Z).
  Context (R : relation W) `{!PreOrder R}.
  Hypothesis act_block : ∀ ctx req w h w', read_block ctx req w = (h, w') → R w w'.
  #[local] Hint Resolve act_block : active.

Lemma read_parent_active ctx commitment origin child w h w' :
  read_parent ctx commitment origin child w = (h, w') → R w w'.
Proof using act_block. apply act_block. Qed.
#[local] Hint Resolve read_parent_active : active.

Lemma close_gap_active ctx current candidate budget cursor w c w' :
  close_gap ctx current candidate budget cursor w = (c, w') → R w w'.
Proof using Type*. revert cursor w c. induction budget as [|n IH]; simpl; intros; calls R. Qed.
#[local] Hint Resolve close_gap_active : active.

Lemma collect_ancestors_active ctx current candidate budget cursor m w c w' :
  collect_ancestors ctx current candidate budget cursor m w = (c, w') → R w w'.
Proof using Type*. revert cursor m w c. induction budget as [|n IH]; simpl; intros; calls R. Qed.
#[local] Hint Resolve collect_ancestors_active : active.

Lemma find_common_active e ctx candidate m budget cursor w c w' :
  find_common range_order e ctx candidate m budget cursor w = (c, w') → R w w'.
Proof using Type*. revert cursor w c. induction budget as [|n IH]; simpl; intros; calls R. Qed.
#[local] Hint Resolve find_common_active : active.

Lemma check_parent_active ctx candidate w e w' : check_parent ctx candidate w = (e, w') → R w w'.
Proof using Type*. unfold check_parent. intros. calls R. Qed.
#[local] Hint Resolve check_parent_active : active.

Variable T : X * W → X * W → Prop.
Context `{!PreOrder T}.
Hypothesis T_world : ∀ x w w', R w w' → T (x, w) (x, w').
Variable callback : X → W → option goerror * X * W.
Hypothesis T_callback : ∀ x w e x' w', callback x w = (e, x', w') → T (x, w) (x', w').

Lemma report_active current candidate reported x w e reported' x' w' :
  report (mkTransition current candidate (Some callback)) reported x w = (e, reported', x', w') →
  T (x, w) (x', w').
Proof using Type*.
  unfold report. simpl. destruct reported; [by intros [= _ _ <- <-]|].
  destruct (callback x w) as [[e1 x1] w1] eqn:Hc. intros [= _ _ <- <-]. by eapply T_callback.
Qed.

Lemma compare_branches_active depth ctx current candidate cursor reported x w res x' w' :
  compare_branches range_order depth ctx (mkTransition current candidate (Some callback)) cursor reported x w
    = (res, x', w') → T (x, w) (x', w').
Proof using Type*.
  unfold compare_branches. cbn [tr_current tr_candidate].
  destruct (if (_ =? _)%Z then _ else _) as [[[e1 b1] x1] w1] eqn:Hr.
  assert (T (x, w) (x1, w1)) as H1.
  { destruct (_ =? _)%Z; [by eapply report_active|by injection Hr as _ _ <- <-]. }
  destruct e1; [by intros [= _ <- <-]|].
  destruct (collect_ancestors _ _ _ _ _ _ w1) as [a w2] eqn:Ha. apply collect_ancestors_active in Ha.
  apply (T_world x1) in Ha. destruct a as [|e|m]; try (intros [= _ <- <-]; by etrans).
  destruct (report _ b1 x1 w2) as [[[e3 b3] x3] w3] eqn:Hr3. apply report_active in Hr3.
  destruct e3; [intros [= _ <- <-]; do 2 (etrans; [eassumption|]); done|].
  destruct (find_common _ _ _ _ _ _ _ w3) as [c w4] eqn:Hf. apply find_common_active in Hf.
  apply (T_world x3) in Hf. destruct c; intros [= _ <- <-]; do 3 (etrans; [eassumption|]); done.
Qed.

Lemma validate_active depth ctx current candidate x w res x' w' :
  validateEVMTransition range_order depth ctx (mkTransition current candidate (Some callback)) x w
    = (res, x', w') → T (x, w) (x', w').
Proof using Type*.
  unfold validateEVMTransition. cbn [tr_current tr_candidate].
  destruct (_ && _); [by intros [= _ <- <-]|]. destruct (_ && _); [by intros [= _ <- <-]|].
  destruct (if _ && _ then report _ _ _ _ else _) as [[[e1 b1] x1] w1] eqn:Hr.
  assert (T (x, w) (x1, w1)) as H1.
  { destruct (_ && _); [by eapply report_active|by injection Hr as _ _ <- <-]. }
  destruct e1; [by intros [= _ <- <-]|]. destruct (_ <? _)%Z; [by intros [= _ <- <-]|].
  destruct (check_parent _ _ w1) as [e2 w2] eqn:Hp. apply check_parent_active, (T_world x1) in Hp.
  destruct e2; [intros [= _ <- <-]; by etrans|].
  destruct (close_gap _ _ _ _ _ w2) as [c w3] eqn:Hg. apply close_gap_active, (T_world x1) in Hg.
  destruct c; [intros [= _ <- <-]; do 2 (etrans; [eassumption|]); done|].
  destruct (andb (Number a =? _)%Z _); [intros [= _ <- <-]; do 2 (etrans; [eassumption|]); done|].
  intros Hc%compare_branches_active. do 3 (etrans; [eassumption|]). done.
Qed.
End transition_activity.

(** ** A lost lease

    What a store promises about a token that is no longer in force, for a relation [R]
    that holds across everything but a write of the store under that token: the loss is
    final, a lost token renews, publishes, fences and releases nothing. *)
Class LeaseLaws (W : Type) `{HeadStore W} (R : relation W) := {
  lease_lost : string → string → W → Prop;
  lease_lost_stable chain token w w' : R w w' → lease_lost chain token w → lease_lost chain token w';
  lease_snapshot chain w res w' : store_Snapshot chain w = (res, w') → R w w';
  lease_heads chain token w sn w' commitment h :
    lease_lost chain token w → store_Snapshot chain w = (Ok sn, w') →
    sn_Heads sn !! commitment = Some h → Chain h = chain;
  lease_renew now chain token ttl w res w' :
    lease_lost chain token w → store_Renew now chain token ttl w = (res, w') → R w w' ∧ res ≠ Ok true;
  lease_publish now token h w res w' :
    lease_lost (Chain h) token w → store_Publish now token h w = (res, w') → R w w' ∧ lost_or_failed res;
  lease_begin now chain token w res w' :
    lease_lost chain token w → store_BeginReorg now chain token w = (res, w') → R w w' ∧ lost_or_failed res;
  lease_release chain token w res w' :
    lease_lost chain token w → store_Release chain token w = (res, w') → R w w'
}.

Section deposed_decision.
  Context {W : Type} `{World W, Clients W, Runtimes W, SingleFlight W, HeadStore W, BlockReader W,
    Coordinators W, Observations W, HeadSockets W, Leading W}.
  Context (R : relation W) {act : Activity R} {laws : LeaseLaws W R}.
  Variable ancestor_order : gmap string Z → list (string * Z).
  Variable r : Runtime.
  Hypothesis act_block : ∀ ctx req w h w', read_block ctx req w = (h, w') → R w w'.

#[local] Abbreviation lost_at chain token w := (lease_lost (R := R) chain token w).

  (** From a world where the lease is lost, [x] is kept and the world only R-changed. *)
Definition kept (chain token : string) (X : Type) (a b : X * W) : Prop :=
  lost_at chain token a.2 → R a.2 b.2 ∧ b.1 = a.1.

#[local] Instance kept_preorder chain token X : PreOrder (kept chain token X).
Proof using act.
  split.
  - intros [x w] _. done.
  - intros [x w] [y w1] [z w2] Hxy Hyz Hl. destruct (Hxy Hl) as [Hw Hx]. simpl in *.
    destruct (Hyz (lease_lost_stable _ _ _ _ Hw Hl)) as [Hw2 Hz]. simpl in *. split; [by etrans|congruence].
Qed.

Lemma begin_reorg_kept chain token x w e x' w' :
  begin_reorg chain token x w = (e, x', w') → kept chain token Head (x, w) (x', w').
Proof using act.
  unfold begin_reorg. intros Hb Hl. simpl in *. destruct (ReorgPending x); [by injection Hb as _ <- <-|].
  destruct (store_BeginReorg _ _ _ w) as [res w1] eqn:Hs.
  destruct (lease_begin _ _ _ _ _ _ Hl Hs) as [Hw [->|[m ->]]]; by injection Hb as _ <- <-.
Qed.

Lemma acknowledge_chain h h' current : acknowledge h current = PublishHead h' current → Chain h' = Chain h.
Proof using Type. by intros [= <-]. Qed.

Lemma transition_kept ctx token candidate current w d w' :
  lost_at (Chain candidate) token w → Chain current = Chain candidate →
  transition ancestor_order r ctx token candidate current w = (d, w') →
  R w w' ∧ ∀ h current', d = PublishHead h current' → Chain h = Chain candidate.
Proof using act act_block.
  intros Hl Hc. unfold transition.
  destruct (validateEVMTransition _ _ _ _ _ w) as [[res x1] w1] eqn:Hv.
  assert (kept (Chain candidate) token Head (current, w) (x1, w1)) as Hk.
  { refine (validate_active ancestor_order R act_block _ _ _ (λ x w e x' w', begin_reorg_kept _ _ x w e x' w')
      _ _ _ _ _ _ _ _ _ Hv). intros x y y' Hy _. done. }
  destruct (Hk Hl) as [Hw Hx]. simpl in Hw, Hx. subst x1. destruct res as [e|reorg]; [by intros [= <- <-]|].
  destruct (_ <=? _)%Z; [|intros [= <- <-]; split; [done|by intros h c [= <- _]]].
  destruct (negb reorg); [by intros [= <- <-]|].
  destruct (getCanonicalEvidence _ _ _ w1) as [ev w2] eqn:He. eapply getCanonicalEvidence_active in He; [|done].
  assert (R w w2) by (by etrans). destruct ev as [e|ev]; [by intros [= <- <-]|].
  destruct (observed ev); [destruct (negb _); [by intros [= <- <-]|]|];
    intros [= <- <-]; (split; [done|]); by intros h c [= <- _].
Qed.

Lemma reobserve_kept ctx candidate current w d w' : reobserve r ctx candidate current w = (d, w') →
  R w w' ∧ ∀ h current', d = PublishHead h current' → Chain h = Chain candidate.
Proof using act.
  unfold reobserve. destruct (ReorgPending current); [|intros [= <- <-]; split; [done|by intros h c [= <- _]]].
  destruct (getCanonicalEvidence _ _ _ w) as [ev w2] eqn:He. eapply getCanonicalEvidence_active in He; [|done].
  destruct ev as [e|ev]; [by intros [= <- <-]|].
  destruct (negb _); intros [= <- <-]; split; try done. by intros h c [= <- _].
Qed.

Lemma decide_head_kept ctx token candidate w d w' :
  lost_at (Chain candidate) token w → decide_head ancestor_order r ctx token candidate w = (d, w') →
  R w w' ∧ ∀ h current, d = PublishHead h current → Chain h = Chain candidate.
Proof using act act_block.
  intros Hl. unfold decide_head. destruct (store_Snapshot _ w) as [[e|sn] w1] eqn:Hs.
  { intros [= <- <-]. split; [by eapply lease_snapshot|done]. }
  pose proof (λ c h, lease_heads _ _ _ _ _ c h Hl Hs) as Hheads. apply lease_snapshot in Hs as Hw1.
  unfold Get. destruct (sn_Heads sn !! Commitment candidate) as [current|] eqn:Hc; simpl.
  all: destruct (if _ && _ && _ then _ else _) as [e w2] eqn:Hi.
  all: assert (R w w2) as Hw2 by
    (etrans; [exact Hw1|]; revert Hi; case_match; [|by intros [= _ <-]]; unfold initial_parent;
     destruct (read_block _ _ w1) as [p w3] eqn:Hp; apply act_block in Hp; repeat case_match; by intros [= _ <-]).
  all: destruct e; [by intros [= <- <-]|].
  all: clear Hi; destruct (_ && _ && _); [by intros [= <- <-]|].
  - rewrite andb_true_r. destruct (String.eqb _ _); [|intros [= <- <-]; split; [done|by intros h c [= <- _]]].
    destruct (EqualFold _ _).
    + intros [Hr Hh]%reobserve_kept. split; [by etrans|done].
    + intros Ht. destruct (transition_kept _ _ _ _ _ _ _ (lease_lost_stable _ _ _ _ Hw2 Hl) (Hheads _ _ Hc) Ht)
        as [Hr Hh]. split; [by etrans|done].
  - rewrite andb_false_r. intros [= <- <-]. split; [done|by intros h c [= <- _]].
Qed.

  (** What would be published is refused. *)
Lemma consider_lost ctx token candidate w e w' :
  lost_at (Chain candidate) token w → consider ancestor_order r ctx token candidate w = (e, w') →
  R w w' ∧ ∀ h current w1, decide_head ancestor_order r ctx token candidate w = (PublishHead h current, w1) →
    ∃ err, e = Some (ErrStore err) ∧ lost_or_failed (@Err _ unit err).
Proof using act act_block.
  intros Hl. unfold consider. destruct (decide_head _ _ _ _ _ w) as [d w1] eqn:Hd.
  destruct (decide_head_kept _ _ _ _ _ _ Hl Hd) as [Hw Hc]. destruct d as [|h current|e1].
  1, 3: intros [= <- <-]; split; [done|intros; by simplify_eq].
  specialize (Hc _ _ eq_refl). destruct (store_Publish _ _ h w1) as [res w2] eqn:Hp.
  assert (lost_at (Chain h) token w1) as Hl1 by (rewrite Hc; by eapply lease_lost_stable).
  destruct (lease_publish _ _ _ _ _ _ Hl1 Hp) as [Hw2 [->|[m ->]]]; intros [= <- <-];
    (split; [by etrans|intros ? ? ? [= <- _ _]; eexists; split; [done|]]); [by left|right; by eexists].
Qed.
End deposed_decision.

(** ** A term without a lease *)

(** The primitives of a leader: [R] holds across each; an ended context stays ended,
    cancelling ends the derived contexts, and the channel delivers heads of the chain,
    which is all that is sent to it. *)
Class LeaderActivity {W : Type} `{World W, BlockReader W, Coordinators W, Observations W, HeadSockets W,
    Leading W} (R : relation W) (name : string) := {
  la_block ctx req w h w' : read_block ctx req w = (h, w') → R w w';
  la_send ctx h w ok w' : send_observation ctx h w = (ok, w') → R w w';
  la_coordinator n s w : R w (set_coordinator_state n s w);
  la_dial c ctx w ok w' : ws_Dial c ctx w = (ok, w') → R w w';
  la_write c m ctx w ok w' : ws_Write c m ctx w = (ok, w') → R w w';
  la_read c ctx w p w' : ws_Read c ctx w = (p, w') → R w w';
  la_receive w h w' : receive_observation w = (h, w') → R w w';
  la_cancel signal w : R w (cancel signal w);
  la_gauge g v tags w : R w (Gauge g v tags w);
  la_here w h w' : receive_observation w = (Some h, w') → Chain h = name;
  la_canceled signal w : canceled signal (cancel signal w) = true;
  la_ended ctx w w' : R w w' → is_Some (ctx_Err ctx w) → is_Some (ctx_Err ctx w')
}.

Section deposed_term.
  Context {W : Type} `{World W, Clients W, Runtimes W, SingleFlight W, HeadStore W, BlockReader W,
    Coordinators W, Observations W, HeadSockets W, Leading W}.
  Variable r : Runtime.
  Context (R : relation W) {act : Activity R} {laws : LeaseLaws W R} {leads : LeaderActivity R (chain r)}.
  Variables leaderTTL idle_timeout : Z.
  Variable ancestor_order : gmap string Z → list (string * Z).
  Variable availability_order : gmap string availabilityRecord → list string.
  Variable heads_order : gmap string Head → list (string * Head).
  Variable jitter : W → Z.

#[local] Abbreviation step := (leader_step r leaderTTL idle_timeout ancestor_order availability_order heads_order jitter).
#[local] Abbreviation loop := (leader_loop r leaderTTL idle_timeout ancestor_order availability_order heads_order jitter).
#[local] Abbreviation lost t w := (lease_lost (R := R) (chain r) (tm_token t) w).

  (** Cancelling ends the context of the term. *)
Definition of_signal (t : term) : Prop := ctx_signal (tm_ctx t) = Some (tm_signal t).

Lemma done_cancel t w : of_signal t → done (tm_ctx t) (cancel (tm_signal t) w) = true.
Proof using leads.
  unfold of_signal, done, ctx_Err. intros ->. rewrite la_canceled. done.
Qed.

Lemma done_later ctx w w' : R w w' → done ctx w = true → done ctx w' = true.
Proof using leads. unfold done. rewrite !bool_decide_eq_true. apply la_ended. Qed.

Definition same_term (t t' : term) : Prop :=
  tm_ctx t' = tm_ctx t ∧ tm_signal t' = tm_signal t ∧ tm_token t' = tm_token t.

Lemma leader_step_lost e t w going t' w' :
  lost t w → step e t w = (going, t', w') → R w w' ∧ same_term t t'.
Proof using act leads laws.
  intros Hl. unfold leader_step. destruct e as [|sched| | | |i rounds].
  - by intros [= _ <- <-].
  - destruct (poll _ _ _ _ _ w) as [sent w1] eqn:Hp. intros [= _ <- <-]. split; [|done].
    etrans; [|apply emitHeadAges_active; [done|apply lease_snapshot|apply la_gauge]].
    eapply (poll_active R r (λ _, True)); [done..| |apply la_coordinator|apply lease_snapshot|done|exact Hp].
    intros. by eapply la_send.
  - destruct (receive_observation w) as [[h|] w1] eqn:Hr; [|intros [= _ <- <-]; split; [by eapply la_receive|done]].
    apply la_here in Hr as Hh. apply la_receive in Hr.
    destruct (consider _ _ _ _ h w1) as [e w2] eqn:Hc.
    apply (consider_lost R) in Hc as [Hw _]; [|apply la_block|rewrite Hh; by eapply lease_lost_stable].
    destruct e; intros [= _ <- <-]; (split; [by etrans|done]).
  - by intros [= _ <- <-].
  - destruct (tm_leased t); [|by intros [= _ <- <-]]. unfold maintainLease_tick.
    destruct (store_Renew _ _ _ _ w) as [res w1] eqn:Hr. destruct (lease_renew _ _ _ _ _ _ _ Hl Hr) as [Hw Hne].
    repeat case_match; intros; simplify_eq; (split; [|done]); [by (etrans; [exact Hw|apply la_cancel])..].
  - destruct (watched r !! i) as [c|] eqn:Hc; [|by intros [= _ <- <-]].
    destruct (watchEVM _ _ _ _ _ _ _ w) as [sent w1] eqn:Hw. intros [= _ <- <-]. split; [|done].
    apply (watchEVM_active R r (λ _, True)) in Hw; try done; [intros; by eapply la_send|apply la_coordinator
      |apply lease_snapshot|apply la_gauge|apply la_dial|apply la_write|apply la_read|by eapply watched_evm].
Qed.

Lemma same_term_lost t t' w w' : same_term t t' → R w w' → lost t w → lost t' w'.
Proof using Type. intros (_ & _ & ->) Hw. by apply lease_lost_stable. Qed.

Lemma leader_loop_lost events t w returned t' w' :
  lost t w → loop events t w = (returned, t', w') → R w w' ∧ same_term t t'.
Proof using act leads laws.
  revert t w. induction events as [|e events IH]; intros t w Hl; simpl; [by intros [= _ <- <-]|].
  destruct (step e t w) as [[going t1] w1] eqn:Hs. destruct (leader_step_lost _ _ _ _ _ _ Hl Hs) as [Hw Ht].
  destruct going; [|by intros [= _ <- <-]]. intros Hlo.
  destruct (IH t1 w1 (same_term_lost _ _ _ _ Ht Hw Hl) Hlo) as [Hw' (Hc & Hg & Hk)].
  split; [by etrans|]. destruct Ht as (? & ? & ?). split_and!; congruence.
Qed.

Lemma leader_loop_app l1 l2 t w : loop (l1 ++ l2) t w =
  let '(returned, t1, w1) := loop l1 t w in if returned then (true, t1, w1) else loop l2 t1 w1.
Proof using Type.
  revert t w. induction l1 as [|e l1 IH]; intros t w; simpl; [done|].
  destruct (step e t w) as [[[|] t1] w1]; [apply IH|done].
Qed.

  (** The lease is maintained until the context has ended. *)
Definition maintained (t : term) (w : W) : Prop := tm_leased t = true ∨ done (tm_ctx t) w = true.

Lemma leader_step_maintained e t w going t' w' :
  of_signal t → lost t w → maintained t w → step e t w = (going, t', w') → maintained t' w'.
Proof using act leads laws.
  intros Hsig Hl Hm Hs. destruct (leader_step_lost _ _ _ _ _ _ Hl Hs) as [Hw (Hc & _)].
  destruct Hm as [Hm|Hm]; [|right; rewrite Hc; by eapply done_later].
  destruct e; revert Hs; unfold leader_step; try (repeat case_match; intros; simplify_eq; by left).
  - intros [= _ <- <-]. rewrite Hm. unfold maintained. simpl. destruct (done _ w); [by right|by left].
  - rewrite Hm. unfold maintainLease_tick.
    repeat case_match; intros; simplify_eq; (try by left); right; exact (done_cancel t _ Hsig).
Qed.

  (** A tick of the lost lease ends the context. *)
Lemma lease_tick_ends t w going t' w' :
  of_signal t → lost t w → maintained t w → step LeaseTick t w = (going, t', w') →
  done (tm_ctx t') w' = true.
Proof using act leads laws.
  intros Hsig Hl Hm Hs. destruct (leader_step_lost _ _ _ _ _ _ Hl Hs) as [Hw (Hc & _)]. rewrite Hc.
  destruct Hm as [Hm|Hm]; [|by eapply done_later]. revert Hs. unfold leader_step, maintainLease_tick. rewrite Hm.
  destruct (store_Renew _ _ _ _ w) as [res w1] eqn:Hr. destruct (lease_renew _ _ _ _ _ _ _ Hl Hr) as [_ Hne].
  repeat case_match; intros; simplify_eq; try exact (done_cancel t _ Hsig).
Qed.

Lemma leader_loop_ends pre t w t' w' :
  of_signal t → maintained t w → lost t w → loop (pre ++ [LeaseTick]) t w = (false, t', w') →
  lost t' w' ∧ done (tm_ctx t') w' = true.
Proof using act leads laws.
  revert t w. induction pre as [|e pre IH]; intros t w Hsig Hm Hl; cbn [app leader_loop];
    (destruct (step _ t w) as [[[|] t1] w1] eqn:Hs; [|done]);
    destruct (leader_step_lost _ _ _ _ _ _ Hl Hs) as [Hw Ht];
    pose proof (same_term_lost _ _ _ _ Ht Hw Hl) as Hl1.
  - intros [= <- <-]. split; [done|]. by eapply lease_tick_ends.
  - apply IH; [|by eapply leader_step_maintained|done]. destruct Ht as (Hc & Hg & _). unfold of_signal. congruence.
Qed.
End deposed_term.

(** * Properties *)

(** C20: a deposed leader is powerless.  From the moment its lease is lost to the end of
    its term, whatever it still polls, follows, verifies and decides, in whatever order
    its goroutines run, and with the release of its token, a leader leaves the world as
    everything but a write of the store leaves it; and each head it decides to publish
    is refused with an error: lost leadership, or a store that could not be asked. *)
Theorem deposed_leader_powerless `{World W, Clients W, Runtimes W, SingleFlight W, HeadStore W, BlockReader W,
    Coordinators W, Observations W, HeadSockets W, Leading W} r (R : relation W)
    {act : Activity R} {laws : LeaseLaws W R} {leads : LeaderActivity R (chain r)}
    leaderTTL idle_timeout ancestor_order availability_order heads_order jitter events t w returned t' w1 res w2 :
  lease_lost (chain r) (tm_token t) w →
  leader_loop r leaderTTL idle_timeout ancestor_order availability_order heads_order jitter events t w
    = (returned, t', w1) →
  store_Release (chain r) (tm_token t) (cancel (tm_signal t) w1) = (res, w2) →
  R w w1 ∧ R w w2 ∧
  ∀ ctx candidate wx e wx' h current wd,
    R w wx → Chain candidate = chain r →
    consider ancestor_order r ctx (tm_token t) candidate wx = (e, wx') →
    decide_head ancestor_order r ctx (tm_token t) candidate wx = (PublishHead h current, wd) →
    R wx wx' ∧ ∃ err, e = Some (ErrStore err) ∧ lost_or_failed (@Err _ unit err).
Proof.
  intros Hl Hrun Hrel. destruct (leader_loop_lost r R _ _ _ _ _ _ _ _ _ _ _ _ Hl Hrun) as [Hw _].
  assert (R w (cancel (tm_signal t) w1)) as Hc by (etrans; [exact Hw|apply la_cancel]).
  split; [done|]. split.
  - etrans; [exact Hc|]. eapply lease_release; [by eapply lease_lost_stable|exact Hrel].
  - intros ctx candidate wx e wx' h current wd Hwx Hch Hcons Hdec.
    assert (lease_lost (Chain candidate) (tm_token t) wx) as Hlx by (rewrite Hch; by eapply lease_lost_stable).
    destruct (consider_lost R _ _ la_block _ _ _ _ _ _ Hlx Hcons) as [Hx Hd]. split; [done|]. by eapply Hd.
Qed.

(** C21: a deposed leader steps down.  Once its lease is lost, the next tick of the lease
    ends its context, and the loop returns when it sees the end of the context, if not
    before: whatever happens between the two, and whatever would have come after. *)
Theorem deposed_leader_stops `{World W, Clients W, Runtimes W, SingleFlight W, HeadStore W, BlockReader W,
    Coordinators W, Observations W, HeadSockets W, Leading W} r (R : relation W)
    {act : Activity R} {laws : LeaseLaws W R} {leads : LeaderActivity R (chain r)}
    leaderTTL idle_timeout ancestor_order availability_order heads_order jitter pre mid t w :
  of_signal t → maintained t w → lease_lost (chain r) (tm_token t) w →
  ∃ t' w', ∀ post,
    leader_loop r leaderTTL idle_timeout ancestor_order availability_order heads_order jitter
      (pre ++ LeaseTick :: mid ++ Done :: post) t w = (true, t', w').
Proof.
  intros Hsig Hm Hl.
  set (loop := leader_loop r leaderTTL idle_timeout ancestor_order availability_order heads_order jitter).
  destruct (loop (pre ++ [LeaseTick]) t w) as [[ret t1] w1] eqn:Hfirst.
  assert (∀ post, loop (pre ++ LeaseTick :: mid ++ Done :: post) t w =
    if ret then (true, t1, w1) else loop (mid ++ Done :: post) t1 w1) as Hpre.
  { intros post. change (LeaseTick :: mid ++ Done :: post) with ([LeaseTick] ++ mid ++ Done :: post).
    rewrite (app_assoc pre). unfold loop in *. by rewrite leader_loop_app, Hfirst. }
  destruct ret; [by exists t1, w1|].
  destruct (loop mid t1 w1) as [[ret2 t2] w2] eqn:Hmid. exists t2, w2. intros post. rewrite Hpre. unfold loop in *.
  rewrite leader_loop_app, Hmid. destruct ret2; [done|].
  destruct (leader_loop_ends r R _ _ _ _ _ _ _ _ _ _ _ Hsig Hm Hl Hfirst) as (Hl1 & Hd1).
  destruct (leader_loop_lost r R _ _ _ _ _ _ _ _ _ _ _ _ Hl1 Hmid) as [Hw2 (Hc2 & _)]. simpl.
  unfold leader_step. rewrite Hc2. assert (done (tm_ctx t1) w2 = true) as Hd2 by (by eapply done_later).
  rewrite Hd2. simpl. done.
Qed.
