(* ===== verification/Leases.v ===== *)
(** * The leases of the two stores

    Both stores keep the promises [Leadership.v] asks of a lost lease: the in-process
    store once a later lease has been issued, the shared store once the chain has been
    acquired again. *)

From S2P Require Import Prelude GoStrings GoJson Evm JsonRpc Head MemoryStore World HeadJson Redis RedisStore.
From S2P Require Import SharedStore SharedLaws SharedProperties Upstream Chain RequestCache Coordinator Observers.
From S2P Require Import Receipts Transform Router Activity Leadership.

(** ** The in-process store

    As one component of a world, for any relation that keeps the store: a deposed
    leader leaves it exactly as it was. *)
Section memory.
  Context {W : Type} (get_store : W → MemoryStore) (set_store : MemoryStore → W → W).
  Variable R : relation W.
  Hypothesis R_store : ∀ w w', R w w' → get_store w' = get_store w.
  Hypothesis R_same : ∀ w, R w (set_store (get_store w) w).
  Variable family : string → string.

Definition memory_lost (chain token : string) (w : W) : Prop :=
  store_wf family (get_store w) ∧
  ∃ G owner g, token = leader_token owner g ∧ (0 ≤ g ≤ G)%Z ∧ issued_above G (view (get_store w) chain).

Lemma memory_lost_token chain token w : memory_lost chain token w →
  String.eqb (ld_token (leader_of (get_store w) chain)) token = false.
Proof using Type.
  intros (_ & G & o & g & -> & Hg & Hi). apply String.eqb_neq. by apply (stale_token_refused _ o g _ Hi).
Qed.

Lemma lift_same {A} (op : MemoryStore → A * MemoryStore) w a w' x :
  op (get_store w) = (x, get_store w) → lift_op get_store set_store op w = (a, w') → R w w' ∧ a = x.
Proof using R_same. unfold lift_op. intros ->. intros [= <- <-]. split; [apply R_same|done]. Qed.

Definition memory_leases : @LeaseLaws W (lift_store get_store set_store) R.
Proof using R_same R_store family.
  refine (@Build_LeaseLaws W (lift_store get_store set_store) R memory_lost _ _ _ _ _ _ _).
  - intros chain token w w' Hr (Hw & G & o & g & Ht & Hg & Hi). unfold memory_lost. rewrite (R_store _ _ Hr). eauto 10.
  - intros chain w res w' Hs. eapply lift_same in Hs; [apply Hs|done].
  - intros chain token w sn w' c h Hl Hs. destruct (lift_same (MemoryStore.Snapshot_ chain) _ _ _ _ eq_refl Hs) as [_ [= ->]].
    destruct Hl as (Hw & _). intros Hh. by apply (wf_heads _ _ _ (Hw chain)) in Hh as (? & _).
  - intros now chain token ttl w res w' Hl Hs.
    destruct (lift_same (MemoryStore.Renew now chain token ttl) w res w' (Ok false)) as [Hr ->];
      [by unfold MemoryStore.Renew; rewrite (memory_lost_token _ _ _ Hl)|exact Hs|by split].
  - intros now token h w res w' Hl Hs.
    destruct (lift_same (MemoryStore.Publish now token h) w res w' (Err ErrLeadershipLost)) as [Hr ->];
      [by unfold MemoryStore.Publish; rewrite (memory_lost_token _ _ _ Hl)|exact Hs|by split; [|left]].
  - intros now chain token w res w' Hl Hs.
    destruct (lift_same (MemoryStore.BeginReorg now chain token) w res w' (Err ErrLeadershipLost)) as [Hr ->];
      [by unfold MemoryStore.BeginReorg; rewrite (memory_lost_token _ _ _ Hl)|exact Hs|by split; [|left]].
  - intros chain token w res w' Hl Hs.
    destruct (lift_same (MemoryStore.Release chain token) w res w' (Ok ())) as [Hr _];
      [by unfold MemoryStore.Release; rewrite (memory_lost_token _ _ _ Hl)|exact Hs|done].
Defined.
End memory.

(** ** The shared store

    Between two worlds the server took steps, of this instance and of others. *)
Section shared.
  Context {W R : Type} `{World W, Cjson, CjsonHeads, !CjsonLaws W, RedisLaws R, RedisClient W R}.
  Variables (store : RedisStore) (chain_family : string → string).
  Context `{!RedisClientLaws W R (server_step store chain_family)}.
  Variable json_error : string → string.
  Variable range_order : gmap string string → list string.
  
#[local] Abbreviation steps := (λ w w' : W, rtc (server_step store chain_family) (rc_server w) (rc_server w')).

Lemma deposed_Release ctx chain token w res w' : deposed store chain_family token chain (rc_server w) →
  RedisStore.Release store ctx chain token w = (res, w') → steps w w'.
Proof using Type*.
  intros Hd. unfold RedisStore.Release. destruct (run_script _ _ _) as [response w1] eqn:Hrun. intros [= _ <-].
  by destruct (deposed_run store chain_family (RRelease chain token) token ctx w response w1 Hd eq_refl Hrun).
Qed.

Lemma Snapshot_steps ctx chain w res w' :
  RedisStore.Snapshot_ json_error range_order store ctx chain w = (res, w') → steps w w'.
Proof using Type*.
  unfold RedisStore.Snapshot_. destruct (run_command _ ctx w) as [response w1] eqn:Hrun. intros [= _ <-].
  pose proof (run_reading store chain_family (HGETALL (key store chain "heads")) ctx w response w1 I Hrun) as Hr.
  destruct response as [e|rp]; [done|]. destruct Hr as (r1 & Hto & _ & Hfrom). by etrans.
Qed.

Hypothesis range_keys : ∀ m, range_order m ≡ₚ (map_to_list m).*1.

Definition shared_leases (ctx : Context) :
  @LeaseLaws W (RedisStore_HeadStore json_error range_order store ctx) steps.
Proof using Type*.
  refine (@Build_LeaseLaws W (RedisStore_HeadStore json_error range_order store ctx) steps
    (λ chain token w, server_wf store chain_family (rc_server w) ∧ deposed store chain_family token chain (rc_server w))
    _ _ _ _ _ _ _).
  - intros chain token w w' Hr [Hw Hd]. split; [by eapply server_steps_wf|by eapply deposed_later].
  - intros chain w res w' Hs. exact (Snapshot_steps ctx chain w res w' Hs).
  - intros chain token w sn w' c h [Hw _] Hs Hh. eapply Snapshot_Ok in Hs as (r1 & Hto & _ & Hheads); [|exact range_keys].
    assert (server_wf store chain_family r1) as Hw1 by (by eapply server_steps_wf).
    destruct (Hw1 chain) as (v & Hv & Hwf). specialize (Hheads c). rewrite (head_shows _ _ _ _ _ Hv), Hh in Hheads.
    by apply (rw_heads _ _ _ Hwf) in Hheads as (? & _).
  - intros now chain token ttl w res w' [Hw Hd] Hs. eapply deposed_Renew in Hs as [Ha Hr]; [|done].
    split; [done|]. by destruct Ha as [->|[m ->]].
  - intros now token h w res w' [Hw Hd] Hs. eapply deposed_Publish in Hs as [Ha Hr]; [|done..]. by split.
  - intros now chain token w res w' [Hw Hd] Hs. eapply deposed_BeginReorg in Hs as [Ha Hr]; [|done..]. by split.
  - intros chain token w res w' [Hw Hd] Hs. exact (deposed_Release ctx chain token w res w' Hd Hs).
Defined.
End shared.

(** ** A leader that is deposed

    Instance [a] led, its lease ran out and [b] leads now; [a] still runs its term. *)

Definition add_signal (signal : nat) : Sim (ChainWorld (ObserverState * MemoryStore)) →
    Sim (ChainWorld (ObserverState * MemoryStore)) :=
  map_observers (λ o, mkObservers (os_states o) (os_sent o) (os_frames o) (signal :: os_signals o)).

(** The channel of the chain [demo]. *)
#[export] Instance sim_leading : Leading (Sim (ChainWorld (ObserverState * MemoryStore))) := {
  new_signal _ w := (length (os_signals (cw_rest (sim_state w)).1), w);
  cancel := add_signal;
  receive_observation w :=
    match list_find (λ h, Chain h = "demo") (os_sent (cw_rest (sim_state w)).1) with
    | Some (i, h) =>
        (Some h, map_observers (λ o, mkObservers (os_states o) (drop (S i) (os_sent o)) (os_frames o) (os_signals o)) w)
    | None => (None, w)
    end;
  backoff ctx w := (negb (done ctx w), w);
  Gauge _ _ _ w := w
}.

(** Everything but a write of the store. *)
Record unwritten (w w' : Sim (ChainWorld (ObserverState * MemoryStore))) : Prop := mkUnwritten {
  un_store : (cw_rest (sim_state w')).2 = (cw_rest (sim_state w)).2;
  un_time : (sim_now w ≤ sim_now w')%Z;
  un_signals : os_signals (cw_rest (sim_state w)).1 ⊆ os_signals (cw_rest (sim_state w')).1
}.

#[export] Instance unwritten_preorder : PreOrder unwritten.
Proof.
  split; [intros w; by split|]. intros x y z [S1 T1 G1] [S2 T2 G2]. split; [congruence|lia|by etrans].
Qed.

#[export] Instance unwritten_activity : Activity unwritten.
Proof.
  split.
  - apply unwritten_preorder.
  - intros req ctx w r w' [= _ <-]. done.
  - intros k ctx w r w' [= _ <-]. done.
  - intros k w. done.
  - intros k s w. by split.
  - intros k s w. by split.
  - intros A group key f w r shared w' Hf. simpl. destruct (f w) as [r1 w1] eqn:Hfw. intros [= _ _ <-]. by eapply Hf.
  - intros d ctx w r w'. simpl. destruct (match ctx_deadline ctx with Some _ => _ | None => _ end);
      intros [= _ <-]; split; simpl; done || lia.
Qed.

#[export] Instance unwritten_leader : LeaderActivity (H0 := runtime_reader fork_runtime) unwritten "demo".
Proof.
  split.
  - intros ctx req w h w'. apply (EVMBlockByHash_active unwritten).
  - intros ctx h w ok w' [= _ <-]. by split.
  - intros n s w. by split.
  - intros c ctx w ok w' [= _ <-]. done.
  - intros c m ctx w ok w' [= _ <-]. done.
  - intros c ctx w p w' [= _ <-]. by split.
  - intros w h w'. simpl. destruct (list_find _ _) as [[i x]|]; intros [= _ <-]; by split.
  - intros signal w. split; simpl; [done..|]. by apply list_subseteq_skip_r || set_solver.
  - intros g v tags w. done.
  - intros w h w'. simpl. destruct (list_find _ _) as [[i x]|] eqn:Hf; [|done]. intros [= <- _].
    by apply list_find_Some in Hf as (_ & ? & _).
  - intros signal w. apply bool_decide_eq_true. by left.
  - intros ctx w w' [_ Htime Hsig]. unfold ctx_Err.
    destruct (match ctx_signal ctx with Some t => canceled t w' | None => false end) eqn:Hc'; [done|].
    destruct (match ctx_signal ctx with Some t => canceled t w | None => false end) eqn:Hc.
    + destruct (ctx_signal ctx) as [t|]; [|done]. simpl in Hc, Hc'. apply bool_decide_eq_true in Hc.
      apply bool_decide_eq_false in Hc'. by apply Hsig in Hc.
    + destruct (ctx_deadline ctx) as [d|]; [|by intros [? ?]]. simpl.
      destruct (Z.leb_spec d (sim_now w)); [|by intros [? ?]]. destruct (Z.leb_spec d (sim_now w')); [done|lia].
Qed.

(** [a]'s world with another store, and with the one it has. *)
Definition with_store (m : MemoryStore) (w : Sim (ChainWorld (ObserverState * MemoryStore))) :=
  with_sim_state (mkChainWorld (cw_clients (sim_state w)) (cw_runtimes (sim_state w))
                    ((cw_rest (sim_state w)).1, m)) w.

Lemma unwritten_same w : unwritten w (with_store (cw_rest (sim_state w)).2 w).
Proof. by split. Qed.

#[export] Instance unwritten_leases :
  @LeaseLaws (Sim (ChainWorld (ObserverState * MemoryStore))) (sim_chain_store ObserverState) unwritten :=
  memory_leases (λ w, (cw_rest (sim_state w)).2) with_store unwritten un_store unwritten_same (λ _, "evm").

(** The store of [a] and [b]: the accepted head is [a]'s. *)
Definition shared_history : list store_op :=
  [OpAcquire 5 "demo" "a" 1000; OpPublish 900 "a:1" (with_Reorg 0 false demo_accepted);
   OpAcquire 2000 "demo" "b" 100000].

Definition succeeded_store : MemoryStore := foldl (λ m op, MemoryStore.exec op m) NewMemoryStore shared_history.

Lemma succeeded_wf : store_wf (λ _, "evm") succeeded_store.
Proof.
  eapply store_run_wf; [|apply NewMemoryStore_wf].
  eapply rtc_l; [apply (store_step_exec _ _ (OpAcquire 5 "demo" "a" 1000)); vm_compute; reflexivity|].
  eapply rtc_l; [apply (store_step_exec _ _ (OpPublish 900 "a:1" (with_Reorg 0 false demo_accepted)))|].
  { split_and!; [vm_compute; reflexivity|reflexivity|split; [discriminate|reflexivity]]. }
  apply rtc_once. apply (store_step_exec _ _ (OpAcquire 2000 "demo" "b" 100000)). vm_compute. reflexivity.
Qed.

(** The heads [a] has observed wait in the channel. *)
Definition deposed_world : Sim (ChainWorld (ObserverState * MemoryStore)) :=
  mkSim 2500 split_reply
    (mkChainWorld ∅ {[ "demo" := mkRuntimeState {[ "up" := true; "two" := true ]} ∅ ∅ ]}
       (mkObservers ∅ [fork_head] subscription_frames [], succeeded_store)).

Definition deposed_term : term := mkTerm (mkContext None (Some 0%nat)) 0 "a:1" true.

Lemma deposed_world_lost : lease_lost (R := unwritten) "demo" "a:1" deposed_world.
Proof.
  split; [apply succeeded_wf|]. exists 2%Z, "a", 1%Z. split; [reflexivity|]. split; [lia|]. split; [vm_compute; discriminate|].
  right. exists "b", 3%Z. split; [vm_compute; reflexivity|lia].
Qed.

(** What is left of the term: [a] still polls, follows a subscription and tries to
    publish a fork. *)
Definition last_term : bool * term * Sim (ChainWorld (ObserverState * MemoryStore)) :=
  leader_loop (H4 := runtime_reader fork_runtime) fork_runtime 1000 second map_to_list
    (λ m, (map_to_list m).*1) map_to_list (λ _, 0%Z)
    [Tick (λ n, rev (seq 0 n)); Observation; Tick (λ n, seq 0 n)] deposed_term deposed_world.

Lemma deposed_leader_powerless_witness :
  last_term.1.1 = true ∧ unwritten deposed_world last_term.2.
Proof.
  split; [vm_compute; reflexivity|].
  destruct (deposed_leader_powerless (H4 := runtime_reader fork_runtime) fork_runtime unwritten 1000 second map_to_list
    (λ m, (map_to_list m).*1) map_to_list (λ _, 0%Z)
    [Tick (λ n, rev (seq 0 n)); Observation; Tick (λ n, seq 0 n)] deposed_term deposed_world
    last_term.1.1 last_term.1.2 last_term.2
    (store_Release "demo" "a:1" (cancel 0%nat last_term.2)).1
    (store_Release "demo" "a:1" (cancel 0%nat last_term.2)).2) as (Hrun & _).
  - exact deposed_world_lost.
  - exact (triple_eta last_term _ eq_refl).
  - apply surjective_pairing.
  - exact Hrun.
Defined.

Lemma deposed_leader_stops_witness :
  ∃ t' w', ∀ post,
    leader_loop (H4 := runtime_reader fork_runtime) fork_runtime 1000 second map_to_list
      (λ m, (map_to_list m).*1) map_to_list (λ _, 0%Z)
      ([Tick (λ n, seq 0 n)] ++ LeaseTick :: [LeaseDone; Observation] ++ Done :: post) deposed_term deposed_world
    = (true, t', w').
Proof.
  apply (deposed_leader_stops (H4 := runtime_reader fork_runtime) fork_runtime unwritten).
  - reflexivity.
  - left. reflexivity.
  - exact deposed_world_lost.
Defined.
