(* ===== verification/Typing.v ===== *)
(** * The heads of a chain are well typed

    The coordinator builds a head from what a provider answers, decides on it, and the
    store numbers and dates it.  A head that is accepted is therefore of the chain and
    of a commitment its coordinator polls; its three counters are 64-bit; on an EVM
    chain its hashes are hashes and its header is the encoding of a block, without its
    transactions, whose own number, hash and parent are the head's.  This file shows
    that the coordinator keeps the store and its channel so, whatever it is answered. *)

From S2P Require Import Prelude GoStrings GoJson Evm JsonRpc Head MemoryStore World Upstream Chain RequestCache.
From S2P Require Import Coordinator Observers Receipts Transform Router Activity Leadership Leases.

(** ** The type of a head *)

(** The header is a block that names the head. *)
Definition names_itself (h : Head) : Prop :=
  ∃ block number,
    Marshal_map block = Some (Header h) ∧ block !! "transactions" = None ∧
    Unmarshal_string "" (default "" (block !! "number")) = Some number ∧ ParseEVMQuantity number = Ok (Number h) ∧
    Unmarshal_string "" (default "" (block !! "hash")) = Some (Hash h) ∧
    Unmarshal_string "" (default "" (block !! "parentHash")) = Some (ParentHash h).

Definition evm_head (h : Head) : Prop :=
  Family h = "evm" ∧ IsEVMHash (Hash h) = true ∧ IsEVMHash (ParentHash h) = true ∧ names_itself h.

(** A slot has no block, and is never in a reorg. *)
Definition solana_head (h : Head) : Prop :=
  Family h = "solana" ∧ Hash h = "" ∧ ParentHash h = "" ∧ Header h = "" ∧
  ReorgEpoch h = 0%Z ∧ ReorgPending h = false.

Record typed_head (r : Runtime) (h : Head) : Prop := mkTyped {
  ty_chain : Chain h = chain r;
  ty_commitment : Commitment h ∈ commitments r;
  ty_counters : Forall u64_wf [Number h; Generation h; ReorgEpoch h];
  ty_family : if evm r then evm_head h else solana_head h
}.

Lemma typed_evm r h : typed_head r h → String.eqb (Family h) "evm" = evm r.
Proof. intros [_ _ _ Hf]. destruct (evm r); by destruct Hf as [-> _]. Qed.

(** The fields the store and the coordinator set. *)
Lemma typed_update r h h' :
  typed_head r h →
  Chain h' = Chain h → Family h' = Family h → Commitment h' = Commitment h → Number h' = Number h →
  Hash h' = Hash h → ParentHash h' = ParentHash h → Header h' = Header h →
  u64_wf (Generation h') → u64_wf (ReorgEpoch h') →
  (evm r = true ∨ ReorgEpoch h' = ReorgEpoch h ∧ ReorgPending h' = ReorgPending h) →
  typed_head r h'.
Proof.
  intros [Hc Hm Hn Hf] E1 E2 E3 E4 E5 E6 E7 Hg He Hr. rewrite !Forall_cons in Hn. destruct Hn as (Hn & _ & _ & _).
  split; [congruence|by rewrite E3|by rewrite !Forall_cons, E4; split_and!|].
  destruct (evm r); unfold evm_head, solana_head, names_itself in *; rewrite E2, ?E4, E5, E6, E7; [done|].
  destruct Hr as [?|[-> ->]]; [done|done].
Qed.

(** ** What is observed is typed *)

Lemma ParseEVMHead_typed r t commitment origin header h :
  evm r = true → commitment ∈ commitments r →
  ParseEVMHead r t (mkParseRequest commitment origin header) = Ok h → typed_head r h.
Proof.
  intros Hevm Hc Hp. destruct (ParseEVMHead_Ok _ _ _ _ Hp) as ([H1 H2 H3 H4 H5 H6 H7] & H8 & _).
  revert Hp. unfold ParseEVMHead. destruct (_ || _); [done|]. cbn [pr_Header].
  destruct (Unmarshal_map header) as [m|]; [|done]. set (block := default ∅ m).
  destruct (Unmarshal_string _ (default "" (block !! "number"))) as [n|] eqn:Hn; [|done].
  destruct (Unmarshal_string _ (default "" (block !! "hash"))) as [hv|] eqn:Hh; [|done].
  destruct (IsEVMHash hv); [|done]. cbn [negb].
  destruct (Unmarshal_string _ (default "" (block !! "parentHash"))) as [ph|] eqn:Hph; [|done].
  destruct (IsEVMHash ph); [|done]. cbn [negb].
  destruct (ParseEVMQuantity n) as [e|number] eqn:Hq; [done|].
  destruct (Marshal_map _) as [raw|] eqn:Hm; [|done]. intros [= <-]. simpl in *.
  split; simpl; [done|done| |].
  - rewrite !Forall_cons. split_and!; [done|u64_lia..|done].
  - rewrite Hevm. split_and!; try done. exists (delete "transactions" block), n. simpl.
    rewrite lookup_delete_eq, !lookup_delete_ne by done. done.
Qed.

Lemma Unmarshal_uint64_wf cur t n : u64_wf cur → Unmarshal_uint64 cur t = Some n → u64_wf n.
Proof.
  unfold Unmarshal_uint64. intros Hc. destruct (decode t) as [[]|]; try done; [by intros [= <-]|by apply ParseUint_wf].
Qed.

Section observed.
  Context {W : Type} `{World W, Clients W, Runtimes W}.
  Variable r : Runtime.

Lemma pollOne_typed ctx c commitment w h w' :
  commitment ∈ commitments r → pollOne r ctx c commitment w = (Ok h, w') → typed_head r h.
Proof.
  intros Hc. unfold pollOne. destruct (String.eqb (cfg_Family (rt_Config r)) "evm") eqn:Hf.
  - unfold poll_evm. destruct (coordinator_call _ _ _ _ w) as [[e|resp] w1]; [done|].
    destruct (rpc_Error resp); [done|].
    destruct (ParseEVMHead r (now w1) _) as [e|x] eqn:Hp; [done|].
    apply ParseEVMHead_typed in Hp; [|done|done]. intros Hr.
    assert (Ok x = @Ok goerror Head h) as [= <-]; [|done].
    revert Hr. repeat case_match; intros; simplify_eq; done.
  - unfold poll_solana. destruct (coordinator_call _ _ _ _ w) as [[e|resp] w1]; [done|].
    destruct (rpc_Error resp); [done|].
    destruct (Unmarshal_uint64 0 (rpc_Result resp)) as [slot|] eqn:Hs; [|done]. intros [= <- _].
    assert (evm r = false) as He by exact Hf. split; simpl; [done|done| |by rewrite He].
    rewrite !Forall_cons. split_and!; [|u64_lia..|done]. eapply Unmarshal_uint64_wf; [|exact Hs]. u64_lia.
Qed.
End observed.

(** ** The world of a coordinator

    What the store, the channel of observations and the rest of the world promise of
    the typed heads of one chain: [well_typed] holds of what they keep. *)
Class TypedWorld (W : Type) `{World W, Clients W, Runtimes W, SingleFlight W, HeadStore W, BlockReader W,
    Coordinators W, Observations W, HeadSockets W, Leading W} (r : Runtime) := {
  well_typed : W → Prop;
  well_typed_after w w' := well_typed w → well_typed w';
  tw_active :: Activity well_typed_after;
  tw_block ctx req w h w' : read_block ctx req w = (h, w') → well_typed_after w w';
  tw_coordinator n s w : well_typed_after w (set_coordinator_state n s w);
  tw_dial c ctx w ok w' : ws_Dial c ctx w = (ok, w') → well_typed_after w w';
  tw_write c m ctx w ok w' : ws_Write c m ctx w = (ok, w') → well_typed_after w w';
  tw_read c ctx w p w' : ws_Read c ctx w = (p, w') → well_typed_after w w';
  tw_signal ctx w s w' : new_signal ctx w = (s, w') → well_typed_after w w';
  tw_cancel signal w : well_typed_after w (cancel signal w);
  tw_backoff ctx w b w' : backoff ctx w = (b, w') → well_typed_after w w';
  tw_gauge g v tags w : well_typed_after w (Gauge g v tags w);
  (** The channel delivers what is sent to it. *)
  tw_send ctx h w ok w' : typed_head r h → send_observation ctx h w = (ok, w') → well_typed_after w w';
  tw_receive w h w' :
    receive_observation w = (h, w') → well_typed w → well_typed w' ∧ ∀ x, h = Some x → typed_head r x;
  (** The store keeps what is published to it. *)
  tw_acquire now owner ttl w res w' : store_Acquire now (chain r) owner ttl w = (res, w') → well_typed_after w w';
  tw_renew now token ttl w res w' : store_Renew now (chain r) token ttl w = (res, w') → well_typed_after w w';
  tw_release token w res w' : store_Release (chain r) token w = (res, w') → well_typed_after w w';
  tw_publish now token h w res w' :
    typed_head r h → store_Publish now token h w = (res, w') → well_typed_after w w';
  tw_begin now token w res w' :
    store_BeginReorg now (chain r) token w = (res, w') →
    well_typed w → well_typed w' ∧ ∀ h, res = Ok h → typed_head r h;
  tw_snapshot name w res w' : store_Snapshot name w = (res, w') → well_typed_after w w';
  tw_heads w sn w' c h :
    well_typed w → store_Snapshot (chain r) w = (Ok sn, w') → sn_Heads sn !! c = Some h →
    typed_head r h ∧ Commitment h = c;
  tw_tip w e w' :
    well_typed w → store_StreamStart (chain r) w = (Ok e, w') → ev_ID e = "0-0" ∨ typed_head r (ev_Head e)
}.

Section typing.
  Context {W : Type} `{World W, Clients W, Runtimes W, SingleFlight W, HeadStore W, BlockReader W,
    Coordinators W, Observations W, HeadSockets W, Leading W}.
  Variable r : Runtime.
  Context {typed : TypedWorld W r}.
  Variables (owner : string) (leaderTTL idle_timeout : Z).
  Variable ancestor_order : gmap string Z → list (string * Z).
  Variable availability_order : gmap string availabilityRecord → list string.
  Variable heads_order : gmap string Head → list (string * Head).
  Variable jitter : W → Z.

#[local] Abbreviation after := (well_typed_after (r := r)).
#[local] Abbreviation world_ok := (well_typed (r := r)).

  (** A value that is typed when it is computed in a well-typed world. *)
Definition gives {A} (P : A → Prop) (w : W) (out : A * W) : Prop := world_ok w → world_ok out.2 ∧ P out.1.

  (** ** Deciding *)

Definition typed_current (a b : Head * W) : Prop :=
  world_ok a.2 → typed_head r a.1 → world_ok b.2 ∧ typed_head r b.1.

#[local] Instance typed_current_preorder : PreOrder typed_current.
Proof using Type.
  split; [by intros [x w]|]. intros [x w] [y w1] [z w2] Hxy Hyz Hw Hx. destruct (Hxy Hw Hx). by apply Hyz.
Qed.

Lemma begin_reorg_typed token x w e x' w' :
  begin_reorg (chain r) token x w = (e, x', w') → typed_current (x, w) (x', w').
Proof using Type.
  unfold begin_reorg, typed_current. simpl. destruct (ReorgPending x); [by intros [= _ <- <-]|].
  destruct (store_BeginReorg _ _ _ w) as [res w1] eqn:Hb. intros Hr Hw Hx.
  destruct (tw_begin _ _ _ _ _ Hb Hw) as [Hw1 Hh].
  destruct res as [e1|h]; injection Hr as _ <- <-; split; auto.
Qed.

  (** A decision to publish is a decision to publish a typed head. *)
Definition typed_decision (d : decision) : Prop := ∀ h current, d = PublishHead h current → typed_head r h.

Lemma acknowledge_typed h current :
  evm r = true → typed_head r h → typed_head r current → typed_decision (acknowledge h current).
Proof using Type.
  intros He Hh [_ _ Hn _] x c [= <- _]. rewrite !Forall_cons in Hn. eapply typed_update; [exact Hh|done..| | |by left].
  - destruct Hh as [_ _ Hg _]. rewrite !Forall_cons in Hg. simpl. tauto.
  - simpl. tauto.
Qed.

Lemma observed_again_typed t h : typed_head r h → typed_head r (with_ObservedAt t h).
Proof using Type.
  intros Hh. pose proof (ty_counters _ _ Hh) as Hn. rewrite !Forall_cons in Hn.
  eapply typed_update; [exact Hh|done..|simpl; tauto|simpl; tauto|by right].
Qed.

Lemma evidence_typed ctx current w ev w' : getCanonicalEvidence r ctx current w = (ev, w') → after w w'.
Proof using Type. apply getCanonicalEvidence_active; apply _. Qed.

Lemma reobserve_typed ctx candidate current w :
  evm r = true → typed_head r candidate → typed_head r current →
  gives typed_decision w (reobserve r ctx candidate current w).
Proof using Type.
  intros He Hc Hcur Hw. pose proof (acknowledge_typed _ _ He Hc Hcur) as Ha. unfold reobserve.
  destruct (ReorgPending current); [|done].
  destruct (getCanonicalEvidence _ _ _ w) as [ev w1] eqn:Hev. apply evidence_typed in Hev.
  repeat case_match; simplify_eq; (split; [by apply Hev|done]).
Qed.

Lemma transition_typed ctx token candidate current w :
  evm r = true → typed_head r candidate → typed_head r current →
  gives typed_decision w (transition ancestor_order r ctx token candidate current w).
Proof using Type.
  intros He Hc Hcur Hw. unfold transition.
  destruct (validateEVMTransition _ _ _ _ _ w) as [[res x] w1] eqn:Hv.
  assert (typed_current (current, w) (x, w1)) as Hk.
  { rewrite (ty_chain _ _ Hc) in Hv.
    refine (validate_active ancestor_order after tw_block typed_current _ _
      (λ x w e x' w', begin_reorg_typed _ x w e x' w') _ _ _ _ _ _ _ _ _ Hv).
    intros y z z' Hz Hy Hyt. split; [by apply Hz|done]. }
  destruct (Hk Hw Hcur) as [Hw1 Hx]. simpl in Hw1, Hx.
  pose proof (acknowledge_typed _ _ He Hc Hx) as Ha.
  pose proof (λ t, acknowledge_typed _ _ He (observed_again_typed t _ Hx) Hx) as Hb.
  destruct res as [e|reorg]; [done|]. destruct (_ <=? _)%Z; [|done]. destruct (negb reorg); [done|].
  destruct (getCanonicalEvidence _ _ _ w1) as [ev w2] eqn:Hev. apply evidence_typed in Hev.
  repeat case_match; simplify_eq; (split; [by apply Hev|done || apply Hb]).
Qed.

Lemma initial_parent_typed ctx candidate w e w' : initial_parent ctx candidate w = (e, w') → after w w'.
Proof using Type.
  unfold initial_parent. destruct (read_block _ _ w) as [p w1] eqn:Hp. apply tw_block in Hp.
  repeat case_match; by intros [= _ <-].
Qed.

Lemma decide_head_typed ctx token candidate w :
  typed_head r candidate → gives typed_decision w (decide_head ancestor_order r ctx token candidate w).
Proof using Type.
  intros Hc Hw. unfold decide_head. rewrite (ty_chain _ _ Hc).
  destruct (store_Snapshot _ w) as [[e|sn] w1] eqn:Hs; apply tw_snapshot in Hs as Hw1; [by split; [apply Hw1|]|].
  assert (∀ c h, sn_Heads sn !! c = Some h → typed_head r h) as Hheads by (intros; by eapply tw_heads).
  unfold Get. rewrite (typed_evm _ _ Hc).
  destruct (sn_Heads sn !! Commitment candidate) as [current|] eqn:Hcur; cbn [andb negb].
  all: destruct (if _ && _ && _ then _ else _) as [e w2] eqn:Hi.
  all: assert (world_ok w2) as Hw2 by
    (revert Hi; case_match; [intros Hi%initial_parent_typed; by apply Hi, Hw1|intros [= _ <-]; by apply Hw1]).
  all: clear Hi; destruct e; [done|]; destruct (_ && _ && _); [done|].
  - destruct (evm r) eqn:He; cbn [andb]; [|by split; [|intros h c [= <- _]]].
    destruct (EqualFold _ _); [by apply reobserve_typed; eauto|by apply transition_typed; eauto].
  - rewrite andb_false_r. split; [done|by intros h c [= <- _]].
Qed.

Lemma consider_typed ctx token candidate w e w' :
  typed_head r candidate → consider ancestor_order r ctx token candidate w = (e, w') → after w w'.
Proof using Type.
  intros Hc. unfold consider. destruct (decide_head _ _ _ _ _ w) as [d w1] eqn:Hd. intros Hr Hw.
  pose proof (decide_head_typed ctx token candidate w Hc Hw) as Hg. rewrite Hd in Hg. destruct Hg as [Hw1 Ht].
  destruct d as [|h current|err]; [by injection Hr as _ <-| |by injection Hr as _ <-].
  destruct (store_Publish _ _ h w1) as [res w2] eqn:Hp. apply tw_publish in Hp; [|by eapply Ht].
  destruct res; injection Hr as _ <-; by apply Hp.
Qed.
  (** ** Leading *)

#[local] Abbreviation step := (leader_step r leaderTTL idle_timeout ancestor_order availability_order heads_order jitter).
#[local] Abbreviation loop := (leader_loop r leaderTTL idle_timeout ancestor_order availability_order heads_order jitter).
#[local] Abbreviation lead := (runLeader r leaderTTL idle_timeout ancestor_order availability_order heads_order jitter).
#[local] Abbreviation round := (run_round r owner leaderTTL idle_timeout ancestor_order availability_order heads_order jitter).
#[local] Abbreviation Run := (Run r owner leaderTTL idle_timeout ancestor_order availability_order heads_order jitter).

Lemma parsed_typed t c header h :
  evm r = true → ParseEVMHead r t (mkParseRequest Latest (cl_ID c) header) = Ok h → typed_head r h.
Proof using Type. intros He. apply ParseEVMHead_typed; [done|by apply latest_followed]. Qed.

Lemma poll_typed schedule ctx w sent w' :
  poll r idle_timeout schedule ctx (commitments r) w = (sent, w') → after w w'.
Proof using Type.
  apply (poll_active after r (typed_head r)); [intros; by eapply pollOne_typed|intros; by eapply parsed_typed|..|done].
  - intros ? ? ? ? ? Hh. by apply tw_send.
  - apply tw_coordinator.
  - apply tw_snapshot.
Qed.

Lemma watch_typed i c rounds ctx w sent w' :
  watched r !! i = Some c →
  watchEVM r idle_timeout availability_order jitter rounds ctx c w = (sent, w') → after w w'.
Proof using Type.
  intros Hc%watched_evm. apply (watchEVM_active after r (typed_head r));
    [intros; by eapply pollOne_typed|intros; by eapply parsed_typed|intros ? ? ? ? ? Hh; by apply tw_send
    |apply tw_coordinator|apply tw_snapshot|apply tw_gauge|apply tw_dial|apply tw_write|apply tw_read|done].
Qed.

Lemma gauges_typed w : after w (emitHeadAges r heads_order w).
Proof using Type. apply emitHeadAges_active; [apply _|apply tw_snapshot|apply tw_gauge]. Qed.

Lemma step_typed e t w going t' w' : step e t w = (going, t', w') → after w w'.
Proof using Type.
  intros Hs Hw. revert Hs. destruct e as [|sched| | | |i rounds]; simpl.
  - by intros [= _ _ <-].
  - destruct (poll _ _ _ _ _ w) as [sent w1] eqn:Hp. apply poll_typed in Hp. intros [= _ _ <-].
    by apply gauges_typed, Hp.
  - destruct (receive_observation w) as [h w1] eqn:Hr. destruct (tw_receive _ _ _ Hr Hw) as [Hw1 Hh].
    destruct h as [h|]; [|by intros [= _ _ <-]]. destruct (consider _ _ _ _ h w1) as [e w2] eqn:Hc.
    apply consider_typed in Hc; [|by apply Hh]. destruct e; intros [= _ _ <-]; by apply Hc.
  - by intros [= _ _ <-].
  - destruct (tm_leased t); [|by intros [= _ _ <-]]. unfold maintainLease_tick.
    destruct (store_Renew _ _ _ _ w) as [res w1] eqn:Hr. apply tw_renew in Hr.
    destruct res as [e|[|]]; intros [= _ _ <-]; (try apply tw_cancel); by apply Hr.
  - destruct (watched r !! i) as [c|] eqn:Hc; [|by intros [= _ _ <-]].
    destruct (watchEVM _ _ _ _ _ _ _ w) as [sent w1] eqn:Hwa. intros [= _ _ <-]. by eapply watch_typed.
Qed.

Lemma loop_typed events t w returned t' w' : loop events t w = (returned, t', w') → after w w'.
Proof using Type.
  revert t w. induction events as [|e events IH]; intros t w; cbn [leader_loop]; [by intros [= _ _ <-]|].
  destruct (step e t w) as [[going t1] w1] eqn:Hs. apply step_typed in Hs.
  destruct going; [intros Hl%IH Hw; by apply Hl, Hs|by intros [= _ _ <-]].
Qed.

Lemma lead_typed schedule events parent token w returned w' :
  lead schedule events parent token w = (returned, w') → after w w'.
Proof using Type.
  unfold runLeader, WithCancel. destruct (new_signal parent w) as [signal w1] eqn:Hn. apply tw_signal in Hn.
  destruct (poll _ _ _ _ _ w1) as [sent w2] eqn:Hp. apply poll_typed in Hp.
  destruct (loop _ _ w2) as [[ret t] w3] eqn:Hl. apply loop_typed in Hl. intros [= _ <-] Hw.
  by apply tw_cancel, Hl, Hp, Hn.
Qed.

Lemma round_typed schedule events ctx w token w' :
  round schedule events ctx w = (token, w') → after w w'.
Proof using Type.
  unfold run_round. destruct (store_Acquire _ _ _ _ w) as [res w1] eqn:Ha. apply tw_acquire in Ha.
  destruct res as [e|[tk [|]]]; try (by intros [= _ <-]).
  destruct (lead _ _ _ _ w1) as [ret w2] eqn:Hl. apply lead_typed in Hl.
  destruct (store_Release _ _ w2) as [rel w3] eqn:Hr. apply tw_release in Hr. intros [= _ <-] Hw.
  by apply Hr, Hl, Ha.
Qed.

Lemma Run_typed rounds ctx w tokens w' : Run rounds ctx w = (tokens, w') → after w w'.
Proof using Type.
  revert w tokens w'. induction rounds as [|[schedule events] rounds IH]; intros w tokens w'; cbn [Leadership.Run];
    [by intros [= _ <-]|].
  destruct (round _ _ _ w) as [token w1] eqn:Hr. apply round_typed in Hr.
  destruct (backoff ctx w1) as [again w2] eqn:Hb. apply tw_backoff in Hb.
  destruct again; [|intros [= _ <-] Hw; by apply Hb, Hr].
  destruct (Run rounds ctx w2) as [more w3] eqn:Hrun. apply IH in Hrun. intros [= _ <-] Hw.
  by apply Hrun, Hb, Hr.
Qed.
End typing.

(** ** The in-process store keeps its heads typed

    Whatever is done to it, to any of its chains and by anyone, as long as the heads
    published to the chain are typed. *)
Section memory.
  Variable r : Runtime.

Definition typed_view (v : chain_view) : Prop :=
  (∀ c h, v_heads v !! c = Some h → typed_head r h ∧ Commitment h = c) ∧
  Forall (λ e, typed_head r (ev_Head e)) (v_events v) ∧ u64_wf (v_gen v).

Definition typed_store (m : MemoryStore) : Prop := typed_view (view m (chain r)).

Lemma accept_typed h v h' fresh :
  typed_view v → typed_head r h → accept h v = (h', fresh) → typed_head r h'.
Proof.
  intros (Hv & _ & _) Hh Ha. pose proof (ty_counters _ _ Hh) as Hn. rewrite !Forall_cons in Hn.
  assert (∀ g t x, typed_head r x → u64_wf g → typed_head r (with_ChangedAt t (with_Generation g x))) as Hset.
  { intros g t x Hx Hg. pose proof (ty_counters _ _ Hx) as Hnx. rewrite !Forall_cons in Hnx.
    eapply typed_update; [exact Hx|done..|simpl; tauto|by right]. }
  assert (typed_head r (with_Generation (u64_add (v_gen v) 1) (stamp_ChangedAt h))) as Hnew.
  { unfold stamp_ChangedAt. destruct (time_IsZero _); [exact (Hset _ _ h Hh (u64_add_wf _ _))|].
    eapply typed_update; [exact Hh|done..|apply u64_add_wf|simpl; tauto|by right]. }
  revert Ha. unfold accept. destruct (v_heads v !! Commitment h) as [p|] eqn:Hp; [|by intros [= <- _]].
  destruct (String.eqb _ _); intros [= <- _]; [|done]. apply Hset; [done|].
  destruct (Hv _ _ Hp) as [Hpt _]. pose proof (ty_counters _ _ Hpt) as Hnp. rewrite !Forall_cons in Hnp. tauto.
Qed.

Lemma accept_view_typed h v : typed_view v → typed_head r h → typed_view (accept_view h v).
Proof.
  intros Hv Hh. unfold accept_view. destruct (accept h v) as [h' fresh] eqn:Ha.
  pose proof (accept_typed _ _ _ _ Hv Hh Ha) as Hh'. apply accept_fields in Ha as (_ & Hc & _).
  destruct Hv as (Hheads & Hevents & Hgen). split_and!; simpl.
  - intros c x. rewrite lookup_insert. case_decide; [by intros [= <-]; subst|apply Hheads].
  - destruct (fresh && _); [|done]. apply Forall_app. split; [done|]. by apply Forall_singleton.
  - destruct fresh; [apply u64_add_wf|done].
Qed.

(** A reorg can begin only on an EVM chain. *)
Lemma begin_head_typed h : typed_head r h → Family h = "evm" → typed_head r (begin_head h).
Proof.
  intros Hh Hf. unfold begin_head. destruct (ReorgPending h); [done|].
  pose proof (ty_counters _ _ Hh) as Hn. rewrite !Forall_cons in Hn.
  eapply typed_update; [exact Hh|done..|simpl; tauto|apply u64_add_wf|left].
  by rewrite <- (typed_evm _ _ Hh), Hf.
Qed.

Lemma exec_typed op m :
  (∀ now token h, op = OpPublish now token h → Chain h = chain r → typed_head r h) →
  typed_store m → typed_store (MemoryStore.exec op m).
Proof.
  intros Hop Hm. unfold typed_store. rewrite exec_refines. case_decide as Hc; [|done].
  destruct op as [now ch o ttl|now ch t ttl|ch t|now t h|now ch t]; simpl in *.
  - destruct (_ && _); [done|]. destruct Hm as (? & ? & _). split_and!; try done. apply u64_add_wf.
  - by destruct (owns _ _ _).
  - by destruct (String.eqb _ _).
  - destruct (_ && _); [|done]. apply accept_view_typed; [done|]. by eapply Hop.
  - destruct (_ && _); [|done]. destruct (heads_of m (chain r) !! Latest) as [cur|] eqn:Hcur; [|done].
    destruct (String.eqb_spec (Family cur) "evm"); [|done]. destruct (negb _); [|done]. simpl.
    destruct Hm as (Hheads & ? & ?). destruct (Hheads _ _ Hcur) as [Hcurt Hcm]. split_and!; try done. simpl.
    intros c x. rewrite lookup_insert. case_decide; [intros [= <-]; subst|apply Hheads].
    split; [by apply begin_head_typed|]. unfold begin_head. by destruct (ReorgPending cur).
Qed.

Lemma NewMemoryStore_typed : typed_store NewMemoryStore.
Proof.
  split_and!; simpl; [|done|by unfold gen_of; simpl; rewrite lookup_empty].
  intros c h. unfold heads_of. simpl. by rewrite !lookup_empty.
Qed.

Lemma BeginReorg_typed now token m h m' :
  typed_store m → BeginReorg now (chain r) token m = (Ok h, m') → typed_head r h.
Proof.
  intros (Hheads & _) . rewrite BeginReorg_eq. simpl. destruct (_ && _); [|done].
  destruct (heads_of m (chain r) !! Latest) as [cur|] eqn:Hcur; [|done].
  destruct (String.eqb_spec (Family cur) "evm"); [|done]. destruct (negb _); [|done]. simpl.
  intros [= <- _]. destruct (Hheads _ _ Hcur). by apply begin_head_typed.
Qed.

Lemma StreamStart_typed m e m' :
  typed_store m → StreamStart (chain r) m = (Ok e, m') → ev_ID e = "0-0" ∨ typed_head r (ev_Head e).
Proof.
  intros (_ & Hevents & _). unfold StreamStart. destruct (list.last _) as [x|] eqn:Hx; intros [= <- _]; [right|by left].
  rewrite Forall_forall in Hevents. apply Hevents. apply last_Some in Hx as [l Hl]. simpl. rewrite Hl.
  apply elem_of_app. right. by left.
Qed.
End memory.

(** * Property *)


(** ** A chain whose providers have split

    The simulated world: heads wait in a list, and the store is the in-process one. *)

#[local] Abbreviation SimWorld := (Sim (ChainWorld (ObserverState * MemoryStore))).

Section simulated.
  Variable r : Runtime.

Definition sim_typed (w : SimWorld) : Prop :=
  typed_store r (cw_rest (sim_state w)).2 ∧ Forall (typed_head r) (os_sent (cw_rest (sim_state w)).1).

#[local] Abbreviation after := (λ w w' : SimWorld, sim_typed w → sim_typed w').

(** What leaves the store and the channel alone. *)
Lemma sim_same w w' :
  (cw_rest (sim_state w')).2 = (cw_rest (sim_state w)).2 →
  os_sent (cw_rest (sim_state w')).1 = os_sent (cw_rest (sim_state w)).1 → after w w'.
Proof. unfold sim_typed. by intros -> ->. Qed.

Lemma sim_op {A} (f : MemoryStore → A * MemoryStore) op w a w' :
  (∀ m, (f m).2 = MemoryStore.exec op m) →
  (∀ now token h, op = OpPublish now token h → Chain h = chain r → typed_head r h) →
  lift_op (λ w : SimWorld, (cw_rest (sim_state w)).2) with_store f w = (a, w') → after w w'.
Proof.
  intros Hf Hop. unfold lift_op. destruct (f _) as [a1 m1] eqn:Hfm. intros [= _ <-] [Hm Hs]. split; [|done].
  specialize (Hf (cw_rest (sim_state w)).2). rewrite Hfm in Hf. simpl in *. subst. by apply exec_typed.
Qed.

#[export] Instance sim_typed_activity : Activity after.
Proof.
  split.
  - split; [by intros w|]. intros x y z Hxy Hyz Hx. by apply Hyz, Hxy.
  - intros req ctx w x w' [= _ <-]. done.
  - intros k ctx w x w' [= _ <-]. done.
  - intros k w. done.
  - intros k s w. by apply sim_same.
  - intros k s w. by apply sim_same.
  - intros A group key f w x shared w' Hf. simpl. destruct (f w) as [r1 w1] eqn:Hfw. intros [= _ _ <-]. by eapply Hf.
  - intros d ctx w x w'. simpl. destruct (match ctx_deadline ctx with Some _ => _ | None => _ end);
      intros [= _ <-]; by apply sim_same.
Qed.

#[export] Instance sim_typed_world : TypedWorld (H4 := runtime_reader r) SimWorld r.
Proof.
  refine (@Build_TypedWorld SimWorld _ _ _ _ _ (runtime_reader r) _ _ _ _ r sim_typed sim_typed_activity
    _ _ _ _ _ _ _ _ _ _ _ _ _ _ _ _ _ _ _).
  - intros ctx req w h w'. apply (EVMBlockByHash_active after).
  - intros n s w. by apply sim_same.
  - intros c ctx w ok w' [= _ <-]. done.
  - intros c m ctx w ok w' [= _ <-]. done.
  - intros c ctx w p w' [= _ <-]. by apply sim_same.
  - intros ctx w s w' [= _ <-]. done.
  - intros signal w. by apply sim_same.
  - intros ctx w b w' [= _ <-]. done.
  - intros g v tags w. done.
  - intros ctx h w ok w' Hh [= _ <-] [Hm Hs]. split; [done|]. simpl. apply Forall_app. by rewrite Forall_singleton.
  - intros w h w'. simpl. destruct (list_find _ _) as [[i x]|] eqn:Hf; intros [= <- <-] [Hm Hs]; [|done].
    apply list_find_Some in Hf as (Hx & _). split; [split; [done|by apply Forall_drop]|].
    intros y [= <-]. by eapply Forall_lookup_1.
  - intros now owner ttl w res w'. apply (sim_op _ (OpAcquire now (chain r) owner ttl)); done.
  - intros now token ttl w res w'. apply (sim_op _ (OpRenew now (chain r) token ttl)); done.
  - intros token w res w'. apply (sim_op _ (OpRelease (chain r) token)); done.
  - intros now token h w res w' Hh. apply (sim_op _ (OpPublish now token h)); [done|by intros ? ? ? [= _ _ <-]].
  - intros now token w res w' Hb Hw. split.
    + by apply (sim_op _ (OpBeginReorg now (chain r) token) _ _ _ (λ _, eq_refl) ltac:(done) Hb).
    + intros h ->. apply lift_op_inv in Hb; [|done]. by eapply BeginReorg_typed; [apply Hw|].
  - intros name w res w' [= _ <-]. done.
  - intros w sn w' c h [Hm _] [= <- _] Hh. by apply (proj1 Hm).
  - intros w e w' [Hm _] Hs. apply lift_op_inv in Hs; [|done]. by eapply StreamStart_typed.
Defined.
End simulated.

(** Both providers serve block 5 and its parent. *)
Definition growing_reply : HttpRequest → result goerror HttpResponse :=
  sim_rpc (λ _ params,
    if Contains params (sim_hash "bb") then sim_block "0x4" (sim_hash "bb") (sim_hash "cc")
    else sim_block "0x5" (sim_hash "ee") (sim_hash "bb")).

Definition empty_world : SimWorld :=
  mkSim 1000 growing_reply
    (mkChainWorld ∅ {[ "demo" := mkRuntimeState {[ "up" := true; "two" := true ]} ∅ ∅ ]}
       (mkObservers ∅ [] subscription_frames [], NewMemoryStore)).

(** One term, in which a provider is polled, its head accepted and then seen again. *)
Definition first_term : list string * SimWorld :=
  Run (H4 := runtime_reader fork_runtime) fork_runtime "a" 100000 second map_to_list
    (λ m, (map_to_list m).*1) map_to_list (λ _, 0%Z)
    [((λ n, seq 0 n), [Observation; Tick (λ n, rev (seq 0 n)); Observation])] Background empty_world.

Definition first_accepted : option Head :=
  heads_of (cw_rest (sim_state first_term.2)).2 "demo" !! Latest.

