(* ===== verification/Liveness.v ===== *)
(** * Routing ends by the request's deadline

    [route] retries for as long as its context lives.  With a clock that never
    runs backwards and timers that fire, the number of rounds is bounded by the
    time left before the deadline. *)

From S2P Require Import Prelude GoStrings GoJson JsonRpc Head World Upstream Chain Transform Router.
From S2P Require Import Activity.

(** What the runtime documents of time: no operation turns the clock back; a
    goroutine that waits for a timer of [d] or the end of its context resumes by
    the timer only if [d] has passed and the context was alive when it began. *)
Definition later {W : Type} `{World W} (w w' : W) : Prop := (now w ≤ now w')%Z.

Class ClockLaws (W : Type) `{World W, Clients W, Runtimes W, SingleFlight W} := {
  clock_activity :: Activity (W := W) later;
  clock_sleep_timer d ctx w w' :
    sleep d ctx w = (None, w') →
    (now w + d ≤ now w')%Z ∧ (∀ deadline, ctx_deadline ctx = Some deadline → (now w < deadline)%Z)
}.

Section clock.
  Context {W : Type} `{ClockLaws W}.
  Variable range_order : gmap string availabilityRecord → list string.

Lemma route_rounds fuel r ctx p attempted w deadline :
  ctx_deadline ctx = Some deadline →
  (deadline - now w ≤ Z.of_nat fuel * (75 * millisecond))%Z →
  ∃ a w', route range_order (S fuel) r ctx p attempted w = (Some a, w').
Proof using Type*.
  intros Hd. revert attempted w. induction fuel as [|fuel IH]; intros attempted w Hfuel; cbn [route];
    (destruct (try_all _ _ _ _ _ _ w) as [[st|q up e] w1] eqn:Ht; [|eauto]);
    apply (try_all_active later) in Ht; unfold later in Ht;
    (destruct (negb _ && _); [destruct ((0 <? rd_nullReceipts st)%Z && _); eauto|]);
    (destruct ((rd_eligible st =? 0)%Z && _ && _); [eauto|]);
    (destruct (sleep _ ctx w1) as [[e|] w2] eqn:Hs; [eauto|]);
    apply clock_sleep_timer in Hs as [Hnow Hlive]; specialize (Hlive _ Hd).
  - exfalso. unfold millisecond in *. lia.
  - apply IH. unfold millisecond in *. lia.
Qed.
End clock.

Lemma route_more_fuel `{World W, Clients W, Runtimes W, SingleFlight W} range_order fuel fuel' r ctx p
    attempted w a w' :
  route range_order fuel r ctx p attempted w = (Some a, w') → (fuel ≤ fuel')%nat →
  route range_order fuel' r ctx p attempted w = (Some a, w').
Proof.
  revert fuel' attempted w. induction fuel as [|fuel IH]; intros fuel' attempted w; [done|].
  intros Hr Hle. destruct fuel' as [|fuel']; [lia|]. revert Hr. cbn [route].
  destruct (try_all _ _ _ _ _ _ w) as [[st|q up e] w1]; [|done].
  destruct (negb _ && _); [by destruct ((0 <? rd_nullReceipts st)%Z && _)|].
  destruct ((rd_eligible st =? 0)%Z && _ && _); [done|].
  destruct (sleep _ ctx w1) as [[e|] w2]; [done|]. intros Hr. apply IH; [done|lia].
Qed.

(** * Properties *)

(** C16: routing always ends with an answer or an error.  Under a request context
    with a deadline, whatever the providers do, the loop makes at most one round
    per 75 ms left plus one, and its answer does not depend on the fuel. *)
Theorem route_terminates `{ClockLaws W} range_order r ctx p attempted w deadline :
  ctx_deadline ctx = Some deadline →
  ∃ a w', ∀ fuel, (deadline - now w ≤ Z.of_nat fuel * (75 * millisecond))%Z →
    route range_order (S fuel) r ctx p attempted w = (Some a, w').
Proof.
  intros Hd. set (n := Z.to_nat (Z.max 0 (deadline - now w))).
  destruct (route_rounds range_order n r ctx p attempted w deadline Hd) as (a & w' & Hr).
  { unfold n, millisecond. lia. }
  exists a, w'. intros fuel Hfuel.
  destruct (route_rounds range_order fuel r ctx p attempted w deadline Hd Hfuel) as (a2 & w2 & Hr2).
  destruct (decide (n ≤ fuel)%nat).
  - eapply route_more_fuel; [exact Hr|lia].
  - pose proof (route_more_fuel _ _ (S n) _ _ _ _ _ _ _ Hr2 ltac:(lia)) as Hr3.
    rewrite Hr in Hr3. injection Hr3 as <- <-. exact Hr2.
Qed.

#[export] Instance sim_clock (X : Type) : ClockLaws (Sim (ChainWorld X)).
Proof.
  split; [split|]; unfold later.
  - split; [intros w; lia|intros x y z; lia].
  - intros req ctx w r w' [= _ <-]. done.
  - intros k ctx w r w' [= _ <-]. done.
  - intros k w. done.
  - intros k s w. done.
  - intros k s w. done.
  - intros A group key f w r shared w' Hf. simpl. destruct (f w) as [r1 w1] eqn:H1.
    intros [= _ _ <-]. by eapply Hf.
  - intros d ctx w r w'. simpl. destruct (match ctx_deadline ctx with Some _ => _ | None => _ end);
      intros [= _ <-]; simpl; lia.
  - intros d ctx w w'. simpl. destruct (ctx_deadline ctx) as [t|] eqn:Ht.
    + destruct (Z.leb_spec t (sim_now w)); [done|]. intros [= <-]. simpl. split; [lia|].
      by intros t' [= <-].
    + intros [= <-]. simpl. split; [lia|done].
Qed.

(** No provider answers: the request fails at its deadline, in the third round. *)
Definition dead_world : Sim (ChainWorld unit) :=
  mkSim 1000 (λ _, Err (ErrNew "refused")) (demo_chain_state tt).

Lemma route_terminates_witness :
  ∃ a w', route demo_order 3 demo_runtime (WithDeadline Background 100001000) demo_block_request ∅
    dead_world = (Some a, w').
Proof.
  destruct (route_terminates demo_order demo_runtime (WithDeadline Background 100001000)
    demo_block_request ∅ dead_world 100001000 eq_refl) as (a & w' & Hr).
  exists a, w'. apply Hr. vm_compute. discriminate.
Defined.
