(* ===== verification/Fence.v ===== *)
(** * The final reorg check — internal/gateway/reorg.go

    After every request of an envelope has been answered, one more read of the
    shared store decides whether the answers of an EVM chain may be sent: they
    are discarded when the head they were pinned under is no longer current. *)

From S2P Require Import Prelude GoStrings GoJson JsonRpc Head MemoryStore World Upstream Chain.
From S2P Require Import Coordinator.

(** ** Definitions *)

(* go: gateway/router.go:46-54 processedResponse *)
Record processedResponse := mkProcessed {
  ps_response : Response;
  ps_upstream : string;
  ps_target : option Head;
  ps_cacheStatus : string;
  ps_receiptLookup : bool;
  ps_boundaryChecked : bool;
  ps_unverifiedRead : bool
}.

(** A response with nothing but its JSON-RPC part. *)
Definition bare (response : Response) : processedResponse :=
  mkProcessed response "" None "" false false false.

Section fence.
  Context {W : Type} `{World W, HeadStore W}.

  (** The classes of the [switch], in its order; "" lets the answers through. *)
Definition failure_class (r : Runtime) (ctx : Context) (snapshot : Snapshot)
    (current : result store_error Snapshot) (w : W) : string :=
  let maxAge := cfg_MaxHeadAge (rt_Config r) in
  match current with
  | Err _ => "reorg_check_unavailable"
  | Ok current =>
      let* (initial, initialExists) := Get snapshot Latest in
      let* (latest, latestExists) := Get current Latest in
      if bool_decide (ctx_Err ctx w ≠ None) then "deadline"
      else if negb initialExists || negb latestExists || IsZero initial || IsZero latest
      then "reorg_check_unavailable"
      else if ReorgPending initial || ReorgPending latest then "reorg_pending"
      else if negb (ReorgEpoch initial =? ReorgEpoch latest)%Z
              || (Generation latest <? Generation initial)%Z
      then "reorg_changed"
      else if (Number latest <=? Number initial)%Z && negb (EqualFold (Hash latest) (Hash initial))
      then "reorg_changed"
      else if (0 <? maxAge)%Z
              && (time_IsZero (ObservedAt latest) || (maxAge <? now w - ObservedAt latest)%Z)
      then "stale_head"
      else ""
  end.

Definition discard (r : Runtime) (class : string) (response : processedResponse) : processedResponse :=
  match ps_target response with
  | None => response
  | Some _ =>
      bare (Failure (res_ID (ps_response response))
              (ConsistencyUnavailable
                 (AMap [("chain", AStr (cfg_Name (rt_Config r))); ("reason", AStr class);
                        ("retryable", ABool true)])))
  end.

  (* go: gateway/reorg.go:19-70 Gateway.fenceEVMResponses *)
Definition fenceEVMResponses (r : Runtime) (ctx : Context) (snapshot : Snapshot)
    (responses : list processedResponse) (w : W) : list processedResponse * W :=
  if negb (String.eqb (cfg_Family (rt_Config r)) "evm") then (responses, w)
  else if negb (existsb (λ p, bool_decide (ps_target p ≠ None)) responses) then (responses, w)
  else
    let* (current, w) := store_Snapshot (cfg_Name (rt_Config r)) w in
    let class := failure_class r ctx snapshot current w in
    if String.eqb class "" then (responses, w)
    else (discard r class <$> responses, w).
End fence.

(** ** Lemmas *)

Section fence_proofs.
  Context {W : Type} `{World W, HeadStore W}.

  (** What a passed check means. *)
Lemma failure_class_passed r ctx snapshot current w :
  failure_class r ctx snapshot current w = "" →
  ∃ sn initial latest, current = Ok sn ∧
    sn_Heads snapshot !! Latest = Some initial ∧ sn_Heads sn !! Latest = Some latest ∧
    ReorgPending initial = false ∧ ReorgPending latest = false ∧
    ReorgEpoch initial = ReorgEpoch latest ∧ (Generation initial ≤ Generation latest)%Z ∧
    ((Number latest ≤ Number initial)%Z → EqualFold (Hash latest) (Hash initial) = true) ∧
    ((0 < cfg_MaxHeadAge (rt_Config r))%Z →
       (now w - ObservedAt latest ≤ cfg_MaxHeadAge (rt_Config r))%Z) ∧
    ctx_Err ctx w = None.
Proof using Type.
  unfold failure_class. destruct current as [e|sn]; [done|]. unfold Get.
  destruct (sn_Heads snapshot !! Latest) as [initial|] eqn:Hi;
    destruct (sn_Heads sn !! Latest) as [latest|] eqn:Hl;
    (destruct (bool_decide _) eqn:Hctx; [done|]); try done.
  destruct (_ || _) eqn:H1; [done|]. destruct (ReorgPending initial || _) eqn:H2; [done|].
  destruct (negb (_ =? _)%Z || _) eqn:H3; [done|]. destruct (_ && negb _) eqn:H4; [done|].
  destruct ((0 <? _)%Z && _) eqn:H5; [done|]. intros _.
  apply bool_decide_eq_false in Hctx. apply dec_stable in Hctx.
  exists sn, initial, latest. bool_to_prop. split_and!; try done; try lia.
  intros Hle. destruct H4 as [H4|H4]; bool_to_prop; [lia|done].
Qed.
End fence_proofs.

(** A passed check means that no reorg was recorded since the snapshot was read. *)
Lemma fence_passed `{World W, HeadStoreLaws W} r ctx sn w0 w1 w current w3 h0 :
  st_wf w0 → store_Snapshot (cfg_Name (rt_Config r)) w0 = (Ok sn, w1) →
  sn_Heads sn !! Latest = Some h0 → Family h0 = "evm" →
  store_Snapshot (cfg_Name (rt_Config r)) w = (current, w3) → failure_class r ctx sn current w3 = "" →
  ∀ w2, st_le w1 w2 → st_le w2 w →
  ∃ h2, st_latest w2 (cfg_Name (rt_Config r)) = Some h2 ∧
    ReorgPending h2 = false ∧ ReorgEpoch h2 = ReorgEpoch h0.
Proof.
  intros Hwf Hsn Hh0 Hevm Hcur Hpass w2 Hle02 Hle2.
  destruct (st_snapshot _ _ _ _ Hsn) as (x & Hx & Hlat & Hx1).
  apply failure_class_passed in Hpass as (sn2 & initial & latest & -> & Hi & Hl & Hpi & Hpl & He & _).
  destruct (st_snapshot _ _ _ _ Hcur) as (y & Hy & Hlat2 & _).
  rewrite Hi in Hh0. injection Hh0 as ->. rewrite Hl in Hlat2. rewrite Hi in Hlat.
  pose proof (st_wf_le _ _ Hx Hwf) as Hwfx.
  assert (st_le x w2) as Hx2 by by etrans. assert (st_le w2 y) as H2y by by etrans.
  destruct (st_mono _ _ _ _ Hwfx Hx2 Hlat Hevm) as (h2 & Hs2 & Hev2 & (Ha & Hb & _)).
  destruct (st_mono _ _ _ _ (st_wf_le _ _ Hx2 Hwfx) H2y Hs2 Hev2) as (h3 & Hs3 & _ & (Hc & _)).
  rewrite Hlat2 in Hs3. injection Hs3 as <-. exists h2. split; [done|].
  assert (ReorgEpoch h2 = ReorgEpoch h0) as Heq by lia. split; [|done].
  destruct (ReorgPending h2); [|done]. specialize (Hb Hpi eq_refl). lia.
Qed.

(** * Properties *)

(** C14: the reorg fence.  Take a snapshot of a store that keeps its laws, let
    anything happen in between (other coordinators, other instances), and run the
    final check.  If any answer with a target is let through, then at no moment
    between the snapshot and the check was the accepted head of the chain under
    recovery or of another reorg epoch: an answer pinned before a fork was
    discovered never leaves the proxy after it.  Otherwise every answer with a
    target is replaced by a retryable consistency error that keeps only its id;
    answers without a target are never touched. *)
Theorem fence_discards `{World W, HeadStoreLaws W} r ctx sn responses w0 w1 w out w' h0 :
  cfg_Family (rt_Config r) = "evm" →
  st_wf w0 → store_Snapshot (cfg_Name (rt_Config r)) w0 = (Ok sn, w1) → st_le w1 w →
  sn_Heads sn !! Latest = Some h0 → Family h0 = "evm" →
  fenceEVMResponses r ctx sn responses w = (out, w') →
  length out = length responses ∧
  (∀ i p, responses !! i = Some p → ps_target p = None → out !! i = Some p) ∧
  ((∀ i p, responses !! i = Some p → ps_target p ≠ None →
      ∃ class, class ≠ "" ∧ out !! i = Some (discard r class p)) ∨
   (out = responses ∧ ∀ w2, st_le w1 w2 → st_le w2 w →
      (∃ p, p ∈ responses ∧ ps_target p ≠ None) →
      ∃ h2, st_latest w2 (cfg_Name (rt_Config r)) = Some h2 ∧
        ReorgPending h2 = false ∧ ReorgEpoch h2 = ReorgEpoch h0)).
Proof.
  intros Hfam Hwf Hsn Hle Hh0 Hevm. unfold fenceEVMResponses. rewrite Hfam. simpl negb. cbv iota.
  destruct (existsb _ responses) eqn:Hex; simpl negb; cbv iota.
  2: { intros [= <- _]. split_and!; [done|done|]. right. split; [done|].
       intros w2 _ _ (p & Hp & Ht). exfalso. apply not_true_iff_false in Hex. apply Hex.
       apply existsb_exists. exists p. split; [by apply list_elem_of_In|by apply bool_decide_eq_true]. }
  destruct (store_Snapshot _ w) as [current w3] eqn:Hcur.
  destruct (String.eqb_spec (failure_class r ctx sn current w3) "") as [Hpass|Hfail].
  - intros [= <- _]. split_and!; [done|done|]. right. split; [done|]. intros w2 Hle02 Hle2 _.
    by eapply fence_passed.
  - intros [= <- _]. split_and!; [by rewrite length_fmap| |left].
    + intros i p Hp Ht. rewrite list_lookup_fmap, Hp. simpl. unfold discard. by rewrite Ht.
    + intros i p Hp _. eexists. split; [exact Hfail|]. by rewrite list_lookup_fmap, Hp.
Qed.

(** ** A fork discovered while a request was in flight *)

#[export] Instance sim_chain_store_laws (X : Type) :
    @HeadStoreLaws (Sim (ChainWorld (X * MemoryStore))) (sim_chain_store X) :=
  lift_store_laws (H0 := MemoryStore_laws (λ _, "evm")) _ _ (λ _ _, eq_refl).

Definition store_world (m : MemoryStore) : Sim (ChainWorld (unit * MemoryStore)) :=
  mkSim 100 (λ _, Err ErrCanceled) (mkChainWorld ∅ ∅ (tt, m)).

Definition fence_runtime : Runtime := mkRuntime (mkChainConfig "eth" "evm" "0x1" "" 0 0 1000 8) [].

Definition fence_answer : processedResponse :=
  mkProcessed (Success "7" (js "'0x1'")) "up" (Some demo_head) "miss" false false false.

Definition forked_world : Sim (ChainWorld (unit * MemoryStore)) :=
  store_world (MemoryStore.exec (OpBeginReorg 7 "eth" "a:1") demo_store).

Lemma fence_discards_witness :
  ∃ sn out, (store_Snapshot "eth" (store_world demo_store)).1 = Ok sn ∧
    (fenceEVMResponses fence_runtime Background sn [fence_answer; bare (Success "8" "1")] forked_world).1
      = out ∧
    length out = 2%nat ∧ out !! 1%nat = Some (bare (Success "8" "1")) ∧
    res_Error (ps_response (default (bare (Success "" "")) (out !! 0%nat))) ≠ None.
Proof.
  eexists _, _. split; [reflexivity|]. split; [reflexivity|].
  destruct (fence_discards fence_runtime Background
    (mkSnapshot "eth" (heads_of demo_store "eth")) [fence_answer; bare (Success "8" "1")]
    (store_world demo_store) (store_world demo_store) forked_world
    (fenceEVMResponses fence_runtime Background (mkSnapshot "eth" (heads_of demo_store "eth"))
       [fence_answer; bare (Success "8" "1")] forked_world).1
    (fenceEVMResponses fence_runtime Background (mkSnapshot "eth" (heads_of demo_store "eth"))
       [fence_answer; bare (Success "8" "1")] forked_world).2
    (with_Generation 2 (with_ChangedAt 10 demo_head))) as (Hlen & Hkeep & _).
  - reflexivity.
  - apply (store_run_wf _ _ _ demo_store_run), NewMemoryStore_wf.
  - reflexivity.
  - exact demo_reorg_step.
  - vm_compute. reflexivity.
  - reflexivity.
  - apply surjective_pairing.
  - split; [exact Hlen|]. split; [exact (Hkeep 1%nat _ eq_refl eq_refl)|]. vm_compute. discriminate.
Defined.
