(* ===== verification/Gateway.v ===== *)
(** * Answering a request — internal/gateway/cache.go and router.go

    From a prepared request to its JSON-RPC response: the response cache around
    [route], the guards of [process], and the headers that describe what the
    answers of an envelope were pinned to. *)

From S2P Require Import Prelude GoStrings GoJson Evm JsonRpc Head World Upstream Chain RequestCache.
From S2P Require Import Receipts Transform Router Fence.
From Stdlib Require Import Ascii.

(** ** Responses through the cache *)

Section responses.
  Context {W : Type} `{World W, Clients W, Runtimes W, SingleFlight W, Caches W}.
  Variable range_order : gmap string availabilityRecord → list string.

  (** The hexadecimal SHA-256 digest. *)
  Variable sha256_hex : string → string.

  (** Rounds granted to [route]: see [route_terminates]. *)
  Variable fuel : nat.

Definition receipts_of (r : Runtime) (caching : bool) : ReceiptService :=
  NewReceiptService caching (cfg_ReorgDepth (rt_Config r)).

  (* go: gateway/cache.go:99-116 Gateway.isCacheable *)
Definition isCacheable (r : Runtime) (snapshot : Snapshot) (p : preparedRequest) (now : Z) : bool :=
  if negb (String.eqb (cfg_Family (rt_Config r)) "evm") then false
  else if negb (String.eqb (pq_receiptHash p) "") then
    let* (accepted, exists_) := Get snapshot Latest in
    exists_ && negb (IsZero accepted) && negb (ReorgPending accepted)
    && negb (time_IsZero (ObservedAt accepted))
    && (now - ObservedAt accepted <=? cfg_MaxHeadAge (rt_Config r))%Z
  else if match pq_target p with Some t => String.eqb (Hash t) "" | None => true end
          || negb (bool_decide (pq_verifyBoundaries p = []))
  then false
  else match getEVMStateBlockIndex (pq_method p) with
       | Some _ => pq_requireEIP1898 p
       | None => isEVMExplicitHashMethod (pq_method p) || String.eqb (pq_method p) "eth_getLogs"
       end.

  (** [%q] of a string of printable ASCII without quotes or backslashes: the
      names and methods of the registries. *)
Definition quoted (s : string) : string := String dquote (s +:+ String dquote "").

Definition cache_key (r : Runtime) (accepted : Head) (p : preparedRequest) : string :=
  let targetHash := match pq_target p with
                    | Some t => if String.eqb (pq_receiptHash p) "" then Hash t else ""
                    | None => ""
                    end in
  quoted (cfg_Name (rt_Config r)) +:+ ":" +:+ pretty (ReorgEpoch accepted) +:+ ":"
  +:+ quoted (pq_method p) +:+ ":" +:+ targetHash +:+ ":" +:+ sha256_hex (pq_parameters p).

Definition flight_key (r : Runtime) (accepted : Head) (p : preparedRequest) : string :=
  if String.eqb (pq_receiptHash p) "" then cache_key r accepted p
  else cache_key r accepted p +:+ ":" +:+ Hash accepted.

  (** The inclusion check that allows a receipt to be kept. *)
Definition verify_inclusion (r : Runtime) (accepted : Head) (ctx : Context) (p : preparedRequest)
    (response : CachedResponse) (w : W) : CachedResponse * option goerror * W :=
  match getEVMReceiptBlock (Payload response) (pq_receiptHash p) with
  | Err e => (response, Some (Errorf "read receipt inclusion: " e ""), w)
  | Ok block =>
      let verificationCtx := WithTimeout ctx (cfg_HeadRequestTimeout (rt_Config r)) w in
      let* (verified, w) :=
        ContainsBlock (H2 := runtime_reader r) (receipts_of r true) verificationCtx
          (mkBlockRequest block accepted) w in
      let skip := match verified with Ok b => negb b | Err _ => true end in
      (mkCached (Payload response) (RequestCache.Upstream response) skip, None, w)
  end.

  (** The load function.  Running out of [fuel] reads as the deadline's error. *)
Definition load_response (r : Runtime) (snapshot : Snapshot) (p : preparedRequest) (cacheable : bool)
    (loadCtx : Context) (w : W) : CachedResponse * option goerror * W :=
  let* (accepted, _) := Get snapshot Latest in
  let* (answered, w) := route range_order fuel r loadCtx p ∅ w in
  let* (payload, upstreamID, rpcErr) :=
    default ("", "", Some (ConsistencyUnavailable
                             (getTargetErrorData (cfg_Name (rt_Config r)) (pq_target p) ∅))) answered in
  let response := mkCached payload upstreamID (negb (String.eqb (pq_receiptHash p) "")) in
  match rpcErr with
  | Some e => (response, Some (ErrRPC e), w)
  | None =>
      if cacheable && negb (String.eqb (pq_receiptHash p) "") && negb (is_null_text payload)
      then verify_inclusion r accepted loadCtx p response w
      else (response, None, w)
  end.

  (** The accepted head stays the ceiling of a receipt served from the cache. *)
Definition cap_receipt (accepted : Head) (p : preparedRequest) (lookup : Lookup)
    : Lookup * option goerror :=
  if negb (String.eqb (pq_receiptHash p) "")
     && negb (String.eqb (Payload (lk_Response lookup)) "null")
  then match getEVMReceiptBlock (Payload (lk_Response lookup)) (pq_receiptHash p) with
       | Err e => (lookup, Some (Errorf "read cached receipt inclusion: " e ""))
       | Ok block =>
           if (Number accepted <? Number block)%Z
           then (mkLookup (mkCached "null" (RequestCache.Upstream (lk_Response lookup))
                             (SkipCache (lk_Response lookup))) (lk_Status lookup), None)
           else (lookup, None)
       end
  else (lookup, None).

Definition response_error (r : Runtime) (e : goerror) : Error :=
  match errors_As_rpc e with
  | Some rpcErr => rpcErr
  | None =>
      if errors_Is ErrCanceled e || errors_Is ErrDeadlineExceeded e
      then ConsistencyUnavailable
             (AMap [("chain", AStr (cfg_Name (rt_Config r)));
                    ("reason", AStr "response unavailable before deadline"); ("retryable", ABool true)])
      else InternalError "read response cache"
  end.

  (* go: gateway/cache.go:25-97 Gateway.getResponse *)
Definition getResponse (r : Runtime) (ctx : Context) (snapshot : Snapshot) (p : preparedRequest) (w : W)
    : Lookup * option Error * W :=
  let cacheable := Enabled (cache_service w) && isCacheable r snapshot p (now w) in
  let* (accepted, _) := Get snapshot Latest in
  let load := load_response r snapshot p cacheable in
  let* (lookup, err, w) :=
    if cacheable then
      let* (lookup, err, w) :=
        GetOrLoad ctx (mkLoad (cache_key r accepted p) (flight_key r accepted p) load) w in
      match err with
      | Some e => (lookup, Some e, w)
      | None => let* (lookup, err) := cap_receipt accepted p lookup in (lookup, err, w)
      end
    else
      let* (response, err, w) := load ctx w in
      (mkLookup response "bypass", err, w) in
  (lookup, response_error r <$> err, w).

  (** ** One request *)

Definition reason (r : Runtime) (why : string) (more : list (string * any)) : Error :=
  ConsistencyUnavailable (AMap ([("chain", AStr (cfg_Name (rt_Config r))); ("reason", AStr why)] ++ more)).

  (** The guards between preparation and routing. *)
Definition reorg_guard (r : Runtime) (snapshot : Snapshot) (p : preparedRequest) : option Error :=
  if String.eqb (cfg_Family (rt_Config r)) "evm" && bool_decide (pq_target p ≠ None) then
    let* (accepted, exists_) := Get snapshot Latest in
    if negb exists_ || IsZero accepted || ReorgPending accepted
    then Some (reason r "accepted head unavailable or reorg pending" [("retryable", ABool true)])
    else None
  else None.

Definition age_guard (r : Runtime) (p : preparedRequest) (now : Z) : option Error :=
  let maxAge := cfg_MaxHeadAge (rt_Config r) in
  match pq_target p with
  | Some t =>
      if negb (String.eqb (Commitment t) "explicit") && (0 <? maxAge)%Z
         && (time_IsZero (ObservedAt t) || (maxAge <? now - ObservedAt t)%Z)
      then Some (reason r "accepted head is stale" [("commitment", AStr (Commitment t))])
      else None
  | None => None
  end.

  (* go: gateway/router.go:217-277 Gateway.process *)
Definition process (r : Runtime) (ctx : Context) (snapshot : Snapshot) (request : Request) (w : W)
    : processedResponse * W :=
  let fail e := bare (Failure (req_ID request) e) in
  match Validate request with
  | Some rpcErr => (fail rpcErr, w)
  | None =>
      let* (transformed, w) := transformRequest r ctx snapshot request w in
      match transformed with
      | Err rpcErr => (fail rpcErr, w)
      | Ok p =>
          match reorg_guard r snapshot p with
          | Some e => (fail e, w)
          | None =>
          match age_guard r p (now w) with
          | Some e => (fail e, w)
          | None =>
              if negb (String.eqb (pq_localResponse p) "") then
                (mkProcessed (Success (req_ID request) (pq_localResponse p)) "proxy" (pq_target p)
                   (match pq_target p with None => "static" | Some _ => "local" end)
                   false false false, w)
              else
                let* (lookup, upstreamErr, w) := getResponse r ctx snapshot p w in
                let upstreamID := RequestCache.Upstream (lk_Response lookup) in
                match upstreamErr with
                | Some e =>
                    (mkProcessed (Failure (req_ID request) e) upstreamID (pq_target p)
                       (lk_Status lookup) false false false, w)
                | None =>
                    (mkProcessed (Success (req_ID request) (Payload (lk_Response lookup))) upstreamID
                       (pq_target p) (lk_Status lookup) (negb (String.eqb (pq_receiptHash p) ""))
                       (negb (bool_decide (pq_verifyBoundaries p = [])))
                       (String.eqb (cfg_Family (rt_Config r)) "solana"
                        && isSolanaUnpinnedRead (req_Method request)), w)
                end
          end end
      end
  end.
End responses.

(** ** The headers of an envelope *)

(** The loop over the responses; [None] is the early return on mixed targets. *)
Record header_state := mkHeaderState {
  hs_accepted : option Head;
  hs_receipt : bool;
  hs_other : bool;
  hs_boundary : bool;
  hs_unverified : bool
}.

Definition same_target (family : string) (a t : Head) : bool :=
  if String.eqb family "evm" then EqualFold (Hash a) (Hash t)
  else String.eqb (Identity a) (Identity t) && String.eqb (Commitment a) (Commitment t).

Definition header_step (family : string) (st : header_state) (p : processedResponse)
    : option header_state :=
  let unverified := hs_unverified st || ps_unverifiedRead p in
  match ps_target p, res_Error (ps_response p) with
  | Some t, None =>
      if match hs_accepted st with Some a => negb (same_target family a t) | None => false end
      then None
      else Some (mkHeaderState (Some t) (hs_receipt st || ps_receiptLookup p)
                   (hs_other st || negb (ps_receiptLookup p)) (hs_boundary st || ps_boundaryChecked p)
                   unverified)
  | _, _ =>
      Some (mkHeaderState (hs_accepted st) (hs_receipt st) (hs_other st) (hs_boundary st) unverified)
  end.

Fixpoint header_fold (family : string) (st : header_state) (l : list processedResponse)
    : option header_state :=
  match l with
  | [] => Some st
  | p :: rest =>
      match header_step family st p with Some st => header_fold family st rest | None => None end
  end.

Definition consistency (v : string) : string * string := ("X-RPC-Consistency", v).

(** The headers set, in order; a later value replaces an earlier one. *)
(* go: gateway/router.go:491-551 Gateway.setResponseHeadHeaders *)
Definition setResponseHeadHeaders (family : string) (responses : list processedResponse)
    : list (string * string) :=
  match header_fold family (mkHeaderState None false false false false) responses with
  | None => [consistency "mixed-targets"]
  | Some st =>
      if hs_receipt st && hs_other st then [consistency "mixed-targets"]
      else match hs_accepted st with
      | None => if hs_unverified st then [consistency "unverified"] else []
      | Some t =>
          if hs_unverified st then [consistency "mixed-targets"]
          else if String.eqb family "evm" then
            (if negb (String.eqb (Commitment t) "explicit") || negb (Number t =? 0)%Z
                || negb (String.eqb (Origin t) "")
             then [("X-RPC-Head-Number", FormatEVMQuantity (Number t))] else [])
            ++ [("X-RPC-Head-Hash", Hash t);
                consistency (if hs_boundary st then "boundary-checked"
                             else if hs_receipt st then "pinned-head-ceiling"
                             else "exact-block-hash")]
          else [("X-RPC-Head-Slot", pretty (Number t)); consistency "minimum-context-slot"]
      end
  end.

(** ** Lemmas *)

(** The responses the headers speak of: pinned and successful. *)
Definition counted (p : processedResponse) (t : Head) : Prop :=
  ps_target p = Some t ∧ res_Error (ps_response p) = None.

Lemma same_target_trans family a b c :
  same_target family a b = true → same_target family b c = true → same_target family a c = true.
Proof.
  unfold same_target. destruct (String.eqb family "evm"); [apply EqualFold_trans|].
  intros H1 H2. bool_to_prop. apply andb_true_intro. split; apply String.eqb_eq; congruence.
Qed.

Lemma same_target_refl family a : same_target family a a = true.
Proof.
  unfold same_target. destruct (String.eqb family "evm"); [apply EqualFold_refl|].
  by rewrite !String.eqb_refl.
Qed.

(** What the loop knows of the responses [seen] so far. *)
Record header_inv (family : string) (seen : list processedResponse) (st : header_state) : Prop := {
  hi_same p t : p ∈ seen → counted p t →
    ∃ a, hs_accepted st = Some a ∧ same_target family t a = true;
  hi_receipt p t : p ∈ seen → counted p t → ps_receiptLookup p = true → hs_receipt st = true;
  hi_other p t : p ∈ seen → counted p t → ps_receiptLookup p = false → hs_other st = true;
  hi_boundary p t : p ∈ seen → counted p t → ps_boundaryChecked p = true → hs_boundary st = true;
  hi_unverified p : p ∈ seen → ps_unverifiedRead p = true → hs_unverified st = true
}.

Lemma header_step_inv family seen st p st' :
  header_inv family seen st → header_step family st p = Some st' → header_inv family (seen ++ [p]) st'.
Proof.
  intros [Hs Hr Ho Hb Hu]. unfold header_step.
  assert (∀ q, q ∈ seen ++ [p] → q ∈ seen ∨ q = p) as Hcase.
  { intros q. rewrite elem_of_app, list_elem_of_singleton. done. }
  destruct (ps_target p) as [t|] eqn:Ht; [destruct (res_Error (ps_response p)) eqn:He|].
  2: { destruct (match hs_accepted st with Some a => _ | None => false end) eqn:Hm; [done|].
    intros [= <-]. split; simpl.
    - intros q t' Hq Hc. exists t. split; [done|]. destruct (Hcase _ Hq) as [Hq'| ->].
      + destruct (Hs _ _ Hq' Hc) as (a & Ha & Hsame). rewrite Ha in Hm. bool_to_prop.
        by eapply same_target_trans.
      + destruct Hc as [Hc _]. assert (t' = t) as -> by congruence. apply same_target_refl.
    - intros q t' Hq Hc Hl. destruct (Hcase _ Hq) as [Hq'| ->]; [by erewrite Hr|by rewrite Hl, orb_true_r].
    - intros q t' Hq Hc Hl. destruct (Hcase _ Hq) as [Hq'| ->]; [by erewrite Ho|by rewrite Hl, orb_true_r].
    - intros q t' Hq Hc Hl. destruct (Hcase _ Hq) as [Hq'| ->]; [by erewrite Hb|by rewrite Hl, orb_true_r].
    - intros q Hq Hl. destruct (Hcase _ Hq) as [Hq'| ->]; [by erewrite Hu|by rewrite Hl, orb_true_r]. }
  all: intros [= <-]; split; simpl;
    [intros q t' Hq Hc; destruct (Hcase _ Hq) as [Hq'| ->]; [by eapply Hs|by destruct Hc; congruence]
    |intros q t' Hq Hc Hl; destruct (Hcase _ Hq) as [Hq'| ->]; [by eapply Hr|by destruct Hc; congruence]
    |intros q t' Hq Hc Hl; destruct (Hcase _ Hq) as [Hq'| ->]; [by eapply Ho|by destruct Hc; congruence]
    |intros q t' Hq Hc Hl; destruct (Hcase _ Hq) as [Hq'| ->]; [by eapply Hb|by destruct Hc; congruence]
    |intros q Hq Hl; destruct (Hcase _ Hq) as [Hq'| ->]; [by erewrite Hu|by rewrite Hl, orb_true_r]].
Qed.

Lemma header_fold_inv family seen st l st' :
  header_inv family seen st → header_fold family st l = Some st' → header_inv family (seen ++ l) st'.
Proof.
  revert seen st. induction l as [|p l IH]; intros seen st Hi; simpl.
  - intros [= <-]. by rewrite app_nil_r.
  - destruct (header_step family st p) as [st1|] eqn:Hp; [|done]. intros Hf.
    rewrite cons_middle, app_assoc. eapply IH; [|exact Hf]. by eapply header_step_inv.
Qed.

Lemma initial_header_inv family : header_inv family [] (mkHeaderState None false false false false).
Proof. split; intros p; intros; by destruct (not_elem_of_nil p). Qed.

(** The headers an accepted target [t] is announced with. *)
Definition head_headers (family : string) (st : header_state) (t : Head) : list (string * string) :=
  if String.eqb family "evm" then
    (if negb (String.eqb (Commitment t) "explicit") || negb (Number t =? 0)%Z
        || negb (String.eqb (Origin t) "")
     then [("X-RPC-Head-Number", FormatEVMQuantity (Number t))] else [])
    ++ [("X-RPC-Head-Hash", Hash t);
        consistency (if hs_boundary st then "boundary-checked"
                     else if hs_receipt st then "pinned-head-ceiling"
                     else "exact-block-hash")]
  else [("X-RPC-Head-Slot", pretty (Number t)); consistency "minimum-context-slot"].

(** Announcing anything but a bare consistency label comes from a loop that saw
    one target and no unverified read. *)
Lemma headers_announced family responses k v :
  (k, v) ∈ setResponseHeadHeaders family responses →
  (k, v) = consistency "mixed-targets" ∨ (k, v) = consistency "unverified" ∨
  ∃ st t, header_inv family responses st ∧ hs_accepted st = Some t ∧ hs_unverified st = false ∧
    hs_receipt st && hs_other st = false ∧ (k, v) ∈ head_headers family st t.
Proof.
  unfold setResponseHeadHeaders. destruct (header_fold _ _ _) as [st|] eqn:Hf.
  - apply (header_fold_inv _ []) in Hf; [|apply initial_header_inv]. simpl in Hf.
    destruct (hs_receipt st && hs_other st) eqn:Hmix.
    { rewrite list_elem_of_singleton. tauto. }
    destruct (hs_accepted st) as [t|] eqn:Ha; destruct (hs_unverified st) eqn:Hu;
      rewrite ?list_elem_of_singleton, ?elem_of_nil; try tauto.
    intros Hin. right; right. exists st, t. done.
  - rewrite list_elem_of_singleton. tauto.
Qed.

(** Membership in the headers of a target, one header at a time. *)
Local Ltac header_cases :=
  unfold head_headers, consistency;
  destruct (String.eqb _ "evm") eqn:?; bool_to_prop;
  [destruct (_ || _)|]; rewrite ?elem_of_app, ?list_elem_of_singleton, ?elem_of_cons, ?elem_of_nil;
  intuition (simplify_eq; auto).

Lemma head_headers_hash family st t v :
  ("X-RPC-Head-Hash", v) ∈ head_headers family st t → family = "evm" ∧ v = Hash t.
Proof. header_cases. Qed.

Lemma head_headers_number family st t v :
  ("X-RPC-Head-Number", v) ∈ head_headers family st t → family = "evm" ∧ v = FormatEVMQuantity (Number t).
Proof. header_cases. Qed.

Lemma head_headers_slot family st t v :
  ("X-RPC-Head-Slot", v) ∈ head_headers family st t → family ≠ "evm" ∧ v = pretty (Number t).
Proof. header_cases. Qed.

Lemma head_headers_exact family st t :
  ("X-RPC-Consistency", "exact-block-hash") ∈ head_headers family st t →
  family = "evm" ∧ hs_boundary st = false ∧ hs_receipt st = false.
Proof. header_cases; destruct (hs_boundary st), (hs_receipt st); done. Qed.

Lemma inv_same family responses st a p t :
  header_inv family responses st → hs_accepted st = Some a → p ∈ responses → counted p t →
  same_target family t a = true.
Proof. intros Hi Ha Hp Hc. destruct (hi_same _ _ _ Hi _ _ Hp Hc) as (a' & Ha' & Hs). congruence. Qed.

Lemma inv_clear family responses st p :
  header_inv family responses st → hs_unverified st = false → p ∈ responses → ps_unverifiedRead p = false.
Proof.
  intros Hi Hu Hp. destruct (ps_unverifiedRead p) eqn:Hr; [|done].
  by rewrite (hi_unverified _ _ _ Hi p Hp Hr) in Hu.
Qed.

Lemma inv_plain family responses st p t :
  header_inv family responses st → hs_boundary st = false → hs_receipt st = false →
  p ∈ responses → counted p t → ps_receiptLookup p = false ∧ ps_boundaryChecked p = false.
Proof.
  intros Hi Hb Hr Hp Hc. split.
  - destruct (ps_receiptLookup p) eqn:Hl; [|done]. by rewrite (hi_receipt _ _ _ Hi p t Hp Hc Hl) in Hr.
  - destruct (ps_boundaryChecked p) eqn:Hl; [|done]. by rewrite (hi_boundary _ _ _ Hi p t Hp Hc Hl) in Hb.
Qed.

(** ** Guards and ceilings *)

Lemma reorg_guard_None r snapshot p t :
  reorg_guard r snapshot p = None → cfg_Family (rt_Config r) = "evm" → pq_target p = Some t →
  ∃ a, sn_Heads snapshot !! Latest = Some a ∧ IsZero a = false ∧ ReorgPending a = false.
Proof.
  unfold reorg_guard, Get. intros Hg Hf Ht. rewrite Hf, Ht in Hg. simpl in Hg.
  destruct (sn_Heads snapshot !! Latest) as [a|]; simpl in Hg; [|done].
  destruct (IsZero a) eqn:Hz; [done|]. destruct (ReorgPending a) eqn:Hr; [done|]. eauto.
Qed.

Lemma age_guard_None r p n t :
  age_guard r p n = None → pq_target p = Some t → Commitment t ≠ "explicit" →
  (0 < cfg_MaxHeadAge (rt_Config r))%Z →
  time_IsZero (ObservedAt t) = false ∧ (n - ObservedAt t ≤ cfg_MaxHeadAge (rt_Config r))%Z.
Proof.
  unfold age_guard. intros Hg Ht Hc Hm. rewrite Ht in Hg. apply String.eqb_neq in Hc.
  rewrite Hc in Hg. apply Z.ltb_lt in Hm. rewrite Hm in Hg. simpl in Hg.
  destruct (time_IsZero _); [done|]. destruct (Z.ltb_spec (cfg_MaxHeadAge (rt_Config r)) (n - ObservedAt t)%Z);
    [done|]. split; [done|lia].
Qed.

(** A receipt under a ceiling: absent, or of that transaction and not above it. *)
Definition capped (accepted : Head) (transaction : string) (payload : RawMessage) : Prop :=
  payload = "null" ∨
  ∃ block, getEVMReceiptBlock payload transaction = Ok block ∧ (Number block ≤ Number accepted)%Z.

Lemma cap_receipt_capped accepted p lookup lookup' :
  pq_receiptHash p ≠ "" → cap_receipt accepted p lookup = (lookup', None) →
  capped accepted (pq_receiptHash p) (Payload (lk_Response lookup')).
Proof.
  unfold cap_receipt, capped. intros Hr. apply String.eqb_neq in Hr. rewrite Hr. simpl.
  destruct (String.eqb_spec (Payload (lk_Response lookup)) "null") as [Hn|Hn]; simpl.
  { intros [= <-]. by left. }
  destruct (getEVMReceiptBlock _ _) as [e|block] eqn:Hb; [done|].
  destruct (Z.ltb_spec (Number accepted) (Number block)); intros [= <-]; [by left|].
  right. eauto.
Qed.

Lemma served_capped `{World W, Clients W, Runtimes W, SingleFlight W} range_order r ctx p c t payload :
  cfg_Family (rt_Config r) = "evm" → pq_target p = Some t → pq_receiptHash p ≠ "" →
  pq_unwrapContext p = false → served range_order r ctx p c payload →
  capped t (pq_receiptHash p) payload.
Proof.
  intros Hf Ht Hr Hu (_ & w1 & raw & w2 & _ & Hj & _).
  destruct (judge_evm _ _ _ _ _ _ Hf Ht Hj) as [_ Hc]. destruct (Hc Hr) as (_ & block & Hb & Hle).
  enough (payload = raw) as -> by (right; eauto).
  revert Hj. unfold judge, unwrap. rewrite Hu. destruct (_ && _ && _); [done|].
  unfold judge_receipt. destruct (String.eqb (pq_receiptHash p) "").
  - unfold judge_slots. rewrite Ht, Hf. simpl. destruct (_ && _); [done|]. by intros [= ->].
  - destruct (is_null_text raw); [done|]. rewrite Hb. destruct (_ <? _)%Z; [done|].
    unfold judge_slots. rewrite Ht, Hf. simpl. destruct (_ && _); [done|]. by intros [= ->].
Qed.

(** * Properties *)

(** C12: the headers never overstate.  A head hash (or, outside EVM, a slot) is
    announced for an envelope only if no answer in it is an unverified read and every
    successful pinned answer in it is pinned to that very block up to hex case (to
    one identity and commitment of that slot); [exact-block-hash] is announced only
    if moreover none of them is a receipt lookup or merely boundary-checked. *)
Theorem headers_truthful family responses :
  let headers := setResponseHeadHeaders family responses in
  (∀ v, ("X-RPC-Head-Hash", v) ∈ headers →
     family = "evm" ∧ ∀ p, p ∈ responses → ps_unverifiedRead p = false ∧
       ∀ t, counted p t → EqualFold (Hash t) v = true) ∧
  (∀ v, ("X-RPC-Head-Slot", v) ∈ headers →
     family ≠ "evm" ∧ ∃ a, v = pretty (Number a) ∧
       ∀ p, p ∈ responses → ps_unverifiedRead p = false ∧
         ∀ t, counted p t → Identity t = Identity a ∧ Commitment t = Commitment a) ∧
  (("X-RPC-Consistency", "exact-block-hash") ∈ headers →
     family = "evm" ∧ ∀ p t, p ∈ responses → counted p t →
       ps_receiptLookup p = false ∧ ps_boundaryChecked p = false ∧
       ∀ p' t', p' ∈ responses → counted p' t' → EqualFold (Hash t) (Hash t') = true).
Proof.
  simpl. split; [|split].
  - intros v Hin. apply headers_announced in Hin as [?|[?|(st & a & Hi & Ha & Hu & _ & Hin)]]; [done|done|].
    apply head_headers_hash in Hin as [-> ->]. split; [done|]. intros p Hp.
    split; [by eapply inv_clear|]. intros t Hc. exact (inv_same _ _ _ _ _ _ Hi Ha Hp Hc).
  - intros v Hin. apply headers_announced in Hin as [?|[?|(st & a & Hi & Ha & Hu & _ & Hin)]]; [done|done|].
    apply head_headers_slot in Hin as [Hfam ->]. split; [done|]. exists a. split; [done|]. intros p Hp.
    split; [by eapply inv_clear|]. intros t Hc. pose proof (inv_same _ _ _ _ _ _ Hi Ha Hp Hc) as Hs.
    unfold same_target in Hs. apply String.eqb_neq in Hfam. rewrite Hfam in Hs. by bool_to_prop.
  - intros Hin. apply headers_announced in Hin as [?|[?|(st & a & Hi & Ha & Hu & _ & Hin)]]; [done|done|].
    apply head_headers_exact in Hin as (-> & Hb & Hr). split; [done|]. intros p t Hp Hc.
    destruct (inv_plain _ _ _ _ _ Hi Hb Hr Hp Hc) as [-> ->]. do 2 (split; [done|]).
    intros p' t' Hp' Hc'. apply (EqualFold_trans _ (Hash a)).
    + exact (inv_same _ _ _ _ _ _ Hi Ha Hp Hc).
    + rewrite EqualFold_sym. exact (inv_same _ _ _ _ _ _ Hi Ha Hp' Hc').
Qed.

(** Two answers at one block, then one of another block. *)
Definition pinned_head (h : string) : Head := mkHead "testnet" "evm" "latest" 21 h "" 0 0 false 0 0 "" "".

Definition pinned_answer (h : string) : processedResponse :=
  mkProcessed (Success "1" "true") "a" (Some (pinned_head h))
    "bypass" false false false.

Lemma headers_truthful_witness :
  setResponseHeadHeaders "evm" [pinned_answer "0xAA"; pinned_answer "0xaa"] =
    [("X-RPC-Head-Number", "0x15"); ("X-RPC-Head-Hash", "0xaa"); consistency "exact-block-hash"] ∧
  EqualFold "0xAA" "0xaa" = true ∧
  setResponseHeadHeaders "evm" [pinned_answer "0xaa"; pinned_answer "0xab"] = [consistency "mixed-targets"].
Proof.
  split; [vm_compute; reflexivity|]. split; [|vm_compute; reflexivity].
  destruct (headers_truthful "evm" [pinned_answer "0xAA"; pinned_answer "0xaa"]) as (_ & _ & Hexact).
  destruct Hexact as [_ Hexact]; [vm_compute; right; right; left|].
  by apply (proj2 (proj2 (Hexact (pinned_answer "0xAA") (pinned_head "0xAA") ltac:(vm_compute; left) (conj eq_refl eq_refl)))
              (pinned_answer "0xaa") (pinned_head "0xaa") ltac:(vm_compute; right; left) (conj eq_refl eq_refl)).
Defined.

(** ** Whole requests *)

Section whole.
  Context {W : Type} `{World W, Clients W, Runtimes W, SingleFlight W, Caches W}.
  Variable range_order : gmap string availabilityRecord → list string.
  Variable sha256_hex : string → string.
  Variable fuel : nat.
  Implicit Types (r : Runtime) (w : W).

Lemma getResponse_capped r ctx snapshot p t w lookup w' :
  cfg_Family (rt_Config r) = "evm" → pq_target p = Some t → sn_Heads snapshot !! Latest = Some t →
  pq_receiptHash p ≠ "" → pq_unwrapContext p = false →
  getResponse range_order sha256_hex fuel r ctx snapshot p w = (lookup, None, w') →
  capped t (pq_receiptHash p) (Payload (lk_Response lookup)).
Proof using Type.
  intros Hf Ht Hs Hr Hu. unfold getResponse, Get. rewrite Hs. cbn [default id from_option fst snd].
  destruct (_ && isCacheable _ _ _ _).
  - destruct (GetOrLoad _ _ _) as [[l err] w1]. destruct err as [e|]; [done|].
    destruct (cap_receipt _ _ l) as [l' [e|]] eqn:Hc; [done|]. intros [= -> _].
    by eapply cap_receipt_capped.
  - unfold load_response, Get. rewrite Hs. cbn [default id from_option].
    destruct (route _ _ _ _ _ _ _) as [[[[payload up] rpcErr]|] w1] eqn:Hroute;
      cbn [default from_option id].
    + destruct rpcErr as [e|]; simpl; [done|]. intros [= <- _]. simpl.
      apply route_success in Hroute as [[_ ->]|(c & _ & _ & _ & Hserved)]; [by left|].
      by eapply served_capped.
    + done.
Qed.

(** A successful response of [process]: what was prepared, what the guards saw,
    and where the result comes from. *)
Lemma process_Ok r ctx snapshot request w q w' :
  process range_order sha256_hex fuel r ctx snapshot request w = (q, w') →
  res_Error (ps_response q) = None →
  Validate request = None ∧ ∃ p w1,
    transformRequest r ctx snapshot request w = (Ok p, w1) ∧
    reorg_guard r snapshot p = None ∧ age_guard r p (now w1) = None ∧ ps_target q = pq_target p ∧
    ((pq_localResponse p ≠ "" ∧ ps_response q = Success (req_ID request) (pq_localResponse p)) ∨
     (pq_localResponse p = "" ∧ ∃ lookup w2,
       getResponse range_order sha256_hex fuel r ctx snapshot p w1 = (lookup, None, w2) ∧
       ps_response q = Success (req_ID request) (Payload (lk_Response lookup)) ∧
       ps_receiptLookup q = negb (String.eqb (pq_receiptHash p) "") ∧
       ps_boundaryChecked q = negb (bool_decide (pq_verifyBoundaries p = [])))).
Proof using Type.
  unfold process. destruct (Validate request) as [e|]; [by intros [= <- _]|].
  destruct (transformRequest r ctx snapshot request w) as [[e|p] w1]; [by intros [= <- _]|].
  destruct (reorg_guard r snapshot p) eqn:Hg; [by intros [= <- _]|].
  destruct (age_guard r p (now w1)) eqn:Ha; [by intros [= <- _]|].
  intros Hp He. split; [done|]. exists p, w1. do 3 (split; [done|]). revert Hp He.
  destruct (String.eqb_spec (pq_localResponse p) "") as [Hl|Hl]; simpl.
  - destruct (getResponse _ _ _ _ _ _ _ _) as [[lookup [e|]] w2]; intros [= <- _]; [done|].
    intros _. split; [done|]. right. split; [done|]. eauto 10.
  - intros [= <- _] _. split; [done|]. by left.
Qed.
End whole.

(** C13: an answered request was a valid one, and its answer is fresh and pinned.
    The response carries the request's id; its target is the one the request was
    prepared for; if it is pinned on an EVM chain, the snapshot had an accepted head
    with no reorganization pending, and the request sent was pinned as in [evm_pinned];
    a target that moves with the chain was observed no longer ago than the
    configured limit when the request was routed. *)
Theorem answered_requests_guarded `{World W, Clients W, Runtimes W, SingleFlight W, Caches W}
    range_order sha256_hex fuel r ctx snapshot request w q w' :
  snapshot_wf snapshot →
  process range_order sha256_hex fuel r ctx snapshot request w = (q, w') →
  res_Error (ps_response q) = None →
  Validate request = None ∧ res_ID (ps_response q) = idOrNull (req_ID request) ∧
  ∃ p w1, transformRequest r ctx snapshot request w = (Ok p, w1) ∧ ps_target q = pq_target p ∧
    (cfg_Family (rt_Config r) = "evm" → evm_pinned r snapshot (req_Method request) p) ∧
    ∀ t, ps_target q = Some t →
      (cfg_Family (rt_Config r) = "evm" →
         ∃ a, sn_Heads snapshot !! Latest = Some a ∧ IsZero a = false ∧ ReorgPending a = false) ∧
      (Commitment t ≠ "explicit" → (0 < cfg_MaxHeadAge (rt_Config r))%Z →
         time_IsZero (ObservedAt t) = false ∧
         (now w1 - ObservedAt t ≤ cfg_MaxHeadAge (rt_Config r))%Z).
Proof.
  intros Hwf Hp He. destruct (process_Ok _ _ _ _ _ _ _ _ _ _ Hp He)
    as (Hv & p & w1 & Ht & Hg & Ha & Htarget & Hsource).
  split; [done|]. split.
  { by destruct Hsource as [[_ ->]|(_ & l & w2 & _ & -> & _)]. }
  exists p, w1. split; [done|]. split; [done|]. split.
  - intros Hf. by eapply transformRequest_pinned.
  - intros t Hq. rewrite Htarget in Hq. split; intros.
    + by eapply reorg_guard_None.
    + by eapply age_guard_None.
Qed.

(** C6: the accepted head is the ceiling of receipts.  Whether it was loaded or
    read from a cache that other requests have filled at newer heads, an answered
    [eth_getTransactionReceipt] is null or the receipt of the transaction asked
    for, included in a block no higher than the accepted head the answer is
    announced with. *)
Theorem receipts_under_ceiling `{World W, Clients W, Runtimes W, SingleFlight W, Caches W}
    range_order sha256_hex fuel r ctx snapshot request w q w' :
  cfg_Family (rt_Config r) = "evm" → req_Method request = "eth_getTransactionReceipt" →
  process range_order sha256_hex fuel r ctx snapshot request w = (q, w') →
  res_Error (ps_response q) = None →
  ∃ par transaction accepted payload,
    ParseParams (req_Params request) = Ok [par] ∧ Unmarshal_string "" par = Some transaction ∧
    sn_Heads snapshot !! Latest = Some accepted ∧ ps_target q = Some accepted ∧
    ps_response q = Success (req_ID request) payload ∧ capped accepted transaction payload.
Proof.
  intros Hf Hm Hp He. destruct (process_Ok _ _ _ _ _ _ _ _ _ _ Hp He)
    as (_ & p & w1 & Ht & _ & _ & Htarget & Hsource).
  destruct (transform_receipt_shape _ _ _ _ _ _ _ Hf Hm Ht) as (par & a & Hpar & Htx & Hr & Hpt & Hs & Hu & Hl).
  destruct Hsource as [[? _]|(_ & lookup & w2 & Hget & Hresp & _)]; [done|].
  exists par, (pq_receiptHash p), a, (Payload (lk_Response lookup)).
  do 3 (split; [done|]). split; [congruence|]. split; [done|]. by eapply getResponse_capped.
Qed.

(** ** Concrete requests *)

(** The endpoint of the demonstration chain also has one account and one receipt. *)
Definition demo_receipt (number : string) : RawMessage :=
  js "{'transactionHash':'" +:+ sim_hash "dd" +:+ js "','blockHash':'" +:+ sim_hash "aa"
  +:+ js "','blockNumber':'" +:+ number +:+ js "'}".

Definition demo_reply (height : string) (method : string) (params : RawMessage) : RawMessage :=
  if String.eqb method "eth_getTransactionReceipt" then demo_receipt height
  else if String.eqb params (js "['" +:+ sim_hash "aa" +:+ js "',false]")
  then sim_block "0x5" (sim_hash "aa") (sim_hash "bb")
  else Chain.demo_answer method params.

Definition demo_gateway_world (height : string) : Sim (ChainWorld (Service * unit)) :=
  mkSim 1000 (sim_rpc (demo_reply height))
    (demo_chain_state (NewService (mkCacheConfig false 10 100000 10000 1000000) 5000, tt)).

Definition demo_process (height : string) (request : Request) :
    processedResponse * Sim (ChainWorld (Service * unit)) :=
  process demo_order (λ s, s) 2 demo_runtime Background demo_snapshot request (demo_gateway_world height).

Definition demo_block_by_number : Request :=
  mkRequest "2.0" "1" "eth_getBlockByNumber" (js "['0x4',false]").

Definition demo_receipt_request : Request :=
  mkRequest "2.0" "1" "eth_getTransactionReceipt" (js "['" +:+ sim_hash "dd" +:+ js "']").

(** A receipt above the accepted head is not there yet. *)
Example receipt_above_head :
  (demo_process "0x6" demo_receipt_request).1 =
    mkProcessed (Success "1" "null") "up" (Some demo_accepted) "miss" true false false.
Proof. vm_compute. reflexivity. Qed.

Lemma answered_requests_guarded_witness :
  res_Result (ps_response (demo_process "0x5" demo_block_by_number).1) = demo_block ∧
  Validate demo_block_by_number = None ∧
  res_ID (ps_response (demo_process "0x5" demo_block_by_number).1) = "1".
Proof.
  split; [vm_compute; reflexivity|].
  destruct (answered_requests_guarded demo_order (λ s, s) 2 demo_runtime Background demo_snapshot
    demo_block_by_number (demo_gateway_world "0x5") (demo_process "0x5" demo_block_by_number).1
    (demo_process "0x5" demo_block_by_number).2 demo_snapshot_wf) as (Hv & Hid & _).
  - apply pair_fst. reflexivity.
  - vm_compute. reflexivity.
  - split; [exact Hv|exact Hid].
Defined.

Lemma receipts_under_ceiling_witness :
  res_Result (ps_response (demo_process "0x5" demo_receipt_request).1) = demo_receipt "0x5" ∧
  ∃ transaction accepted payload,
    sn_Heads demo_snapshot !! Latest = Some accepted ∧
    ps_response (demo_process "0x5" demo_receipt_request).1 = Success "1" payload ∧
    capped accepted transaction payload.
Proof.
  split; [vm_compute; reflexivity|].
  destruct (receipts_under_ceiling demo_order (λ s, s) 2 demo_runtime Background demo_snapshot
    demo_receipt_request (demo_gateway_world "0x5") (demo_process "0x5" demo_receipt_request).1
    (demo_process "0x5" demo_receipt_request).2 eq_refl eq_refl)
    as (par & tx & accepted & payload & _ & _ & Hs & _ & Hr & Hc).
  - apply pair_fst. reflexivity.
  - vm_compute. reflexivity.
  - exists tx, accepted, payload. split; [exact Hs|]. split; [exact Hr|exact Hc].
Defined.
