(* ===== verification/Serve.v ===== *)
(** * Serving an envelope — internal/gateway/router.go

    [ServeRPC]: from the body of an HTTP request to its reply.  One snapshot of the
    accepted heads is read for the whole envelope, every request is answered under
    it by a goroutine of its own, the answers pass the reorg fence, and the reply
    carries those of the requests that expect one.

    The goroutines run one after the other, in an order the scheduler chooses; what
    other requests and the coordinator do meanwhile enters through the primitives of
    the world, which may change any state. *)

From S2P Require Import Prelude GoStrings GoJson JsonRpc Head World Upstream Chain RequestCache.
From S2P Require Import Receipts Coordinator Transform Router Activity MemoryStore Fence Gateway.

(** ** HTTP *)

(** [in_Body] is [None] when reading the body fails before its end. *)
Record HttpCall := mkHttpCall { in_Method : string; in_Body : option string; in_Context : Context }.

Record ServerConfig := mkServerConfig {
  cfg_RequestTimeout : Z;
  cfg_MaxBodyBytes : Z;
  cfg_MaxBatchSize : Z
}.

(** The body before encoding: a text, one response or an array of them. *)
Inductive reply_body :=
| NoBody
| PlainText (text : string)
| OneResponse (response : Response)
| ManyResponses (responses : list Response).

(** The headers in the order they are set, but for those of the HTTP server itself. *)
Record HttpReply := mkReply {
  rp_Status : Z;
  rp_Headers : list (string * string);
  rp_Body : reply_body
}.

(** [http.Error] ends its text with it. *)
Definition newline : string := String (chr 10) "".

Definition StatusOK : Z := 200.
Definition StatusNoContent : Z := 204.
Definition StatusMethodNotAllowed : Z := 405.

Definition json_headers : list (string * string) := [("Content-Type", "application/json")].

(** What is written for the responses of an envelope. *)
Definition write_responses (batch : bool) (headers : list (string * string)) (responses : list Response)
    : HttpReply :=
  match responses with
  | [] => mkReply StatusNoContent headers NoBody
  | response :: _ =>
      mkReply StatusOK headers (if batch then ManyResponses responses else OneResponse response)
  end.

(* go: gateway/router.go:553-557 Gateway.writeRPCError *)
Definition writeRPCError (id : RawMessage) (rpcErr : Error) : HttpReply :=
  mkReply StatusOK json_headers (OneResponse (Failure id rpcErr)).

(** A valid notification expects no response. *)
Definition answered (request : Request) : bool :=
  negb (IsNotification request && bool_decide (Validate request = None)).

(* go: gateway/router.go:559-583 Gateway.writeEnvelope *)
Definition writeEnvelope (requests : list Request) (batch : bool) (fn : Request → Response) : HttpReply :=
  write_responses batch json_headers
    ((λ request, match Validate request with
                 | Some rpcErr => Failure (req_ID request) rpcErr
                 | None => fn request
                 end) <$> filter (λ request, answered request = true) requests).

(** ** Labels of the metrics *)

(* go: gateway/clients.go:19-32 Gateway.getClient *)
Definition getClient (clients : list string) (header query : string) : string :=
  let client := if String.eqb header "" then query else header in
  if String.eqb client "" then "anonymous"
  else if bool_decide (client ∈ clients) then client
  else "unknown".

(* go: gateway/router.go:585-606 Gateway.metricMethod *)
Definition metricMethod (method family : string) : string :=
  let other := if isWriteMethod method family then "write" else "unknown" in
  if String.eqb family "evm" then
    if String.eqb method "eth_subscribe" || String.eqb method "eth_unsubscribe" then method
    else if bool_decide (is_Some (getEVMStateBlockIndex method)) then method
    else if bool_decide (is_Some (getEVMBlockMethod method)) then method
    else if isEVMHeadNeutralMethod method || isEVMExplicitHashMethod method
            || String.eqb method "eth_blockNumber" || String.eqb method "eth_getLogs"
            || String.eqb method "eth_feeHistory" || String.eqb method "eth_getTransactionReceipt"
    then method
    else other
  else if bool_decide (is_Some (getSolanaConfigIndex method)) || isSolanaHeadNeutralMethod method
  then method
  else other.

(** ** One envelope *)

Section serve.
  Context {W : Type} `{World W, Clients W, Runtimes W, SingleFlight W, Caches W, HeadStore W}.
  Variable range_order : gmap string availabilityRecord → list string.
  Variable sha256_hex : string → string.
  Variable fuel : nat.
  Variable unmarshal_error : RawMessage → string.

  (** The order in which the goroutines of [n] requests run. *)
  Variable schedule : nat → list nat.

Definition zero_Snapshot : Snapshot := mkSnapshot "" ∅.

(** The snapshot is read once, and only if a request needs it; [true] if that failed. *)
Definition read_snapshot (chainName family : string) (requests : list Request) (w : W)
    : Snapshot * bool * W :=
  if existsb (λ request, negb (isStaticMethod (req_Method request) family)) requests then
    let* (snapshot, w) := store_Snapshot chainName w in
    match snapshot with
    | Ok snapshot => (snapshot, false, w)
    | Err _ => (zero_Snapshot, true, w)
    end
  else (zero_Snapshot, false, w).

Definition answer_request (r : Runtime) (ctx : Context) (chainName : string) (snapshot : Snapshot)
    (failed : bool) (request : Request) (w : W) : processedResponse * W :=
  if failed && negb (isStaticMethod (req_Method request) (cfg_Family (rt_Config r))) then
    (bare (Failure (req_ID request)
             (ConsistencyUnavailable
                (AMap [("chain", AStr chainName); ("reason", AStr "head store unavailable")]))), w)
  else process range_order sha256_hex fuel r ctx snapshot request w.

(** The goroutines, in the order they run; each fills its own place. *)
Fixpoint run_requests (r : Runtime) (ctx : Context) (chainName : string) (snapshot : Snapshot)
    (failed : bool) (requests : list Request) (order : list nat) (responses : gmap nat processedResponse) (w : W)
    : gmap nat processedResponse * W :=
  match order with
  | [] => (responses, w)
  | i :: rest =>
      match requests !! i with
      | Some request =>
          let* (q, w) := answer_request r ctx chainName snapshot failed request w in
          run_requests r ctx chainName snapshot failed requests rest (<[i := q]> responses) w
      | None => run_requests r ctx chainName snapshot failed requests rest responses w
      end
  end.

(** [make([]processedResponse, n)] *)
Definition zero_processed : processedResponse := bare (mkResponse "" "" "" None).

Definition collect (n : nat) (responses : gmap nat processedResponse) : list processedResponse :=
  (λ i, default zero_processed (responses !! i)) <$> seq 0 n.

(** The common value of the non-empty ones, or [many] when they differ. *)
Definition merge_label (many : string) (labels : list string) : string :=
  fold_left (λ acc label,
    if String.eqb label "" then acc
    else if String.eqb acc "" then label
    else if String.eqb acc label then acc else many) labels "".

Definition envelope_headers (family : string) (included responses : list processedResponse)
    : list (string * string) :=
  let selectedUpstream := merge_label "multiple" (ps_upstream <$> included) in
  let cacheStatus := merge_label "mixed" (ps_cacheStatus <$> included) in
  (if String.eqb selectedUpstream "" then [] else [("X-RPC-Upstream", selectedUpstream)])
  ++ (if String.eqb cacheStatus "" then [] else [("X-RPC-Cache", cacheStatus)])
  ++ setResponseHeadHeaders family responses.

(** The responses of the requests that expect one. *)
Definition include (requests : list Request) (responses : list processedResponse)
    : list processedResponse :=
  snd <$> filter (λ rp, answered rp.1 = true) (zip requests responses).

(** The answers of an envelope, as they leave the fence. *)
(* go: gateway/router.go:129-163 Gateway.ServeRPC *)
Definition serve_envelope (r : Runtime) (ctx : Context) (chainName : string) (requests : list Request) (w : W)
    : list processedResponse * W :=
  let* (snapshot, failed, w) :=
    read_snapshot chainName (cfg_Family (rt_Config r)) requests w in
  let n := length requests in
  let* (responses, w) := run_requests r ctx chainName snapshot failed requests (schedule n) ∅ w in
  fenceEVMResponses r ctx snapshot (collect n responses) w.

(* go: gateway/router.go:88-214 Gateway.ServeRPC *)
Definition ServeRPC (config : ServerConfig) (runtimes : gmap string Runtime) (call : HttpCall)
    (chainName : string) (w : W) : HttpReply * W :=
  if negb (String.eqb (in_Method call) "POST") then
    (mkReply StatusMethodNotAllowed
       (json_headers ++ [("Content-Type", "text/plain; charset=utf-8"); ("X-Content-Type-Options", "nosniff")])
       (PlainText ("method not allowed" +:+ newline)), w)
  else
    let ctx := WithTimeout (in_Context call) (cfg_RequestTimeout config) w in
    let too_large := InvalidRequest "request body exceeds configured limit" in
    match in_Body call with
    | None => (writeRPCError "" too_large, w)
    | Some body =>
        if (cfg_MaxBodyBytes config <? len body)%Z then (writeRPCError "" too_large, w)
        else match ParseEnvelope unmarshal_error body (cfg_MaxBatchSize config) with
        | (_, _, Some parseErr) => (writeRPCError "" parseErr, w)
        | (requests, batch, None) =>
            match runtimes !! chainName with
            | None =>
                (writeEnvelope requests batch
                   (λ request, Failure (req_ID request) (ChainUnavailable chainName)), w)
            | Some r =>
                let* (responses, w) := serve_envelope r ctx chainName requests w in
                let included := include requests responses in
                (write_responses batch
                   (json_headers ++ envelope_headers (cfg_Family (rt_Config r)) included responses)
                   (ps_response <$> included), w)
            end
        end
    end.
End serve.

(** ** Lemmas *)

Section proofs.
  Context {W : Type} `{World W, Clients W, Runtimes W, SingleFlight W, Caches W, HeadStore W}.
  Variable range_order : gmap string availabilityRecord → list string.
  Variable sha256_hex : string → string.
  Variable fuel : nat.
  Implicit Types (r : Runtime) (w : W).

Lemma process_id r ctx snapshot request w q w' :
  process range_order sha256_hex fuel r ctx snapshot request w = (q, w') →
  res_ID (ps_response q) = idOrNull (req_ID request).
Proof using Type.
  unfold process. destruct (Validate request); [by intros [= <- _]|].
  destruct (transformRequest _ _ _ _ _) as [[e|p] w1]; [by intros [= <- _]|].
  destruct (reorg_guard _ _ _); [by intros [= <- _]|]. destruct (age_guard _ _ _); [by intros [= <- _]|].
  destruct (negb _); [by intros [= <- _]|].
  destruct (getResponse _ _ _ _ _ _ _ _) as [[lookup [e|]] w2]; by intros [= <- _].
Qed.

Lemma answer_request_id r ctx chainName snapshot failed request w q w' :
  answer_request range_order sha256_hex fuel r ctx chainName snapshot failed request w = (q, w') →
  res_ID (ps_response q) = idOrNull (req_ID request).
Proof using Type.
  unfold answer_request. destruct (failed && _); [by intros [= <- _]|apply process_id].
Qed.

Lemma run_requests_spec (R : relation W) `{!PreOrder R} r ctx chainName snapshot failed requests :
  (∀ request w q w', answer_request range_order sha256_hex fuel r ctx chainName snapshot failed request w
     = (q, w') → R w w') →
  ∀ order acc w out w',
  run_requests range_order sha256_hex fuel r ctx chainName snapshot failed requests order acc w = (out, w') →
  R w w' ∧
  (∀ i, i ∉ order → out !! i = acc !! i) ∧
  (∀ i request, i ∈ order → requests !! i = Some request →
     ∃ q w1 w2, out !! i = Some q ∧ R w w1 ∧ R w2 w' ∧
       answer_request range_order sha256_hex fuel r ctx chainName snapshot failed request w1 = (q, w2)).
Proof using Type.
  intros Hstep order. induction order as [|j order IH]; intros acc w out w'; cbn [run_requests].
  { intros [= <- <-]. split; [done|]. split; [done|]. intros i request Hi. by apply elem_of_nil in Hi. }
  destruct (requests !! j) as [request|] eqn:Hj.
  - destruct (answer_request _ _ _ _ _ _ _ _ request w) as [q w1] eqn:Ha. intros Hrun.
    pose proof (Hstep _ _ _ _ Ha) as HR. destruct (IH _ _ _ _ Hrun) as (HR' & Hout & Hin).
    split; [by etrans|]. split.
    + intros i Hi. apply not_elem_of_cons in Hi as [Hne Hi]. by rewrite Hout, lookup_insert_ne.
    + intros i request' Hi Hreq. destruct (decide (i ∈ order)) as [Hio|Hio].
      * destruct (Hin _ _ Hio Hreq) as (q' & w2 & w3 & ? & ? & ? & ?). exists q', w2, w3.
        split_and!; try done. by etrans.
      * apply elem_of_cons in Hi as [->|Hi]; [|done]. exists q, w, w1.
        rewrite Hout, lookup_insert_eq by done. split_and!; try done. congruence.
  - intros Hrun. destruct (IH _ _ _ _ Hrun) as (HR' & Hout & Hin). split; [done|]. split.
    + intros i Hi. apply not_elem_of_cons in Hi as [_ Hi]. by apply Hout.
    + intros i request' Hi Hreq. apply elem_of_cons in Hi as [->|Hi]; [congruence|]. by apply Hin.
Qed.

Lemma collect_lookup n m i : (i < n)%nat → collect n m !! i = Some (default zero_processed (m !! i)).
Proof using Type. intros Hi. unfold collect. by rewrite list_lookup_fmap, lookup_seq_lt. Qed.

Lemma collect_length n m : length (collect n m) = n.
Proof using Type. unfold collect. by rewrite length_fmap, length_seq. Qed.

(** A request that is not lost in the schedule has an answer in its place. *)
Lemma run_collected (R : relation W) `{!PreOrder R} r ctx chainName snapshot failed requests order w out w' :
  (∀ request w q w', answer_request range_order sha256_hex fuel r ctx chainName snapshot failed request w
     = (q, w') → R w w') →
  order ≡ₚ seq 0 (length requests) →
  run_requests range_order sha256_hex fuel r ctx chainName snapshot failed requests order ∅ w = (out, w') →
  R w w' ∧ length (collect (length requests) out) = length requests ∧
  ∀ i request, requests !! i = Some request →
    ∃ q w1 w2, collect (length requests) out !! i = Some q ∧ R w w1 ∧ R w2 w' ∧
      answer_request range_order sha256_hex fuel r ctx chainName snapshot failed request w1 = (q, w2).
Proof using Type.
  intros Hstep Horder Hrun. destruct (run_requests_spec R _ _ _ _ _ _ Hstep _ _ _ _ _ Hrun) as (HR & _ & Hin).
  split; [done|]. split; [apply collect_length|]. intros i request Hi.
  pose proof (lookup_lt_Some _ _ _ Hi) as Hlt.
  destruct (Hin i request) as (q & w1 & w2 & Hq & ? & ? & ?); [|done|].
  - rewrite Horder. apply elem_of_seq. lia.
  - exists q, w1, w2. rewrite collect_lookup, Hq by done. done.
Qed.

Lemma fence_cases r ctx snapshot responses w out w' :
  fenceEVMResponses r ctx snapshot responses w = (out, w') →
  out = responses ∨ ∃ class, out = discard r class <$> responses.
Proof using Type.
  unfold fenceEVMResponses. destruct (negb (String.eqb _ _)); [intros [= <- _]; by left|].
  destruct (negb _); [intros [= <- _]; by left|]. destruct (store_Snapshot _ w) as [current w1].
  destruct (String.eqb _ _); intros [= <- _]; [by left|]. right. eauto.
Qed.

Lemma discard_id r class q id :
  res_ID (ps_response q) = idOrNull id → res_ID (ps_response (discard r class q)) = idOrNull id.
Proof using Type. unfold discard. destruct (ps_target q); [|done]. simpl. intros ->. apply idOrNull_idemp. Qed.

Variable schedule : nat → list nat.

(** Each request of an envelope has one answer in its place, with its id. *)
Lemma serve_envelope_ids r ctx chainName requests w out w' :
  schedule (length requests) ≡ₚ seq 0 (length requests) →
  serve_envelope range_order sha256_hex fuel schedule r ctx chainName requests w = (out, w') →
  Forall2 (λ request q, res_ID (ps_response q) = idOrNull (req_ID request)) requests out.
Proof using Type.
  intros Hsched. unfold serve_envelope. destruct (read_snapshot _ _ _ _) as [[sn failed] w1].
  destruct (run_requests _ _ _ _ _ _ _ _ _ _ _ _) as [rs w2] eqn:Hrun. intros Hf.
  assert (PreOrder (λ _ _ : W, True)) by done.
  destruct (run_collected (λ _ _, True) r ctx chainName sn failed requests _ _ _ _ (λ _ _ _ _ _, I) Hsched Hrun)
    as (_ & Hlen & Hat).
  assert (Forall2 (λ request q, res_ID (ps_response q) = idOrNull (req_ID request)) requests
            (collect (length requests) rs)) as Hids.
  { apply Forall2_same_length_lookup_2; [by rewrite Hlen|]. intros i request q Hi Hq.
    destruct (Hat _ _ Hi) as (q' & w3 & w4 & Hq' & _ & _ & Ha). rewrite Hq in Hq'. injection Hq' as <-.
    by eapply answer_request_id. }
  apply fence_cases in Hf as [->|[class ->]]; [done|]. apply Forall2_fmap_r.
  eapply Forall2_impl; [exact Hids|]. intros request q. apply discard_id.
Qed.

Lemma include_ids requests responses :
  Forall2 (λ request q, res_ID (ps_response q) = idOrNull (req_ID request)) requests responses →
  res_ID <$> (ps_response <$> include requests responses) =
    (λ request, idOrNull (req_ID request)) <$> filter (λ request, answered request = true) requests.
Proof using Type.
  unfold include. induction 1 as [|request q requests responses Hq _ IH]; [done|]. simpl.
  rewrite !filter_cons. simpl. destruct (decide _); simpl; [by f_equal|done].
Qed.
End proofs.

Lemma ParseEnvelope_single unmarshal_error body maxBatch requests :
  ParseEnvelope unmarshal_error body maxBatch = (requests, false, None) → ∃ request, requests = [request].
Proof.
  unfold ParseEnvelope. destruct (TrimSpace body); [done|]. destruct (is_char _ _).
  - repeat case_match; naive_solver.
  - repeat case_match; naive_solver.
Qed.

(** What the client reads: the ids of the requests that expect an answer, in order. *)
Definition expected_ids (requests : list Request) : list RawMessage :=
  (λ request, idOrNull (req_ID request)) <$> filter (λ request, answered request = true) requests.

Definition replies_to (requests : list Request) (batch : bool) (reply : HttpReply) : Prop :=
  match rp_Body reply with
  | NoBody => rp_Status reply = StatusNoContent ∧ expected_ids requests = []
  | PlainText _ => False
  | OneResponse q => rp_Status reply = StatusOK ∧ batch = false ∧ expected_ids requests = [res_ID q]
  | ManyResponses qs =>
      rp_Status reply = StatusOK ∧ batch = true ∧ qs ≠ [] ∧ expected_ids requests = res_ID <$> qs
  end.

Lemma write_responses_reply requests batch headers qs :
  res_ID <$> qs = expected_ids requests → (batch = false → ∃ request, requests = [request]) →
  replies_to requests batch (write_responses batch headers qs).
Proof.
  unfold replies_to, write_responses. intros Hids Hone. destruct qs as [|q qs]; simpl; [done|].
  destruct batch; simpl; [by rewrite <- Hids|]. split_and!; [done..|].
  destruct (Hone eq_refl) as [request ->]. revert Hids. unfold expected_ids.
  rewrite filter_cons, filter_nil. destruct (decide _); simpl; [|done]. by intros [= <- _].
Qed.

(** ** What happens to the world while an envelope is served *)

Section active.
  Context {W : Type} `{World W, Clients W, Runtimes W, SingleFlight W, Caches W}.
  Context (R : relation W) {act : Activity R}.
  Hypothesis act_cache : ∀ c w, R w (set_cache_service c w).
  Variable range_order : gmap string availabilityRecord → list string.
  Variable sha256_hex : string → string.
  Variable fuel : nat.
  Implicit Types (r : Runtime) (w : W).

Lemma load_response_active r snapshot p cacheable ctx w response e w' :
  load_response range_order fuel r snapshot p cacheable ctx w = (response, e, w') → R w w'.
Proof using Type*.
  unfold load_response. destruct (Get snapshot Latest) as [accepted b].
  destruct (route _ _ _ _ _ _ w) as [a w1] eqn:Hr. apply (route_active R) in Hr.
  match goal with |- context [default ?d a] => destruct (default d a) as [[payload up] [err|]] end; [by intros [= _ _ <-]|].
  destruct (_ && _ && _); [|by intros [= _ _ <-]]. unfold verify_inclusion.
  destruct (getEVMReceiptBlock _ _); [by intros [= _ _ <-]|].
  destruct (ContainsBlock _ _ _ w1) as [v w2] eqn:Hc. apply (ContainsBlock_active R act_cache) in Hc.
  intros [= _ _ <-]. by etrans.
Qed.

Lemma getResponse_active r ctx snapshot p w lookup e w' :
  getResponse range_order sha256_hex fuel r ctx snapshot p w = (lookup, e, w') → R w w'.
Proof using Type*.
  unfold getResponse. destruct (Get snapshot Latest) as [accepted b].
  destruct (_ && isCacheable _ _ _ _).
  - destruct (GetOrLoad _ _ w) as [[l err] w1] eqn:Hg. apply (GetOrLoad_active R act_cache) in Hg.
    + destruct err; [by intros [= _ _ <-]|]. destruct (cap_receipt _ _ l). by intros [= _ _ <-].
    + intros ctx0 w0 response e0 w2. apply load_response_active.
  - destruct (load_response _ _ _ _ _ _ _ w) as [[response err] w1] eqn:Hl.
    apply load_response_active in Hl. by intros [= _ _ <-].
Qed.

Lemma answer_request_active r ctx chainName snapshot failed request w q w' :
  answer_request range_order sha256_hex fuel r ctx chainName snapshot failed request w = (q, w') → R w w'.
Proof using Type*.
  unfold answer_request. destruct (failed && _); [by intros [= _ <-]|]. unfold process.
  destruct (Validate request); [by intros [= _ <-]|].
  destruct (transformRequest _ _ _ _ w) as [[e|p] w1] eqn:Ht; apply (transformRequest_active R) in Ht;
    [by intros [= _ <-]|].
  destruct (reorg_guard _ _ _); [by intros [= _ <-]|]. destruct (age_guard _ _ _); [by intros [= _ <-]|].
  destruct (negb _); [by intros [= _ <-]|].
  destruct (getResponse _ _ _ _ _ _ _ w1) as [[lookup [e|]] w2] eqn:Hg; apply getResponse_active in Hg;
    intros [= _ <-]; by etrans.
Qed.
End active.

(** A static request is answered from the configuration. *)
Lemma answer_static `{World W, Clients W, Runtimes W, SingleFlight W, Caches W} range_order sha256_hex fuel
    r ctx chainName snapshot failed request w q w' :
  isStaticMethod (req_Method request) (cfg_Family (rt_Config r)) = true →
  answer_request range_order sha256_hex fuel r ctx chainName snapshot failed request w = (q, w') →
  ps_target q = None.
Proof.
  intros Hs. unfold answer_request, process, transformRequest. rewrite Hs, andb_false_r.
  destruct (Validate request); [by intros [= <- _]|].
  destruct (prepareStaticRequest r request) as [e|p] eqn:Hp; [by intros [= <- _]|].
  assert (pq_target p = None) as Ht.
  { unfold prepareStaticRequest in Hp. destruct (ParseParams _); [done|]. simpl in Hp.
    destruct (negb _); [done|]. by injection Hp as <-. }
  destruct (reorg_guard _ _ _); [by intros [= <- _]|]. destruct (age_guard _ _ _); [by intros [= <- _]|].
  destruct (negb _); [by intros [= <- _]|].
  destruct (getResponse _ _ _ _ _ _ _ _) as [[lookup [e|]] w2]; by intros [= <- _].
Qed.

(** A response that has a target comes from [process], under a snapshot that was read. *)
Lemma answer_pinned `{World W, Clients W, Runtimes W, SingleFlight W, Caches W} range_order sha256_hex fuel
    r ctx chainName snapshot failed request w q w' :
  ps_target q ≠ None →
  answer_request range_order sha256_hex fuel r ctx chainName snapshot failed request w = (q, w') →
  failed = false ∧ isStaticMethod (req_Method request) (cfg_Family (rt_Config r)) = false ∧
  process range_order sha256_hex fuel r ctx snapshot request w = (q, w').
Proof.
  intros Ht Ha. destruct (isStaticMethod _ _) eqn:Hs.
  - exfalso. by apply Ht, (answer_static _ _ _ _ _ _ _ _ _ _ _ _ Hs Ha).
  - unfold answer_request in Ha. rewrite Hs, andb_true_r in Ha. destruct failed; [|done].
    by injection Ha as <- _.
Qed.

Lemma read_snapshot_Ok `{HeadStore W} chainName family requests (w : W) sn w1 i request :
  requests !! i = Some request → isStaticMethod (req_Method request) family = false →
  read_snapshot chainName family requests w = (sn, false, w1) →
  store_Snapshot chainName w = (Ok sn, w1).
Proof.
  intros Hi Hs. unfold read_snapshot. destruct (existsb _ _) eqn:Hneed.
  - destruct (store_Snapshot chainName w) as [[e|sn'] w2]; [done|]. by intros [= <- <-].
  - apply not_true_iff_false in Hneed. destruct Hneed. apply existsb_exists. exists request.
    rewrite Hs. split; [|done]. apply list_elem_of_In. by eapply list_elem_of_lookup_2.
Qed.

(** A target survives the fence only if the check passed. *)
Lemma fence_kept `{World W, HeadStore W} r ctx snapshot responses w out w' i q :
  cfg_Family (rt_Config r) = "evm" → fenceEVMResponses r ctx snapshot responses w = (out, w') →
  out !! i = Some q → ps_target q ≠ None →
  responses !! i = Some q ∧ ∃ current w1,
    store_Snapshot (cfg_Name (rt_Config r)) w = (current, w1) ∧
    failure_class r ctx snapshot current w1 = "".
Proof.
  intros Hf. unfold fenceEVMResponses. rewrite Hf. simpl.
  destruct (existsb _ responses) eqn:Hex; simpl.
  - destruct (store_Snapshot _ w) as [current w1].
    destruct (String.eqb_spec (failure_class r ctx snapshot current w1) ""); intros [= <- <-] Hq Ht; [eauto|].
    rewrite list_lookup_fmap in Hq. destruct (responses !! i) as [p|]; [|done]. injection Hq as <-.
    exfalso. apply Ht. unfold discard. by destruct (ps_target p) eqn:?.
  - intros [= <- _] Hq Ht. exfalso. apply not_true_iff_false in Hex. apply Hex, existsb_exists.
    exists q. split; [|by apply bool_decide_eq_true]. apply list_elem_of_In. by eapply list_elem_of_lookup_2.
Qed.

(** * Properties *)

(** C5: what the client of [ServeRPC] reads.  A body within the limit that parses
    as an envelope for a configured chain is answered with one response for each
    request that is not a valid notification, in the order of the requests and with
    their ids (null for an invalid one), however the goroutines are scheduled: an
    array exactly for a batch, and no content if nothing is to be answered.  An
    envelope for an unknown chain is answered in the same shape; a body that is
    too large, unreadable or not an envelope gets a single error with a null id. *)
Theorem reply_shape `{World W, Clients W, Runtimes W, SingleFlight W, Caches W, HeadStore W}
    range_order sha256_hex fuel unmarshal_error schedule config runtimes call chainName w reply w' :
  (∀ n, schedule n ≡ₚ seq 0 n) → in_Method call = "POST" →
  ServeRPC range_order sha256_hex fuel unmarshal_error schedule config runtimes call chainName w
    = (reply, w') →
  match in_Body call with
  | Some body =>
      if (len body <=? cfg_MaxBodyBytes config)%Z then
        match ParseEnvelope unmarshal_error body (cfg_MaxBatchSize config) with
        | (requests, batch, None) => replies_to requests batch reply
        | (_, _, Some e) => rp_Body reply = OneResponse (Failure "" e)
        end
      else ∃ e, rp_Body reply = OneResponse (Failure "" e)
  | None => ∃ e, rp_Body reply = OneResponse (Failure "" e)
  end.
Proof.
  intros Hsched Hm. unfold ServeRPC. rewrite Hm. simpl.
  destruct (in_Body call) as [body|]; [|intros [= <- _]; eauto].
  rewrite Z.ltb_antisym. destruct (len body <=? _)%Z; simpl; [|intros [= <- _]; eauto].
  destruct (ParseEnvelope _ _ _) as [[requests batch] [e|]] eqn:Hp; [by intros [= <- _]|].
  assert (batch = false → ∃ request, requests = [request]) as Hone.
  { intros ->. by eapply ParseEnvelope_single. }
  destruct (runtimes !! chainName) as [r|].
  - destruct (serve_envelope _ _ _ _ _ _ _ _ _) as [responses w1] eqn:Hs. intros [= <- _].
    apply write_responses_reply; [|done]. apply include_ids. eapply serve_envelope_ids; [apply Hsched|done].
  - intros [= <- _]. apply write_responses_reply; [|done]. unfold expected_ids.
    rewrite <- list_fmap_compose. apply list_fmap_ext. intros i request _. simpl. by destruct (Validate request).
Qed.

(** C1: no answer outlives the fork it was pinned under.  Serve an envelope of an
    EVM chain over a store that keeps its laws, while coordinators and other
    instances act on that store between any two steps.  Every response that leaves
    with the target it was pinned to was computed by [process] under the snapshot read
    first, and at no moment between that snapshot and the final check — in
    particular while the provider was asked — was the accepted head under recovery
    or of another reorg epoch than the head the answer was pinned under. *)
Theorem answers_within_epoch `{World W, Clients W, Runtimes W, SingleFlight W, Caches W, HeadStoreLaws W}
    `{!Activity (W := W) st_le} range_order sha256_hex fuel schedule r ctx requests w out w' :
  (∀ c (w : W), st_le w (set_cache_service c w)) → (∀ n, schedule n ≡ₚ seq 0 n) →
  cfg_Family (rt_Config r) = "evm" → st_wf w →
  serve_envelope range_order sha256_hex fuel schedule r ctx (cfg_Name (rt_Config r)) requests w = (out, w') →
  ∀ i request q, requests !! i = Some request → out !! i = Some q →
    ps_target q ≠ None →
    ∃ sn w1 w2 w3 wf,
      store_Snapshot (cfg_Name (rt_Config r)) w = (Ok sn, w1) ∧
      st_le w1 w2 ∧ st_le w3 wf ∧
      process range_order sha256_hex fuel r ctx sn request w2 = (q, w3) ∧
      ∀ h0 wx, sn_Heads sn !! Latest = Some h0 → Family h0 = "evm" → st_le w1 wx → st_le wx wf →
        ∃ h, st_latest wx (cfg_Name (rt_Config r)) = Some h ∧
          ReorgPending h = false ∧ ReorgEpoch h = ReorgEpoch h0.
Proof.
  intros Hcache Hsched Hfam Hwf Hserve i request q Hi Hq Ht. unfold serve_envelope in Hserve.
  destruct (read_snapshot _ _ _ w) as [[sn failed] w1] eqn:Hread.
  destruct (run_requests _ _ _ _ _ _ _ _ _ _ _ w1) as [rs wf] eqn:Hrun.
  destruct (fence_kept _ _ _ _ _ _ _ _ _ Hfam Hserve Hq Ht) as (Hq' & current & w4 & Hcur & Hpass).
  destruct (run_collected _ _ _ st_le r ctx _ _ _ requests _ _ _ _
    (λ rq v p v', answer_request_active st_le Hcache range_order sha256_hex fuel r ctx _ _ _ rq v p v')
    (Hsched _) Hrun) as (_ & _ & Hat).
  destruct (Hat _ _ Hi) as (p & w2 & w3 & Hp & Hle1 & Hle3 & Ha). rewrite Hq' in Hp. injection Hp as <-.
  destruct (answer_pinned _ _ _ _ _ _ _ _ _ _ _ _ Ht Ha) as (-> & Hstatic & Hproc).
  eapply read_snapshot_Ok in Hread; [|exact Hi|exact Hstatic].
  exists sn, w1, w2, w3, wf. split_and!; [done..|].
  intros h0 wx Hh0 Hevm. by eapply fence_passed.
Qed.

(** ** A concrete envelope *)

Definition gateway_world (m : MemoryStore) : Sim (ChainWorld (Service * MemoryStore)) :=
  mkSim 100 (λ _, Err ErrCanceled)
    (mkChainWorld ∅ ∅ (NewService (mkCacheConfig true 0 0 0 0) 5000, m)).

(** Providers, caches and timers of the scripted world leave the store alone. *)
#[export] Instance sim_store_activity : Activity (W := Sim (ChainWorld (Service * MemoryStore))) st_le.
Proof.
  split.
  - apply st_le_preorder.
  - intros req ctx w r w' [= _ <-]. done.
  - intros k ctx w r w' [= _ <-]. done.
  - intros k w. done.
  - intros k s w. simpl. done.
  - intros k s w. simpl. done.
  - intros A group key f w r shared w' Hf. simpl. destruct (f w) as [r1 w1] eqn:H1.
    intros [= _ _ <-]. by eapply Hf.
  - intros d ctx w r w'. simpl. destruct (match ctx_deadline ctx with Some _ => _ | None => _ end);
      intros [= _ <-]; done.
Qed.

Definition demo_call : HttpCall :=
  mkHttpCall "POST"
    (Some (js "[{'jsonrpc':'2.0','id':1,'method':'eth_blockNumber'},{'jsonrpc':'2.0','method':'eth_chainId'},7]"))
    Background.

Definition demo_server : ServerConfig := mkServerConfig 5000 1000 10.

Definition demo_serve : HttpReply * Sim (ChainWorld (Service * MemoryStore)) :=
  ServeRPC demo_order (λ s, s) 1 (λ _, "") (λ n, rev (seq 0 n)) demo_server {[ "eth" := fence_runtime ]}
    demo_call "eth" (gateway_world demo_store).

Lemma reply_shape_witness :
  rp_Body demo_serve.1 =
    ManyResponses [Success "1" (js "'0x64'"); Failure "" (InvalidRequest "jsonrpc must be 2.0 and method must be a string")] ∧
  ∃ requests, replies_to requests true demo_serve.1 ∧ length requests = 3%nat.
Proof.
  split; [vm_compute; reflexivity|].
  pose proof (reply_shape demo_order (λ s, s) 1 (λ _, "") (λ n, rev (seq 0 n)) demo_server
    {[ "eth" := fence_runtime ]} demo_call "eth" (gateway_world demo_store) demo_serve.1 demo_serve.2) as Hr.
  eexists. split.
  - apply Hr; [|reflexivity|apply surjective_pairing]. intros n. symmetry. apply Permutation_rev.
  - reflexivity.
Defined.

Definition demo_number : Request := mkRequest "2.0" "1" "eth_blockNumber" "".

Definition demo_envelope : list processedResponse * Sim (ChainWorld (Service * MemoryStore)) :=
  serve_envelope demo_order (λ s, s) 1 (seq 0) fence_runtime Background "eth" [demo_number]
    (gateway_world demo_store).

Definition demo_latest : Head := with_Generation 2 (with_ChangedAt 10 MemoryStore.demo_head).

Lemma answers_within_epoch_witness :
  demo_envelope.1 =
    [mkProcessed (Success "1" (js "'0x64'")) "proxy" (Some demo_latest) "local" false false false] ∧
  ∃ sn (w2 w3 : Sim (ChainWorld (Service * MemoryStore))), sn_Heads sn !! Latest = Some demo_latest ∧
    process demo_order (λ s, s) 1 fence_runtime Background sn demo_number w2 =
      (mkProcessed (Success "1" (js "'0x64'")) "proxy" (Some demo_latest) "local" false false false, w3).
Proof.
  assert (demo_envelope.1 = [mkProcessed (Success "1" (js "'0x64'")) "proxy" (Some demo_latest) "local"
            false false false]) as He by (vm_compute; reflexivity).
  split; [exact He|].
  destruct (answers_within_epoch demo_order (λ s, s) 1 (seq 0) fence_runtime Background [demo_number]
    (gateway_world demo_store) demo_envelope.1 demo_envelope.2) with (i := 0%nat)
    (request := demo_number)
    (q := mkProcessed (Success "1" (js "'0x64'")) "proxy" (Some demo_latest) "local" false false false)
    as (sn & w1 & w2 & w3 & wf & Hs & _ & _ & Hp & _).
  - intros c w. simpl. done.
  - intros n. reflexivity.
  - reflexivity.
  - apply (store_run_wf _ _ _ demo_store_run), NewMemoryStore_wf.
  - apply surjective_pairing.
  - reflexivity.
  - rewrite He. reflexivity.
  - discriminate.
  - exists sn, w2, w3. split; [|exact Hp]. apply (f_equal fst) in Hs. injection Hs as <-. vm_compute. reflexivity.
Defined.
