(* ===== verification/Subscriptions.v ===== *)
(** * Head subscriptions — internal/gateway/websocket.go

    A WebSocket session follows the stream of accepted heads of an EVM chain.  The
    stream holds the heads a coordinator chose to publish, which may skip heights
    and change branches; the session fills the gaps through parent links before it
    notifies its subscribers, suppresses repeated hashes, and closes rather than
    deliver across a gap it cannot fill. *)

From S2P Require Import Prelude GoStrings GoJson JsonRpc Head MemoryStore World Upstream Chain.
From S2P Require Import Coordinator.
From Stdlib Require Import Ascii.

(** ** Filling gaps *)

Section expand.
  Context {W : Type} `{World W, Clients W, Runtimes W}.

(* go: gateway/websocket.go:306-315 wsSession.fetchBlock *)
Definition fetchBlock (r : Runtime) (ctx : Context) (hashValue preferredID : string) (w : W)
    : result goerror Head * W :=
  let ctx := WithTimeout ctx (2 * second) w in
  let* (block, w) := EVMBlockByHash r ctx (mkByHash hashValue Latest preferredID) w in
  match block with
  | Err e => (Err (Errorf ("block " +:+ hashValue +:+ " unavailable: ") e ""), w)
  | Ok block => (Ok block, w)
  end.

(** The loop, with the iterations left; the path is built from the new head down. *)
Fixpoint expand_loop (r : Runtime) (ctx : Context) (last : Head) (history : gmap string Head)
    (depth : nat) (path : list Head) (cursor : Head) (w : W) : result goerror (list Head) * W :=
  match depth with
  | O => (Err (ErrNew "common ancestor not found"), w)
  | S depth =>
      if EqualFold (ParentHash cursor) (Hash last) then
        if negb (one_above (Number cursor) (Number last))
        then (Err (ErrNew "invalid header height linkage"), w)
        else (Ok (reverse path), w)
      else match history !! ParentHash cursor with
      | Some ancestor =>
          if negb (one_above (Number cursor) (Number ancestor))
          then (Err (ErrNew "invalid ancestor height linkage"), w)
          else (Ok (reverse path), w)
      | None =>
          let* (parent, w) := fetchBlock r ctx (ParentHash cursor) (Origin cursor) w in
          match parent with
          | Err e => (Err e, w)
          | Ok parent =>
              if negb (one_above (Number cursor) (Number parent))
              then (Err (ErrNew "invalid backfill parent height"), w)
              else expand_loop r ctx last history depth (path ++ [parent]) parent w
          end
      end
  end.

(* go: gateway/websocket.go:261-304 wsSession.expandPath *)
Definition expandPath (r : Runtime) (ctx : Context) (last next : Head) (history : gmap string Head)
    (w : W) : result goerror (list Head) * W :=
  if IsZero last then (Ok [next], w)
  else if String.eqb (Hash next) (Hash last) then (Ok [], w)
  else if (Number next =? Number last)%Z && EqualFold (ParentHash next) (ParentHash last)
  then (Ok [next], w)
  else if one_above (Number next) (Number last) && EqualFold (ParentHash next) (Hash last)
  then (Ok [next], w)
  else expand_loop r ctx last history (Z.to_nat (cfg_ReorgDepth (rt_Config r))) [next] next w.
End expand.

(** ** Delivering *)

(** The locals of [eventLoop], and the heads it has followed and notified. *)
Record delivery := mkDelivery {
  dl_cursor : string;
  dl_last : Head;
  dl_seen : gset string;
  dl_history : gmap string Head;
  dl_order : list string;
  dl_followed : list Head;
  dl_sent : list Head
}.

(* go: gateway/websocket.go:199-208 wsSession.eventLoop *)
Definition start_delivery (checkpoint : Event) : delivery :=
  let last := ev_Head checkpoint in
  if IsZero last then mkDelivery (ev_ID checkpoint) last ∅ ∅ [] [] []
  else mkDelivery (ev_ID checkpoint) last ∅ {[ Hash last := last ]} [Hash last] [] [].

Definition with_cursor (c : string) (st : delivery) : delivery :=
  mkDelivery c (dl_last st) (dl_seen st) (dl_history st) (dl_order st) (dl_followed st) (dl_sent st).

Definition history_limit (r : Runtime) : Z := Z.max 16 (cfg_ReorgDepth (rt_Config r) * 2).

Definition max_seen : Z := 65536.

(** Heads fall out of the window oldest first. *)
Definition trim (limit : Z) (history : gmap string Head) (order : list string)
    : gmap string Head * list string :=
  if (limit <? Z.of_nat (length order))%Z then
    match order with
    | [] => (history, order)
    | oldest :: rest => (delete oldest history, rest)
    end
  else (history, order).

(** One head of a path; the reason if the session closes. *)
(* go: gateway/websocket.go:236-256 wsSession.eventLoop *)
Definition deliver (limit : Z) (acceptedHead : Head) (st : delivery) : delivery * option string :=
  let followed := dl_followed st ++ [acceptedHead] in
  let hash := Hash acceptedHead in
  if bool_decide (hash ∈ dl_seen st) then
    (mkDelivery (dl_cursor st) acceptedHead (dl_seen st) (dl_history st) (dl_order st) followed
       (dl_sent st), None)
  else if (max_seen <=? Z.of_nat (size (dl_seen st)))%Z then
    (st, Some "subscription deduplication window exhausted; reconnect")
  else
    let order := if bool_decide (is_Some (dl_history st !! hash)) then dl_order st
                 else dl_order st ++ [hash] in
    let* (history, order) := trim limit (<[hash := acceptedHead]> (dl_history st)) order in
    (mkDelivery (dl_cursor st) acceptedHead ({[ hash ]} ∪ dl_seen st) history order followed
       (dl_sent st ++ [acceptedHead]), None).

Fixpoint deliver_path (limit : Z) (path : list Head) (st : delivery) : delivery * option string :=
  match path with
  | [] => (st, None)
  | acceptedHead :: rest =>
      let* (st, closed) := deliver limit acceptedHead st in
      match closed with
      | Some reason => (st, Some reason)
      | None => deliver_path limit rest st
      end
  end.

(** Reading the stream after a cursor: waits at most [block], returns at most [count]. *)
Class HeadStream (W : Type) := {
  stream_ReadEvents : Context → string → string → Z → Z → W → result store_error (list Event) * W
}.

Section loop.
  Context {W : Type} `{World W, Clients W, Runtimes W, HeadStore W, HeadStream W}.

(* go: gateway/websocket.go:225-257 wsSession.eventLoop *)
Definition follow_event (r : Runtime) (ctx : Context) (event : Event) (st : delivery) (w : W)
    : delivery * option string * W :=
  let st := with_cursor (ev_ID event) st in
  let* (path, w) := expandPath r ctx (dl_last st) (ev_Head event) (dl_history st) w in
  match path with
  | Err _ => (st, Some "head history gap exceeds recovery window", w)
  | Ok path => let* (st, closed) := deliver_path (history_limit r) path st in (st, closed, w)
  end.

Fixpoint follow_events (r : Runtime) (ctx : Context) (events : list Event) (st : delivery) (w : W)
    : delivery * option string * W :=
  match events with
  | [] => (st, None, w)
  | event :: rest =>
      let* (st, closed, w) := follow_event r ctx event st w in
      match closed with
      | Some reason => (st, Some reason, w)
      | None => follow_events r ctx rest st w
      end
  end.

(** The heads of a round go out only under an accepted head that is fresh and not
    under recovery. *)
Definition stale_stream (r : Runtime) (snapshot : result store_error Snapshot) (w : W) : bool :=
  match snapshot with
  | Err _ => true
  | Ok snapshot =>
      let* (accepted, ok) := Get snapshot Latest in
      let maxAge := cfg_MaxHeadAge (rt_Config r) in
      ReorgPending accepted
      || (0 <? maxAge)%Z && (negb ok || (maxAge <? now w - ObservedAt accepted)%Z)
  end.

(** The next events, or why the session closes. *)
(* go: gateway/websocket.go:209-224 wsSession.eventLoop *)
Definition read_batch (r : Runtime) (ctx : Context) (cursor : string) (w : W)
    : result string (list Event) * W :=
  let chain := cfg_Name (rt_Config r) in
  let* (events, w) := stream_ReadEvents ctx chain cursor (2 * second) 64 w in
  match events with
  | Err _ => (Err "head stream read failed", w)
  | Ok events =>
      let* (snapshot, w) := store_Snapshot chain w in
      (if stale_stream r snapshot w then Err "accepted head is stale, unavailable, or reorg pending"
       else Ok events, w)
  end.

Definition event_round (r : Runtime) (ctx : Context) (st : delivery) (w : W)
    : delivery * option string * W :=
  let* (events, w) := read_batch r ctx (dl_cursor st) w in
  match events with
  | Err reason => (st, Some reason, w)
  | Ok events => follow_events r ctx events st w
  end.

(** [rounds] rounds of the loop; [None] while the session is open. *)
(* go: gateway/websocket.go:199-259 wsSession.eventLoop *)
Fixpoint eventLoop (rounds : nat) (r : Runtime) (ctx : Context) (st : delivery) (w : W)
    : delivery * option string * W :=
  match rounds with
  | O => (st, None, w)
  | S rounds =>
      match ctx_Err ctx w with
      | Some _ => (st, Some "", w)
      | None =>
          let* (st, closed, w) := event_round r ctx st w in
          match closed with
          | Some reason => (st, Some reason, w)
          | None => eventLoop rounds r ctx st w
          end
      end
  end.
End loop.

(** ** Lemmas on paths *)

(** [h] is the next block of [a]'s chain. *)
Definition child (h a : Head) : Prop :=
  EqualFold (ParentHash h) (Hash a) = true ∧ Number h = (Number a + 1)%Z.

(** [h] competes with [a] for one place. *)
Definition sibling (h a : Head) : Prop :=
  Number h = Number a ∧ EqualFold (ParentHash h) (ParentHash a) = true.

(** Each head of the list is a child of the one before it. *)
Fixpoint chained (l : list Head) : Prop :=
  match l with
  | a :: ((b :: _) as rest) => child b a ∧ chained rest
  | _ => True
  end.

Definition history_wf (history : gmap string Head) : Prop :=
  ∀ k a, history !! k = Some a → Hash a = k ∧ u64_wf (Number a).

(** Where a path may start: at the beginning of a stream, beside or above the last
    head followed, or above one still in the window. *)
Definition attaches (last : Head) (history : gmap string Head) (h : Head) : Prop :=
  IsZero last = true ∨ child h last ∨ sibling h last ∨
  ∃ a, history !! ParentHash h = Some a ∧ child h a.

Section paths.
  Context {W : Type} `{World W, Clients W, Runtimes W}.

Lemma fetchBlock_Ok r ctx hash id w h w' :
  fetchBlock r ctx hash id w = (Ok h, w') →
  EqualFold (Hash h) hash = true ∧ parsed_head r h.
Proof using Type.
  unfold fetchBlock. destruct (EVMBlockByHash r _ _ w) as [[e|b] w1] eqn:Hb; [done|].
  intros [= <- _]. apply EVMBlockByHash_Ok in Hb as (Hp & Hh & _). done.
Qed.

(** The path so far, [rest] above the cursor; reversed it is a chain of parsed heads. *)
Lemma expand_loop_Ok r ctx last history depth : ∀ path cursor w out w' next,
  u64_wf (Number last) → history_wf history → u64_wf (Number cursor) →
  list.last path = Some cursor → head path = Some next → chained (reverse path) →
  expand_loop r ctx last history depth path cursor w = (Ok out, w') →
  chained out ∧ list.last out = Some next ∧ (length out ≤ length path + (depth - 1))%nat ∧
  ∃ h, head out = Some h ∧ attaches last history h ∧
       (∀ x, x ∈ out → x ∈ path ∨ parsed_head r x).
Proof using Type.
  induction depth as [|depth IH]; intros path cursor w out w' next Hl Hh Hc Hlast Hnext Hch;
    cbn [expand_loop]; [done|].
  assert (head (reverse path) = Some cursor) as Hhead by (by rewrite head_reverse).
  assert (reverse path = out → attaches last history cursor →
    chained out ∧ list.last out = Some next ∧ (length out ≤ length path + (S depth - 1))%nat ∧
    ∃ h, head out = Some h ∧ attaches last history h ∧ (∀ x, x ∈ out → x ∈ path ∨ parsed_head r x)) as Hdone.
  { intros <- Ha. split; [done|]. split; [by rewrite last_reverse|].
    rewrite length_reverse. split; [lia|]. exists cursor. split; [done|]. split; [done|].
    intros x. rewrite elem_of_reverse. by left. }
  destruct (EqualFold (ParentHash cursor) (Hash last)) eqn:Hp.
  { destruct (one_above (Number cursor) (Number last)) eqn:Ho; simpl; [|done]. intros [= Hout _].
    apply (Hdone Hout). right; left. split; [done|]. by apply one_above_spec in Ho. }
  destruct (history !! ParentHash cursor) as [a|] eqn:Ha.
  { destruct (Hh _ _ Ha) as [Hka Hna].
    destruct (one_above (Number cursor) (Number a)) eqn:Ho; simpl; [|done]. intros [= Hout _].
    apply (Hdone Hout). right; right; right. exists a. split; [done|].
    split; [rewrite Hka; apply EqualFold_refl|by apply one_above_spec in Ho]. }
  destruct (fetchBlock r ctx _ _ w) as [[e|parent] w1] eqn:Hf; [done|].
  apply fetchBlock_Ok in Hf as [Heq Hparsed].
  destruct (one_above (Number cursor) (Number parent)) eqn:Ho; simpl; [|done]. intros Hout.
  assert (child cursor parent) as Hchild.
  { split; [by rewrite EqualFold_sym|]. apply one_above_spec in Ho; [done|done|]. by apply ph_number in Hparsed. }
  edestruct (IH (path ++ [parent]) parent w1 out w' next) as (? & ? & Hlen & h & Hhd & Hat & Hin);
    [done|done|by apply ph_number in Hparsed|by rewrite last_snoc|by destruct path| |exact Hout|].
  { rewrite reverse_snoc. destruct (reverse path) as [|x l]; [done|]. injection Hhead as ->. done. }
  rewrite length_app in Hlen. simpl in Hlen. destruct depth as [|depth].
  { simpl in Hout. done. }
  split; [done|]. split; [done|]. split; [lia|]. exists h. split; [done|]. split; [done|].
  intros x Hx. apply Hin in Hx as [Hx|Hx]; [|by right]. apply elem_of_app in Hx as [Hx|Hx]; [by left|].
  apply list_elem_of_singleton in Hx as ->. by right.
Qed.

Lemma expandPath_Ok r ctx last next history w path w' :
  u64_wf (Number last) → u64_wf (Number next) → history_wf history →
  expandPath r ctx last next history w = (Ok path, w') →
  (path = [] ∧ Hash next = Hash last) ∨
  (chained path ∧ list.last path = Some next ∧
   (Z.of_nat (length path) ≤ Z.max 1 (cfg_ReorgDepth (rt_Config r)))%Z ∧
   (∃ h, head path = Some h ∧ attaches last history h) ∧
   ∀ x, x ∈ path → x = next ∨ parsed_head r x).
Proof using Type.
  intros Hl Hn Hh. unfold expandPath.
  assert ([next] = path → attaches last history next →
    (path = [] ∧ Hash next = Hash last) ∨
    (chained path ∧ list.last path = Some next ∧
     (Z.of_nat (length path) ≤ Z.max 1 (cfg_ReorgDepth (rt_Config r)))%Z ∧
     (∃ h, head path = Some h ∧ attaches last history h) ∧ ∀ x, x ∈ path → x = next ∨ parsed_head r x)) as Hone.
  { intros <- Ha. right. split; [done|]. split; [done|]. split; [simpl; lia|]. split; [eauto|].
    intros x ->%list_elem_of_singleton. by left. }
  destruct (IsZero last) eqn:Hz; [intros [= Hp _]; apply (Hone Hp); by left|].
  destruct (String.eqb_spec (Hash next) (Hash last)); [intros [= <- _]; by left|].
  destruct ((_ =? _)%Z && _) eqn:Hs.
  { bool_to_prop. intros [= Hp _]. apply (Hone Hp). right; right; left. by split. }
  destruct (one_above _ _ && _) eqn:Ho.
  { bool_to_prop. intros [= Hp _]. apply (Hone Hp). right; left. split; [done|]. by apply one_above_spec. }
  intros Hp. right. eapply expand_loop_Ok in Hp as (Hc & Hlast & Hlen & h & Hhd & Ha & Hin);
    [|done|done|done|done|done|done].
  split; [done|]. split; [done|]. split; [simpl in Hlen; lia|]. split; [eauto|].
  intros x Hx. apply Hin in Hx as [Hx|Hx]; [|by right]. apply list_elem_of_singleton in Hx. by left.
Qed.
End paths.

(** ** What a session has followed *)

(** The heads a session may attach to: the checkpoint, if there is one, and the
    heads it has followed. *)
Definition known (checkpoint : Head) (followed : list Head) : list Head :=
  (if IsZero checkpoint then [] else [checkpoint]) ++ followed.

Definition attached (checkpoint : Head) (earlier : list Head) (h : Head) : Prop :=
  known checkpoint earlier = [] ∨ ∃ a, a ∈ known checkpoint earlier ∧ (child h a ∨ sibling h a).

Record delivery_inv (limit : Z) (c : Head) (st : delivery) : Prop := {
  di_last : dl_last st = default c (last (dl_followed st));
  di_seen : dl_seen st = list_to_set (Hash <$> dl_sent st);
  di_unique : NoDup (Hash <$> dl_sent st);
  di_sent : dl_sent st `sublist_of` dl_followed st;
  di_complete h : h ∈ dl_followed st → Hash h ∈ Hash <$> dl_sent st;
  di_wf : Forall head_wf (dl_followed st);
  di_history : history_wf (dl_history st);
  di_known k a : dl_history st !! k = Some a → a ∈ known c (dl_followed st);
  di_order : dom (dl_history st) ⊆@{gset string} list_to_set (dl_order st);
  di_window : (Z.of_nat (length (dl_order st)) ≤ limit)%Z;
  di_bound : (Z.of_nat (size (dl_seen st)) ≤ max_seen)%Z;
  di_attached i h : dl_followed st !! i = Some h → attached c (take i (dl_followed st)) h
}.

Lemma known_app c l l' x : x ∈ known c l → x ∈ known c (l ++ l').
Proof. unfold known. rewrite !elem_of_app. tauto. Qed.

Lemma attached_snoc c l h i x :
  attached c l h → (∀ i x, l !! i = Some x → attached c (take i l) x) →
  (l ++ [h]) !! i = Some x → attached c (take i (l ++ [h])) x.
Proof.
  intros Hh Hl Hi. apply lookup_app_Some in Hi as [Hi|[Hge Hi]].
  - rewrite take_app_le; [by apply Hl|]. apply lookup_lt_Some in Hi. lia.
  - apply list_lookup_singleton_Some in Hi as [Hi <-]. rewrite take_app_length'; [done|lia].
Qed.

Lemma trim_spec limit history order history' order' :
  trim limit history order = (history', order') →
  (Z.of_nat (length order) ≤ limit + 1)%Z → dom history ⊆@{gset string} list_to_set order →
  history' ⊆ history ∧ dom history' ⊆@{gset string} list_to_set order' ∧
  (0 ≤ limit → Z.of_nat (length order') ≤ limit)%Z.
Proof.
  unfold trim. intros Ht Hlen Hdom. destruct (Z.ltb_spec limit (Z.of_nat (length order))).
  - destruct order as [|oldest rest]; injection Ht as <- <-; [by split_and!; [|exact Hdom|simpl in *; lia]|].
    split; [apply delete_subseteq|]. split; [|simpl in *; lia].
    rewrite dom_delete_L. intros x Hx. apply elem_of_difference in Hx as [Hx Hne].
    apply Hdom in Hx. rewrite elem_of_list_to_set in Hx |- *. rewrite not_elem_of_singleton in Hne.
    apply elem_of_cons in Hx as [->|Hx]; done.
  - injection Ht as <- <-. by split_and!; [|exact Hdom|lia].
Qed.

Lemma deliver_inv limit c h st st' closed :
  (16 ≤ limit)%Z → delivery_inv limit c st → head_wf h → attached c (dl_followed st) h →
  deliver limit h st = (st', closed) →
  delivery_inv limit c st' ∧ (closed = None → dl_followed st' = dl_followed st ++ [h]).
Proof.
  intros Hlimit [Hla Hse Hun Hsent Hco Hwf Hhi Hkn Hor Hwi Hbo Hat] Hh Ha. unfold deliver.
  assert (Forall head_wf (dl_followed st ++ [h])) as Hwf'.
  { apply Forall_app. split; [done|by constructor]. }
  assert (∀ i x, (dl_followed st ++ [h]) !! i = Some x → attached c (take i (dl_followed st ++ [h])) x) as Hat'.
  { intros i x. by apply attached_snoc. }
  destruct (bool_decide _) eqn:Hs.
  { apply bool_decide_eq_true in Hs. intros [= <- <-]. split; [|done]. split; simpl; try done.
    - by rewrite last_snoc.
    - by apply sublist_inserts_r.
    - intros x Hx. apply elem_of_app in Hx as [Hx|Hx]; [by apply Hco|].
      apply list_elem_of_singleton in Hx as ->. by rewrite Hse, elem_of_list_to_set in Hs.
    - intros k a Hk. eapply known_app, Hkn, Hk. }
  apply bool_decide_eq_false in Hs.
  destruct (Z.leb_spec max_seen (Z.of_nat (size (dl_seen st)))); [by intros [= <- <-]|].
  destruct (trim _ _ _) as [history order] eqn:Ht. intros [= <- <-]. split; [|done].
  apply trim_spec in Ht as (Hsub & Hdom & Hlen).
  - split; simpl; try done.
    + by rewrite last_snoc.
    + rewrite fmap_app, list_to_set_app_L, <- Hse. simpl. rewrite union_empty_r_L. apply union_comm_L.
    + rewrite fmap_app. apply NoDup_app. split; [done|]. split; [|by apply NoDup_singleton].
      intros x Hx ->%list_elem_of_singleton. apply Hs. by rewrite Hse, elem_of_list_to_set.
    + by apply sublist_app.
    + intros x. rewrite fmap_app, !elem_of_app, !list_elem_of_singleton.
      intros [Hx| ->]; [left; by apply Hco|right; by apply list_elem_of_singleton].
    + intros k a Hk. eapply lookup_weaken in Hk; [|exact Hsub].
      apply lookup_insert_Some in Hk as [[<- <-]|[_ Hk]]; [by destruct Hh|by apply Hhi].
    + intros k a Hk. eapply lookup_weaken in Hk; [|exact Hsub].
      apply lookup_insert_Some in Hk as [[_ <-]|[_ Hk]]; [|by eapply known_app, Hkn].
      unfold known. rewrite !elem_of_app, list_elem_of_singleton. tauto.
    + apply Hlen. lia.
    + rewrite size_union by (by apply disjoint_singleton_l). rewrite size_singleton. lia.
  - destruct (bool_decide _); [lia|]. rewrite length_app. simpl. lia.
  - rewrite dom_insert_L. intros x Hx. apply elem_of_union in Hx as [->%elem_of_singleton|Hx].
    + destruct (bool_decide _) eqn:Hb.
      * apply bool_decide_eq_true in Hb. by apply Hor, elem_of_dom.
      * rewrite elem_of_list_to_set, elem_of_app, list_elem_of_singleton. by right.
    + apply Hor in Hx. rewrite elem_of_list_to_set in Hx. destruct (bool_decide _);
        rewrite elem_of_list_to_set; [done|]. rewrite elem_of_app. by left.
Qed.

(** A chained path that attaches is followed to its end or to where the session closes. *)
Lemma deliver_path_inv limit c path : ∀ st st' closed,
  (16 ≤ limit)%Z → delivery_inv limit c st → Forall head_wf path → chained path →
  (∀ h, head path = Some h → attached c (dl_followed st) h) →
  deliver_path limit path st = (st', closed) →
  delivery_inv limit c st' ∧ (closed = None → dl_followed st' = dl_followed st ++ path).
Proof.
  induction path as [|h path IH]; intros st st' closed Hlimit Hi Hwf Hc Ha; simpl.
  { intros [= <- <-]. split; [done|]. by rewrite app_nil_r. }
  apply Forall_cons in Hwf as [Hh Hwf].
  destruct (deliver limit h st) as [st1 [reason|]] eqn:Hd;
    destruct (deliver_inv _ _ _ _ _ _ Hlimit Hi Hh (Ha h eq_refl) Hd) as [Hi1 Hf]; [by intros [= <- <-]|].
  specialize (Hf eq_refl). intros Hrest.
  destruct (IH st1 st' closed Hlimit Hi1 Hwf) as [Hi' Hf']; [| |exact Hrest|].
  - destruct path; [done|]. by destruct Hc.
  - intros x Hx. right. exists h. split.
    + unfold known. rewrite Hf, !elem_of_app, list_elem_of_singleton. tauto.
    + left. destruct path as [|y path]; [done|]. injection Hx as ->. by destruct Hc.
  - split; [done|]. intros ->. rewrite Hf' by done. rewrite Hf, <- app_assoc. done.
Qed.

Lemma last_known limit c st :
  delivery_inv limit c st → dl_last st ∈ known c (dl_followed st) ∨ IsZero (dl_last st) = true.
Proof.
  intros Hi. rewrite (di_last _ _ _ Hi). unfold known. destruct (last (dl_followed st)) as [x|] eqn:Hx; simpl.
  - left. rewrite elem_of_app. right. by apply last_Some_elem_of.
  - destruct (IsZero c); [by right|left]. by left.
Qed.

Lemma zero_last limit c st :
  delivery_inv limit c st → IsZero (dl_last st) = true → known c (dl_followed st) = [].
Proof.
  intros Hi Hz. rewrite (di_last _ _ _ Hi) in Hz. destruct (last (dl_followed st)) as [x|] eqn:Hx; simpl in *.
  - apply last_Some_elem_of in Hx. pose proof (di_wf _ _ _ Hi) as Hwf. rewrite Forall_forall in Hwf.
    destruct (Hwf _ Hx) as [_ Hne]. unfold IsZero in Hz. bool_to_prop. done.
  - apply last_None in Hx. unfold known. by rewrite Hz, Hx.
Qed.

Lemma attaches_attached limit c st h :
  delivery_inv limit c st → attaches (dl_last st) (dl_history st) h → attached c (dl_followed st) h.
Proof.
  intros Hi Ha.
  assert (IsZero (dl_last st) = true → attached c (dl_followed st) h) as Hzero by (intros; left; by eapply zero_last).
  destruct Ha as [Hz|Ha]; [auto|].
  destruct (last_known _ _ _ Hi) as [Hin|Hz].
  - right. destruct Ha as [Hc|[Hs|(a & Hk & Hc)]]; [exists (dl_last st); auto..|].
    exists a. split; [|by left]. by eapply di_known.
  - auto.
Qed.

Lemma with_cursor_inv limit c cursor st : delivery_inv limit c st → delivery_inv limit c (with_cursor cursor st).
Proof. by intros []. Qed.

Lemma start_delivery_inv limit checkpoint :
  (16 ≤ limit)%Z → (IsZero (ev_Head checkpoint) = false → u64_wf (Number (ev_Head checkpoint))) →
  delivery_inv limit (ev_Head checkpoint) (start_delivery checkpoint).
Proof.
  intros Hlimit Hwf. unfold start_delivery. destruct (IsZero (ev_Head checkpoint)) eqn:Hz.
  - split; simpl; try done; try lia; try (by constructor); intros h Hh; by apply elem_of_nil in Hh.
  - split; simpl; try done; try lia; try (by constructor).
    + intros h Hh. by apply elem_of_nil in Hh.
    + intros k a [<- <-]%lookup_singleton_Some. auto.
    + intros k a [<- <-]%lookup_singleton_Some. unfold known. rewrite Hz. by left.
    + rewrite dom_singleton_L, union_empty_r_L. done.
Qed.

Section following.
  Context {W : Type} `{World W, Clients W, Runtimes W, HeadStore W, HeadStream W}.
  Variable (r : Runtime) (ctx : Context).

Definition event_wf (e : Event) : Prop := head_wf (ev_Head e).

(** The head of the event, or one of its hash, has been followed. *)
Definition covered (c : Head) (st : delivery) (e : Event) : Prop :=
  Hash (ev_Head e) ∈ Hash <$> known c (dl_followed st).

Lemma history_limit_ge : (16 ≤ history_limit r)%Z.
Proof using Type. unfold history_limit. lia. Qed.

Lemma parsed_head_wf h : parsed_head r h → head_wf h.
Proof using Type.
  intros Hp. split; [by apply ph_number in Hp|]. intros He. apply ph_hash in Hp. by rewrite He in Hp.
Qed.

(** A path that may be delivered: linked, and attached to what was followed. *)
Definition path_wf (c : Head) (st : delivery) (path : list Head) : Prop :=
  Forall head_wf path ∧ chained path ∧ ∀ h, head path = Some h → attached c (dl_followed st) h.

Lemma expandPath_attached c st e w path w' :
  (IsZero c = false → u64_wf (Number c)) → (IsZero c = true → Number c = 0%Z) →
  event_wf e → delivery_inv (history_limit r) c st →
  expandPath r ctx (dl_last st) (ev_Head e) (dl_history st) w = (Ok path, w') →
  path_wf c st path ∧
  (path = [] ∧ Hash (ev_Head e) = Hash (dl_last st) ∨ list.last path = Some (ev_Head e)).
Proof using Type.
  intros Hc Hc0 He Hi Hp.
  assert (u64_wf (Number (dl_last st))) as Hl.
  { rewrite (di_last _ _ _ Hi). destruct (last (dl_followed st)) as [x|] eqn:Hx; simpl.
    - apply last_Some_elem_of in Hx. pose proof (di_wf _ _ _ Hi) as Hwf. rewrite Forall_forall in Hwf.
      by destruct (Hwf _ Hx).
    - destruct (IsZero c); [|auto]. rewrite Hc0 by done. done. }
  apply expandPath_Ok in Hp as [[-> Hh]|(Hch & Hla & _ & (h & Hhd & Hat) & Hin)];
    [by split; [split_and!|left]| |done|by destruct He|by eapply di_history].
  split; [|by right]. split_and!; [|done|].
  - apply Forall_forall. intros x Hx. apply Hin in Hx as [->|Hx]; [done|by apply parsed_head_wf].
  - intros x Hx. rewrite Hhd in Hx. injection Hx as <-. by eapply attaches_attached.
Qed.

Lemma follow_event_inv c e st w st' closed w' :
  (IsZero c = false → u64_wf (Number c)) → (IsZero c = true → Number c = 0%Z) →
  event_wf e → delivery_inv (history_limit r) c st →
  follow_event r ctx e st w = (st', closed, w') →
  delivery_inv (history_limit r) c st' ∧
  (closed = None → (∃ l, dl_followed st' = dl_followed st ++ l) ∧ covered c st' e).
Proof using Type.
  intros Hc Hc0 He Hi. apply (with_cursor_inv _ _ (ev_ID e)) in Hi. unfold follow_event.
  set (st1 := with_cursor (ev_ID e) st) in *. change (dl_followed st) with (dl_followed st1). clearbody st1.
  destruct (expandPath _ _ _ _ _ w) as [[err|path] w1] eqn:Hp; [by intros [= <- <- _]|].
  apply (expandPath_attached c) in Hp as [(Hwf & Hch & Hat) Hend]; [|done..].
  destruct (deliver_path _ path st1) as [st2 closed2] eqn:Hd. intros [= <- <- _].
  destruct (deliver_path_inv _ c path st1 st2 closed2 history_limit_ge Hi Hwf Hch Hat Hd) as [Hi2 Hf].
  split; [done|]. intros Hn. rewrite (Hf Hn). split; [eauto|]. unfold covered. rewrite (Hf Hn).
  destruct Hend as [[-> Hh]|Hla].
  - rewrite app_nil_r, Hh. apply list_elem_of_fmap_2.
    destruct (last_known _ _ _ Hi) as [?|Hz]; [done|]. unfold IsZero in Hz. bool_to_prop.
    destruct He as [_ He]. congruence.
  - apply list_elem_of_fmap_2. unfold known. rewrite !elem_of_app. right; right. by apply last_Some_elem_of.
Qed.

Lemma follow_events_inv c events : ∀ st w st' closed w',
  (IsZero c = false → u64_wf (Number c)) → (IsZero c = true → Number c = 0%Z) →
  Forall event_wf events → delivery_inv (history_limit r) c st →
  follow_events r ctx events st w = (st', closed, w') →
  delivery_inv (history_limit r) c st' ∧
  (closed = None → (∃ l, dl_followed st' = dl_followed st ++ l) ∧ Forall (covered c st') events).
Proof using Type.
  induction events as [|e events IH]; intros st w st' closed w' Hc Hc0 Hwf Hi; simpl.
  { intros [= <- <- _]. split; [done|]. intros _. split; [exists []; by rewrite app_nil_r|done]. }
  apply Forall_cons in Hwf as [He Hwf].
  destruct (follow_event r ctx e st w) as [[st1 [reason|]] w1] eqn:Hf;
    apply (follow_event_inv c) in Hf as [Hi1 Hcov]; try done; [by intros [= <- <- _]|].
  intros Hrest. destruct (IH _ _ _ _ _ Hc Hc0 Hwf Hi1 Hrest) as [Hi' Hall]. split; [done|].
  intros Hn. destruct (Hcov eq_refl) as [[l Hl] He1]. destruct (Hall Hn) as [[l' Hl'] Hes].
  split; [exists (l ++ l'); by rewrite Hl', Hl, <- app_assoc|]. constructor; [|done].
  unfold covered in *. rewrite list_elem_of_fmap in He1 |- *. destruct He1 as (x & Hx & Hin). exists x.
  split; [done|]. rewrite Hl'. by apply known_app.
Qed.

(** What is read of the stream next is well formed. *)
Definition reads_wf (w : W) : Prop := ∀ ctx cursor block count evs w',
  stream_ReadEvents ctx (cfg_Name (rt_Config r)) cursor block count w = (Ok evs, w') → Forall event_wf evs.

Lemma read_batch_wf cursor w evs w' :
  reads_wf w → read_batch r ctx cursor w = (Ok evs, w') → Forall event_wf evs.
Proof using Type.
  intros Hev. unfold read_batch. destruct (stream_ReadEvents _ _ _ _ _ w) as [[e|evs'] w1] eqn:Hread; [done|].
  destruct (store_Snapshot _ w1) as [sn w2]. destruct (stale_stream _ _ _); [done|]. intros [= <- _]. by eapply Hev.
Qed.

Lemma eventLoop_inv c rounds : ∀ st w st' closed w',
  (∀ w, reads_wf w) → (IsZero c = false → u64_wf (Number c)) → (IsZero c = true → Number c = 0%Z) →
  delivery_inv (history_limit r) c st →
  eventLoop rounds r ctx st w = (st', closed, w') → delivery_inv (history_limit r) c st'.
Proof using Type.
  induction rounds as [|rounds IH]; intros st w st' closed w' Hev Hc Hc0 Hi; cbn [eventLoop]; [by intros [= <- _ _]|].
  destruct (ctx_Err ctx w); [by intros [= <- _ _]|].
  destruct (event_round r ctx st w) as [[st1 closed1] w1] eqn:Hr.
  assert (delivery_inv (history_limit r) c st1) as Hi1.
  { revert Hr. unfold event_round. destruct (read_batch _ _ _ w) as [[e|evs] w2] eqn:Hread; [by intros [= <- _ _]|].
    intros Hf. by apply (follow_events_inv c) in Hf as [? _]; [| | |eapply read_batch_wf|]. }
  destruct closed1; [by intros [= <- _ _]|]. by apply IH.
Qed.
End following.

(** ** Sessions *)

(** [hex.EncodeToString] *)
Definition hex_digit (n : nat) : ascii := default "0"%char (String.get n "0123456789abcdef").

Fixpoint EncodeToString (bytes : string) : string :=
  match bytes with
  | "" => ""
  | String b bytes =>
      String (hex_digit (nat_of_ascii b / 16)) (String (hex_digit (nat_of_ascii b mod 16)) (EncodeToString bytes))
  end.

Lemma hex_digits_inj b b' :
  hex_digit (nat_of_ascii b / 16) = hex_digit (nat_of_ascii b' / 16) →
  hex_digit (nat_of_ascii b mod 16) = hex_digit (nat_of_ascii b' mod 16) → b = b'.
Proof.
  set (value (c : ascii) := default 0%nat (String.index 0 (String c EmptyString) "0123456789abcdef")).
  assert (∀ c, ascii_of_nat (value (hex_digit (nat_of_ascii c / 16)) * 16 + value (hex_digit (nat_of_ascii c mod 16))) = c)
    as Hc by (intros [[] [] [] [] [] [] [] []]; vm_compute; reflexivity).
  intros Hhigh Hlow. rewrite <- (Hc b), <- (Hc b'). congruence.
Qed.

Lemma EncodeToString_inj s : ∀ s', EncodeToString s = EncodeToString s' → s = s'.
Proof.
  induction s as [|b s IH]; intros [|b' s']; simpl; try done. intros [= Hhigh Hlow Hs].
  f_equal; [by apply hex_digits_inj|by apply IH].
Qed.

(** What waits to be written to the client. *)
Inductive outgoing :=
| Reply (response : Response)
| Notification (subscription : string) (result : RawMessage).

(** [ss_pump] is the checkpoint the event loop was started at. *)
Record session := mkSession {
  ss_subs : gset string;
  ss_pump : option Event;
  ss_queue : list outgoing;
  ss_open : bool
}.

Definition with_subs (subs : gset string) (s : session) : session :=
  mkSession subs (ss_pump s) (ss_queue s) (ss_open s).

Definition with_pump (checkpoint : Event) (s : session) : session :=
  mkSession (ss_subs s) (Some checkpoint) (ss_queue s) (ss_open s).

Definition cancel (s : session) : session := mkSession (ss_subs s) (ss_pump s) (ss_queue s) false.

Section sessions.
  Context {W : Type} `{World W, HeadStore W}.

  (** [WebsocketQueueSize], and the text of a decoding error. *)
  Variable capacity : nat.
  Variable unmarshal_error : RawMessage → string.

  (** 16 bytes of [crypto/rand]; [None] if there are none to be had. *)
  Variable rand_Read : W → option string * W.

  (* go: gateway/websocket.go:359-366 wsSession.enqueue *)
Definition enqueue (payload : outgoing) (s : session) : bool * session :=
  if decide (length (ss_queue s) < capacity)%nat
  then (true, mkSession (ss_subs s) (ss_pump s) (ss_queue s ++ [payload]) (ss_open s))
  else (false, s).

  (* go: gateway/websocket.go:348-358 wsSession.enqueueResponse *)
Definition enqueueResponse (response : Response) (s : session) : session :=
  let* (queued, s) := enqueue (Reply response) s in
  if queued : bool then s else cancel s.

Fixpoint notify_all (acceptedHead : Head) (ids : list string) (s : session) : session :=
  match ids with
  | [] => s
  | id :: rest =>
      (* an empty raw message encodes as null *)
      if negb (String.eqb (Header acceptedHead) "" || Valid (Header acceptedHead)) then cancel s
      else
        let* (queued, s) := enqueue (Notification id (Header acceptedHead)) s in
        if queued : bool then notify_all acceptedHead rest s else cancel s
  end.

  (* go: gateway/websocket.go:323-346 wsSession.notify *)
Definition notify (acceptedHead : Head) (s : session) : session :=
  notify_all acceptedHead (merge_sort String.le (base.elements (ss_subs s))) s.

  (* go: gateway/websocket.go:393-399 wsSession.newSubscriptionID *)
Definition newSubscriptionID (w : W) : option string * W :=
  let* (randomBytes, w) := rand_Read w in
  ((λ bytes, "0x" +:+ EncodeToString bytes) <$> randomBytes, w).

  (** Where the event loop of a new pump starts, or the error to reply. *)
(* go: gateway/websocket.go:123-146 wsSession.subscribe *)
Definition pump_checkpoint (r : Runtime) (w : W) : result Error Event * W :=
  let chain := cfg_Name (rt_Config r) in
  let unavailable := ConsistencyUnavailable (AStr "head stream unavailable") in
  let* (checkpoint, w) := store_StreamStart chain w in
  match checkpoint with
  | Err _ => (Err unavailable, w)
  | Ok checkpoint =>
      let* (snapshot, w) := store_Snapshot chain w in
      match snapshot with
      | Err _ => (Err unavailable, w)
      | Ok snapshot =>
          let* (accepted, _) := Get snapshot Latest in
          let maxAge := cfg_MaxHeadAge (rt_Config r) in
          if ReorgPending accepted
             || (0 <? maxAge)%Z && (IsZero accepted || (maxAge <? now w - ObservedAt accepted)%Z)
          then (Err (ConsistencyUnavailable (AStr "accepted head is stale or reorg pending")), w)
          else (Ok checkpoint, w)
      end
  end.

Definition max_subscriptions : nat := 128.

  (* go: gateway/websocket.go:104-170 wsSession.subscribe *)
Definition subscribe (r : Runtime) (request : Request) (s : session) (w : W) : session * W :=
  let fail e := enqueueResponse (Failure (req_ID request) e) s in
  match ParseParams (req_Params request) with
  | Err rpcErr => (fail rpcErr, w)
  | Ok [parameter] =>
      match Unmarshal_string "" parameter with
      | None => (fail (InvalidParams "eth_subscribe requires a string subscription kind"), w)
      | Some kind =>
          if negb (String.eqb kind "newHeads")
          then (fail (UnsupportedConsistency "eth_subscribe" "only newHeads is supported"), w)
          else
            let* (checkpoint, w) :=
              match ss_pump s with
              | Some checkpoint => (Ok checkpoint, w)
              | None => pump_checkpoint r w
              end in
            match checkpoint with
            | Err e => (fail e, w)
            | Ok checkpoint =>
                let* (id, w) := newSubscriptionID w in
                match id with
                | None => (fail (InternalError "create subscription id"), w)
                | Some id =>
                    if decide (max_subscriptions ≤ size (ss_subs s))%nat
                    then (fail (InvalidRequest "subscription limit reached"), w)
                    else
                      (with_pump checkpoint
                         (enqueueResponse (Success (req_ID request) (Marshal_string id))
                            (with_subs ({[ id ]} ∪ ss_subs s) s)), w)
                end
            end
      end
  | Ok _ => (fail (InvalidParams (js "eth_subscribe requires exactly ['newHeads']")), w)
  end.

  (* go: gateway/websocket.go:172-197 wsSession.unsubscribe *)
Definition unsubscribe (request : Request) (s : session) : session :=
  let fail e := enqueueResponse (Failure (req_ID request) e) s in
  match ParseParams (req_Params request) with
  | Err rpcErr => fail rpcErr
  | Ok [parameter] =>
      match Unmarshal_string "" parameter with
      | None => fail (InvalidParams "invalid subscription id")
      | Some id =>
          enqueueResponse (Success (req_ID request) (Marshal_bool (bool_decide (id ∈ ss_subs s))))
            (with_subs (ss_subs s ∖ {[ id ]}) s)
      end
  | Ok _ => fail (InvalidParams "eth_unsubscribe requires one subscription id")
  end.

  (** A notification is not answered. *)
Definition drop_subscription (request : Request) (s : session) : session :=
  if String.eqb (req_Method request) "eth_unsubscribe" then
    match ParseParams (req_Params request) with
    | Ok [parameter] =>
        match Unmarshal_string "" parameter with
        | Some id => with_subs (ss_subs s ∖ {[ id ]}) s
        | None => s
        end
    | _ => s
    end
  else s.

  (** One message of the client. *)
  (* go: gateway/websocket.go:65-102 wsSession.readLoop *)
Definition handle_message (r : Runtime) (payload : RawMessage) (s : session) (w : W) : session * W :=
  match Unmarshal_Request payload with
  | None => (enqueueResponse (Failure "" (ParseError (unmarshal_error payload))) s, w)
  | Some request =>
      match Validate request with
      | Some rpcErr => (enqueueResponse (Failure (req_ID request) rpcErr) s, w)
      | None =>
          if IsNotification request then (drop_subscription request s, w)
          else if String.eqb (req_Method request) "eth_subscribe" then subscribe r request s w
          else if String.eqb (req_Method request) "eth_unsubscribe" then (unsubscribe request s, w)
          else (enqueueResponse
                  (Failure (req_ID request)
                     (UnsupportedConsistency (req_Method request)
                        "only newHeads subscriptions are supported over WebSocket")) s, w)
      end
  end.
End sessions.

(** ** What a session queues *)

Definition session_wf (capacity : nat) (s : session) : Prop :=
  (size (ss_subs s) ≤ max_subscriptions)%nat ∧ (length (ss_queue s) ≤ capacity)%nat.

(** The payloads are queued, or those that fit are and the session is cancelled. *)
Definition queued (capacity : nat) (payloads : list outgoing) (s s' : session) : Prop :=
  (ss_queue s' = ss_queue s ++ payloads ∧ ss_open s' = ss_open s) ∨
  (∃ k, ss_queue s' = ss_queue s ++ take k payloads ∧ ss_open s' = false).

Section session_proofs.
  Variable capacity : nat.

Lemma enqueueResponse_queued q s :
  (length (ss_queue s) ≤ capacity)%nat →
  let s' := enqueueResponse capacity q s in
  ss_subs s' = ss_subs s ∧ (length (ss_queue s') ≤ capacity)%nat ∧ queued capacity [Reply q] s s'.
Proof using Type.
  intros Hlen. unfold enqueueResponse, enqueue, queued. destruct (decide _); simpl.
  - rewrite length_app. simpl. split; [done|]. split; [lia|]. by left.
  - split; [done|]. split; [done|]. right. exists 0%nat. by rewrite app_nil_r.
Qed.

Lemma notify_all_queued h ids : ∀ s,
  (length (ss_queue s) ≤ capacity)%nat →
  let s' := notify_all capacity h ids s in
  ss_subs s' = ss_subs s ∧ (length (ss_queue s') ≤ capacity)%nat ∧
  queued capacity ((λ id, Notification id (Header h)) <$> ids) s s'.
Proof using Type.
  induction ids as [|id ids IH]; intros s Hlen; simpl.
  { split; [done|]. split; [done|]. left. by rewrite app_nil_r. }
  assert (queued capacity (Notification id (Header h) :: ((λ id, Notification id (Header h)) <$> ids)) s (cancel s)) as Hc.
  { right. exists 0%nat. by rewrite app_nil_r. }
  destruct (negb _); [done|]. unfold enqueue. destruct (decide _) as [Hlt|]; [|done].
  destruct (IH (mkSession (ss_subs s) (ss_pump s) (ss_queue s ++ [Notification id (Header h)]) (ss_open s)))
    as (Hs & Hl & Hq); [simpl; rewrite length_app; simpl; lia|].
  split; [done|]. split; [done|]. destruct Hq as [[Hq Ho]|(k & Hq & Ho)]; simpl in *.
  - left. by rewrite Hq, <- app_assoc.
  - right. exists (S k). by rewrite Hq, <- app_assoc.
Qed.
End session_proofs.

Definition answers (capacity : nat) (id : RawMessage) (s s' : session) : Prop :=
  ∃ q, res_ID q = idOrNull id ∧ queued capacity [Reply q] s s'.

(** One reply, to a session whose subscriptions alone may have changed before. *)
Lemma enqueue_answers capacity q id s s0 :
  session_wf capacity s → res_ID q = idOrNull id →
  (size (ss_subs s0) ≤ max_subscriptions)%nat → ss_queue s0 = ss_queue s → ss_open s0 = ss_open s →
  session_wf capacity (enqueueResponse capacity q s0) ∧
  answers capacity id s (enqueueResponse capacity q s0) ∧
  ss_subs (enqueueResponse capacity q s0) = ss_subs s0.
Proof.
  intros [_ Hl] Hq Hs0 Hqu Ho. rewrite <- Hqu in Hl.
  destruct (enqueueResponse_queued capacity q s0 Hl) as (Hs & Hlen & Hqueued).
  split; [split; [by rewrite Hs|done]|]. split; [|done]. exists q. split; [done|].
  unfold queued in *. by rewrite <- Hqu, <- Ho.
Qed.

Section message_proofs.
  Context {W : Type} `{World W, HeadStore W}.
  Variable capacity : nat.
  Variable unmarshal_error : RawMessage → string.
  Variable rand_Read : W → option string * W.

(** An identifier made of bytes that were drawn. *)
Definition drawn_id (id : string) : Prop := ∃ v v', newSubscriptionID rand_Read v = (Some id, v').

Lemma subscribe_answers r request s w s' w' :
  session_wf capacity s → subscribe capacity rand_Read r request s w = (s', w') →
  session_wf capacity s' ∧ answers capacity (req_ID request) s s' ∧
  (ss_subs s' = ss_subs s ∨ ∃ id, ss_subs s' = {[ id ]} ∪ ss_subs s ∧ drawn_id id ∧
     queued capacity [Reply (Success (req_ID request) (Marshal_string id))] s s').
Proof using Type.
  intros Hwf. pose proof Hwf as [Hsize Hlen].
  assert (∀ e, let s1 := enqueueResponse capacity (Failure (req_ID request) e) s in
    session_wf capacity s1 ∧ answers capacity (req_ID request) s s1 ∧
    (ss_subs s1 = ss_subs s ∨ ∃ id, ss_subs s1 = {[ id ]} ∪ ss_subs s ∧ drawn_id id ∧
       queued capacity [Reply (Success (req_ID request) (Marshal_string id))] s s1)) as Hfail.
  { intros e. destruct (enqueue_answers capacity (Failure (req_ID request) e) (req_ID request) s s) as (? & ? & ?);
      try done. split_and!; [done|done|by left]. }
  unfold subscribe. destruct (ParseParams _) as [e|[|parameter [|]]]; try (intros [= <- _]; apply Hfail).
  destruct (Unmarshal_string "" parameter) as [kind|]; [|intros [= <- _]; apply Hfail].
  destruct (negb _); [intros [= <- _]; apply Hfail|].
  destruct (match ss_pump s with Some c => _ | None => _ end) as [[e|checkpoint] w1];
    [intros [= <- _]; apply Hfail|].
  destruct (newSubscriptionID _ w1) as [[id|] w2] eqn:Hid; [|intros [= <- _]; apply Hfail].
  destruct (decide _) as [|Hroom]; [intros [= <- _]; apply Hfail|]. intros [= <- _].
  set (q := Success (req_ID request) (Marshal_string id)).
  destruct (enqueue_answers capacity q (req_ID request) s (with_subs ({[id]} ∪ ss_subs s) s))
    as (Hwf' & Ha & Hsubs); [done|done| |done|done|].
  { simpl. pose proof (size_union_alt {[id]} (ss_subs s)) as Hu. rewrite Hu.
    rewrite size_singleton.
    assert (ss_subs s ∖ {[id]} ⊆ ss_subs s) as Hle%subseteq_size by by apply subseteq_difference_l.
    lia. }
  split; [done|]. split; [done|]. right. exists id. split; [done|]. split; [by exists w1, w2|].
  destruct (enqueueResponse_queued capacity q (with_subs ({[id]} ∪ ss_subs s) s) Hlen) as (_ & _ & Hq).
  done.
Qed.

Lemma with_fewer_subs_wf subs s :
  session_wf capacity s → subs ⊆ ss_subs s → session_wf capacity (with_subs subs s).
Proof using Type. intros [Hs Hl] Hsub. split; [|done]. simpl. apply subseteq_size in Hsub. lia. Qed.

Lemma unsubscribe_answers request s :
  session_wf capacity s → let s' := unsubscribe capacity request s in
  session_wf capacity s' ∧ answers capacity (req_ID request) s s' ∧ ss_subs s' ⊆ ss_subs s.
Proof using Type.
  intros Hwf s'. subst s'. pose proof Hwf as [Hsize Hlen].
  assert (∀ q subs, res_ID q = idOrNull (req_ID request) → subs ⊆ ss_subs s →
    let s1 := enqueueResponse capacity q (with_subs subs s) in
    session_wf capacity s1 ∧ answers capacity (req_ID request) s s1 ∧ ss_subs s1 ⊆ ss_subs s) as Hanswer.
  { intros q subs Hq Hsub. destruct (with_fewer_subs_wf subs s Hwf Hsub) as [Hsize' _].
    destruct (enqueue_answers capacity q (req_ID request) s (with_subs subs s)) as (? & ? & Hs); try done.
    split; [done|]. split; [done|]. by rewrite Hs. }
  assert (with_subs (ss_subs s) s = s) as Hsame by (by destruct s).
  assert (∀ e, let s1 := enqueueResponse capacity (Failure (req_ID request) e) s in
    session_wf capacity s1 ∧ answers capacity (req_ID request) s s1 ∧ ss_subs s1 ⊆ ss_subs s) as Hfail.
  { intros e. pose proof (Hanswer (Failure (req_ID request) e) (ss_subs s) eq_refl ltac:(done)) as Ha.
    by rewrite Hsame in Ha. }
  unfold unsubscribe. destruct (ParseParams _) as [e|[|parameter [|]]]; try apply Hfail.
  destruct (Unmarshal_string "" parameter) as [id|]; [|apply Hfail]. apply Hanswer; [done|by apply subseteq_difference_l].
Qed.

(** The request id a message is answered under; none for a notification. *)
Definition message_id (payload : RawMessage) : option RawMessage :=
  match Unmarshal_Request payload with
  | None => Some ""
  | Some request =>
      if bool_decide (Validate request = None) && IsNotification request then None
      else Some (req_ID request)
  end.

Lemma handle_message_answers r payload s w s' w' :
  session_wf capacity s → handle_message capacity unmarshal_error rand_Read r payload s w = (s', w') →
  session_wf capacity s' ∧
  match message_id payload with
  | Some id => answers capacity id s s'
  | None => ss_queue s' = ss_queue s ∧ ss_open s' = ss_open s
  end ∧
  (ss_subs s' ⊆ ss_subs s ∨ ∃ sid id, ss_subs s' = {[ sid ]} ∪ ss_subs s ∧
     message_id payload = Some id ∧ drawn_id sid ∧
     queued capacity [Reply (Success id (Marshal_string sid))] s s').
Proof using Type.
  intros Hwf. pose proof Hwf as [Hsize Hlen].
  assert (∀ q id, res_ID q = idOrNull id → let s1 := enqueueResponse capacity q s in
    session_wf capacity s1 ∧ answers capacity id s s1 ∧ ss_subs s1 ⊆ ss_subs s) as Hreply.
  { intros q id Hq. destruct (enqueue_answers capacity q id s s) as (? & ? & Hs); try done.
    split; [done|]. split; [done|]. by rewrite Hs. }
  unfold handle_message, message_id. destruct (Unmarshal_Request payload) as [request|].
  2: { intros [= <- _]. destruct (Hreply (Failure "" (ParseError (unmarshal_error payload))) "" eq_refl)
         as (? & ? & ?). split; [done|]. split; [done|by left]. }
  destruct (Validate request) as [e|] eqn:Hv.
  { rewrite bool_decide_false by done. simpl. intros [= <- _].
    destruct (Hreply (Failure (req_ID request) e) (req_ID request) eq_refl) as (? & ? & ?).
    split; [done|]. split; [done|by left]. }
  rewrite bool_decide_true by done. simpl. destruct (IsNotification request) eqn:Hn.
  { intros [= <- _]. unfold drop_subscription.
    repeat case_match; try (split; [done|]; split; [done|by left]).
    all: split; [apply with_fewer_subs_wf; [done|by apply subseteq_difference_l]|].
    all: split; [done|left; simpl; by apply subseteq_difference_l]. }
  destruct (String.eqb _ "eth_subscribe").
  { intros Hsub. destruct (subscribe_answers _ _ _ _ _ _ Hwf Hsub) as (? & ? & Hs). split; [done|].
    split; [done|]. destruct Hs as [->|(id & Hs & Hd & Hq)]; [by left|]. right. eauto 7. }
  destruct (String.eqb _ "eth_unsubscribe").
  - intros [= <- _]. destruct (unsubscribe_answers request s Hwf) as (? & ? & ?).
    split; [done|]. split; [done|by left].
  - intros [= <- _]. match goal with |- context [enqueueResponse _ ?q s] =>
      destruct (Hreply q (req_ID request) eq_refl) as (? & ? & ?) end.
    split; [done|]. split; [done|by left].
Qed.

Lemma enqueueResponse_pump q s : ss_pump (enqueueResponse capacity q s) = ss_pump s.
Proof using Type. unfold enqueueResponse, enqueue. by destruct (decide _). Qed.

(** The pump is started once, at a checkpoint of the stream. *)
Lemma handle_message_pump r payload s w s' w' :
  handle_message capacity unmarshal_error rand_Read r payload s w = (s', w') →
  ss_pump s' = ss_pump s ∨ ss_pump s = None ∧
    ∃ checkpoint w1, ss_pump s' = Some checkpoint ∧
      store_StreamStart (cfg_Name (rt_Config r)) w = (Ok checkpoint, w1).
Proof using Type.
  unfold handle_message, drop_subscription, unsubscribe. destruct (Unmarshal_Request payload) as [request|].
  2: { intros [= <- _]. left. apply enqueueResponse_pump. }
  destruct (Validate request); [intros [= <- _]; left; apply enqueueResponse_pump|].
  destruct (IsNotification request); [intros [= <- _]; left; by repeat case_match|].
  destruct (String.eqb (req_Method request) "eth_subscribe"); [|repeat case_match; intros [= <- _]; left; by rewrite enqueueResponse_pump].
  unfold subscribe. destruct (ParseParams _) as [e|[|parameter [|]]];
    try (intros [= <- _]; left; apply enqueueResponse_pump).
  destruct (Unmarshal_string _ _); [|intros [= <- _]; left; apply enqueueResponse_pump].
  destruct (negb _); [intros [= <- _]; left; apply enqueueResponse_pump|].
  destruct (ss_pump s) as [checkpoint|] eqn:Hp.
  - destruct (newSubscriptionID _ w) as [[id|] w2]; [|intros [= <- _]; left; by rewrite enqueueResponse_pump].
    destruct (decide _); intros [= <- _]; left; by rewrite ?enqueueResponse_pump.
  - unfold pump_checkpoint. destruct (store_StreamStart _ w) as [[e|checkpoint] w1] eqn:Hs;
      [intros [= <- _]; left; by rewrite enqueueResponse_pump|].
    destruct (match (store_Snapshot _ w1) with (_, _) => _ end) as [[e|checkpoint'] w2] eqn:Hc;
      [intros [= <- _]; left; by rewrite enqueueResponse_pump|].
    assert (checkpoint' = checkpoint) as ->.
    { destruct (store_Snapshot _ w1) as [[e|sn] w3]; [done|]. destruct (Get sn Latest). by destruct (_ || _); simplify_eq. }
    destruct (newSubscriptionID _ w2) as [[id|] w3]; [|intros [= <- _]; left; by rewrite enqueueResponse_pump].
    destruct (decide _); intros [= <- _]; [left; by rewrite enqueueResponse_pump|]. right. split; [done|].
    by exists checkpoint, w1.
Qed.
End message_proofs.

(** * Properties *)

(** The loop on its own: subscribers see a gapless history.  Start the event loop at a checkpoint of
    the stream and let it run for any number of rounds, whatever the providers and
    the store answer.  Each head it has followed extends, or competes at the same
    height with, an earlier one (or the checkpoint): no height is skipped, also
    where the stream skipped some and the gap was filled from providers.  What is
    sent is what was followed, in order, each hash once.  The hashes remembered
    and the window of recent heads stay within their limits. *)
Lemma stream_gapless `{World W, Clients W, Runtimes W, HeadStore W, HeadStream W}
    rounds r ctx checkpoint (w : W) st closed w' :
  (∀ w : W, reads_wf r w) → u64_wf (Number (ev_Head checkpoint)) →
  eventLoop rounds r ctx (start_delivery checkpoint) w = (st, closed, w') →
  (∀ i h, dl_followed st !! i = Some h → attached (ev_Head checkpoint) (take i (dl_followed st)) h) ∧
  dl_sent st `sublist_of` dl_followed st ∧ NoDup (Hash <$> dl_sent st) ∧
  (∀ h, h ∈ dl_followed st → Hash h ∈ Hash <$> dl_sent st) ∧
  (Z.of_nat (size (dl_seen st)) ≤ max_seen)%Z ∧
  (Z.of_nat (length (dl_order st)) ≤ history_limit r)%Z ∧
  dom (dl_history st) ⊆@{gset string} list_to_set (dl_order st).
Proof.
  intros Hev Hc Hloop. apply (eventLoop_inv r ctx (ev_Head checkpoint)) in Hloop; [|done|done| |].
  - destruct Hloop. done.
  - unfold IsZero. intros Hz. by bool_to_prop.
  - apply start_delivery_inv; [apply history_limit_ge|done].
Qed.

(** While a session stays open no accepted head is lost.  After a batch of
    events has been followed without closing, every event's head, or one of the
    same hash, has been followed, and what had been followed before still is. *)
Lemma events_followed `{World W, Clients W, Runtimes W, HeadStore W, HeadStream W}
    rounds r ctx checkpoint (w : W) st w1 events st' w' :
  (∀ w : W, reads_wf r w) → u64_wf (Number (ev_Head checkpoint)) → Forall event_wf events →
  eventLoop rounds r ctx (start_delivery checkpoint) w = (st, None, w1) →
  follow_events r ctx events st w1 = (st', None, w') →
  (∃ l, dl_followed st' = dl_followed st ++ l) ∧
  ∀ e, e ∈ events → Hash (ev_Head e) ∈ Hash <$> known (ev_Head checkpoint) (dl_followed st').
Proof.
  intros Hev Hc Hwf Hloop Hf. apply (eventLoop_inv r ctx (ev_Head checkpoint)) in Hloop; [|done|done| |].
  - apply (follow_events_inv r ctx (ev_Head checkpoint)) in Hf as [_ Hf]; [| | |done|done].
    + destruct (Hf eq_refl) as [Hl Hall]. split; [done|]. by apply Forall_forall.
    + done.
    + unfold IsZero. intros Hz. by bool_to_prop.
  - unfold IsZero. intros Hz. by bool_to_prop.
  - apply start_delivery_inv; [apply history_limit_ge|done].
Qed.


(** ** A stream that skips a height *)

Definition stream_checkpoint : Event :=
  mkEvent "1-0" (mkHead "demo" "evm" "latest" 3 (sim_hash "cc") (sim_hash "dd") 1 0 false 900 900 "up" "{}").

Definition stream_event : Event := mkEvent "2-0" demo_accepted.

#[local] Instance scripted_stream : HeadStream (Sim (ChainWorld (unit * MemoryStore))) := {
  stream_ReadEvents _ _ cursor _ _ w := (Ok (if String.eqb cursor "1-0" then [stream_event] else []), w)
}.

Definition stream_world : Sim (ChainWorld (unit * MemoryStore)) :=
  mkSim 1000 (sim_rpc Chain.demo_answer)
    (demo_chain_state (tt, mkStore {[ "demo" := sn_Heads demo_snapshot ]} ∅ ∅ 0 ∅)).

Definition demo_loop (rounds : nat) : delivery * option string * Sim (ChainWorld (unit * MemoryStore)) :=
  eventLoop rounds demo_runtime Background (start_delivery stream_checkpoint) stream_world.

Lemma scripted_stream_wf (w : Sim (ChainWorld (unit * MemoryStore))) : reads_wf demo_runtime w.
Proof.
  intros ctx cursor block count evs w' [= <- _]. destruct (String.eqb cursor "1-0"); [|done].
  constructor; [|done]. split; [vm_compute; by split|done].
Qed.

Lemma stream_gapless_witness :
  Hash <$> dl_sent (demo_loop 2).1.1 = [sim_hash "bb"; sim_hash "aa"] ∧
  NoDup (Hash <$> dl_sent (demo_loop 2).1.1) ∧
  ∀ i h, dl_followed (demo_loop 2).1.1 !! i = Some h →
    attached (ev_Head stream_checkpoint) (take i (dl_followed (demo_loop 2).1.1)) h.
Proof.
  split; [vm_compute; reflexivity|].
  destruct (stream_gapless 2 demo_runtime Background stream_checkpoint stream_world (demo_loop 2).1.1
    (demo_loop 2).1.2 (demo_loop 2).2) as (Ha & _ & Hu & _).
  - exact scripted_stream_wf.
  - vm_compute. split; [discriminate|reflexivity].
  - unfold demo_loop. destruct (eventLoop _ _ _ _ _) as [[st closed] w]. reflexivity.
  - split; [exact Hu|exact Ha].
Defined.

Lemma events_followed_witness :
  sim_hash "aa" ∈ Hash <$> known (ev_Head stream_checkpoint)
    (dl_followed (follow_events demo_runtime Background [stream_event] (demo_loop 0).1.1 stream_world).1.1).
Proof.
  apply (proj2 (events_followed 0 demo_runtime Background stream_checkpoint stream_world (demo_loop 0).1.1
    stream_world [stream_event]
    (follow_events demo_runtime Background [stream_event] (demo_loop 0).1.1 stream_world).1.1
    (follow_events demo_runtime Background [stream_event] (demo_loop 0).1.1 stream_world).2
    scripted_stream_wf ltac:(vm_compute; split; [discriminate|reflexivity])
    ltac:(constructor; [split; [vm_compute; by split|discriminate]|constructor]) eq_refl
    ltac:(apply triple_eta; vm_compute; reflexivity)) stream_event).
  left.
Defined.

Definition demo_session : session := mkSession {[ "0x01"; "0x02" ]} (Some stream_checkpoint) [] true.

Definition demo_message : RawMessage :=
  js "{'jsonrpc':'2.0','id':9,'method':'eth_unsubscribe','params':['0x01']}".

