(* ===== verification/Websocket.v ===== *)
(** * WebSocket sessions — internal/gateway/websocket.go

    A session is three goroutines: one reads and handles the messages of the client,
    one writes what is queued for it, and the pump follows the stream of accepted heads
    and notifies the subscribers.  They share the set of subscriptions, the queue and a
    context, and run in any order.  An event is one step of one of them; a session is
    the effect of a sequence of events. *)

From S2P Require Import Prelude GoStrings GoJson JsonRpc Head MemoryStore World Upstream Chain.
From S2P Require Import Coordinator Subscriptions.

(** ** The state of a session *)

(** The locals of [eventLoop]: the events of a batch and the heads of a path that are
    left, and the subscribers that are still to be notified of a head; [pu_taken] are the
    events it has taken from its batches. *)
Record pump := mkPump {
  pu_delivery : delivery;
  pu_taken : list Event;
  pu_events : list Event;
  pu_path : list Head;
  pu_notify : option (Head * list string);
  pu_running : bool
}.

(** [cn_inbox] is a message that was read and not handled, [cn_flight] a payload taken
    from the queue and not written; [cn_closed] the reason of the close frame. *)
(* go: gateway/websocket.go:22-33 wsSession *)
Record connection := mkConnection {
  cn_session : session;
  cn_inbox : option RawMessage;
  cn_flight : option outgoing;
  cn_written : list outgoing;
  cn_pump : option pump;
  cn_closed : option string
}.

Definition with_session (s : session) (cn : connection) : connection :=
  mkConnection s (cn_inbox cn) (cn_flight cn) (cn_written cn) (cn_pump cn) (cn_closed cn).

Definition with_inbox (m : option RawMessage) (cn : connection) : connection :=
  mkConnection (cn_session cn) m (cn_flight cn) (cn_written cn) (cn_pump cn) (cn_closed cn).

Definition with_output (flight : option outgoing) (written : list outgoing) (cn : connection) : connection :=
  mkConnection (cn_session cn) (cn_inbox cn) flight written (cn_pump cn) (cn_closed cn).

Definition with_pumping (p : pump) (cn : connection) : connection :=
  mkConnection (cn_session cn) (cn_inbox cn) (cn_flight cn) (cn_written cn) (Some p) (cn_closed cn).

Definition start_pump (checkpoint : Event) : pump := mkPump (start_delivery checkpoint) [] [] [] None true.

Definition stop_pump (p : pump) : pump :=
  mkPump (pu_delivery p) (pu_taken p) (pu_events p) (pu_path p) (pu_notify p) false.

(** The session of a new connection. *)
Definition new_connection : connection := mkConnection (mkSession ∅ None [] true) None None [] None None.

Definition is_open (cn : connection) : bool := ss_open (cn_session cn).

(* go: gateway/websocket.go:385-391 wsSession.closeWithError *)
Definition closeWithError (why : string) (cn : connection) : connection :=
  mkConnection (cancel (cn_session cn)) (cn_inbox cn) (cn_flight cn) (cn_written cn) (cn_pump cn)
    (Some (default why (cn_closed cn))).

(** ** Steps *)

Inductive ws_event :=
| Read (payload : RawMessage)          (* the reader gets a message *)
| Handle (random : option string)      (* … and handles it, drawing bytes if it must *)
| Take                                 (* the writer takes a payload *)
| Written (ok : bool)                  (* … and has written it, or failed *)
| Poll | Follow | Deliver | Notify     (* the pump *)
| Disconnect.                          (* the client is gone, or the server stops *)

Section session.
  Context {W : Type} `{World W, Clients W, Runtimes W, HeadStore W, HeadStream W}.
  Variable capacity : nat.
  Variable unmarshal_error : RawMessage → string.
  Variable r : Runtime.
  Variable ctx : Context.

  (** *** The reader *)

(* go: gateway/websocket.go:65-70 wsSession.readLoop *)
Definition read_step (payload : RawMessage) (cn : connection) : connection :=
  if is_open cn && bool_decide (cn_inbox cn = None) then with_inbox (Some payload) cn else cn.

  (** A message that makes the first subscription starts the pump. *)
(* go: gateway/websocket.go:71-102 wsSession.readLoop *)
Definition handle_step (random : option string) (cn : connection) (w : W) : connection * W :=
  match cn_inbox cn with
  | None => (cn, w)
  | Some payload =>
      let* (s, w) := handle_message capacity unmarshal_error (λ w, (random, w)) r payload (cn_session cn) w in
      let cn := with_session s (with_inbox None cn) in
      (match cn_pump cn, ss_pump s with
       | None, Some checkpoint => with_pumping (start_pump checkpoint) cn
       | _, _ => cn
       end, w)
  end.

  (** *** The writer *)

  (** Once the session has ended, what is taken is not written any more. *)
  (* go: gateway/websocket.go:368-374 wsSession.writeLoop *)
Definition take_step (cn : connection) : connection :=
  let s := cn_session cn in
  match cn_flight cn, ss_queue s with
  | None, payload :: queue =>
      if ss_open s
      then with_output (Some payload) (cn_written cn)
             (with_session (mkSession (ss_subs s) (ss_pump s) queue (ss_open s)) cn)
      else cn
  | _, _ => cn
  end.

  (* go: gateway/websocket.go:375-381 wsSession.writeLoop *)
Definition written_step (ok : bool) (cn : connection) : connection :=
  match cn_flight cn with
  | None => cn
  | Some payload =>
      if ok then with_output None (cn_written cn ++ [payload]) cn
      else with_session (cancel (cn_session cn)) (with_output None (cn_written cn) cn)
  end.

  (** *** The pump *)

  (** The next batch, once the last one is done. *)
(* go: gateway/websocket.go:209-224 wsSession.eventLoop *)
Definition poll_step (p : pump) (cn : connection) (w : W) : connection * W :=
  match pu_notify p, pu_path p, pu_events p with
  | None, [], [] =>
      if is_open cn then
        let* (events, w) := read_batch r ctx (dl_cursor (pu_delivery p)) w in
        (match events with
         | Ok events => with_pumping (mkPump (pu_delivery p) (pu_taken p) events [] None true) cn
         | Err why => closeWithError why (with_pumping (stop_pump p) cn)
         end, w)
      else (with_pumping (stop_pump p) cn, w)
  | _, _, _ => (cn, w)
  end.

  (** The path to the next event. *)
(* go: gateway/websocket.go:225-235 wsSession.eventLoop *)
Definition follow_step (p : pump) (cn : connection) (w : W) : connection * W :=
  match pu_notify p, pu_path p, pu_events p with
  | None, [], event :: events =>
      let st := with_cursor (ev_ID event) (pu_delivery p) in
      let taken := pu_taken p ++ [event] in
      let* (path, w) := expandPath r ctx (dl_last st) (ev_Head event) (dl_history st) w in
      (match path with
       | Ok path => with_pumping (mkPump st taken events path None true) cn
       | Err _ => closeWithError "head history gap exceeds recovery window"
                    (with_pumping (mkPump st taken events [] None false) cn)
       end, w)
  | _, _, _ => (cn, w)
  end.

  (** The next head of the path; its subscribers are those of this moment. *)
(* go: gateway/websocket.go:236-256 wsSession.eventLoop *)
Definition deliver_step (p : pump) (cn : connection) : connection :=
  match pu_notify p, pu_path p with
  | None, h :: path =>
      let seen := bool_decide (Hash h ∈ dl_seen (pu_delivery p)) in
      let* (st, closed) := deliver (history_limit r) h (pu_delivery p) in
      match closed with
      | Some why => closeWithError why (with_pumping (mkPump st (pu_taken p) (pu_events p) path None false) cn)
      | None =>
          let ids := merge_sort String.le (base.elements (ss_subs (cn_session cn))) in
          with_pumping (mkPump st (pu_taken p) (pu_events p) path (if seen then None else Some (h, ids)) true) cn
      end
  | _, _ => cn
  end.

  (** The next subscriber. *)
  (* go: gateway/websocket.go:331-345 wsSession.notify *)
Definition notify_step (p : pump) (cn : connection) : connection :=
  match pu_notify p with
  | None => cn
  | Some (h, ids) =>
      let resume rest := with_pumping (mkPump (pu_delivery p) (pu_taken p) (pu_events p) (pu_path p) rest true) in
      match ids with
      | [] => resume None cn
      | id :: rest =>
          if negb (String.eqb (Header h) "" || Valid (Header h))
          then resume None (with_session (cancel (cn_session cn)) cn)
          else
            let* (queued, s) := enqueue capacity (Notification id (Header h)) (cn_session cn) in
            if queued : bool then resume (Some (h, rest)) (with_session s cn)
            else resume None (with_session (cancel s) cn)
      end
  end.

Definition pump_step (step : pump → connection → W → connection * W) (cn : connection) (w : W)
    : connection * W :=
  match cn_pump cn with
  | Some p => if pu_running p then step p cn w else (cn, w)
  | None => (cn, w)
  end.

Definition ws_step (st : connection * W) (e : ws_event) : connection * W :=
  let* (cn, w) := st in
  match e with
  | Read payload => (read_step payload cn, w)
  | Handle random => handle_step random cn w
  | Take => (take_step cn, w)
  | Written ok => (written_step ok cn, w)
  | Poll => pump_step poll_step cn w
  | Follow => pump_step follow_step cn w
  | Deliver => pump_step (λ p cn w, (deliver_step p cn, w)) cn w
  | Notify => pump_step (λ p cn w, (notify_step p cn, w)) cn w
  | Disconnect => (with_session (cancel (cn_session cn)) cn, w)
  end.

Definition ws_run (events : list ws_event) (w : W) : connection * W := foldl ws_step (new_connection, w) events.
End session.

(** ** What a subscriber gets

    The view of a session that matters to its subscribers: what was or may still be
    written, the headers of the heads the pump has notified, and those that wait for
    the head being notified. *)

(** The results a list of payloads holds for a subscription. *)
Definition notes (id : string) (l : list outgoing) : list RawMessage :=
  omap (λ o, match o with
             | Notification id' result => if decide (id' = id) then Some result else None
             | Reply _ => None
             end) l.

(** The reply that names a subscription comes before its notifications. *)
Definition named (id : string) (l : list outgoing) : Prop :=
  ∃ l1 l2 q, l = l1 ++ Reply q :: l2 ∧ res_Result q = Marshal_string id ∧ notes id l1 = [].

Record view := mkView {
  vw_open : bool;
  vw_subs : gset string;
  vw_out : list outgoing;
  vw_sent : list RawMessage;
  vw_waiting : option (RawMessage * list string)
}.

Definition awaiting (v : view) (id : string) : list RawMessage :=
  match vw_waiting v with
  | Some (header, ids) => if decide (id ∈ ids) then [header] else []
  | None => []
  end.

Definition subscribed (v : view) (id : string) : Prop := id ∈ vw_subs v ∨ awaiting v id ≠ [].

Definition ids_of (v : view) : list string := match vw_waiting v with Some (_, ids) => ids | None => [] end.

(** [U] are the identifiers given so far. *)
Record served (U : list string) (v : view) : Prop := {
  sv_subs id : id ∈ vw_subs v → id ∈ U;
  sv_ids id : id ∈ ids_of v → id ∈ U;
  sv_unique : NoDup (ids_of v);
  sv_used id : notes id (vw_out v) ≠ [] → id ∈ U;
  sv_segment id : ∃ before after, vw_sent v = before ++ notes id (vw_out v) ++ after;
  sv_served id : vw_open v = true → subscribed v id →
    ∃ before, vw_sent v = before ++ notes id (vw_out v) ++ awaiting v id;
  sv_named id : notes id (vw_out v) ≠ [] ∨ vw_open v = true ∧ subscribed v id → named id (vw_out v)
}.

Lemma notes_app id l l' : notes id (l ++ l') = notes id l ++ notes id l'.
Proof. apply omap_app. Qed.

Lemma notes_reply id l q : notes id (l ++ [Reply q]) = notes id l.
Proof. rewrite notes_app. apply app_nil_r. Qed.

Lemma notes_note id id' l x :
  notes id (l ++ [Notification id' x]) = notes id l ++ if decide (id' = id) then [x] else [].
Proof. rewrite notes_app. simpl. by destruct (decide _). Qed.

Lemma named_app id l l' : named id l → named id (l ++ l').
Proof. intros (l1 & l2 & q & -> & Hq & Hn). exists l1, (l2 ++ l'), q. by rewrite <- app_assoc. Qed.

Lemma named_prefix id l l' : named id (l ++ l') → notes id l ≠ [] → named id l.
Proof.
  intros (l1 & l2 & q & Heq & Hq & Hn) Hl. apply app_eq_inv in Heq as [(k & -> & Hk)|(k & -> & Hk)].
  - destruct k as [|o k]; [by rewrite app_nil_r in Hl|]. injection Hk as <- ->. by exists l1, k, q.
  - rewrite notes_app in Hn. by apply app_nil in Hn as [? _].
Qed.

Lemma awaiting_ids v id : awaiting v id ≠ [] ↔ id ∈ ids_of v.
Proof. unfold awaiting, ids_of. destruct (vw_waiting v) as [[]|]; [by case_decide|by rewrite elem_of_nil]. Qed.

Lemma awaiting_eq v v' id : vw_waiting v' = vw_waiting v → awaiting v' id = awaiting v id.
Proof. unfold awaiting. by intros ->. Qed.

Lemma ids_of_eq v v' : vw_waiting v' = vw_waiting v → ids_of v' = ids_of v.
Proof. unfold ids_of. by intros ->. Qed.

Lemma subscribed_used U v id : served U v → subscribed v id → id ∈ U.
Proof. intros Hv [Hid|Hid%awaiting_ids]; [by eapply sv_subs|by eapply sv_ids]. Qed.

Lemma served_mono U U' v : (∀ id, id ∈ U → id ∈ U') → served U v → served U' v.
Proof. intros Hsub []. split; auto. Qed.

Definition new_view : view := mkView true ∅ [] [] None.

Lemma new_view_served : served [] new_view.
Proof.
  assert (∀ id, ¬ subscribed new_view id) as Hnone.
  { intros id [Hs|Ha]; [by apply elem_of_empty in Hs|by apply Ha]. }
  split.
  - intros id Hs. by apply elem_of_empty in Hs.
  - done.
  - constructor.
  - done.
  - intros id. by exists [], [].
  - intros id _ Hs. by apply Hnone in Hs.
  - intros id [Hn|[_ Hs]]; [done|by apply Hnone in Hs].
Qed.

(** Once a session has ended, what may be written only shrinks. *)
Lemma served_closed U v v' rest more :
  served U v → vw_open v' = false → vw_out v = vw_out v' ++ rest → vw_sent v' = vw_sent v ++ more →
  (∀ id, id ∈ vw_subs v' → id ∈ U) → (∀ id, id ∈ ids_of v' → id ∈ U) → NoDup (ids_of v') →
  served U v'.
Proof.
  intros [Hsubs Hids Huniq Hused Hseg _ Hnamed] Ho Hout Hsent Hs Hi Hu.
  assert (∀ id, notes id (vw_out v') ≠ [] → notes id (vw_out v) ≠ []) as Hle.
  { intros id. rewrite Hout, notes_app. intros ? [? _]%app_nil. done. }
  split; try done.
  - auto.
  - intros id. destruct (Hseg id) as (a & b & Hab). rewrite Hout, notes_app in Hab.
    exists a, (notes id rest ++ b ++ more). by rewrite Hsent, Hab, <- !app_assoc.
  - intros id. rewrite Ho. done.
  - intros id [Hn|[? _]]; [|congruence]. apply (named_prefix _ _ rest); [|done]. rewrite <- Hout. auto.
Qed.

(** Replies, and subscriptions that end. *)
Lemma served_reply U v v' replies :
  served U v → vw_open v' = vw_open v → (∀ id, id ∈ vw_subs v' → id ∈ vw_subs v) →
  vw_out v' = vw_out v ++ (Reply <$> replies) → vw_sent v' = vw_sent v → vw_waiting v' = vw_waiting v →
  served U v'.
Proof.
  intros [Hsubs Hids Huniq Hused Hseg Hserved Hnamed] Ho Hs Hout Hsent Hw.
  assert (∀ id, notes id (vw_out v') = notes id (vw_out v)) as Hn.
  { intros id. rewrite Hout, notes_app. replace (notes id (Reply <$> replies)) with (@nil RawMessage); [apply app_nil_r|].
    clear Hout. induction replies as [|q replies IH]; [done|exact IH]. }
  assert (∀ id, awaiting v' id = awaiting v id) as Ha by (intros id; by apply awaiting_eq).
  assert (∀ id, subscribed v' id → subscribed v id) as Hsub.
  { intros id. unfold subscribed. rewrite Ha. intros [?|?]; [left; auto|by right]. }
  assert (ids_of v' = ids_of v) as Hi by by apply ids_of_eq.
  split.
  - auto.
  - rewrite Hi. done.
  - by rewrite Hi.
  - intros id. rewrite Hn. auto.
  - intros id. rewrite Hn, Hsent. auto.
  - intros id. rewrite Ho, Hn, Hsent, Ha. auto.
  - intros id. rewrite Ho, Hn, Hout. intros [?|[? ?]]; apply named_app, Hnamed; [by left|right; auto].
Qed.

(** A new subscription, under an identifier that was not given before. *)
Lemma served_subscribe U v v' id q :
  served U v → id ∉ U → vw_open v' = vw_open v → vw_subs v' = {[ id ]} ∪ vw_subs v →
  vw_out v' = vw_out v ++ [Reply q] → res_Result q = Marshal_string id →
  vw_sent v' = vw_sent v → vw_waiting v' = vw_waiting v → served (U ++ [id]) v'.
Proof.
  intros Hv Hid Ho Hs Hout Hq Hsent Hw.
  assert (∀ i, i ∈ U → i ≠ id) as Hfresh by (intros i Hi ->; done).
  assert (notes id (vw_out v) = []) as Hnone.
  { destruct (notes id (vw_out v)) eqn:Hn; [done|]. destruct Hid. eapply sv_used; [done|]. by rewrite Hn. }
  assert (id ∉ ids_of v) as Hwait by (intros ?%(sv_ids _ _ Hv); done).
  set (v1 := mkView (vw_open v) (vw_subs v) (vw_out v') (vw_sent v) (vw_waiting v)).
  assert (served U v1) as H1 by (apply (served_reply U v v1 [q]); [done|done|done|exact Hout|done|done]).
  assert (∀ i, subscribed v' i → i = id ∨ subscribed v1 i) as Hsub.
  { intros i [Hi|Hi]; [rewrite Hs in Hi; apply elem_of_union in Hi as [->%elem_of_singleton|Hi]|].
    - by left.
    - right. by left.
    - right. right. by rewrite <- (awaiting_eq v1 v'). }
  destruct H1 as [Hsubs Hids Huniq Hused Hseg Hserved Hnamed].
  assert (ids_of v' = ids_of v1) as Hi by by apply ids_of_eq.
  split; intros *.
  - rewrite Hs, elem_of_union, elem_of_singleton, elem_of_app, list_elem_of_singleton.
    intros [->|?]; [by right|left; by apply Hsubs].
  - rewrite Hi, elem_of_app. left. auto.
  - by rewrite Hi.
  - rewrite elem_of_app. left. auto.
  - rewrite Hsent. apply Hseg.
  - rewrite Hsent. intros Hop [->|Hx]%Hsub.
    + exists (vw_sent v). rewrite Hout, notes_reply, Hnone, (awaiting_eq v v') by done.
      destruct (awaiting v id) eqn:Ha; [by rewrite !app_nil_r|]. destruct Hwait. apply awaiting_ids. by rewrite Ha.
    + rewrite (awaiting_eq v1 v') by done.
      apply Hserved; [change (vw_open v = true); congruence|done].
  - destruct (decide (id0 = id)) as [->|Hne].
    + intros _. exists (vw_out v), [], q. done.
    + intros Hx. apply (Hnamed id0). destruct Hx as [?|[? [?|?]%Hsub]]; [by left|done|right].
      split; [change (vw_open v = true); congruence|done].
Qed.

(** A head is notified to the subscribers of this moment. *)
Lemma served_deliver U v v' header ids :
  served U v → vw_waiting v = None → vw_open v' = vw_open v → vw_subs v' = vw_subs v →
  vw_out v' = vw_out v → vw_sent v' = vw_sent v ++ [header] → vw_waiting v' = Some (header, ids) →
  NoDup ids → (∀ id, id ∈ ids ↔ id ∈ vw_subs v) → served U v'.
Proof.
  intros [Hsubs Hids Huniq Hused Hseg Hserved Hnamed] Hnone Ho Hs Hout Hsent Hw Hnd Hmem.
  assert (∀ id, awaiting v id = []) as Ha by (intros id; unfold awaiting; by rewrite Hnone).
  assert (∀ id, subscribed v' id → id ∈ vw_subs v) as Hsub.
  { intros id [Hi|Hi]; [by rewrite Hs in Hi|]. apply awaiting_ids in Hi. unfold ids_of in Hi.
    rewrite Hw in Hi. by apply Hmem. }
  split.
  - rewrite Hs. done.
  - intros id. unfold ids_of. rewrite Hw. intros Hi%Hmem. auto.
  - unfold ids_of. by rewrite Hw.
  - rewrite Hout. done.
  - intros id. destruct (Hseg id) as (a & b & Hab). rewrite Hout, Hsent, Hab. exists a, (b ++ [header]).
    by rewrite <- !app_assoc.
  - intros id. rewrite Ho, Hout, Hsent. intros Hop Hi%Hsub. destruct (Hserved id Hop) as [a Hab]; [by left|].
    rewrite Ha, app_nil_r in Hab. exists a. unfold awaiting. rewrite Hw, decide_True by by apply Hmem.
    by rewrite Hab, <- app_assoc.
  - intros id. rewrite Ho, Hout. intros Hi. apply Hnamed. destruct Hi as [?|[? ?%Hsub]]; [by left|right].
    split; [done|by left].
Qed.

(** Nobody is left to be notified. *)
Lemma served_idle U v :
  served U v → ids_of v = [] → served U (mkView (vw_open v) (vw_subs v) (vw_out v) (vw_sent v) None).
Proof.
  intros [Hsubs Hids Huniq Hused Hseg Hserved Hnamed] Hnone.
  assert (∀ id, awaiting v id = []) as Ha.
  { intros id. destruct (awaiting v id) eqn:Hx; [done|].
    assert (id ∈ ids_of v) as Hin by (apply awaiting_ids; by rewrite Hx). rewrite Hnone in Hin. by apply elem_of_nil in Hin. }
  assert (∀ id, id ∈ vw_subs v ∨ ([] : list RawMessage) ≠ [] → subscribed v id) as Hs by (intros id [?|?]; [by left|done]).
  split; simpl; [exact Hsubs|by intros id ?%elem_of_nil|apply NoDup_nil_2|exact Hused|exact Hseg| |].
  - intros id Ho Hi. destruct (Hserved id Ho (Hs id Hi)) as [a Hab]. exists a. by rewrite Hab, Ha.
  - intros id [?|[Ho Hi]]; apply Hnamed; [by left|right; auto].
Qed.

(** One subscriber of an open session is notified. *)
Lemma served_notify U v v' header id rest :
  served U v → vw_open v = true → vw_waiting v = Some (header, id :: rest) →
  vw_open v' = true → vw_subs v' = vw_subs v → vw_out v' = vw_out v ++ [Notification id header] →
  vw_sent v' = vw_sent v → vw_waiting v' = Some (header, rest) → served U v'.
Proof.
  intros Hv Hop Hw Ho Hs Hout Hsent Hw'. pose proof Hv as [Hsubs Hids Huniq Hused Hseg Hserved Hnamed].
  unfold ids_of in Hids, Huniq. rewrite Hw in Hids, Huniq. apply NoDup_cons in Huniq as [Hid Hnd].
  assert (∀ i, awaiting v i = if decide (i = id) then [header] else awaiting v' i) as Ha.
  { intros i. unfold awaiting. rewrite Hw, Hw'. destruct (decide (i = id)) as [->|Hne].
    - by rewrite decide_True by left.
    - destruct (decide (i ∈ rest)); [by rewrite decide_True by by right|].
      rewrite decide_False; [done|]. by intros [?|?]%elem_of_cons. }
  assert (awaiting v' id = []) as Hrest by (unfold awaiting; by rewrite Hw', decide_False).
  assert (∀ i, notes i (vw_out v') ++ awaiting v' i = notes i (vw_out v) ++ awaiting v i) as Hn.
  { intros i. rewrite Hout, notes_note, Ha, <- app_assoc. destruct (decide (id = i)) as [->|Hne].
    - by rewrite Hrest, decide_True.
    - by rewrite decide_False. }
  assert (∀ i, subscribed v' i → subscribed v i) as Hsub.
  { intros i [Hi|Hi]; [left; by rewrite <- Hs|right]. rewrite Ha. by destruct (decide _). }
  assert (subscribed v id) as Hact by (right; by rewrite Ha, decide_True).
  split.
  - rewrite Hs. done.
  - intros i. unfold ids_of. rewrite Hw'. intros Hi. apply Hids. by right.
  - unfold ids_of. by rewrite Hw'.
  - intros i. rewrite Hout, notes_note. destruct (decide (id = i)) as [<-|Hne]; [|rewrite app_nil_r; auto].
    intros _. by eapply subscribed_used.
  - intros i. rewrite Hsent. destruct (decide (id = i)) as [<-|Hne].
    + destruct (Hserved id Hop Hact) as [a Hab]. exists a, []. rewrite <- Hn, Hrest in Hab.
      by rewrite Hab, !app_nil_r.
    + rewrite Hout, notes_note, decide_False, app_nil_r by done. auto.
  - intros i _ Hi. rewrite Hsent, Hn. auto.
  - intros i Hi. rewrite Hout. apply named_app, Hnamed. destruct (decide (id = i)) as [<-|Hne]; [by right|].
    destruct Hi as [Hi|[_ Hi]]; [left|right; auto].
    by rewrite Hout, notes_note, decide_False, app_nil_r in Hi.
Qed.

(** ** The invariant of a session *)

Definition written_by (cn : connection) : list outgoing := cn_written cn ++ option_list (cn_flight cn).

(** The heads the pump has notified. *)
Definition notified (cn : connection) : list Head :=
  match cn_pump cn with Some p => dl_sent (pu_delivery p) | None => [] end.

Definition view_of (cn : connection) : view :=
  mkView (is_open cn) (ss_subs (cn_session cn))
    (written_by cn ++ if is_open cn then ss_queue (cn_session cn) else []) (Header <$> notified cn)
    (p ← cn_pump cn; '(h, ids) ← pu_notify p; Some (Header h, ids)).

(** The bytes that were drawn for identifiers, and the identifiers. *)
Definition drawn (e : ws_event) : option string := match e with Handle random => random | _ => None end.

Definition identifier (bytes : string) : string := "0x" +:+ EncodeToString bytes.

Section invariant.
  Context {W : Type} `{World W, Clients W, Runtimes W, HeadStore W, HeadStream W}.
  Variable capacity : nat.
  Variable unmarshal_error : RawMessage → string.
  Variable r : Runtime.
  Variable ctx : Context.

(** The head of a taken event has been followed, or the path in hand leads to it. *)
Definition event_followed (c : Head) (p : pump) (e : Event) : Prop :=
  Hash (ev_Head e) ∈ Hash <$> known c (dl_followed (pu_delivery p)) ∨ list.last (pu_path p) = Some (ev_Head e).

Record pump_inv (checkpoint : Event) (p : pump) : Prop := {
  pi_delivery : delivery_inv (history_limit r) (ev_Head checkpoint) (pu_delivery p);
  pi_events : Forall event_wf (pu_events p);
  pi_path : pu_running p = true → path_wf (ev_Head checkpoint) (pu_delivery p) (pu_path p);
  pi_cursor : dl_cursor (pu_delivery p) = default (ev_ID checkpoint) (ev_ID <$> list.last (pu_taken p));
  pi_taken : pu_running p = true → Forall (event_followed (ev_Head checkpoint) p) (pu_taken p)
}.

Record ws_inv (U : list string) (cn : connection) : Prop := {
  wi_session : session_wf capacity (cn_session cn);
  wi_served : served U (view_of cn);
  wi_idle : cn_pump cn = None → ss_pump (cn_session cn) = None;
  wi_pump p : cn_pump cn = Some p →
    ∃ checkpoint, ss_pump (cn_session cn) = Some checkpoint ∧ u64_wf (Number (ev_Head checkpoint)) ∧
      pump_inv checkpoint p
}.

(** The view after the session alone has changed. *)
Definition view_with (s : session) (cn : connection) : view :=
  mkView (ss_open s) (ss_subs s) (written_by cn ++ if ss_open s then ss_queue s else [])
    (vw_sent (view_of cn)) (vw_waiting (view_of cn)).

(** The view of a session that ends with the payloads not taken. *)
Lemma ended_served U cn s :
  served U (view_of cn) → ss_open s = false → (∀ id, id ∈ ss_subs s → id ∈ U) → served U (view_with s cn).
Proof using Type.
  intros Hv Ho Hs. apply (served_closed U (view_of cn) _ (if is_open cn then ss_queue (cn_session cn) else []) []);
    unfold view_with; simpl; rewrite ?Ho, ?app_nil_r; [done..| | |].
  - exact Hs.
  - apply (sv_ids _ _ Hv).
  - apply (sv_unique _ _ Hv).
Qed.

(** What a message without a new subscription does to the view. *)
Lemma replies_served U cn s q :
  served U (view_of cn) → (∀ id, id ∈ ss_subs s → id ∈ ss_subs (cn_session cn)) →
  queued capacity (Reply <$> q) (cn_session cn) s → served U (view_with s cn).
Proof using Type.
  intros Hv Hs [[Hq Ho]|(k & _ & Ho)].
  - apply (served_reply U (view_of cn) _ (if is_open cn then q else [])); try done.
    simpl. unfold is_open. rewrite Ho, Hq. destruct (ss_open (cn_session cn)); by rewrite ?fmap_nil, ?app_nil_r, ?app_assoc.
  - apply ended_served; [done|done|]. intros id Hid%Hs. by apply (sv_subs _ _ Hv).
Qed.

(** What a message with a new subscription does to it. *)
Lemma subscription_served U cn s id q :
  served U (view_of cn) → id ∉ U → ss_subs s = {[ id ]} ∪ ss_subs (cn_session cn) →
  res_Result q = Marshal_string id → queued capacity [Reply q] (cn_session cn) s →
  served (U ++ [id]) (view_with s cn).
Proof using Type.
  intros Hv Hid Hs Hres Hq.
  assert (ss_open s = false → served (U ++ [id]) (view_with s cn)) as Hended.
  { intros Ho. apply ended_served; [|done|].
    - revert Hv. apply served_mono. intros i Hi. apply elem_of_app. by left.
    - intros i. rewrite Hs, elem_of_union, elem_of_singleton, elem_of_app, list_elem_of_singleton.
      intros [->|Hi]; [by right|left]. by apply (sv_subs _ _ Hv). }
  destruct Hq as [[Hq Ho]|(k & _ & Ho)]; [|by apply Hended].
  destruct (ss_open s) eqn:Hop; [|by apply Hended].
  apply (served_subscribe U (view_of cn) _ id q); try done; simpl; unfold is_open; rewrite Hop, <- Ho; [done|].
  by rewrite Hq, <- app_assoc.
Qed.

Lemma newSubscriptionID_drawn (random : option string) id :
  drawn_id (λ w : W, (random, w)) id → ∃ bytes, random = Some bytes ∧ id = identifier bytes.
Proof using Type.
  intros (v & v' & Hid). unfold newSubscriptionID in Hid. destruct random as [bytes|]; simplify_eq/=. by eexists.
Qed.

(** What the stream answers next, to a reader or to a new session, is well formed. *)
Definition stream_sound (w : W) : Prop := reads_wf r w ∧ ∀ checkpoint w',
  store_StreamStart (cfg_Name (rt_Config r)) w = (Ok checkpoint, w') → u64_wf (Number (ev_Head checkpoint)).

Lemma start_sent checkpoint : dl_sent (start_delivery checkpoint) = [].
Proof using Type. unfold start_delivery. by destruct (IsZero _). Qed.

Lemma handle_step_inv U random cn w cn' w' :
  stream_sound w → ws_inv U cn → (∀ bytes, random = Some bytes → identifier bytes ∉ U) →
  handle_step capacity unmarshal_error r random cn w = (cn', w') →
  ws_inv (U ++ option_list (identifier <$> random)) cn'.
Proof using Type.
  intros Hckpt [Hwf Hv Hidle Hpump] Hfresh. set (U' := U ++ _).
  assert (∀ v, served U v → served U' v) as Hmono.
  { intros v. apply served_mono. intros id Hid. apply elem_of_app. by left. }
  unfold handle_step. destruct (cn_inbox cn) as [payload|]; [|intros [= <- _]; split; auto].
  destruct (handle_message _ _ _ r payload _ w) as [s w1] eqn:Hm. intros [= <- _].
  destruct (handle_message_answers _ _ _ _ _ _ _ _ _ Hwf Hm) as (Hwf' & Hans & Hsubs).
  assert (served U' (view_with s cn)) as Hserved.
  { destruct Hsubs as [Hsub|(sid & id & Hsub & Hid & Hdraw & Hq)].
    - apply Hmono. destruct (message_id payload) as [id|].
      + destruct Hans as (q & _ & Hq). by apply (replies_served U cn s [q]).
      + apply (replies_served U cn s []); [done|done|]. left. by rewrite app_nil_r.
    - apply newSubscriptionID_drawn in Hdraw as (bytes & -> & ->).
      exact (subscription_served U cn s _ (Success id (Marshal_string _)) Hv (Hfresh _ eq_refl) Hsub eq_refl Hq). }
  assert (ss_pump s = ss_pump (cn_session cn) ∨ cn_pump cn = None ∧ ∃ checkpoint,
    ss_pump s = Some checkpoint ∧ u64_wf (Number (ev_Head checkpoint))) as Hp.
  { apply handle_message_pump in Hm as [?|(Hn & checkpoint & w2 & Hc & Hs)]; [by left|right]. split.
    - destruct (cn_pump cn) as [p|]; [|done]. destruct (Hpump p eq_refl) as (? & ? & _). congruence.
    - exists checkpoint. split; [done|]. by eapply (proj2 Hckpt). }
  set (cn1 := with_session s (with_inbox None cn)). change (cn_pump cn1) with (cn_pump cn).
  destruct (cn_pump cn) as [p|] eqn:Hcn.
  - split; [done| |intros Hn; change (cn_pump cn = None) in Hn; congruence|].
    + unfold view_with, view_of in Hserved. unfold view_of, notified in *. simpl. by rewrite Hcn in *.
    + intros p' Hp'. change (cn_pump cn = Some p') in Hp'. rewrite Hcn in Hp'. injection Hp' as <-.
      destruct Hp as [Hp|[? _]]; [|done]. destruct (Hpump p eq_refl) as (c & Hc & ? & ?). exists c.
      split; [|done]. simpl. congruence.
  - unfold view_with, view_of, notified in Hserved. rewrite Hcn in Hserved. simpl in Hserved.
    destruct Hp as [Hp|(_ & checkpoint & Hs & Hc)].
    + rewrite Hp, Hidle by done. split; [done| | |].
      * unfold view_of, notified. change (cn_pump cn1) with (cn_pump cn). by rewrite Hcn.
      * intros _. change (ss_pump s = None). rewrite Hp. by apply Hidle.
      * intros p Hp'. change (cn_pump cn = Some p) in Hp'. congruence.
    + rewrite Hs. split; [done| |done|].
      * unfold view_of, notified. simpl. by rewrite start_sent.
      * intros p' [= <-]. exists checkpoint. split; [exact Hs|]. split; [done|].
        split; simpl; [by apply start_delivery_inv; [apply history_limit_ge|]|by apply Forall_nil|done| |by intros _; apply Forall_nil].
        unfold start_delivery. by destruct (IsZero _).
Qed.

(** Steps of the reader and the writer leave the pump alone. *)
Lemma frame_inv U cn cn' :
  ws_inv U cn → cn_pump cn' = cn_pump cn → ss_pump (cn_session cn') = ss_pump (cn_session cn) →
  session_wf capacity (cn_session cn') → served U (view_of cn') → ws_inv U cn'.
Proof using Type.
  intros [_ _ Hidle Hpump] Hp Hs Hwf Hv. split; [done|done|by rewrite Hp, Hs|].
  intros p. rewrite Hp, Hs. apply Hpump.
Qed.

(** A session that ends, or has ended. *)
Lemma ended_view U cn cn' rest :
  served U (view_of cn) → is_open cn' = false → ss_subs (cn_session cn') = ss_subs (cn_session cn) →
  vw_out (view_of cn) = written_by cn' ++ rest → notified cn' = notified cn →
  NoDup (ids_of (view_of cn')) → (∀ id, id ∈ ids_of (view_of cn') → id ∈ U) → served U (view_of cn').
Proof using Type.
  intros Hv Ho Hs Hout Hn Hnd Hids. apply (served_closed U (view_of cn) _ rest []); try done; simpl.
  - by rewrite Ho, app_nil_r.
  - by rewrite Hn, app_nil_r.
  - rewrite Hs. apply (sv_subs _ _ Hv).
Qed.

Lemma read_step_inv U payload cn : ws_inv U cn → ws_inv U (read_step payload cn).
Proof using Type. unfold read_step. destruct (_ && _); [|done]. intros Hi. apply (frame_inv U cn); [done..|apply Hi|apply Hi]. Qed.

Lemma take_step_inv U cn : ws_inv U cn → ws_inv U (take_step cn).
Proof using Type.
  intros Hi. unfold take_step. destruct (cn_flight cn) eqn:Hf; [done|].
  destruct (ss_queue (cn_session cn)) as [|payload queue] eqn:Hq; [done|].
  destruct (ss_open (cn_session cn)) eqn:Ho; [|done]. apply (frame_inv U cn); [done|done|done| |].
  - pose proof (wi_session _ _ Hi) as [? Hl]. split; [done|]. simpl. rewrite Hq in Hl. simpl in Hl. lia.
  - pose proof (wi_served _ _ Hi) as Hv. revert Hv. unfold view_of, written_by, is_open, notified. simpl.
    by rewrite Hf, Hq, Ho, app_nil_r, <- app_assoc.
Qed.

Lemma written_step_inv U ok cn : ws_inv U cn → ws_inv U (written_step ok cn).
Proof using Type.
  intros Hi. unfold written_step. destruct (cn_flight cn) as [payload|] eqn:Hf; [|done].
  pose proof (wi_served _ _ Hi) as Hv. destruct ok; apply (frame_inv U cn); try done; try apply Hi.
  - revert Hv. unfold view_of, written_by, is_open, notified. simpl. by rewrite Hf, app_nil_r.
  - apply (ended_view U cn _ (payload :: if is_open cn then ss_queue (cn_session cn) else [])); try done.
    + unfold view_of, written_by. simpl. by rewrite Hf, app_nil_r, <- app_assoc.
    + apply (sv_unique _ _ Hv).
    + apply (sv_ids _ _ Hv).
Qed.

Lemma disconnect_inv U cn : ws_inv U cn → ws_inv U (with_session (cancel (cn_session cn)) cn).
Proof using Type.
  intros Hi. pose proof (wi_served _ _ Hi) as Hv. apply (frame_inv U cn); try done; [apply Hi|].
  eapply (ended_view U cn); try done; [apply (sv_unique _ _ Hv)|apply (sv_ids _ _ Hv)].
Qed.

(** Steps of the pump. *)
Lemma pump_frame U cn cn' p p' :
  ws_inv U cn → cn_pump cn = Some p → cn_pump cn' = Some p' →
  ss_pump (cn_session cn') = ss_pump (cn_session cn) → session_wf capacity (cn_session cn') →
  served U (view_of cn') → (∀ c, u64_wf (Number (ev_Head c)) → pump_inv c p → pump_inv c p') → ws_inv U cn'.
Proof using Type.
  intros [_ _ _ Hpump] Hp Hp' Hs Hwf Hv Hstep. split; [done|done|by rewrite Hp'|].
  intros p1. rewrite Hp'. intros [= <-]. destruct (Hpump p Hp) as (checkpoint & Hc & Hw & Hi).
  exists checkpoint. rewrite Hs. auto.
Qed.

(** A pump that closes the session. *)
Lemma closed_inv U why cn p p' :
  ws_inv U cn → cn_pump cn = Some p → dl_sent (pu_delivery p') = dl_sent (pu_delivery p) → pu_notify p' = None →
  (∀ c, u64_wf (Number (ev_Head c)) → pump_inv c p → pump_inv c p') →
  ws_inv U (closeWithError why (with_pumping p' cn)).
Proof using Type.
  intros Hi Hp Hsent Hn Hstep. apply (pump_frame U cn _ p p'); try done; [apply Hi|].
  apply (ended_view U cn _ (if is_open cn then ss_queue (cn_session cn) else [])); try done;
    [apply Hi|unfold notified; by rewrite Hp|..]; unfold ids_of, view_of; simpl; rewrite Hn; [apply NoDup_nil_2|by intros id ?%elem_of_nil].
Qed.

(** A pump that goes on, with nobody to notify. *)
Lemma quiet_inv U cn p p' :
  ws_inv U cn → cn_pump cn = Some p → dl_sent (pu_delivery p') = dl_sent (pu_delivery p) →
  ids_of (view_of cn) = [] → pu_notify p' = None →
  (∀ c, u64_wf (Number (ev_Head c)) → pump_inv c p → pump_inv c p') → ws_inv U (with_pumping p' cn).
Proof using Type.
  intros Hi Hp Hsent Hids Hn Hstep. apply (pump_frame U cn _ p p'); try done; [apply Hi|].
  pose proof (served_idle _ _ (wi_served _ _ Hi) Hids) as Hv. revert Hv.
  unfold view_of, notified. simpl. by rewrite Hp, Hn, Hsent.
Qed.

Lemma idle_ids cn p : cn_pump cn = Some p → pu_notify p = None → ids_of (view_of cn) = [].
Proof using Type. intros Hp Hn. unfold ids_of, view_of. simpl. rewrite Hp. simpl. by rewrite Hn. Qed.

Lemma stop_pump_inv c p : pump_inv c p → pump_inv c (stop_pump p).
Proof using Type. by intros []. Qed.

(** What was followed stays so while the pump goes on. *)
Lemma taken_followed c p p' l :
  Forall (event_followed c p) l → (∃ more, dl_followed (pu_delivery p') = dl_followed (pu_delivery p) ++ more) →
  (∀ h, list.last (pu_path p) = Some h → h ∈ dl_followed (pu_delivery p') ∨ list.last (pu_path p') = Some h) →
  Forall (event_followed c p') l.
Proof using Type.
  intros Hl [more Hmore] Hlast. eapply Forall_impl; [exact Hl|]. intros e [He|He]; simpl.
  - left. rewrite Hmore. unfold known in *. rewrite app_assoc, fmap_app. apply elem_of_app. by left.
  - destruct (Hlast _ He) as [Hin|]; [left|by right]. apply list_elem_of_fmap_2. apply elem_of_app. by right.
Qed.

Lemma poll_step_inv U p cn w cn' w' :
  stream_sound w → ws_inv U cn → cn_pump cn = Some p → pu_running p = true → poll_step r ctx p cn w = (cn', w') → ws_inv U cn'.
Proof using Type.
  intros Hev Hi Hp Hrun. unfold poll_step. destruct (pu_notify p) eqn:Hn; [by intros [= <- _]|].
  destruct (pu_path p) eqn:Hpa; [|by intros [= <- _]]. destruct (pu_events p) eqn:He; [|by intros [= <- _]].
  pose proof (idle_ids cn p Hp Hn) as Hids. destruct (is_open cn).
  - destruct (read_batch r ctx _ w) as [[why|events] w1] eqn:Hb; intros [= <- _].
    + apply (closed_inv U why cn p); try done. intros c _. apply stop_pump_inv.
    + apply (quiet_inv U cn p); try done. intros c _ [Hd _ _ Hc Ht].
      split; [done|by eapply read_batch_wf; [apply Hev|]|done|done|]. intros _. apply (taken_followed _ p _ _ (Ht Hrun)).
      * exists []. by rewrite app_nil_r.
      * by rewrite Hpa.
  - intros [= <- _]. apply (quiet_inv U cn p); try done. intros c _. apply stop_pump_inv.
Qed.

Lemma follow_step_inv U p cn w cn' w' :
  ws_inv U cn → cn_pump cn = Some p → pu_running p = true → follow_step r ctx p cn w = (cn', w') → ws_inv U cn'.
Proof using Type.
  intros Hi Hp Hrun. unfold follow_step. destruct (pu_notify p) eqn:Hn; [by intros [= <- _]|].
  destruct (pu_path p) eqn:Hpa; [|by intros [= <- _]]. destruct (pu_events p) as [|event events] eqn:He; [by intros [= <- _]|].
  set (st := with_cursor _ _). destruct (expandPath r ctx _ _ _ w) as [[e|path] w1] eqn:Hx; intros [= <- _].
  - apply (closed_inv U _ cn p); try done. intros c _ [Hd Hev _ _ _]. rewrite He in Hev.
    split; [by apply with_cursor_inv|by inversion Hev|done|simpl; by rewrite last_snoc|done].
  - apply (quiet_inv U cn p); try done; [by eapply idle_ids|]. intros c Hc [Hd Hev _ _ Ht]. rewrite He in Hev.
    apply Forall_cons in Hev as [Hev1 Hev]. apply (with_cursor_inv _ _ (ev_ID event)) in Hd.
    destruct (expandPath_attached r ctx (ev_Head c) st event w path w1) as [Hwf Hend]; [done| |done|done|exact Hx|].
    { unfold IsZero. intros Hz. by bool_to_prop. }
    split; [done|done|done|simpl; by rewrite last_snoc|]. intros _. apply Forall_app. split.
    + apply (taken_followed _ p _ _ (Ht Hrun)); [exists []; simpl; by rewrite app_nil_r|by rewrite Hpa].
    + apply Forall_singleton. destruct Hend as [[-> Hh]|Hla]; [left|by right]. simpl. rewrite Hh.
      apply list_elem_of_fmap_2. destruct (last_known _ _ _ Hd) as [?|Hz]; [done|].
      unfold IsZero in Hz. bool_to_prop. destruct Hev1 as [_ Hne]. simpl in *. congruence.
Qed.

Lemma path_wf_tail c st st' h path :
  path_wf c st (h :: path) → dl_followed st' = dl_followed st ++ [h] → path_wf c st' path.
Proof using Type.
  intros (Hwf & Hch & _) Hf. apply Forall_cons in Hwf as [_ Hwf]. split_and!; [done|by destruct path; [|destruct Hch]|].
  intros x Hx. right. exists h. destruct path as [|y path]; [done|]. injection Hx as ->. destruct Hch as [Hch _].
  split; [|by left]. unfold known. rewrite Hf, !elem_of_app, list_elem_of_singleton. tauto.
Qed.

Lemma deliver_sent limit h st st' closed :
  deliver limit h st = (st', closed) →
  match closed with
  | Some _ => st' = st
  | None => dl_sent st' = dl_sent st ++ if bool_decide (Hash h ∈ dl_seen st) then [] else [h]
  end.
Proof using Type.
  unfold deliver. destruct (bool_decide _); [intros [= <- <-]; by rewrite app_nil_r|].
  destruct (_ <=? _)%Z; [by intros [= <- <-]|]. destruct (trim _ _ _). by intros [= <- <-].
Qed.

Lemma deliver_cursor limit h st st' closed : deliver limit h st = (st', closed) → dl_cursor st' = dl_cursor st.
Proof using Type.
  unfold deliver. destruct (bool_decide _); [by intros [= <- _]|].
  destruct (_ <=? _)%Z; [by intros [= <- _]|]. destruct (trim _ _ _). by intros [= <- _].
Qed.

Lemma deliver_step_inv U p cn :
  ws_inv U cn → cn_pump cn = Some p → pu_running p = true → ws_inv U (deliver_step r p cn).
Proof using Type.
  intros Hi Hp Hrun. unfold deliver_step. destruct (pu_notify p) eqn:Hn; [done|].
  destruct (pu_path p) as [|h path] eqn:Hpa; [done|].
  destruct (deliver _ h (pu_delivery p)) as [st closed] eqn:Hd. pose proof (deliver_sent _ _ _ _ _ Hd) as Hsent.
  assert (∀ c ids, pump_inv c p → pump_inv c (mkPump st (pu_taken p) (pu_events p) path ids (bool_decide (closed = None)))) as Hstep.
  { intros c ids [Hdel Hev Hpath Hc Ht]. specialize (Hpath Hrun). rewrite Hpa in Hpath. pose proof Hpath as (Hwf & _ & Hat).
    apply Forall_cons in Hwf as [Hh _].
    destruct (deliver_inv _ _ _ _ _ _ (history_limit_ge r) Hdel Hh (Hat h eq_refl) Hd) as [Hdel' Hf].
    split; [done|done| |simpl; by rewrite (deliver_cursor _ _ _ _ _ Hd)|].
    - intros Hnone%bool_decide_eq_true. by eapply path_wf_tail, Hf.
    - intros Hnone%bool_decide_eq_true. apply (taken_followed _ p _ _ (Ht Hrun)); simpl; rewrite (Hf Hnone); [by eexists|].
      rewrite Hpa. intros x Hx. destruct path as [|y path]; [left|by right].
      injection Hx as ->. apply elem_of_app. right. by apply list_elem_of_singleton. }
  destruct closed as [why|].
  - subst st. apply (closed_inv U why cn p); try done. intros c _. apply Hstep.
  - destruct (bool_decide (Hash h ∈ _)).
    + rewrite app_nil_r in Hsent. apply (quiet_inv U cn p); try done; [by eapply idle_ids|]. intros c _. apply Hstep.
    + apply (pump_frame U cn _ p (mkPump st (pu_taken p) (pu_events p) path
        (Some (h, merge_sort String.le (base.elements (ss_subs (cn_session cn))))) true)); try done.
      * apply Hi.
      * apply (served_deliver U (view_of cn) _ (Header h)
          (merge_sort String.le (base.elements (ss_subs (cn_session cn))))); try done.
        -- apply Hi.
        -- unfold view_of. simpl. rewrite Hp. simpl. by rewrite Hn.
        -- simpl. unfold notified. simpl. by rewrite Hp, Hsent, fmap_app.
        -- rewrite merge_sort_Permutation. apply NoDup_elements.
        -- intros id. rewrite merge_sort_Permutation. apply elem_of_elements.
      * intros c _. apply Hstep.
Qed.

(** A notification that fails ends the session. *)
Lemma abandoned_inv U cn p p' :
  ws_inv U cn → cn_pump cn = Some p → dl_sent (pu_delivery p') = dl_sent (pu_delivery p) → pu_notify p' = None →
  (∀ c, u64_wf (Number (ev_Head c)) → pump_inv c p → pump_inv c p') →
  ws_inv U (with_pumping p' (with_session (cancel (cn_session cn)) cn)).
Proof using Type.
  intros Hi Hp Hsent Hn Hstep. exact (frame_inv U _ (with_pumping p' (with_session (cancel (cn_session cn)) cn))
    (closed_inv U "" cn p p' Hi Hp Hsent Hn Hstep) eq_refl eq_refl (wi_session _ _ Hi)
    (wi_served _ _ (closed_inv U "" cn p p' Hi Hp Hsent Hn Hstep))).
Qed.

Lemma notify_step_inv U p cn :
  ws_inv U cn → cn_pump cn = Some p → pu_running p = true → ws_inv U (notify_step capacity p cn).
Proof using Type.
  intros Hi Hp Hrun. unfold notify_step. destruct (pu_notify p) as [[h ids]|] eqn:Hn; [|done].
  set (paused rest := mkPump (pu_delivery p) (pu_taken p) (pu_events p) (pu_path p) rest true).
  assert (∀ rest c, pump_inv c p → pump_inv c (paused rest)) as Hstep.
  { intros rest c [? ? Hpath ? Ht]. split; [done|done|intros _; by apply Hpath|done|intros _; by apply Ht]. }
  assert (vw_waiting (view_of cn) = Some (Header h, ids)) as Hw.
  { unfold view_of. simpl. rewrite Hp. simpl. by rewrite Hn. }
  destruct ids as [|id rest].
  { apply (quiet_inv U cn p); try done; [unfold ids_of; by rewrite Hw|intros c _; apply Hstep]. }
  destruct (negb _); [apply (abandoned_inv U cn p (paused None)); try done; intros c _; apply Hstep|].
  unfold enqueue. destruct (decide _) as [Hlt|].
  2: { apply (abandoned_inv U cn p (paused None)); try done. intros c _. apply Hstep. }
  pose proof (wi_served _ _ Hi) as Hv. apply (pump_frame U cn _ p (paused (Some (h, rest)))); try done.
  - destruct (wi_session _ _ Hi) as [? _]. split; [done|]. simpl. rewrite length_app. simpl. lia.
  - assert (Header <$> dl_sent (pu_delivery p) = vw_sent (view_of cn)) as Hsent by (simpl; unfold notified; by rewrite Hp).
    destruct (is_open cn) eqn:Ho; unfold is_open in Ho.
    + apply (served_notify U (view_of cn) _ (Header h) id rest); try done.
      unfold view_of, is_open. simpl. rewrite Ho. by rewrite <- app_assoc.
    + apply (ended_view U cn _ []); try done.
      * unfold view_of, is_open. simpl. by rewrite Ho.
      * unfold notified. by rewrite Hp.
      * pose proof (sv_unique _ _ Hv) as Hnd. unfold ids_of in *. rewrite Hw in Hnd. by inversion Hnd.
      * intros i Hin. apply (sv_ids _ _ Hv). unfold ids_of. rewrite Hw. by right.
  - intros c _. apply Hstep.
Qed.

(** A step of the pump matters only while it runs. *)
Ltac pumping p Hp Hrun :=
  destruct (cn_pump _) as [p|] eqn:Hp; [|by intros [= <- _]];
  destruct (pu_running p) eqn:Hrun; [|by intros [= <- _]].

Lemma ws_step_inv U e cn w cn' w' :
  stream_sound w → ws_inv U cn → (∀ bytes, drawn e = Some bytes → identifier bytes ∉ U) →
  ws_step capacity unmarshal_error r ctx (cn, w) e = (cn', w') →
  ws_inv (U ++ option_list (identifier <$> drawn e)) cn'.
Proof using Type.
  intros Hev Hi Hfresh. unfold ws_step, pump_step.
  destruct e; simpl; rewrite ?app_nil_r.
  - intros [= <- _]. by apply read_step_inv.
  - by apply handle_step_inv.
  - intros [= <- _]. by apply take_step_inv.
  - intros [= <- _]. by apply written_step_inv.
  - pumping p Hp Hrun. by apply poll_step_inv.
  - pumping p Hp Hrun. by apply follow_step_inv.
  - pumping p Hp Hrun. intros [= <- _]. by apply deliver_step_inv.
  - pumping p Hp Hrun. intros [= <- _]. by apply notify_step_inv.
  - intros [= <- _]. by apply disconnect_inv.
Qed.

Lemma new_connection_inv : ws_inv [] new_connection.
Proof using Type. split; [split; [apply Nat.leb_le; by vm_compute|apply Nat.le_0_l]|exact new_view_served|done|done]. Qed.

Lemma identifier_inj bytes bytes' : identifier bytes = identifier bytes' → bytes = bytes'.
Proof using Type. intros [= Heq]. by apply EncodeToString_inj. Qed.

Lemma drawn_one e : option_list (identifier <$> drawn e) = identifier <$> omap drawn [e].
Proof using Type. destruct (drawn e) eqn:Hd; cbn; by rewrite Hd. Qed.

(** The stream is sound wherever the session takes a step. *)
Definition sound_run (events : list ws_event) (w : W) : Prop := ∀ before e,
  before ++ [e] `prefix_of` events → stream_sound (ws_run capacity unmarshal_error r ctx before w).2.

Lemma ws_run_inv events w cn w' :
  sound_run events w → NoDup (omap drawn events) →
  ws_run capacity unmarshal_error r ctx events w = (cn, w') →
  ws_inv (identifier <$> omap drawn events) cn.
Proof using Type.
  revert cn w'. induction events as [|e events IH] using rev_ind; intros cn w' Hsound Hnd; unfold ws_run.
  { intros [= <- _]. apply new_connection_inv. }
  rewrite foldl_app, omap_app, fmap_app in *. cbn [foldl]. rewrite <- drawn_one. apply NoDup_app in Hnd as (Hnd & Hdisj & _).
  destruct (foldl _ _ events) as [cn1 w1] eqn:Hrun. intros Hstep.
  eapply ws_step_inv; [|eapply IH; [|done|exact Hrun]| |exact Hstep].
  { specialize (Hsound events e ltac:(done)). unfold ws_run in Hsound. by rewrite Hrun in Hsound. }
  { intros before e' Hb. apply (Hsound before e'). etrans; [exact Hb|by apply prefix_app_r]. }
  intros bytes Hd Hin. apply list_elem_of_fmap in Hin as (bytes' & Heq%identifier_inj & Hin). subst bytes'.
  apply (Hdisj bytes Hin). simpl. rewrite Hd. by left.
Qed.
End invariant.

(** What was followed has been notified, under its hash. *)
Lemma known_sent limit c st hash : delivery_inv limit c st →
  hash ∈ Hash <$> known c (dl_followed st) → hash ∈ Hash <$> known c (dl_sent st).
Proof.
  intros Hd. unfold known. rewrite !fmap_app, !elem_of_app. intros [?|Hin]; [by left|right].
  apply list_elem_of_fmap in Hin as (h & -> & Hin). by apply (di_complete _ _ _ Hd).
Qed.

(** * Properties *)


(** ** A session

    A client subscribes; the stream skips a height, and the writer runs while the second
    head is being notified. *)

#[local] Instance session_stream : HeadStream (Sim (ChainWorld (unit * MemoryStore))) := {
  stream_ReadEvents _ _ cursor _ _ w := (Ok (if String.eqb cursor "1-0" then [stream_event] else []), w)
}.

#[local] Instance session_store : HeadStore (Sim (ChainWorld (unit * MemoryStore))) := {
  store_Acquire := store_Acquire (HeadStore := sim_chain_store unit);
  store_Renew := store_Renew (HeadStore := sim_chain_store unit);
  store_Release := store_Release (HeadStore := sim_chain_store unit);
  store_Publish := store_Publish (HeadStore := sim_chain_store unit);
  store_BeginReorg := store_BeginReorg (HeadStore := sim_chain_store unit);
  store_Snapshot := store_Snapshot (HeadStore := sim_chain_store unit);
  store_StreamStart _ w := (Ok stream_checkpoint, w)
}.

Definition session_events : list ws_event :=
  [ Read (js "{'jsonrpc':'2.0','id':1,'method':'eth_subscribe','params':['newHeads']}"); Handle (Some "k");
    Take; Poll; Follow; Written true; Deliver; Notify; Notify; Take; Deliver; Written true; Notify; Take; Written true ].

Definition session_run : connection * Sim (ChainWorld (unit * MemoryStore)) :=
  ws_run 4 (λ _, "") demo_runtime Background session_events stream_world.

