(* ===== verification/Delivery.v ===== *)
(** * From the store to a session — internal/gateway/websocket.go over internal/head

    [Websocket.v] shows that the subscribers of a session get what its pump notifies;
    here the pump is followed back to the store.  What the store promises readers of its
    stream is an interface, [StreamLaws]; sessions are proved against it, and both stores
    implement it. *)

From S2P Require Import Prelude GoStrings GoJson JsonRpc Head MemoryStore World Redis RedisStore SharedStore SharedLaws SharedProperties.
From S2P Require Import Upstream Chain RequestCache Receipts Activity Subscriptions Websocket.

(** The checkpoint of a stream that has no events. *)
Definition no_event : Event := mkEvent "0-0" zero_Head.

(** ** What the stream promises

    [history l w]: [l] can be what was accepted on the chain up to [w], oldest first, the
    events that have been trimmed included.  A history only grows, whatever a session does ([moves]); a
    checkpoint is its end at some moment, unless nothing has been accepted; and what is
    read after an event follows it in the history without a gap. *)
Class StreamLaws (W : Type) (chain : string) `{World W, Clients W, Runtimes W, SingleFlight W, HeadStore W, HeadStream W} := {
  history : list Event → W → Prop;
  moves : relation W;
  moves_activity :: Activity moves;
  moves_snapshot w res w' : store_Snapshot chain w = (res, w') → moves w w';
  history_grows w w' : moves w w' → ∀ l, history l w → ∃ l', l `prefix_of` l' ∧ history l' w';
  history_wf l w : history l w → Forall event_wf l;
  history_start l w res w' : history l w → store_StreamStart chain w = (res, w') →
    ∃ l', l `prefix_of` l' ∧ history l' w' ∧
      ∀ checkpoint, res = Ok checkpoint → checkpoint = no_event ∨ ∃ before, before ++ [checkpoint] `prefix_of` l';
  history_read l ctx cursor block count w res w' :
    history l w → stream_ReadEvents ctx chain cursor block count w = (res, w') →
    ∃ l', l `prefix_of` l' ∧ history l' w' ∧
      ∀ events, res = Ok events → events ⊆ l' ∧
        ∀ before e, before ++ [e] `prefix_of` l → ev_ID e = cursor → before ++ e :: events `prefix_of` l'
}.

(** ** The trail of a pump *)

(** The cursor, the events taken so far, and those of the batch that are left. *)
Definition trail (cn : connection) : option (string * list Event * list Event) :=
  (λ p, (dl_cursor (pu_delivery p), pu_taken p, pu_events p)) <$> cn_pump cn.

(** The trail leads through the history from the checkpoint on. *)
Definition on_trail (l : list Event) (checkpoint : Event) (t : string * list Event * list Event) : Prop :=
  let '(cursor, taken, events) := t in
  cursor = default (ev_ID checkpoint) (ev_ID <$> list.last taken) ∧
  (checkpoint = no_event ∨ ∃ before, before ++ checkpoint :: taken ++ events `prefix_of` l).

Definition following (l : list Event) (cn : connection) : Prop :=
  match trail cn with
  | None => ss_pump (cn_session cn) = None
  | Some t => ∃ checkpoint, ss_pump (cn_session cn) = Some checkpoint ∧ on_trail l checkpoint t
  end.

Lemma on_trail_grows l l' c t : l `prefix_of` l' → on_trail l c t → on_trail l' c t.
Proof. destruct t as [[cursor taken] events]. intros Hl [Hc [Ht|[b Hb]]]; (split; [done|]); [by left|right]. exists b. by etrans. Qed.

Lemma following_grows l l' cn : l `prefix_of` l' → following l cn → following l' cn.
Proof.
  unfold following. destruct (trail cn) as [t|]; [|done]. intros Hl (c & Hc & Ht). exists c. split; [done|].
  by eapply on_trail_grows.
Qed.

(** Most steps leave the trail alone. *)
Lemma following_frame l cn cn' : trail cn' = trail cn → ss_pump (cn_session cn') = ss_pump (cn_session cn) →
  following l cn → following l cn'.
Proof. unfold following. by intros -> ->. Qed.

Lemma trail_pump cn p : cn_pump cn = Some p → trail cn = Some (dl_cursor (pu_delivery p), pu_taken p, pu_events p).
Proof. unfold trail. by intros ->. Qed.

Section delivered.
  Context {W : Type} (chain : string) `{StreamLaws W chain}.
  Variable capacity : nat.
  Variable unmarshal_error : RawMessage → string.
  Variable r : Runtime.
  Variable ctx : Context.
  Hypothesis r_chain : cfg_Name (rt_Config r) = chain.

#[local] Abbreviation grows := (λ w w' : W, ∀ l, history l w → ∃ l', l `prefix_of` l' ∧ history l' w').

Lemma grows_trans w w' w'' : grows w w' → grows w' w'' → grows w w''.
Proof using Type.
  intros H12 H23 l Hl. destruct (H12 l Hl) as (l1 & ? & Hl1). destruct (H23 l1 Hl1) as (l2 & ? & ?).
  exists l2. split; [by etrans|done].
Qed.

Lemma grows_refl w : grows w w.
Proof using Type. intros l Hl. by exists l. Qed.


Lemma fetchBlock_active hash preferred w res w' : fetchBlock r ctx hash preferred w = (res, w') → moves w w'.
Proof using Type.
  unfold fetchBlock. destruct (EVMBlockByHash _ _ _ w) as [[e|b] w1] eqn:Hb; apply (EVMBlockByHash_active moves) in Hb;
    by intros [= _ <-].
Qed.

Lemma expandPath_active last next hist w res w' : expandPath r ctx last next hist w = (res, w') → moves w w'.
Proof using Type.
  unfold expandPath. destruct (IsZero last); [by intros [= _ <-]|]. destruct (String.eqb _ _); [by intros [= _ <-]|].
  destruct (_ && _); [by intros [= _ <-]|]. destruct (_ && _); [by intros [= _ <-]|].
  generalize (Z.to_nat (cfg_ReorgDepth (rt_Config r))) as depth. generalize [next] as path. generalize next as cursor.
  intros cursor path depth. revert w path cursor. induction depth as [|depth IH]; intros w path cursor; cbn [expand_loop];
    [by intros [= _ <-]|].
  destruct (EqualFold _ _); [destruct (negb _); by intros [= _ <-]|].
  destruct (hist !! _); [destruct (negb _); by intros [= _ <-]|].
  destruct (fetchBlock _ _ _ _ w) as [[e|parent] w1] eqn:Hf; apply fetchBlock_active in Hf; [by intros [= _ <-]|].
  destruct (negb _); [by intros [= _ <-]|]. intros He%IH. by etrans.
Qed.

  (** *** The checkpoint *)

Lemma pump_checkpoint_grows l w res w' : history l w → pump_checkpoint r w = (res, w') →
  ∃ l', l `prefix_of` l' ∧ history l' w' ∧
    ∀ checkpoint, res = Ok checkpoint → checkpoint = no_event ∨ ∃ before, before ++ [checkpoint] `prefix_of` l'.
Proof using r_chain.
  intros Hl. unfold pump_checkpoint. rewrite r_chain. destruct (store_StreamStart chain w) as [start w1] eqn:Hs.
  destruct (history_start _ _ _ _ Hl Hs) as (l1 & Hl1 & Hh1 & Hc). destruct start as [e|checkpoint].
  { intros [= <- <-]. by exists l1. }
  destruct (store_Snapshot chain w1) as [sn w2] eqn:Hsn. destruct (history_grows _ _ (moves_snapshot _ _ _ Hsn) l1 Hh1) as (l2 & Hl2 & Hh2).
  intros Hres. assert (w' = w2 ∧ (∀ c, res = Ok c → c = checkpoint)) as [-> Hok].
  { destruct sn as [e|sn]; [by simplify_eq|]. destruct (Get sn Latest). destruct (_ || _); simplify_eq; naive_solver. }
  exists l2. split; [by etrans|]. split; [done|]. intros c Heq. pose proof (Hok c Heq) as ->.
  destruct (Hc checkpoint eq_refl) as [->|[b Hb]]; [by left|right]. exists b. by etrans.
Qed.

  (** A message changes the world only where it starts the pump. *)
Lemma handle_message_world random payload s w s' w' :
  handle_message capacity unmarshal_error (λ w : W, (random, w)) r payload s w = (s', w') →
  w' = w ∧ ss_pump s' = ss_pump s ∨
  ss_pump s = None ∧ ∃ res, pump_checkpoint r w = (res, w') ∧
    (ss_pump s' = None ∨ ∃ checkpoint, res = Ok checkpoint ∧ ss_pump s' = Some checkpoint).
Proof using Type*.
  unfold handle_message, drop_subscription, unsubscribe.
  assert (∀ q s1, ss_pump s1 = ss_pump s → (enqueueResponse capacity q s1, w) = (s', w') → w' = w ∧ ss_pump s' = ss_pump s) as Hreply.
  { intros q s1 Hs1 [= <- <-]. by rewrite enqueueResponse_pump. }
  destruct (Unmarshal_Request payload) as [request|]; [|left; by eapply Hreply].
  destruct (Validate request); [left; by eapply Hreply|].
  destruct (IsNotification request); [left; repeat case_match; by simplify_eq|].
  destruct (String.eqb (req_Method request) "eth_subscribe");
    [|left; repeat case_match; by (eapply Hreply; [|eassumption])].
  unfold subscribe. destruct (ParseParams _) as [e|[|parameter [|]]]; try (left; by eapply Hreply).
  destruct (Unmarshal_string _ _); [|left; by eapply Hreply]. destruct (negb _); [left; by eapply Hreply|].
  unfold newSubscriptionID. destruct (ss_pump s) as [c|] eqn:Hp.
  - destruct random; simpl; [|left; by eapply Hreply]. destruct (decide _); [left; by eapply Hreply|].
    intros [= <- <-]. left. done.
  - destruct (pump_checkpoint r w) as [[e|c] w1] eqn:Hc.
    + intros [= <- <-]. right. split; [done|]. exists (Err e). split; [done|]. left. by rewrite enqueueResponse_pump.
    + intros Hs. right. split; [done|]. exists (Ok c).
      assert (w' = w1 ∧ (ss_pump s' = None ∨ ss_pump s' = Some c)) as [-> Hs'].
      { destruct random; simpl in Hs; [destruct (decide _)|]; injection Hs as <- <-; (split; [done|]);
          rewrite ?enqueueResponse_pump; auto. }
      split; [done|]. destruct Hs' as [->| ->]; [by left|right; by exists c].
Qed.

  (** *** The steps *)

(** The history and the trail go on. *)
Definition goes_on (l : list Event) (st : connection * W) : Prop :=
  ∃ l', l `prefix_of` l' ∧ history l' st.2 ∧ following l' st.1.

Lemma goes_on_frame l cn w cn' w' : history l w → grows w w' → following l cn →
  trail cn' = trail cn → ss_pump (cn_session cn') = ss_pump (cn_session cn) → goes_on l (cn', w').
Proof using Type.
  intros Hl Hg Hf Ht Hs. destruct (Hg l Hl) as (l' & Hl' & Hh). exists l'. split; [done|]. split; [done|].
  by eapply following_frame, following_grows.
Qed.

Lemma goes_on_same l cn w cn' : history l w → following l cn →
  trail cn' = trail cn → ss_pump (cn_session cn') = ss_pump (cn_session cn) → goes_on l (cn', w).
Proof using Type. intros Hl. apply (goes_on_frame l cn w); [done|apply grows_refl]. Qed.

Lemma handle_step_follows random cn w l : history l w → following l cn →
  goes_on l (handle_step capacity unmarshal_error r random cn w).
Proof using r_chain.
  intros Hl Hf. unfold handle_step. destruct (cn_inbox cn) as [payload|]; [|by apply (goes_on_same l cn w)].
  destruct (handle_message _ _ _ r payload _ w) as [s w1] eqn:Hm.
  apply handle_message_world in Hm as [[-> Hs]|(Hnone & res & Hc & Hs)].
  - set (cn1 := with_session s (with_inbox None cn)). change (cn_pump cn1) with (cn_pump cn).
    assert (match cn_pump cn, ss_pump s with None, Some c => with_pumping (start_pump c) cn1 | _, _ => cn1 end = cn1) as ->.
    { destruct (cn_pump cn) eqn:Hp; [done|]. unfold following, trail in Hf. rewrite Hp in Hf. simpl in Hf. by rewrite Hs, Hf. }
    by apply (goes_on_same l cn w).
  - destruct (pump_checkpoint_grows _ _ _ _ Hl Hc) as (l' & Hl' & Hh & Hck). exists l'. split; [done|]. split; [done|].
    destruct (cn_pump cn) as [p|] eqn:Hp.
    { exfalso. unfold following in Hf. rewrite (trail_pump _ _ Hp) in Hf. destruct Hf as (c & Hc' & _). congruence. }
    change (cn_pump (with_session s (with_inbox None cn))) with (cn_pump cn). rewrite Hp.
    destruct Hs as [Hs|(c & -> & Hs)]; rewrite Hs; unfold following, trail; simpl; [by rewrite Hp|]. exists c. split; [done|].
    split; [unfold start_delivery; by destruct (IsZero _)|]. by apply Hck.
Qed.

Lemma poll_step_follows p cn w l : cn_pump cn = Some p → history l w → following l cn →
  goes_on l (poll_step r ctx p cn w).
Proof using r_chain.
  intros Hp Hl Hf. assert (goes_on l (cn, w)) as Hstay by by apply (goes_on_same l cn w).
  unfold poll_step. destruct (pu_notify p); [done|]. destruct (pu_path p); [|done].
  destruct (pu_events p) eqn:Hev; [|done].
  assert (∀ cn' w', grows w w' → cn_session cn' = cn_session cn ∨ cn_session cn' = cancel (cn_session cn) →
    cn_pump cn' = Some (stop_pump p) → goes_on l (cn', w')) as Hstop.
  { intros cn' w' Hg Hs Hp'. apply (goes_on_frame l cn w); [done..| |].
    - unfold trail. by rewrite Hp, Hp'.
    - by destruct Hs as [->| ->]. }
  destruct (is_open cn); [|apply Hstop; [apply grows_refl|by left|done]].
  unfold read_batch. rewrite r_chain. destruct (stream_ReadEvents _ _ _ _ _ w) as [res w1] eqn:Hread.
  destruct (history_read _ _ _ _ _ _ _ _ Hl Hread) as (l1 & Hl1 & Hh1 & Hcont).
  assert (grows w w1) as Hg1. { intros l0 Hl0. destruct (history_read _ _ _ _ _ _ _ _ Hl0 Hread) as (? & ? & ? & _). eauto. }
  destruct res as [e|events]; [apply Hstop; [done|by right|done]|].
  destruct (store_Snapshot chain w1) as [sn w2] eqn:Hsn. pose proof (history_grows _ _ (moves_snapshot _ _ _ Hsn)) as Hg2.
  destruct (stale_stream r sn w2); [apply Hstop; [by apply (grows_trans w w1 w2)|by right|done]|].
  destruct (Hg2 l1 Hh1) as (l2 & Hl2 & Hh2). exists l2. split; [by etrans|]. split; [done|].
  unfold following in *. rewrite (trail_pump _ _ Hp) in Hf. destruct Hf as (c & Hc & Hcur & Htr).
  exists c. split; [done|]. split; [done|]. destruct Htr as [?|[before Hb]]; [by left|right]. simpl in *.
  specialize (Hcont events eq_refl) as [_ Hcont].
  rewrite Hev, app_nil_r in Hb. destruct (list.last (pu_taken p)) as [e|] eqn:Hlast.
  2: { apply last_None in Hlast. rewrite Hlast in *. exists before. etrans; [by apply (Hcont before c)|done]. }
  apply last_Some in Hlast as [taken Htaken]. exists before. rewrite Htaken in *. simpl in Hcur.
  assert (before ++ c :: (taken ++ [e]) ++ events = (before ++ c :: taken) ++ e :: events) as ->
    by by rewrite <- !app_assoc.
  assert ((before ++ c :: taken) ++ [e] = before ++ c :: taken ++ [e]) as Heq by by rewrite <- app_assoc.
  etrans; [|exact Hl2]. apply Hcont; [by rewrite Heq|done].
Qed.

Lemma follow_step_follows p cn w l : cn_pump cn = Some p → history l w → following l cn →
  goes_on l (follow_step r ctx p cn w).
Proof using Type*.
  intros Hp Hl Hf. assert (goes_on l (cn, w)) as Hstay by by apply (goes_on_same l cn w).
  unfold follow_step. destruct (pu_notify p); [done|]. destruct (pu_path p); [|done].
  destruct (pu_events p) as [|event events] eqn:Hev; [done|].
  destruct (expandPath _ _ _ _ _ w) as [path w1] eqn:He. apply expandPath_active in He.
  assert (∀ cn' p', cn_pump cn' = Some p' → dl_cursor (pu_delivery p') = ev_ID event →
    pu_taken p' = pu_taken p ++ [event] → pu_events p' = events →
    ss_pump (cn_session cn') = ss_pump (cn_session cn) → goes_on l (cn', w1)) as Hnext.
  { intros cn' p' Hp' Hcur Ht Hes Hs. destruct (history_grows _ _ He l Hl) as (l' & Hl' & Hh). exists l'. split; [done|]. split; [done|].
    apply (following_grows _ _ _ Hl') in Hf. change (following l' cn'). unfold following in *. rewrite (trail_pump _ _ Hp) in Hf.
    rewrite (trail_pump _ _ Hp'). destruct Hf as (c & Hc & _ & Htr). exists c. simpl. split; [congruence|].
    rewrite Hcur, Ht, Hes, last_snoc. split; [done|]. destruct Htr as [?|[before Hb]]; [by left|right]. exists before.
    by rewrite Hev, <- app_assoc in *. }
  destruct path; by eapply Hnext.
Qed.

Lemma deliver_step_follows p cn w l : cn_pump cn = Some p → history l w → following l cn →
  goes_on l (deliver_step r p cn, w).
Proof using Type*.
  intros Hp Hl Hf. apply (goes_on_same l cn w); try done; unfold deliver_step; destruct (pu_notify p), (pu_path p) as [|h path]; try done;
    destruct (deliver _ h _) as [st closed] eqn:Hd; pose proof (deliver_cursor _ _ _ _ _ Hd) as Hcur;
    destruct closed; try done; unfold trail; rewrite ?Hp; simpl; by rewrite ?Hcur.
Qed.

Lemma notify_step_follows p cn w l : cn_pump cn = Some p → history l w → following l cn →
  goes_on l (notify_step capacity p cn, w).
Proof using Type*.
  intros Hp Hl Hf. apply (goes_on_same l cn w); try done; unfold notify_step, enqueue, trail; rewrite ?Hp; simpl;
    repeat case_match; simplify_eq/=; by rewrite ?Hp.
Qed.

Lemma ws_step_follows e cn w l : history l w → following l cn →
  goes_on l (ws_step capacity unmarshal_error r ctx (cn, w) e).
Proof using Type*.
  intros Hl Hf.
  assert (∀ step, (∀ p, cn_pump cn = Some p → goes_on l (step p cn w)) → goes_on l (pump_step step cn w)) as Hpump.
  { intros step Hstep. unfold pump_step. destruct (cn_pump cn) as [p|] eqn:Hp; [|by apply (goes_on_same l cn w)].
    destruct (pu_running p); [by apply Hstep|by apply (goes_on_same l cn w)]. }
  destruct e; simpl.
  - apply (goes_on_same l cn w); try done; unfold read_step; by destruct (_ && _).
  - by apply handle_step_follows.
  - apply (goes_on_same l cn w); try done; unfold take_step; by repeat case_match.
  - apply (goes_on_same l cn w); try done; unfold written_step; by repeat case_match.
  - apply Hpump. intros p Hp. by apply poll_step_follows.
  - apply Hpump. intros p Hp. by apply follow_step_follows.
  - apply Hpump. intros p Hp. by apply deliver_step_follows.
  - apply Hpump. intros p Hp. by apply notify_step_follows.
  - by apply (goes_on_same l cn w).
Qed.

Lemma ws_run_follows events w l : history l w → goes_on l (ws_run capacity unmarshal_error r ctx events w).
Proof using Type*.
  intros Hl. unfold ws_run. induction events as [|e events IH] using rev_ind; [by exists l|].
  rewrite foldl_app. cbn [foldl]. destruct IH as (l1 & Hl1 & Hh1 & Hf1). destruct (foldl _ _ events) as [cn1 w1].
  destruct (ws_step_follows e cn1 w1 l1 Hh1 Hf1) as (l2 & Hl2 & ?). exists l2. split; [by etrans|done].
Qed.

(** So the stream is sound wherever the session goes. *)
Lemma history_sound l w : history l w → stream_sound r w.
Proof using r_chain.
  intros Hl. unfold stream_sound, reads_wf. rewrite r_chain. split.
  - intros ctx' cursor block count evs w' Hread.
    destruct (history_read _ _ _ _ _ _ _ _ Hl Hread) as (l' & _ & Hh & Hin). apply history_wf in Hh.
    rewrite Forall_forall in *. intros e He. apply Hh. by apply (proj1 (Hin evs eq_refl)).
  - intros c w' Hs. destruct (history_start _ _ _ _ Hl Hs) as (l' & _ & Hh & Hc). apply history_wf in Hh.
    destruct (Hc c eq_refl) as [->|[before [rest ->]]]; [by vm_compute|].
    rewrite !Forall_app, Forall_singleton in Hh. apply Hh.
Qed.

Lemma history_sound_run events w l : history l w → sound_run capacity unmarshal_error r ctx events w.
Proof using Type*.
  intros Hl before e _. destruct (ws_run_follows before w l Hl) as (l' & _ & Hh & _). by eapply history_sound.
Qed.
End delivered.

(** * Properties *)

(** C11: a session follows the store.  Run a session on a store that keeps [StreamLaws],
    through any sequence of events of its goroutines.  The events its pump has taken, and
    those in hand, are the ones the store accepted right after the checkpoint of the
    session, in order and without a gap, whatever was accepted or trimmed meanwhile
    (unless nothing had been accepted when the session started).
    While the pump runs, each event it has taken has been notified, or has the block of
    the checkpoint, or is where the path in hand leads.  Each head that was followed
    extends, or competes at the same height with, an earlier one or the checkpoint, also
    where the stream skipped some and the gap was filled from providers; what is notified
    is what was followed, each block once; and what is remembered for that stays within
    its limits. *)
Theorem subscribers_follow_store {W : Type} (r : Runtime) `{StreamLaws W (cfg_Name (rt_Config r))}
    capacity unmarshal_error ctx events (w : W) l cn w' :
  history l w → NoDup (omap drawn events) → ws_run capacity unmarshal_error r ctx events w = (cn, w') →
  ∃ l', l `prefix_of` l' ∧ history l' w' ∧ ∀ p, cn_pump cn = Some p → ∃ checkpoint,
    ss_pump (cn_session cn) = Some checkpoint ∧
    (checkpoint = no_event ∨ ∃ before, before ++ checkpoint :: pu_taken p ++ pu_events p `prefix_of` l') ∧
    let d := pu_delivery p in
    (pu_running p = true → ∀ e, e ∈ pu_taken p →
       Hash (ev_Head e) ∈ Hash <$> known (ev_Head checkpoint) (dl_sent d) ∨
       list.last (pu_path p) = Some (ev_Head e)) ∧
    (∀ i h, dl_followed d !! i = Some h → attached (ev_Head checkpoint) (take i (dl_followed d)) h) ∧
    dl_sent d `sublist_of` dl_followed d ∧ NoDup (Hash <$> dl_sent d) ∧
    (∀ h, h ∈ dl_followed d → Hash h ∈ Hash <$> dl_sent d) ∧
    (Z.of_nat (size (dl_seen d)) ≤ max_seen)%Z ∧ (Z.of_nat (length (dl_order d)) ≤ history_limit r)%Z ∧
    dom (dl_history d) ⊆@{gset string} list_to_set (dl_order d).
Proof.
  intros Hl Hnd Hrun.
  pose proof (history_sound_run _ capacity unmarshal_error r ctx eq_refl events w l Hl) as Hsound.
  destruct (ws_run_inv _ _ _ _ _ _ _ _ Hsound Hnd Hrun) as [_ _ _ Hpump].
  destruct (ws_run_follows _ capacity unmarshal_error r ctx eq_refl events w l Hl) as (l' & Hl' & Hh & Hf).
  rewrite Hrun in Hh, Hf. exists l'. split; [done|]. split; [done|]. intros p Hp.
  destruct (Hpump p Hp) as (checkpoint & Hc & _ & [Hd _ _ _ Ht]). exists checkpoint. split; [done|].
  unfold following in Hf. simpl in Hf. rewrite (trail_pump _ _ Hp) in Hf. destruct Hf as (c & Hc' & _ & Htrail).
  rewrite Hc in Hc'. injection Hc' as <-. split; [exact Htrail|]. cbv zeta. split; [|by destruct Hd].
  intros Hrunning e He. specialize (Ht Hrunning). rewrite Forall_forall in Ht.
  destruct (Ht e He) as [Hin|]; [left|by right]. by apply (known_sent _ _ _ _ Hd).
Qed.
