(* ===== verification/Streams.v ===== *)
(** * Both stores keep the promise of the stream — internal/head/types.go and redis.go

    The in-process store keeps every event, so its history is its stream; a reader that
    waits is woken by publications.  The shared store trims its stream, so its history is
    any sequence of events of which the stream holds the end. *)

From S2P Require Import Prelude GoStrings GoJson JsonRpc Head MemoryStore World Redis RedisStore SharedStore SharedLaws SharedProperties RedisSim.
From S2P Require Import Upstream Chain RequestCache Receipts Coordinator Activity Leases Subscriptions Websocket Delivery.

(** ** The in-process store *)

(** What other goroutines do to the store; they publish blocks with a hash. *)
Definition published (family : string → string) (m m' : MemoryStore) : Prop :=
  ∃ op, op_ok family op (MemoryStore.view m (op_chain op)) ∧ m' = MemoryStore.exec op m ∧
    ∀ now token h, op = OpPublish now token h → is_evm_latest h = true → head_wf h.

Section memory.
  Variables (family : string → string) (chain : string).

#[local] Abbreviation step := (published family).

(** The chain's stream: well formed, and of well-formed blocks. *)
Definition stream_of (m : MemoryStore) (l : list Event) : Prop :=
  store_wf family m ∧ events_of m chain = l ∧ Forall event_wf l.

Lemma accept_head_wf h v : head_wf h → head_wf (accept h v).1.
Proof using Type.
  unfold accept, stamp_ChangedAt. intros Hh. repeat case_match; simplify_eq/=; exact Hh.
Qed.

Lemma exec_view_events op v : (∀ now token h, op = OpPublish now token h → is_evm_latest h = true → head_wf h) →
  ∃ more, v_events (exec_view op v) = v_events v ++ more ∧ Forall event_wf more.
Proof using Type.
  intros Hpub. assert (∃ more, v_events v = v_events v ++ more ∧ Forall event_wf more) as Hnone.
  { exists []. split; [by rewrite app_nil_r|by apply Forall_nil]. }
  destruct op as [now c o ttl|now c t ttl|c t|now t h|now c t]; simpl; try (repeat case_match; exact Hnone).
  destruct (owns now t v && fence_open h v); [|done]. unfold accept_view. pose proof (accept_head_wf h v) as Hwf.
  destruct (accept h v) as [h' fresh]. simpl. destruct (fresh && is_evm_latest h) eqn:Hnew; [|exact Hnone].
  apply andb_true_iff in Hnew as [_ Hel]. eexists. split; [done|]. apply Forall_singleton. exact (Hwf (Hpub _ _ _ eq_refl Hel)).
Qed.

Lemma published_stream m m' l : step m m' → stream_of m l → ∃ l', l `prefix_of` l' ∧ stream_of m' l'.
Proof using Type.
  intros (op & Hok & -> & Hpub) (Hw & Hl & Hwf).
  assert (store_wf family (MemoryStore.exec op m)) as Hw' by by eapply store_step_wf; [by constructor|].
  assert (events_of (MemoryStore.exec op m) chain = v_events (MemoryStore.view (MemoryStore.exec op m) chain)) as Hev by done.
  rewrite exec_refines in Hev. case_decide.
  - destruct (exec_view_events op (MemoryStore.view m chain) Hpub) as (more & Hmore & Hm). rewrite Hmore in Hev. simpl in Hev.
    exists (l ++ more). split; [by apply prefix_app_r|]. split; [done|]. rewrite Hev, Hl. split; [done|]. by apply Forall_app.
  - exists l. split; [done|]. split; [done|]. by rewrite Hev.
Qed.

Lemma published_streams m m' l : rtc step m m' → stream_of m l → ∃ l', l `prefix_of` l' ∧ stream_of m' l'.
Proof using Type.
  intros Hsteps. revert l. induction Hsteps as [m|m m1 m' Hs _ IH]; intros l Hl; [by exists l|].
  destruct (published_stream _ _ _ Hs Hl) as (l1 & Hl1 & Hs1). destruct (IH l1 Hs1) as (l2 & Hl2 & ?).
  exists l2. split; [by etrans|done].
Qed.

(** *** A reader that waits *)

(** The stores it is woken with come one after another. *)
Fixpoint waits (m : MemoryStore) (ws : list wakeup) : Prop :=
  match ws with
  | [] => True
  | Notified m' :: ws => rtc step m m' ∧ waits m' ws
  | _ :: ws => waits m ws
  end.

(** The store when it is done. *)
Fixpoint settled (m : MemoryStore) (ws : list wakeup) : MemoryStore :=
  match ws with
  | [] => m
  | Notified m' :: ws => settled m' ws
  | _ :: ws => settled m ws
  end.

Lemma waits_settled m ws : waits m ws → rtc step m (settled m ws).
Proof using Type.
  revert m. induction ws as [|[e| |m'] ws IH]; intros m; simpl; [done|auto|auto|]. intros [Hm Hws]. etrans; [exact Hm|auto].
Qed.

(** A page is what follows the cursor in the store of some moment. *)
Lemma ReadEvents_page cursor count m ws evs : waits m ws →
  MemoryStore.ReadEvents chain cursor count m ws = Some (Ok evs) →
  ∃ m1 rest, rtc step m m1 ∧ rtc step m1 (settled m ws) ∧ retained_after cursor (events_of m1 chain) = Some rest ∧
    evs `prefix_of` rest.
Proof using Type.
  revert m. induction ws as [|wake ws IH]; intros m Hw; cbn [MemoryStore.ReadEvents];
    destruct (retained_after cursor (events_of m chain)) as [[|e rest]|] eqn:Hr; try done.
  - intros [= <-]. exists m, (e :: rest). split_and!; [done|done|done|]. unfold page. destruct (_ && _); [apply prefix_take|done].
  - destruct wake as [err| |m']; [done| |].
    + intros [= <-]. exists m, []. split_and!; [done|by apply waits_settled|done|done].
    + destruct Hw as [Hm Hw]. intros Hread. destruct (IH m' Hw Hread) as (m1 & rest & H1' & H2' & H3' & H4').
      exists m1, rest. split_and!; [by etrans|done|done|done].
  - intros [= <-]. exists m, (e :: rest). split_and!; [done|by apply waits_settled|done|].
    unfold page. destruct (_ && _); [apply prefix_take|done].
Qed.

Lemma retained_after_sub cursor l rest : retained_after cursor l = Some rest → rest ⊆ l.
Proof using Type.
  unfold retained_after. destruct (after_cursor cursor l) as [r|] eqn:Ha; [|destruct (String.eqb _ _); by intros [= <-]].
  intros [= ->]. revert Ha. induction l as [|e l IH]; [done|]. simpl. destruct (String.eqb _ _).
  - intros [= ->] x Hx. by right.
  - intros Hr x Hx. right. by apply IH.
Qed.

(** Reading keeps the promise. *)
Lemma ReadEvents_history l cursor count m ws res : waits m ws → stream_of m l →
  MemoryStore.ReadEvents chain cursor count m ws = Some res →
  ∃ l', l `prefix_of` l' ∧ stream_of (settled m ws) l' ∧ ∀ events, res = Ok events → events ⊆ l' ∧
    ∀ before e, before ++ [e] `prefix_of` l → ev_ID e = cursor → before ++ e :: events `prefix_of` l'.
Proof using Type.
  intros Hw Hl Hread. destruct res as [err|evs].
  { destruct (published_streams _ _ _ (waits_settled _ _ Hw) Hl) as (l' & Hl' & ?). by exists l'. }
  destruct (ReadEvents_page _ _ _ _ _ Hw Hread) as (m1 & rest & H1' & H2' & Hr & Hpage).
  destruct (published_streams _ _ _ H1' Hl) as (l1 & Hl1 & Hs1).
  destruct (published_streams _ _ _ H2' Hs1) as (l2 & Hl2 & Hs2). exists l2. split; [by etrans|]. split; [done|].
  intros events [= <-]. destruct Hs1 as (Hwf1 & Hev1 & _). rewrite Hev1 in Hr. split.
  - intros x Hx. destruct Hl2 as [more ->]. apply elem_of_app. left. apply (retained_after_sub _ _ _ Hr).
    destruct Hpage as [k ->]. apply elem_of_app. by left.
  - intros before e [k1 Hb] Hc. destruct Hl1 as [k2 Hl1]. rewrite Hb, <- app_assoc in Hl1.
    pose proof (retained_after_prefix (MemoryStore.view m1 chain) (before ++ [e]) (k1 ++ k2)) as Hpost.
    unfold cursor_after in Hpost. rewrite last_snoc in Hpost. simpl in Hpost. rewrite Hev1, Hc in Hpost.
    rewrite Hpost in Hr; [|apply (wf_stream _ _ _ (Hwf1 chain))|done]. injection Hr as <-.
    etrans; [|exact Hl2]. rewrite Hl1, <- app_assoc. simpl. by apply prefix_app, prefix_cons.
Qed.
End memory.

(** *** A world with an in-process store *)

Abbreviation StoreWorld := (Sim (ChainWorld (unit * MemoryStore))).

Definition store_in (w : StoreWorld) : MemoryStore := (cw_rest (sim_state w)).2.

Definition with_store_in (m : MemoryStore) (w : StoreWorld) : StoreWorld :=
  let c := sim_state w in with_sim_state (mkChainWorld (cw_clients c) (cw_runtimes c) ((cw_rest c).1, m)) w.

Section store_world.
  Variables (family : string → string) (wakes : MemoryStore → list wakeup).
  Hypothesis wakes_ok : ∀ m, waits family m (wakes m).

(** A reader waits until its timer ends the wait at the latest. *)
Definition memory_stream : HeadStream StoreWorld := {|
  stream_ReadEvents _ chain cursor _ count w :=
    let m := store_in w in
    match MemoryStore.ReadEvents chain cursor count m (wakes m ++ [TimedOut]) with
    | Some res => (res, with_store_in (settled m (wakes m ++ [TimedOut])) w)
    | None => (Ok [], w)
    end
|}.

Lemma timed_waits m : waits family m (wakes m ++ [TimedOut]).
Proof using wakes_ok.
  assert (∀ ws m, waits family m ws → waits family m (ws ++ [TimedOut])) as Hend; [|by apply Hend].
  induction ws as [|[] ws IH]; simpl; naive_solver.
Qed.

Definition store_grows (chain : string) (w w' : StoreWorld) : Prop :=
  ∀ l, stream_of family chain (store_in w) l → ∃ l', l `prefix_of` l' ∧ stream_of family chain (store_in w') l'.

Lemma store_grows_same chain w w' : store_in w' = store_in w → store_grows chain w w'.
Proof using Type. intros Hm l Hl. exists l. by rewrite Hm. Qed.

#[export] Instance store_grows_activity chain : Activity (store_grows chain).
Proof using Type.
  split.
  - split; [by intros w; apply store_grows_same|]. intros w1 w2 w3 H12 H23 l Hl. destruct (H12 l Hl) as (l2 & ? & Hl2).
    destruct (H23 l2 Hl2) as (l3 & ? & ?). exists l3. split; [by etrans|done].
  - intros req ctx w r w' [= _ <-]. by apply store_grows_same.
  - intros k ctx w r w' [= _ <-]. by apply store_grows_same.
  - intros k w. by apply store_grows_same.
  - intros k s w. by apply store_grows_same.
  - intros k s w. by apply store_grows_same.
  - intros A group key f w r shared w' Hf. simpl. destruct (f w) as [r1 w1] eqn:H1'. intros [= _ _ <-]. by eapply Hf.
  - intros d ctx w r w'. simpl. destruct (match ctx_deadline ctx with Some _ => _ | None => _ end);
      intros [= _ <-]; by apply store_grows_same.
Qed.

Definition memory_stream_laws chain : @StreamLaws StoreWorld chain _ _ _ _ _ memory_stream.
Proof using wakes_ok.
  refine (@Build_StreamLaws StoreWorld chain _ _ _ _ _ memory_stream (λ l w, stream_of family chain (store_in w) l)
    (store_grows chain) (store_grows_activity chain) _ _ _ _ _).
  - intros w res w' [= _ <-]. by apply store_grows_same.
  - by intros w w' Hg.
  - by intros l w (_ & _ & Hwf).
  - intros l w res w' Hl Hs. apply lift_op_inv in Hs; [|done]. exists l. split; [done|].
    change (MemoryStore.StreamStart chain (store_in w) = (res, store_in w')) in Hs. unfold MemoryStore.StreamStart in Hs.
    destruct Hl as (Hw & Hev & Hwf). destruct (list.last (events_of (store_in w) chain)) as [e|] eqn:Hlast; injection Hs as <- <-.
    + split; [done|]. intros c [= <-]. right. apply last_Some in Hlast as [before Hb]. exists before. by rewrite <- Hev, Hb.
    + split; [done|]. intros c [= <-]. by left.
  - intros l ctx cursor block count w res w' Hl. simpl.
    destruct (MemoryStore.ReadEvents _ _ _ _ _) as [res1|] eqn:Hread; intros [= <- <-].
    + exact (ReadEvents_history family chain l cursor count _ _ _ (timed_waits _) Hl Hread).
    + exfalso. revert Hread. clear. generalize (store_in w) as m. intros m. generalize (wakes m) as ws. intros ws.
      revert m. induction ws as [|[] ws IH]; intros m; simpl; repeat case_match; try done. apply IH.
Defined.
End store_world.

(** ** The shared store *)

Section retained.
  Variables (chain_family : string → string) (chain : string).

(** The stream holds the end of [full]; [n] entries have been trimmed. *)
Record retains (full : list (stream_id * Head)) (n : nat) (v : rview) : Prop := {
  rt_events : rv_events v = drop n full;
  rt_trimmed : (n ≤ length full)%nat;
  rt_sorted : StronglySorted id_lt full.*1;
  rt_last : Forall (λ i, ¬ id_lt (rv_last v) i) full.*1;
  rt_ids : Forall (λ i, id_lt (0, 0)%Z i ∧ (0 ≤ i.2)%Z) full.*1;
  rt_zero : ¬ id_lt (rv_last v) (0, 0)%Z;
  rt_heads : Forall head_wf full.*2
}.

(** A publication adds an entry at the end and trims from the front. *)
Lemma retains_step full n v v' : view_step chain_family chain v v' → retains full n v →
  ∃ full' n', full `prefix_of` full' ∧ (n ≤ n')%nat ∧ retains full' n' v'.
Proof using Type.
  intros Hs Hr. destruct Hs as [| | | | |k i x Hi Hi2 Hx]; try (exists full, n; split; [done|split; [done|by destruct Hr]]).
  destruct Hr as [He Hn Hsort Hlast Hids Hz Hh].
  assert (rv_events v ++ [(i, x)] = drop n (full ++ [(i, x)])) as Happ by by rewrite He, drop_app_le.
  exists (full ++ [(i, x)]), (n + (length (rv_events v ++ [(i, x)]) - k))%nat. split; [by apply prefix_app_r|]. split; [lia|].
  split; simpl.
  - unfold keep_last. rewrite Happ, drop_drop. done.
  - rewrite Happ, length_drop, length_app. simpl. lia.
  - rewrite fmap_app. apply StronglySorted_app_2; [|done|repeat constructor].
    intros a b Ha ->%list_elem_of_singleton. rewrite Forall_forall in Hlast. eapply id_le_lt_trans; [by apply Hlast|done].
  - rewrite fmap_app. apply Forall_app. split; [|apply Forall_singleton, id_lt_irrefl].
    eapply Forall_impl; [exact Hlast|]. intros a Ha Hia. apply Ha. by eapply id_lt_trans.
  - rewrite fmap_app. apply Forall_app. split; [done|]. apply Forall_singleton. split; [|done].
    simpl. by eapply id_le_lt_trans.
  - intros Hiz. apply Hz. by eapply id_lt_trans.
  - rewrite fmap_app. apply Forall_app. split; [done|]. by apply Forall_singleton.
Qed.

Lemma retains_steps full n v v' : rtc (view_step chain_family chain) v v' → retains full n v →
  ∃ full' n', full `prefix_of` full' ∧ (n ≤ n')%nat ∧ retains full' n' v'.
Proof using Type.
  intros Hs. revert full n. induction Hs as [v|v v1 v' Hs _ IH]; intros full n Hr; [by exists full, n|].
  destruct (retains_step _ _ _ _ Hs Hr) as (full1 & n1 & Hf1 & Hn1 & Hr1).
  destruct (IH _ _ Hr1) as (full2 & n2 & Hf2 & Hn2 & Hr2). exists full2, n2. split_and!; [by etrans|lia|done].
Qed.

(** What comes after an entry, in a list in order. *)
Lemma filter_after (before : list (stream_id * Head)) e after :
  StronglySorted id_lt (before ++ e :: after).*1 → filter (λ x, id_lt e.1 x.1) (before ++ e :: after) = after.
Proof using Type.
  rewrite fmap_app, fmap_cons. intros Hs. rewrite filter_app, filter_cons_False by apply id_lt_irrefl.
  assert (filter (λ x, id_lt e.1 x.1) before = []) as ->.
  { induction before as [|x before IH]; [done|]. inversion Hs as [|? ? Hs' Hx]; subst.
    rewrite filter_cons_False; [by apply IH|]. rewrite Forall_forall in Hx. intros Hlt.
    apply (id_lt_irrefl x.1). eapply id_lt_trans; [apply Hx|exact Hlt]. apply elem_of_app. right. by left. }
  simpl. assert (Forall (id_lt e.1) after.*1) as Hafter.
  { clear -Hs. induction before as [|x before IH]; [by inversion Hs|]. inversion Hs; subst. auto. }
  clear -Hafter. induction after as [|x after IH]; [done|]. csimpl in Hafter. inversion Hafter; subst.
  rewrite filter_cons_True by done. f_equal. by apply IH.
Qed.

Lemma retains_kept full n v before e after i : retains full n v → full = before ++ (i, e) :: after →
  i ∈ (rv_events v).*1 → (n ≤ length before)%nat.
Proof using Type.
  intros Hr -> Hin. pose proof (rt_sorted _ _ _ Hr) as Hs. rewrite (rt_events _ _ _ Hr) in *.
  apply Nat.nlt_ge. intros Hlt. rewrite fmap_drop in Hin.
  rewrite fmap_app, fmap_cons in Hs, Hin. simpl in Hs, Hin. clear -Hs Hin Hlt.
  assert (NoDup (before.*1 ++ i :: after.*1)) as Hnd.
  { clear -Hs. induction Hs as [|y l Hl IH Hy]; constructor; [|done]. intros Hy'.
    rewrite Forall_forall in Hy. by apply (id_lt_irrefl y), Hy. }
  rewrite drop_app_ge in Hin by (rewrite length_fmap; lia). rewrite length_fmap in Hin.
  destruct (n - length before)%nat as [|k] eqn:Hk; [lia|]. simpl in Hin.
  apply NoDup_app in Hnd as (_ & _ & Hnd). apply NoDup_cons in Hnd as [Hni _]. apply Hni.
  by apply (subseteq_drop k).
Qed.

(** Entries that are kept follow the cursor without a gap. *)
Lemma retains_after full n v before e after i : retains full n v → full = before ++ (i, e) :: after →
  (n ≤ length before)%nat → filter (λ x, id_lt i x.1) (rv_events v) = after.
Proof using Type.
  intros Hr -> Hn. pose proof (rt_sorted _ _ _ Hr) as Hs. rewrite (rt_events _ _ _ Hr).
  rewrite drop_app_le by done. apply (filter_after (drop n before) (i, e)).
  rewrite <- drop_app_le by done. rewrite fmap_drop. by apply StronglySorted_drop.
Qed.
End retained.

Section shared.
  Context {W R : Type} `{World W, Clients W, Runtimes W, SingleFlight W, Cjson, CjsonHeads, !CjsonLaws W, RedisLaws R, RedisClient W R}.
  Variables (store : RedisStore) (chain_family : string → string) (json_error : string → string) (client : Context).
  Context `{!RedisClientLaws W R (server_step store chain_family)}.
  Variable chain : string.

#[local] Abbreviation step := (server_step store chain_family).

(** The events of a server whose stream holds the end of them. *)
Definition served_events (l : list Event) (n : nat) (r : R) : Prop :=
  server_wf store chain_family r ∧ ∃ v full, shows store (rd_keys r) chain v ∧ rview_wf chain_family chain v ∧
    retains full n v ∧ l = event_of <$> full.

Lemma served_steps l n r r' : rtc step r r' → served_events l n r →
  ∃ l' n', l `prefix_of` l' ∧ (n ≤ n')%nat ∧ served_events l' n' r'.
Proof using Type*.
  intros Hsteps (Hw & v & full & Hs & Hv & Hr & ->).
  destruct (server_steps_view _ _ _ _ _ _ Hsteps Hs Hv) as (v' & Hs' & Hvs & Hv').
  destruct (retains_steps _ _ _ _ _ _ Hvs Hr) as (full' & n' & [more ->] & Hn & Hr').
  exists (event_of <$> full ++ more), n'. split; [rewrite fmap_app; by apply prefix_app_r|]. split; [done|].
  split; [by eapply server_steps_wf|]. by exists v', (full ++ more).
Qed.

(** *** Checkpoints *)

Lemma StreamStart_served l n w res w' : served_events l n (rc_server w) →
  RedisStore.StreamStart json_error store client chain w = (res, w') →
  ∃ l' n', l `prefix_of` l' ∧ served_events l' n' (rc_server w') ∧
    ∀ checkpoint, res = Ok checkpoint → checkpoint = no_event ∨ ∃ before, before ++ [checkpoint] `prefix_of` l'.
Proof using Type*.
  intros Hl. unfold RedisStore.StreamStart. destruct (run_command _ client w) as [response w1] eqn:Hrun.
  pose proof (run_reading store chain_family (XREVRANGE (key store chain "events")) _ _ _ _ I Hrun) as Hr.
  destruct response as [e|rp].
  { destruct (served_steps _ _ _ _ Hr Hl) as (l1 & n1 & Hl1 & _ & Hs1). simpl.
    unfold run_command in Hrun. rewrite (rc_error _ _ _ _ _ _ Hrun). intros [= <- <-]. by exists l1, n1. }
  destruct Hr as (r1 & Hto & (_ & last & entries & ttl & Hst & ->) & Hfrom).
  destruct (served_steps _ _ _ _ Hto Hl) as (l1 & n1 & Hl1 & _ & Hs1).
  destruct (served_steps _ _ _ _ Hfrom Hs1) as (l2 & n2 & Hl2 & _ & Hs2).
  intros [= <- <-]. exists l2, n2. split; [by etrans|]. split; [done|].
  destruct Hs1 as (_ & v & full & Hs & _ & Hr & ->). destruct (sh_events _ _ _ _ Hs) as (l' & Hl' & Hf).
  rewrite Hl' in Hst. injection Hst as _ <- _. simpl. destruct (list.last l') as [m|] eqn:Hm; simpl.
  - apply last_Some in Hm as [front ->]. apply Forall2_app_inv_l in Hf as (xs & ys & _ & Hys & Hxs).
    inversion Hys as [|? x ? ? Hmx Hnil]; subst. inversion Hnil; subst.
    rewrite (getEvent_entry _ _ _ Hmx). intros c [= <-]. right.
    assert (full = take n1 full ++ xs ++ [x]) as Hfull.
    { rewrite <- Hxs, (rt_events _ _ _ Hr). by rewrite take_drop. }
    exists (event_of <$> take n1 full ++ xs). etrans; [|exact Hl2]. rewrite Hfull at 2. by rewrite app_assoc, (fmap_app _ _ [x]).
  - intros c [= <-]. by left.
Qed.

(** *** Reading *)

Lemma check_retention_steps ctx cursor w gap w' :
  check_retention (R := R) store ctx chain cursor w = (gap, w') → rtc step (rc_server w) (rc_server w').
Proof using Type*.
  unfold check_retention. destruct (String.eqb cursor "0-0"); [by intros [= _ <-]|].
  destruct (run_command _ ctx w) as [response w1] eqn:Hrun. intros [= _ <-].
  pose proof (run_reading store chain_family (XRANGE (key store chain "events") cursor) _ _ _ _ I Hrun) as Hr.
  destruct response as [e|rp]; [done|]. destruct Hr as (r1 & Hto & _ & Hfrom). by etrans.
Qed.

Lemma event_entry full before e : before ++ [e] `prefix_of` event_of <$> full →
  ∃ bs x after, full = bs ++ x :: after ∧ before = event_of <$> bs ∧ e = event_of x.
Proof using Type.
  revert before. induction full as [|x full IH]; intros before [rest Hp].
  { by destruct before. }
  destruct before as [|b before]; csimpl in Hp.
  - injection Hp as <- _. by exists [], x, full.
  - injection Hp as <- Hp. destruct (IH before) as (bs & y & after & -> & -> & ->); [by exists rest|].
    by exists (x :: bs), y, after.
Qed.

(** After a cursor whose entry the check finds, nothing is missing. *)
Lemma nothing_missing full n r1 u bs i h after ctx w w' :
  server_wf store chain_family r1 → shows store (rd_keys r1) chain u → rview_wf chain_family chain u → retains full n u →
  full = bs ++ (i, h) :: after → rtc step r1 (rc_server w) →
  check_retention (R := R) store ctx chain (id_text i) w = (None, w') →
  filter (λ x, id_lt i x.1) (rv_events u) = after.
Proof using CjsonLaws0 H H0 H1 H2 H3 H4 H5 H6 H7 R RedisClientLaws0 W chain chain_family json_error store.
  intros Hw Hu Hwu Hr Hfull Hto Hcheck.
  assert (id_lt (0, 0)%Z i ∧ (0 ≤ i.2)%Z) as [Hi Hi2].
  { pose proof (rt_ids _ _ _ Hr) as Hids. rewrite Hfull, fmap_app, Forall_app, fmap_cons, Forall_cons in Hids. tauto. }
  assert (id_text i ≠ "0-0") as Hne.
  { intros Heq. apply (id_lt_irrefl (0, 0)%Z). by rewrite <- (id_text_inj i (0, 0)%Z) at 2. }
  destruct (run_retention store chain_family _ _ _ _ _ Hi2 Hne (server_steps_wf _ _ _ _ Hto Hw) Hcheck)
    as (r2 & v2 & Hto2 & _ & Hv2 & Hin).
  destruct (server_steps_view store chain_family r1 r2 chain u ltac:(by etrans) Hu Hwu) as (u2 & Hu2 & Hsteps & _).
  destruct (retains_steps _ _ _ _ _ _ Hsteps Hr) as (full2 & n2 & [more Hmore] & Hn & Hr2).
  rewrite (shows_same_events store _ _ _ _ Hv2 Hu2) in Hin. apply (retains_after full n u bs h); [done|done|].
  etrans; [exact Hn|]. eapply (retains_kept full2 n2 u2 bs h (after ++ more)); [done| |done].
  by rewrite Hmore, Hfull, <- app_assoc.
Qed.

(** What a read of the stream at [r1] gives, if nothing is missing behind its cursor. *)
Lemma read_served ctx cursor count gap r1 v1 l l1 n1 w1 w2 w3 (res : result store_error (list Event)) :
  shows store (rd_keys r1) chain v1 → l `prefix_of` l1 → served_events l1 n1 r1 → rtc step r1 (rc_server w1) →
  check_retention (R := R) store ctx chain cursor w1 = (gap, w2) → rtc step r1 (rc_server w3) →
  ((∃ e, res = Err e) ∨ gap = None ∧ ∃ events, res = Ok events ∧ (events ⊆ event_of <$> rv_events v1) ∧
     ∀ i, (0 ≤ i.2)%Z → cursor = id_text i →
       events = event_of <$> first_of count (filter (λ x, id_lt i x.1) (rv_events v1))) →
  ∃ l' n', l `prefix_of` l' ∧ served_events l' n' (rc_server w3) ∧ ∀ events, res = Ok events → events ⊆ l' ∧
    ∀ before e, before ++ [e] `prefix_of` l → ev_ID e = cursor → before ++ e :: events `prefix_of` l'.
Proof using CjsonLaws0 H H0 H1 H2 H3 H4 H5 H6 H7 R RedisClientLaws0 W chain chain_family json_error store.
  intros Hv1 Hl1 Hs1 Hfrom Hgap Hto3 Hres. destruct (served_steps _ _ _ _ Hto3 Hs1) as (l3 & n3 & Hl3 & _ & Hs3).
  exists l3, n3. split; [by etrans|]. split; [done|]. intros events ->.
  destruct Hres as [[e ?]|(-> & events' & [= <-] & Hin & Hafter)]; [done|].
  destruct Hs1 as (Hw1 & u & full & Hu & Hwu & Hr & ->). rewrite (shows_same_events store _ _ _ _ Hv1 Hu) in *. split.
  - intros x Hx%Hin. rewrite (rt_events _ _ _ Hr) in Hx. destruct Hl3 as [more ->]. apply elem_of_app. left.
    rewrite fmap_drop in Hx. by eapply subseteq_drop.
  - intros before e Hb Hc. destruct (event_entry full before e) as (bs & [i h] & after & Hfull & -> & ->); [by etrans|].
    unfold event_of in Hc. simpl in Hc. subst cursor.
    pose proof (nothing_missing full n1 r1 u bs i h after ctx w1 w2 Hw1 Hu Hwu Hr Hfull Hfrom Hgap) as Hrest.
    assert (0 ≤ i.2)%Z as Hi2.
    { pose proof (rt_ids _ _ _ Hr) as Hids. rewrite Hfull, fmap_app, Forall_app, fmap_cons, Forall_cons in Hids. tauto. }
    rewrite (Hafter i Hi2 eq_refl), Hrest. etrans; [|exact Hl3]. rewrite Hfull, fmap_app, fmap_cons.
    apply prefix_app, prefix_cons. unfold first_of. destruct (0 <? count)%Z; [|done]. rewrite fmap_take. apply prefix_take.
Qed.

Lemma ReadEvents_served ctx l n cursor count w res w' : served_events l n (rc_server w) →
  RedisStore.ReadEvents json_error store ctx chain cursor count w = (res, w') →
  ∃ l' n', l `prefix_of` l' ∧ served_events l' n' (rc_server w') ∧ ∀ events, res = Ok events → events ⊆ l' ∧
    ∀ before e, before ++ [e] `prefix_of` l → ev_ID e = cursor → before ++ e :: events `prefix_of` l'.
Proof using Type*.
  intros Hl. unfold RedisStore.ReadEvents. destruct (run_command _ ctx w) as [response w1] eqn:Hrun.
  pose proof (run_XREAD store chain_family json_error ctx chain cursor count w response w1 (proj1 Hl) Hrun) as Hx.
  destruct response as [e|rp].
  { destruct (served_steps _ _ _ _ Hx Hl) as (l1 & n1 & Hl1 & _ & Hs1). simpl.
    unfold run_command in Hrun. rewrite (rc_error _ _ _ _ _ _ Hrun). intros [= <- <-]. by exists l1, n1. }
  destruct Hx as (r1 & v1 & Hto & Hfrom & Hv1 & _ & Hm & Hsub).
  destruct (served_steps _ _ _ _ Hto Hl) as (l1 & n1 & Hl1 & _ & Hs1). simpl.
  destruct (check_retention (R := R) store ctx chain cursor w1) as [gap w2] eqn:Hgap.
  pose proof (check_retention_steps _ _ _ _ _ Hgap) as Hto2.
  pose proof (λ w3 res, read_served ctx cursor count gap r1 v1 l l1 n1 w1 w2 w3 res Hv1 Hl1 Hs1 Hfrom Hgap) as Hconc.
  destruct (Messages (W := W) (R := R) rp) as [e|messages] eqn:Hmsg.
  - destruct (errors_Is redis_Nil e) eqn:Hnil; intros Hres.
    + apply (Hconc w' res); [destruct gap; injection Hres as _ <-; by etrans|].
      destruct gap as [err|]; injection Hres as <- <-; [left; by exists err|right]. split_and!; [done..|].
      exists []. split; [done|]. split; [apply list_subseteq_nil|]. intros i Hi2 Hi. destruct (Hm i Hi2 Hi) as [_ ->].
      unfold first_of. destruct (0 <? count)%Z; [|done]. by destruct (Z.to_nat count).
    + injection Hres as <- <-. apply (Hconc w1); [done|]. left. eauto.
  - intros Hres. apply (Hconc w' res); [destruct gap; injection Hres as _ <-; by etrans|].
    destruct gap as [err|]; injection Hres as <- <-; [left; by exists err|].
    destruct (get_events json_error messages) as [err|events] eqn:Hget; [left; by exists err|right].
    split_and!; [done..|]. exists events. split; [done|]. split; [by eapply Hsub|].
    intros i Hi2 Hi. specialize (Hm i Hi2 Hi). simpl in Hm. congruence.
Qed.

(** *** A world with a client of the server *)

Variable range_order : gmap string string → list string.

#[local] Abbreviation steps := (λ w w' : W, rtc step (rc_server w) (rc_server w')).

Definition shared_stream : HeadStream W := {|
  stream_ReadEvents ctx chain cursor block count := RedisStore.ReadEvents json_error store ctx chain cursor count
|}.

(** What the instance does otherwise leaves the server to the others. *)
Definition shared_stream_laws `{!Activity (W := W) steps} :
  @StreamLaws W chain _ _ _ _ (RedisStore_HeadStore json_error range_order store client) shared_stream.
Proof using All.
  refine (@Build_StreamLaws W chain _ _ _ _ (RedisStore_HeadStore json_error range_order store client) shared_stream
    (λ l w, ∃ n, served_events l n (rc_server w)) steps _ _ _ _ _ _).
  - intros w res w' Hs. exact (Snapshot_steps store chain_family json_error range_order client chain w res w' Hs).
  - intros w w' Hs l [n Hl]. destruct (served_steps _ _ _ _ Hs Hl) as (l' & n' & ? & _ & ?). eauto.
  - intros l w (n & _ & v & full & _ & _ & Hr & ->). apply Forall_fmap. pose proof (rt_heads _ _ _ Hr) as Hh.
    rewrite Forall_fmap in Hh. eapply Forall_impl; [exact Hh|]. by intros [i h].
  - intros l w res w' [n Hl] Hs. destruct (StreamStart_served _ _ _ _ _ Hl Hs) as (l' & n' & ? & ? & ?). eauto.
  - intros l ctx cursor block count w res w' [n Hl] Hs.
    destruct (ReadEvents_served _ _ _ _ _ _ _ _ Hl Hs) as (l' & n' & ? & ? & ?). eauto.
Defined.
End shared.

(** *** A gateway of the scripted server *)

Abbreviation ServerWorld := (Sim (ChainWorld keyspace)).

Definition with_keyspace (k : keyspace) (c : ChainWorld keyspace) : ChainWorld keyspace :=
  mkChainWorld (cw_clients c) (cw_runtimes c) k.

#[local] Instance gateway_client : RedisClient ServerWorld keyspace := asking_client cw_rest with_keyspace.

#[local] Instance gateway_client_laws others : RedisClientLaws ServerWorld keyspace others :=
  asking_client_laws cw_rest with_keyspace (λ _ _, eq_refl) others.

#[local] Instance gateway_steps_activity (others : relation keyspace) :
  Activity (λ w w' : ServerWorld, rtc others (cw_rest (sim_state w)) (cw_rest (sim_state w'))).
Proof.
  split.
  - split; [by intros w|]. intros w1 w2 w3 H12 H23. by etrans.
  - intros req ctx w r w' [= _ <-]. done.
  - intros k ctx w r w' [= _ <-]. done.
  - intros k w. done.
  - intros k s w. done.
  - intros k s w. done.
  - intros A group key f w r shared w' Hf. simpl. destruct (f w) as [r1 w1] eqn:Hfw. intros [= _ _ <-]. by eapply Hf.
  - intros d ctx w r w'. simpl. destruct (match ctx_deadline ctx with Some _ => _ | None => _ end);
      by intros [= _ <-].
Qed.

(** So the sessions of a gateway follow the shared store too. *)
Definition gateway_stream_laws (client : Context) (chain : string) (range_order : gmap string string → list string) :
  @StreamLaws ServerWorld chain _ _ _ _ _ (shared_stream shared no_error) :=
  shared_stream_laws shared evm_family no_error client chain range_order.

(** Its history starts empty. *)
Lemma gateway_history_start client chain range_order now answer state :
  history (StreamLaws := gateway_stream_laws client chain range_order) [] (mkSim now answer (with_keyspace ∅ state)).
Proof.
  exists 0%nat. split.
  - intros c. eexists. split; [apply shows_empty|apply empty_rview_wf].
  - eexists _, []. split; [apply shows_empty|]. split; [apply empty_rview_wf|]. split; [|done]. split; simpl; try done; (apply SSorted_nil || apply Forall_nil_2 || apply id_lt_irrefl).
Qed.

(** ** A session on a store

    The first head is accepted before the client subscribes; the second while the pump
    waits.  The writer runs while heads are being notified. *)

Definition checkpoint_head : Head := with_Reorg 0 false (ev_Head stream_checkpoint).

Definition accept_op : store_op := OpPublish 950 "a:1" (with_Reorg 0 false demo_accepted).

(** The store before, and the reader's wakeups. *)
Definition first_accepted : MemoryStore :=
  foldl (λ m op, MemoryStore.exec op m) NewMemoryStore
    [OpAcquire 5 "demo" "a" 100000; OpPublish 900 "a:1" checkpoint_head].

Definition accepted_meanwhile (m : MemoryStore) : list wakeup :=
  if (v_gen (MemoryStore.view m "demo") <? 100)%Z then [Notified (MemoryStore.exec accept_op m)] else [].

Lemma accepted_meanwhile_ok m : waits (λ _, "evm") m (accepted_meanwhile m).
Proof.
  unfold accepted_meanwhile. destruct (_ <? _)%Z eqn:Hg; [|done]. apply Z.ltb_lt in Hg. split; [|done]. apply rtc_once.
  exists accept_op. split_and!; [split_and!; [by eapply Z.lt_trans|done|vm_compute; by split]|done|].
  intros now token h [= <- <- <-] _. vm_compute. by split.
Qed.

Definition first_event : Event :=
  mkEvent "2-0" (mkHead "demo" "evm" "latest" 3 (sim_hash "cc") (sim_hash "dd") 2 0 false 900 900 "up" "{}").

Lemma first_accepted_stream : stream_of (λ _, "evm") "demo" first_accepted [first_event].
Proof.
  split; [|split; [vm_compute; reflexivity|apply Forall_singleton; by vm_compute]]. eapply store_run_wf; [|apply NewMemoryStore_wf].
  eapply rtc_l; [apply (store_step_exec _ _ (OpAcquire 5 "demo" "a" 100000)); vm_compute; reflexivity|].
  apply rtc_once. apply (store_step_exec _ _ (OpPublish 900 "a:1" checkpoint_head)).
  split_and!; [vm_compute; reflexivity|reflexivity|split; [discriminate|reflexivity]].
Qed.

#[local] Instance followed_stream : HeadStream StoreWorld := memory_stream accepted_meanwhile.

#[local] Instance followed_store : HeadStore StoreWorld := sim_chain_store unit.

#[local] Instance followed_laws : StreamLaws StoreWorld "demo" :=
  memory_stream_laws (λ _, "evm") accepted_meanwhile accepted_meanwhile_ok "demo".

Definition followed_world : StoreWorld := mkSim 1000 (sim_rpc Chain.demo_answer) (demo_chain_state (tt, first_accepted)).

Definition followed_run : connection * StoreWorld :=
  ws_run 4 (λ _, "") demo_runtime Background session_events followed_world.

Lemma subscribers_follow_store_witness :
  (λ p, (ev_ID <$> pu_taken p, Hash <$> dl_sent (pu_delivery p))) <$> cn_pump followed_run.1 =
    Some (["3-0"], [sim_hash "bb"; sim_hash "aa"]) ∧
  ∃ l before p, stream_of (λ _, "evm") "demo" (store_in followed_run.2) l ∧ cn_pump followed_run.1 = Some p ∧
    before ++ first_event :: pu_taken p ++ pu_events p `prefix_of` l.
Proof.
  split; [vm_compute; reflexivity|].
  destruct (subscribers_follow_store demo_runtime 4 (λ _, "") Background session_events followed_world [first_event]
    followed_run.1 followed_run.2) as (l & _ & Hl & Hp).
  - exact first_accepted_stream.
  - apply NoDup_singleton.
  - apply surjective_pairing.
  - assert (ss_pump (cn_session followed_run.1) = Some first_event) as Hstart by (vm_compute; reflexivity).
    assert (is_Some (cn_pump followed_run.1)) as [p Hpump] by (vm_compute; by eexists).
    destruct (Hp p Hpump) as (c & Hc & Htrail & _). rewrite Hstart in Hc. injection Hc as <-.
    destruct Htrail as [Hnone|[before Hb]]; [discriminate Hnone|].
    exists l, before, p. split; [exact Hl|]. split; [exact Hpump|exact Hb].
Defined.
