(* ===== verification/QuickNode.v ===== *)
(** * QuickNode endpoints — internal/services/quicknode/endpoints.go

    One shared RPC URL gives the endpoints of every network of an account.  URLs are
    parsed and printed by the standard library; what the code relies on is stated in
    [NetUrl] and [NetUrlLaws]. *)

From S2P Require Import Prelude GoStrings GoJson Evm JsonRpc Head World.
From Stdlib Require Import Ascii.

(** ** URLs *)

(** [url.URL], the fields that are read; [u_User] is nil or the user information. *)
Record URL := mkURL {
  u_Scheme : string;
  u_Opaque : string;
  u_User : option string;
  u_Host : string;
  u_Path : string;
  u_RawPath : string;
  u_ForceQuery : bool;
  u_RawQuery : string;
  u_Fragment : string
}.

(** The functions of [net/url]. *)
Class NetUrl := {
  url_Parse : string → result goerror URL;
  url_ParseRequestURI : string → result goerror URL;
  url_String : URL → string;
  EscapedPath : URL → string
}.

(** ** Definitions *)

Definition is_alnum_lower (c : ascii) : bool := in_range 97 122 c || in_range 48 57 c.
Definition is_alnum (c : ascii) : bool := is_alnum_lower c || in_range 65 90 c.
Definition is_label_char (c : ascii) : bool := is_alnum_lower c || is_char 45 c.
Definition is_token_char (c : ascii) : bool := is_alnum c || is_char 95 c || is_char 45 c.

Definition first_is (p : ascii → bool) (s : string) : bool :=
  match s with String c _ => p c | EmptyString => false end.

(** [^[a-z0-9](?:[a-z0-9-]{0,61}[a-z0-9])?$] *)
Definition dns_label (s : string) : bool :=
  first_is is_alnum_lower s && first_is is_alnum_lower (String.rev s) && all_bytes is_label_char s
  && (len s <=? 63)%Z.

(** [^/[A-Za-z0-9_-]+/?$] *)
Definition token_path (path : string) : bool :=
  match path with
  | String c r =>
      is_char 47 c
      && (let token := TrimSuffix r "/" in negb (String.eqb token "") && all_bytes is_token_char token)
  | EmptyString => false
  end.

(* go: services/quicknode/endpoints.go:12-16 Service *)
Record Service := mkService { qs_endpoint : URL; qs_name : string }.

(* go: services/quicknode/endpoints.go:19-22 Endpoints *)
Record Endpoints := mkEndpoints { ep_HTTPURL : string; ep_WebsocketURL : string }.

Definition is_avalanche (network : string) : bool :=
  String.eqb network "avalanche-mainnet" || String.eqb network "avalanche-testnet".

Definition errInvalidURL : goerror := ErrNew "invalid QuickNode endpoint URL".
Definition errEndpointHost : goerror :=
  ErrNew "QuickNode http_url must use https://ENDPOINT[.NETWORK].quiknode.pro/TOKEN".
Definition errEndpointPath : goerror :=
  ErrNew ("QuickNode http_url must contain one token path, optionally followed by the "
          +:+ "Avalanche C-Chain RPC path").
Definition errNetwork : goerror :=
  ErrNew "QuickNode network must be a lowercase DNS label of at most 63 characters".

Section service.
  Context `{NetUrl}.

  (** [hostname[i]], checked in bounds by the code. *)
Definition host_label (hostname : list string) (i : nat) : string := default "" (hostname !! i).

  (* go: services/quicknode/endpoints.go:26-55 NewService *)
Definition NewService (endpointURL : string) : result goerror Service :=
  match url_Parse endpointURL with
  | Err _ => Err errInvalidURL
  | Ok endpoint =>
      let hostname := Split (u_Host endpoint) "." in
      let n := length hostname in
      if negb (String.eqb (u_Scheme endpoint) "https") || bool_decide (is_Some (u_User endpoint))
         || negb (String.eqb (u_Fragment endpoint) "")
         || negb (n =? 3)%nat && negb (n =? 4)%nat
         || negb (String.eqb (host_label hostname (n - 2)) "quiknode")
         || negb (String.eqb (host_label hostname (n - 1)) "pro")
         || negb (dns_label (host_label hostname 0))
         || (n =? 4)%nat && negb (dns_label (host_label hostname 1))
      then Err errEndpointHost
      else
        let path := EscapedPath endpoint in
        let path :=
          if (n =? 4)%nat && is_avalanche (host_label hostname 1) then
            if HasSuffix path "/ext/bc/C/rpc/" then TrimSuffix path "/ext/bc/C/rpc/"
            else TrimSuffix path "/ext/bc/C/rpc"
          else path in
        if negb (token_path path) then Err errEndpointPath
        else Ok (mkService (mkURL (u_Scheme endpoint) (u_Opaque endpoint) (u_User endpoint) (u_Host endpoint)
                              path "" (u_ForceQuery endpoint) (u_RawQuery endpoint) (u_Fragment endpoint))
                   (host_label hostname 0))
  end.

Definition set_host (u : URL) (host : string) : URL :=
  mkURL (u_Scheme u) (u_Opaque u) (u_User u) host (u_Path u) (u_RawPath u) (u_ForceQuery u)
    (u_RawQuery u) (u_Fragment u).

Definition set_scheme (u : URL) (scheme : string) : URL :=
  mkURL scheme (u_Opaque u) (u_User u) (u_Host u) (u_Path u) (u_RawPath u) (u_ForceQuery u)
    (u_RawQuery u) (u_Fragment u).

Definition set_path (u : URL) (path : string) : URL :=
  mkURL (u_Scheme u) (u_Opaque u) (u_User u) (u_Host u) path (u_RawPath u) (u_ForceQuery u)
    (u_RawQuery u) (u_Fragment u).

Definition network_host (name network : string) : string :=
  if String.eqb network "mainnet" then name +:+ ".quiknode.pro"
  else name +:+ "." +:+ network +:+ ".quiknode.pro".

  (** The two URLs before they are printed. *)
Definition endpoint_urls (s : Service) (network : string) : URL * URL :=
  let endpoint := set_host (qs_endpoint s) (network_host (qs_name s) network) in
  let websocketEndpoint := set_scheme endpoint "wss" in
  if is_avalanche network then
    let tokenPath := TrimSuffix (u_Path endpoint) "/" in
    (set_path endpoint (tokenPath +:+ "/ext/bc/C/rpc"),
     set_path websocketEndpoint (tokenPath +:+ "/ext/bc/C/ws"))
  else (endpoint, websocketEndpoint).

  (* go: services/quicknode/endpoints.go:59-76 Service.GetEndpoints *)
Definition GetEndpoints (s : Service) (network : string) : result goerror Endpoints :=
  if negb (dns_label network) then Err errNetwork
  else
    let* (endpoint, websocketEndpoint) := endpoint_urls s network in
    Ok (mkEndpoints (url_String endpoint) (url_String websocketEndpoint)).
End service.

(** ** What the code relies on

    A URL whose host and path need no escaping prints to text that parses to it
    again, if its query is that of a parsed URL; the path of such a URL is its escaped
    path; and a URL with a host is not opaque. *)

Definition host_char (c : ascii) : bool := is_label_char c || is_char 46 c.
Definition path_char (c : ascii) : bool := is_token_char c || is_char 47 c.

Record plain_url (u : URL) : Prop := mkPlain {
  plain_scheme : u_Scheme u = "https" ∨ u_Scheme u = "wss";
  plain_opaque : u_Opaque u = "";
  plain_user : u_User u = None;
  plain_host : u_Host u ≠ "" ∧ all_bytes host_char (u_Host u) = true;
  plain_path : HasPrefix (u_Path u) "/" = true ∧ all_bytes path_char (u_Path u) = true;
  plain_raw_path : u_RawPath u = "";
  plain_fragment : u_Fragment u = ""
}.

Class NetUrlLaws `{NetUrl} : Prop := {
  parse_hosted text u : url_Parse text = Ok u → u_Host u ≠ "" → u_Opaque u = "";
  escaped_plain u : plain_url u → EscapedPath u = u_Path u;
  parse_string text u0 u :
    url_Parse text = Ok u0 → u_RawQuery u = u_RawQuery u0 → u_ForceQuery u = u_ForceQuery u0 →
    plain_url u → url_Parse (url_String u) = Ok u
}.

(** ** Lemmas on strings *)

Lemma HasSuffix_spec s t : HasSuffix s t = true ↔ ∃ r, s = r +:+ t.
Proof.
  unfold HasSuffix. rewrite andb_true_iff, String.eqb_eq, Nat.leb_le. split.
  - intros [_ Hd]. exists (take_bytes (String.length s - String.length t) s).
    rewrite <- Hd at 2. by rewrite take_drop_bytes.
  - intros [r ->]. rewrite string_length_app. split; [lia|].
    replace (_ + _ - _)%nat with (String.length r) by lia. apply drop_bytes_app.
Qed.

Lemma TrimSuffix_app s t : TrimSuffix (s +:+ t) t = s.
Proof.
  unfold TrimSuffix. assert (HasSuffix (s +:+ t) t = true) as -> by (apply HasSuffix_spec; eauto).
  rewrite string_length_app. replace (_ + _ - _)%nat with (String.length s) by lia. apply take_bytes_app.
Qed.

Lemma TrimSuffix_none s t : HasSuffix s t = false → TrimSuffix s t = s.
Proof. unfold TrimSuffix. by intros ->. Qed.

Lemma TrimSuffix_cases s t : TrimSuffix s t = s ∧ HasSuffix s t = false ∨ s = TrimSuffix s t +:+ t.
Proof.
  destruct (HasSuffix s t) eqn:Hs; [right|left; split; [by apply TrimSuffix_none|done]].
  apply HasSuffix_spec in Hs as [r ->]. by rewrite TrimSuffix_app.
Qed.

(** A suffix ending in another byte. *)
Lemma string_snoc_inj s t c d : s +:+ String c "" = t +:+ String d "" → s = t ∧ c = d.
Proof.
  revert t. induction s as [|a s IH]; intros [|b t]; rewrite ?string_app_cons, ?string_app_nil_l.
  - by intros [= ->].
  - intros [= -> Ht]. destruct t; by rewrite ?string_app_cons in Ht.
  - intros [= -> Hs]. destruct s; by rewrite ?string_app_cons in Hs.
  - intros [= -> H]. apply IH in H as [-> ->]. done.
Qed.

Lemma Split_label s t : all_bytes is_label_char s = true → Split (s +:+ "." +:+ t) "." = s :: Split t ".".
Proof.
  induction s as [|c s IH]; [done|]. rewrite string_app_cons. simpl.
  intros [Hc Hs]%andb_true_iff. rewrite (IH Hs).
  destruct (Ascii.eqb_spec c "."); [by subst|done].
Qed.

(** ** Lemmas *)

Lemma dns_label_bytes s : dns_label s = true → all_bytes is_label_char s = true.
Proof. unfold dns_label. by intros ((_&?)%andb_true_iff&_)%andb_true_iff. Qed.

Lemma dns_label_nonempty s : dns_label s = true → s ≠ "".
Proof. by intros H ->. Qed.

Lemma label_host_char c : is_label_char c = true → host_char c = true.
Proof. unfold host_char. by intros ->. Qed.

Lemma token_path_char c : is_token_char c = true → path_char c = true.
Proof. unfold path_char. by intros ->. Qed.

Lemma network_host_labels name network :
  dns_label name = true → dns_label network = true →
  Split (network_host name network) "." =
    name :: (if String.eqb network "mainnet" then [] else [network]) ++ ["quiknode"; "pro"].
Proof.
  intros Hn%dns_label_bytes Hw%dns_label_bytes. unfold network_host.
  destruct (String.eqb network "mainnet").
  - change ".quiknode.pro" with ("." +:+ "quiknode.pro"). by rewrite Split_label.
  - change ".quiknode.pro" with ("." +:+ "quiknode.pro"). by rewrite !Split_label.
Qed.

Lemma network_host_plain name network :
  dns_label name = true → dns_label network = true →
  network_host name network ≠ "" ∧ all_bytes host_char (network_host name network) = true.
Proof.
  intros Hn Hw. pose proof (all_bytes_impl _ _ _ label_host_char (dns_label_bytes _ Hn)) as Hnb.
  pose proof (all_bytes_impl _ _ _ label_host_char (dns_label_bytes _ Hw)) as Hwb.
  unfold network_host. split.
  - apply dns_label_nonempty in Hn. destruct name; [done|]. by destruct (String.eqb _ _).
  - destruct (String.eqb network "mainnet"); rewrite !all_bytes_app, Hnb, ?Hwb; done.
Qed.

(** A token path: a slash, the token, perhaps a slash. *)
Lemma token_path_shape path : token_path path = true →
  ∃ token, TrimSuffix path "/" = "/" +:+ token ∧ token ≠ "" ∧ all_bytes is_token_char token = true ∧
    (path = "/" +:+ token ∨ path = "/" +:+ token +:+ "/").
Proof.
  destruct path as [|c r]; [done|]. unfold token_path.
  intros [Hc (Ht & Hb)%andb_true_iff]%andb_true_iff.
  assert (c = "/"%char) as ->.
  { unfold is_char in Hc. apply N.eqb_eq in Hc. rewrite <- (ascii_N_embedding c). unfold byte_val in Hc. by rewrite Hc. }
  rewrite negb_true_iff, String.eqb_neq in Ht. exists (TrimSuffix r "/").
  destruct (TrimSuffix_cases r "/") as [[Heq Hno]|Heq].
  - rewrite Heq in *. split_and!; [|done..|by left]. apply TrimSuffix_none.
    apply not_true_is_false. intros [r' Hr]%HasSuffix_spec. change ("/" +:+ r) with (String "/" r) in Hr.
    destruct r' as [|a r'].
    + rewrite string_app_nil_l in Hr. injection Hr as Hr. done.
    + rewrite string_app_cons in Hr. injection Hr as _ ->.
      apply not_true_iff_false in Hno. apply Hno. apply HasSuffix_spec. eauto.
  - set (token := TrimSuffix r "/") in *. clearbody token. subst r.
    split_and!; [|done..|by right]. exact (TrimSuffix_app (String "/" token) "/").
Qed.

(** Without its last slash a token path is one still, and has no other. *)
Lemma token_path_trimmed path : token_path path = true →
  token_path (TrimSuffix path "/") = true ∧ TrimSuffix (TrimSuffix path "/") "/" = TrimSuffix path "/".
Proof.
  intros (token & -> & Hne & Hb & _)%token_path_shape.
  assert (∀ r, token ≠ r +:+ "/") as Hno.
  { intros r ->. rewrite all_bytes_app in Hb. apply andb_true_iff in Hb as [_ ?]. done. }
  change ("/" +:+ token) with (String "/" token). split.
  - unfold token_path. rewrite TrimSuffix_none; [|apply not_true_is_false; intros [r Hr]%HasSuffix_spec; by eapply Hno].
    rewrite Hb. by apply String.eqb_neq in Hne as ->.
  - apply TrimSuffix_none, not_true_is_false. intros [[|a r] Hr]%HasSuffix_spec.
    + rewrite string_app_nil_l in Hr. by injection Hr.
    + rewrite string_app_cons in Hr. injection Hr as _ Hr. by eapply Hno.
Qed.

(** The path the next [NewService] finds: the token path, for an Avalanche network with
    its suffix removed. *)
Lemma avalanche_path tokenPath :
  HasSuffix (tokenPath +:+ "/ext/bc/C/rpc") "/ext/bc/C/rpc/" = false.
Proof.
  apply not_true_is_false. intros [r Hr]%HasSuffix_spec.
  change "/ext/bc/C/rpc" with ("/ext/bc/C/rp" +:+ String "c" "") in Hr.
  change "/ext/bc/C/rpc/" with ("/ext/bc/C/rpc" +:+ String "/" "") in Hr.
  rewrite <- !string_app_assoc in Hr. apply string_snoc_inj in Hr as [_ ?]. done.
Qed.

Section laws.
  Context `{NetUrlLaws}.

  (** A service: all its URL needs is a host. *)
Record service_wf (text : string) (s : Service) : Prop := mkServiceWf {
  wf_https : u_Scheme (qs_endpoint s) = "https";
  wf_opaque : u_Opaque (qs_endpoint s) = "";
  wf_user : u_User (qs_endpoint s) = None;
  wf_raw_path : u_RawPath (qs_endpoint s) = "";
  wf_fragment : u_Fragment (qs_endpoint s) = "";
  wf_name : dns_label (qs_name s) = true;
  wf_token : token_path (u_Path (qs_endpoint s)) = true;
  wf_query : ∃ u, url_Parse text = Ok u ∧
    u_RawQuery (qs_endpoint s) = u_RawQuery u ∧ u_ForceQuery (qs_endpoint s) = u_ForceQuery u
}.

Lemma NewService_wf text s : NewService text = Ok s → service_wf text s.
Proof using Type*.
  unfold NewService. destruct (url_Parse text) as [|u] eqn:Hu; [done|].
  destruct (_ || _) eqn:Hguard; [done|]. destruct (negb (token_path _)) eqn:Hpath; [done|]. intros [= <-].
  rewrite !orb_false_iff, !negb_false_iff in Hguard.
  destruct Hguard as (((((((Hs & Hus) & Hf) & Hn) & _) & _) & Hname) & _).
  rewrite String.eqb_eq in Hs, Hf. apply negb_false_iff in Hpath. apply bool_decide_eq_false in Hus.
  split; simpl; [done| |by destruct (u_User u) as [x|]; [destruct Hus; exists x|]|done..|eauto].
  apply (parse_hosted text); [done|]. intros Hh. by rewrite Hh in Hn.
Qed.

  (** The URLs of a network. *)
Definition network_urls (text : string) (s : Service) (network : string) (h w : URL) : Prop :=
  let avalanche := is_avalanche network in
  let path := u_Path (qs_endpoint s) in
  let path_of suffix := if avalanche then TrimSuffix path "/" +:+ suffix else path in
  plain_url h ∧ plain_url w ∧
  u_Scheme h = "https" ∧ u_Scheme w = "wss" ∧
  u_Host h = network_host (qs_name s) network ∧ u_Host w = u_Host h ∧
  u_Path h = path_of "/ext/bc/C/rpc" ∧ u_Path w = path_of "/ext/bc/C/ws" ∧
  ∃ u, url_Parse text = Ok u ∧
    u_RawQuery h = u_RawQuery u ∧ u_ForceQuery h = u_ForceQuery u ∧
    u_RawQuery w = u_RawQuery u ∧ u_ForceQuery w = u_ForceQuery u.

Lemma token_path_plain path suffix :
  token_path path = true → all_bytes path_char suffix = true →
  (HasPrefix path "/" = true ∧ all_bytes path_char path = true) ∧
  (HasPrefix (TrimSuffix path "/" +:+ suffix) "/" = true ∧
   all_bytes path_char (TrimSuffix path "/" +:+ suffix) = true).
Proof.
  intros (token & -> & _ & Hb%(all_bytes_impl _ _ _ token_path_char) & Hp)%token_path_shape Hs.
  assert (∀ s, HasPrefix ("/" +:+ s) "/" = true) as Hpre by (intros s; by destruct s).
  rewrite string_app_assoc, !Hpre, !all_bytes_app, Hb, Hs.
  destruct Hp as [-> | ->]; rewrite Hpre, !all_bytes_app, Hb; done.
Qed.

Lemma endpoint_urls_spec text s network h w :
  service_wf text s → dns_label network = true → endpoint_urls s network = (h, w) →
  network_urls text s network h w.
Proof using Type*.
  intros Hwf Hn. destruct (wf_query _ _ Hwf) as (u & Hu & Hq & Hf).
  pose proof (network_host_plain _ _ (wf_name _ _ Hwf) Hn) as Hhost.
  pose proof (token_path_plain _ "/ext/bc/C/rpc" (wf_token _ _ Hwf) eq_refl) as [Hpath Hrpc].
  pose proof (token_path_plain _ "/ext/bc/C/ws" (wf_token _ _ Hwf) eq_refl) as [_ Hws].
  destruct Hwf as [Hsch Hop Hus Hrp Hfr _ _ _].
  unfold endpoint_urls, network_urls, set_path, set_scheme, set_host. simpl.
  destruct (is_avalanche network); intros [= <- <-]; simpl;
    (split; [split; simpl; auto|]; split; [split; simpl; auto|]; split_and!; try done; by exists u).
Qed.
#[local] Arguments dns_label : simpl never.
#[local] Arguments token_path : simpl never.
#[local] Arguments HasSuffix : simpl never.
#[local] Arguments TrimSuffix : simpl never.

  (** The service the HTTP URL of a network gives. *)
Lemma endpoint_reparsed text s network h w :
  service_wf text s → dns_label network = true → network_urls text s network h w →
  ∃ s', NewService (url_String h) = Ok s' ∧ qs_name s' = qs_name s ∧
    u_RawQuery (qs_endpoint s') = u_RawQuery (qs_endpoint s) ∧
    u_ForceQuery (qs_endpoint s') = u_ForceQuery (qs_endpoint s) ∧
    u_Path (qs_endpoint s') =
      (if is_avalanche network then TrimSuffix (u_Path (qs_endpoint s)) "/" else u_Path (qs_endpoint s)).
Proof using Type*.
  intros Hwf Hn (Hh & _ & Hsch & _ & Hhost & _ & Hpath & _ & u & Hu & Hq & Hf & _).
  unfold NewService. rewrite (parse_string _ _ _ Hu Hq Hf Hh), (escaped_plain _ Hh).
  rewrite Hhost, Hsch, (network_host_labels _ _ (wf_name _ _ Hwf) Hn), (plain_user _ Hh), (plain_fragment _ Hh).
  destruct (wf_query _ _ Hwf) as (u' & Hu' & Hq' & Hf'). rewrite Hu in Hu'. injection Hu' as <-.
  pose proof (wf_token _ _ Hwf) as Htok. pose proof (wf_name _ _ Hwf) as Hname.
  destruct (String.eqb_spec network "mainnet") as [->|_]; unfold host_label; simpl; rewrite Hname; simpl.
  - rewrite Hpath. simpl. rewrite Htok. simpl. eexists. split; [done|]. simpl. rewrite Hq, Hf, Hq', Hf'. done.
  - rewrite Hn. simpl. rewrite Hpath. destruct (is_avalanche network).
    + rewrite avalanche_path, TrimSuffix_app.
      destruct (token_path_trimmed _ Htok) as [Htp _]. rewrite Htp. simpl.
      eexists. split; [done|]. simpl. rewrite Hq, Hf, Hq', Hf'. done.
    + rewrite Htok. simpl. eexists. split; [done|]. simpl. rewrite Hq, Hf, Hq', Hf'. done.
Qed.
  (** Services that agree on the account have the same endpoints. *)
Lemma endpoints_same text text' s s' n :
  service_wf text s → service_wf text' s' → qs_name s' = qs_name s →
  u_RawQuery (qs_endpoint s') = u_RawQuery (qs_endpoint s) →
  u_ForceQuery (qs_endpoint s') = u_ForceQuery (qs_endpoint s) →
  (u_Path (qs_endpoint s') = u_Path (qs_endpoint s) ∨
   is_avalanche n = true ∧ TrimSuffix (u_Path (qs_endpoint s')) "/" = TrimSuffix (u_Path (qs_endpoint s)) "/") →
  GetEndpoints s' n = GetEndpoints s n.
Proof.
  intros [] [] Hname Hq Hf Hpath. unfold GetEndpoints.
  assert (endpoint_urls s' n = endpoint_urls s n) as ->; [|done].
  unfold endpoint_urls, set_host, set_path, set_scheme. simpl. destruct Hpath as [Hpath|[-> Htrim]].
  - rewrite Hpath. destruct (is_avalanche n); congruence.
  - congruence.
Qed.
End laws.

(** * Properties *)

(** C34: the endpoints of a network belong to the configured account.  Whatever
    network is asked for, both URLs have the endpoint name of the configured URL as
    their first host label, the network as the second one (none for mainnet) and then
    [quiknode.pro]: no network name makes the credentials go to another host.  They
    carry the configured token and query, [https] and [wss], the C-Chain suffixes for
    the Avalanche networks only, and no user information or fragment.  The HTTP URL is
    accepted as a configured URL itself and gives the same endpoints again for every
    network (from an Avalanche URL, which has lost a last slash, for the Avalanche
    ones). *)
Theorem quicknode_endpoints `{NetUrlLaws} text s network e :
  NewService text = Ok s → GetEndpoints s network = Ok e →
  (∃ h w, e = mkEndpoints (url_String h) (url_String w) ∧ network_urls text s network h w ∧
     Split (u_Host h) "." =
       qs_name s :: (if String.eqb network "mainnet" then [] else [network]) ++ ["quiknode"; "pro"]) ∧
  ∃ s', NewService (ep_HTTPURL e) = Ok s' ∧
    ∀ n, is_avalanche network = false ∨ is_avalanche n = true → GetEndpoints s' n = GetEndpoints s n.
Proof.
  intros Hwf%NewService_wf. unfold GetEndpoints at 1. destruct (dns_label network) eqn:Hn; [|done]. simpl.
  destruct (endpoint_urls s network) as [h w] eqn:Hurls. intros [= <-].
  pose proof (endpoint_urls_spec _ _ _ _ _ Hwf Hn Hurls) as Hspec. split.
  - exists h, w. split_and!; [done..|]. destruct Hspec as (_ & _ & _ & _ & -> & _).
    apply network_host_labels; [apply (wf_name _ _ Hwf)|done].
  - destruct (endpoint_reparsed _ _ _ _ _ Hwf Hn Hspec) as (s' & Hs' & Hname & Hq & Hf & Hpath).
    exists s'. split; [done|]. intros n Hcase.
    eapply endpoints_same; [exact Hwf|by apply NewService_wf|done..|]. rewrite Hpath.
    destruct (is_avalanche network); [right|by left]. destruct Hcase as [|Hcase]; [done|].
    split; [done|]. apply (token_path_trimmed _ (wf_token _ _ Hwf)).
Qed.

(** ** A parser of simple URLs

    [scheme://host/path?query]: enough to satisfy the laws. *)

Fixpoint Cut (s : string) (sep : ascii) : string * option string :=
  match s with
  | EmptyString => ("", None)
  | String c r =>
      if Ascii.eqb c sep then ("", Some r)
      else let* (before, after) := Cut r sep in (String c before, after)
  end.

Definition simple_parse (text : string) : result goerror URL :=
  match Cut text ":" with
  | (scheme, Some (String "/" (String "/" rest))) =>
      let* (rest, query) := Cut rest "?" in
      let* (host, path) := Cut rest "/" in
      Ok (mkURL scheme "" None host (match path with Some path => "/" +:+ path | None => "" end) ""
            (bool_decide (query = Some "")) (default "" query) "")
  | _ => Err (ErrNew "invalid URL")
  end.

Definition simple_string (u : URL) : string :=
  u_Scheme u +:+ "://" +:+ u_Host u +:+ u_Path u
  +:+ (if u_ForceQuery u || negb (String.eqb (u_RawQuery u) "") then "?" +:+ u_RawQuery u else "").

#[export] Instance simple_urls : NetUrl := {|
  url_Parse := simple_parse;
  url_ParseRequestURI := simple_parse;
  url_String := simple_string;
  EscapedPath := u_Path
|}.

Lemma Cut_app p s (sep : ascii) t : all_bytes p s = true → p sep = false →
  Cut (s +:+ String sep t) sep = (s, Some t).
Proof.
  intros Hs Hp. induction s as [|c s IH].
  - rewrite string_app_nil_l. simpl. by rewrite Ascii.eqb_refl.
  - rewrite string_app_cons. simpl in *. apply andb_true_iff in Hs as [Hc Hs]. rewrite (IH Hs).
    destruct (Ascii.eqb_spec c sep) as [->|]; [congruence|done].
Qed.

Lemma Cut_none p s (sep : ascii) : all_bytes p s = true → p sep = false → Cut s sep = (s, None).
Proof.
  intros Hs Hp. induction s as [|c s IH]; [done|]. simpl in *. apply andb_true_iff in Hs as [Hc Hs].
  rewrite (IH Hs). destruct (Ascii.eqb_spec c sep) as [->|]; [congruence|done].
Qed.

#[export] Instance simple_url_laws : NetUrlLaws.
Proof.
  split; simpl; [|done|].
  - intros text u. unfold simple_parse. destruct (Cut text ":") as [scheme [[|a [|b rest]]|]]; try done.
    { by destruct a as [[] [] [] [] [] [] [] []]. }
    intros Hu _. revert Hu. repeat case_match; try done; by intros [= <-].
  - intros text u0 u Hp Hq Hf [Hsch Hop Hus [Hh1 Hh2] [Hp1 Hp2] Hrp Hfr].
    assert (u_ForceQuery u = true → u_RawQuery u = "") as Hforce.
    { rewrite Hq, Hf. revert Hp. unfold simple_parse. repeat case_match; try done;
        intros [= <-]; simpl; intros Hb%bool_decide_eq_true; solve [congruence | by rewrite Hb]. }
    destruct u as [scheme opaque user host path raw force query fragment]. simpl in *.
    subst opaque user raw fragment. destruct path as [|c path]; [done|].
    assert (c = "/"%char) as -> by (apply prefix_split in Hp1; by injection Hp1).
    unfold simple_parse, simple_string. simpl.
    set (tail := if force || _ then _ else _).
    assert (Cut (scheme +:+ "://" +:+ host +:+ String "/" path +:+ tail) ":"
      = (scheme, Some ("//" +:+ host +:+ String "/" path +:+ tail))) as ->.
    { change ("://" +:+ host +:+ String "/" path +:+ tail)
        with (String ":" ("//" +:+ host +:+ String "/" path +:+ tail)).
      apply (Cut_app is_alnum_lower); [|done]. by destruct Hsch as [-> | ->]. }
    change ("//" +:+ host +:+ String "/" path +:+ tail)
      with (String "/" (String "/" (host +:+ String "/" path +:+ tail))).
    lazy beta iota. set (pq c := host_char c || path_char c).
    assert (all_bytes pq (host +:+ String "/" path) = true) as Hpq.
    { rewrite all_bytes_app, andb_true_iff. split; eapply all_bytes_impl; [|exact Hh2| |exact Hp2];
        unfold pq; intros c ->; [done|apply orb_true_r]. }
    assert (Cut (host +:+ String "/" path +:+ tail) "?"
      = (host +:+ String "/" path, if force || negb (String.eqb query "") then Some query else None)) as ->.
    { rewrite <- string_app_assoc. subst tail. destruct (_ || _).
      - by apply (Cut_app pq).
      - replace ((host +:+ String "/" path) +:+ "") with (host +:+ String "/" path); [by apply (Cut_none pq)|].
        clear. induction (host +:+ String "/" path) as [|c s IH]; [done|]. by rewrite string_app_cons, <- IH. }
    rewrite (Cut_app host_char); [|done..]. simpl. f_equal. f_equal.
    + destruct force; simpl; [by rewrite Hforce|].
      destruct (String.eqb_spec query "") as [->|]; [done|]. apply bool_decide_eq_false. simpl. congruence.
    + destruct force; simpl; [done|]. by destruct (String.eqb_spec query "") as [->|].
Qed.

Definition demo_url : string := "https://example.base-mainnet.quiknode.pro/token/?key=shared".

Definition demo_service : Service :=
  mkService (mkURL "https" "" None "example.base-mainnet.quiknode.pro" "/token/" "" false "key=shared" "") "example".

Definition demo_endpoints : Endpoints :=
  mkEndpoints "https://example.avalanche-mainnet.quiknode.pro/token/ext/bc/C/rpc?key=shared"
    "wss://example.avalanche-mainnet.quiknode.pro/token/ext/bc/C/ws?key=shared".

Lemma quicknode_endpoints_witness :
  NewService demo_url = Ok demo_service ∧ GetEndpoints demo_service "avalanche-mainnet" = Ok demo_endpoints ∧
  ∃ s', NewService (ep_HTTPURL demo_endpoints) = Ok s' ∧
    GetEndpoints s' "avalanche-testnet" = GetEndpoints demo_service "avalanche-testnet".
Proof.
  assert (NewService demo_url = Ok demo_service) as Hs by (vm_compute; reflexivity).
  assert (GetEndpoints demo_service "avalanche-mainnet" = Ok demo_endpoints) as He by (vm_compute; reflexivity).
  split; [exact Hs|]. split; [exact He|].
  destruct (quicknode_endpoints demo_url demo_service "avalanche-mainnet" demo_endpoints Hs He)
    as [_ (s' & Hs' & Hsame)].
  exists s'. split; [exact Hs'|]. apply Hsame. right. vm_compute. reflexivity.
Defined.
