(* ===== verification/Duration.v ===== *)
(** * Durations of the configuration file — config/config.go, type Duration

    A duration is an [int64] of nanoseconds, written in the file as [time.ParseDuration]
    reads it: signed sequences of a decimal number and a unit, as in 1h15m30.5s. *)

From S2P Require Import Prelude GoStrings GoJson Evm HeadJson World Redaction Upstream.
From Stdlib Require Import SpecFloat Ascii.

(** ** time.ParseDuration *)

Definition two63 : Z := 9223372036854775808.

(** [time.quote]: bytes that are not printable ASCII are written in hexadecimal. *)
Fixpoint quote_bytes (s : string) : string :=
  match s with
  | EmptyString => ""
  | String c r =>
      let n := Z.of_N (byte_val c) in
      if (n <? 32)%Z || (128 <=? n)%Z
      then "\x" +:+ String (hex_digit (n / 16)) (String (hex_digit (n mod 16)) (quote_bytes r))
      else if is_char 34 c || is_char 92 c then "\" +:+ String c (quote_bytes r)
      else String c (quote_bytes r)
  end.

Definition time_quote (s : string) : string := String dquote (quote_bytes s +:+ String dquote "").

Definition digit (c : ascii) : Z := (Z.of_N (byte_val c) - 48)%Z.

(** The digits in front, and what follows them; none if they exceed [1 << 63]. *)
Fixpoint leadingInt (x : Z) (s : string) : option (Z * string) :=
  match s with
  | EmptyString => Some (x, s)
  | String c r =>
      if negb (is_digit c) then Some (x, s)
      else if (two63 / 10 <? x)%Z then None
      else
        let x := (x * 10 + digit c)%Z in
        if (two63 <? x)%Z then None else leadingInt x r
  end.

(** Digits that do not fit are dropped. *)
Fixpoint leadingFraction (x : Z) (scale : spec_float) (overflow : bool) (s : string) : Z * spec_float * string :=
  match s with
  | EmptyString => (x, scale, s)
  | String c r =>
      if negb (is_digit c) then (x, scale, s)
      else if overflow then leadingFraction x scale true r
      else if ((two63 - 1) / 10 <? x)%Z then leadingFraction x scale true r
      else
        let y := (x * 10 + digit c)%Z in
        if (two63 <? y)%Z then leadingFraction x scale true r
        else leadingFraction y (fmul scale (f_of_Z 10)) false r
  end.

(** The unit in front: up to a digit or a point. *)
Fixpoint leadingUnit (s : string) : string * string :=
  match s with
  | EmptyString => ("", s)
  | String c r =>
      if is_char 46 c || is_digit c then ("", s)
      else let '(u, rest) := leadingUnit r in (String c u, rest)
  end.

(** The micro sign and the Greek letter are both accepted. *)
Definition micro (c : N) : string := utf8_encode c +:+ "s".

Definition unitMap (u : string) : option Z :=
  if String.eqb u "ns" then Some 1%Z
  else if String.eqb u "us" || String.eqb u (micro 181) || String.eqb u (micro 956) then Some 1000%Z
  else if String.eqb u "ms" then Some millisecond
  else if String.eqb u "s" then Some second
  else if String.eqb u "m" then Some (60 * second)%Z
  else if String.eqb u "h" then Some (3600 * second)%Z
  else None.

Section parse.
  Variable orig : string.

Definition invalid : goerror := ErrNew ("time: invalid duration " +:+ time_quote orig).

(** A number in its unit, with the part after the point. *)
Definition scaled (v f : Z) (scale : spec_float) (unit : Z) : result goerror Z :=
  if (two63 / unit <? v)%Z then Err invalid
  else
    let v := (v * unit)%Z in
    if (0 <? f)%Z then
      let v := u64_add v (Z_of_f (fmul (f_of_Z f) (fdiv (f_of_Z unit) scale))) in
      if (two63 <? v)%Z then Err invalid else Ok v
    else Ok v.

(** One number with its unit; its value and what follows. *)
Definition component (s : string) : result goerror (Z * string) :=
  match s with
  | EmptyString => Err invalid
  | String c _ =>
      if negb (is_char 46 c || is_digit c) then Err invalid
      else match leadingInt 0 s with
      | None => Err invalid
      | Some (v, s1) =>
          let pre := negb (len s1 =? len s)%Z in
          let '(f, scale, post, s2) :=
            match s1 with
            | String c r =>
                if is_char 46 c then
                  let '(f, scale, s2) := leadingFraction 0 f1 false r in (f, scale, negb (len s2 =? len r)%Z, s2)
                else (0%Z, f1, false, s1)
            | EmptyString => (0%Z, f1, false, s1)
            end in
          if negb pre && negb post then Err invalid
          else
            let '(u, rest) := leadingUnit s2 in
            if String.eqb u "" then Err (ErrNew ("time: missing unit in duration " +:+ time_quote orig))
            else match unitMap u with
            | None => Err (ErrNew ("time: unknown unit " +:+ time_quote u +:+ " in duration " +:+ time_quote orig))
            | Some unit => let? v := scaled v f scale unit in Ok (v, rest)
            end
      end
  end.

(** Component by component; each takes at least a byte. *)
Fixpoint components (fuel : nat) (d : Z) (s : string) : result goerror Z :=
  match s, fuel with
  | EmptyString, _ => Ok d
  | _, O => Err invalid
  | _, S fuel =>
      let? next := component s in
      let d := u64_add d next.1 in
      if (two63 <? d)%Z then Err invalid else components fuel d next.2
  end.

Definition unsigned (neg : bool) (s : string) : result goerror Z :=
  if String.eqb s "0" then Ok 0%Z
  else if String.eqb s "" then Err invalid
  else
    let? d := components (String.length s) 0 s in
    if neg then Ok (- d)%Z
    else if (two63 - 1 <? d)%Z then Err invalid else Ok d.
End parse.

Definition ParseDuration (s : string) : result goerror Z :=
  match s with
  | String c r =>
      if is_char 45 c then unsigned s true r else if is_char 43 c then unsigned s false r else unsigned s false s
  | EmptyString => unsigned s false s
  end.

(** A scalar of the file.  [%q] writes printable ASCII as [time.quote] does. *)
(* go: config/config.go:20-28 Duration.UnmarshalYAML *)
Definition Duration_UnmarshalYAML (value : string) : result goerror Z :=
  match ParseDuration value with
  | Err e => Err (Errorf ("parse duration " +:+ time_quote value +:+ ": ") e "")
  | Ok parsed => Ok parsed
  end.

(** ** Bounds and termination *)

Definition int64_wf (d : Z) : Prop := (- two63 ≤ d < two63)%Z.

Lemma components_bound orig fuel : ∀ d s v, (0 ≤ d ≤ two63)%Z → components orig fuel d s = Ok v → (0 ≤ v ≤ two63)%Z.
Proof.
  induction fuel as [|fuel IH]; intros d s v Hd; destruct s as [|c s]; cbn [components]; try (by intros [= <-]).
  destruct (component orig _) as [e|[n rest]]; [done|]. cbn [result_bind fst snd].
  pose proof (u64_add_wf d n) as [Hlo _]. destruct (Z.ltb_spec two63 (u64_add d n)); [done|]. apply IH. lia.
Qed.

(** A duration is an [int64]: no sum or product that does not fit is accepted. *)
Lemma ParseDuration_range s d : ParseDuration s = Ok d → int64_wf d.
Proof.
  assert (∀ neg t, unsigned s neg t = Ok d → int64_wf d) as Hu.
  { intros neg t. unfold unsigned, int64_wf. destruct (String.eqb t "0"); [intros [= <-]; unfold two63; lia|].
    destruct (String.eqb t ""); [done|]. destruct (components s _ 0 t) as [e|v] eqn:Hc; [done|].
    apply components_bound in Hc; [|unfold two63; lia]. unfold two63 in *. cbn [result_bind]. destruct neg; [intros [= <-]; lia|].
    destruct (Z.ltb_spec (9223372036854775808 - 1) v); [done|]. intros [= <-]. lia. }
  unfold ParseDuration. destruct s as [|c r]; [apply Hu|]. destruct (is_char 45 c); [apply Hu|].
  destruct (is_char 43 c); apply Hu.
Qed.

Lemma leadingInt_shorter s : ∀ x n r, leadingInt x s = Some (n, r) → (String.length r ≤ String.length s)%nat.
Proof.
  induction s as [|c s IH]; intros x n r; simpl; [by intros [= _ <-]|].
  destruct (negb _); [by intros [= _ <-]|]. repeat case_match; try done. intros Hr%IH. lia.
Qed.

Lemma leadingFraction_shorter s : ∀ x scale o f scale' r,
  leadingFraction x scale o s = (f, scale', r) → (String.length r ≤ String.length s)%nat.
Proof.
  induction s as [|c s IH]; intros x scale o f scale' r; simpl; [by intros [= _ _ <-]|].
  destruct (negb _); [by intros [= _ _ <-]|]. repeat case_match; intros Hr%IH; lia.
Qed.

Lemma leadingUnit_split s u r : leadingUnit s = (u, r) → s = u +:+ r.
Proof.
  revert u r. induction s as [|c s IH]; intros u r; simpl; [by intros [= <- <-]|].
  destruct (_ || _); [by intros [= <- <-]|]. destruct (leadingUnit s) as [u' r']. intros [= <- <-].
  by rewrite string_app_cons, (IH _ _ eq_refl).
Qed.

Lemma component_shorter orig s v rest : component orig s = Ok (v, rest) → (String.length rest < String.length s)%nat.
Proof.
  destruct s as [|c s]; [done|]. unfold component. destruct (negb _); [done|].
  destruct (leadingInt 0 (String c s)) as [[n s1]|] eqn:Hi; [|done]. apply leadingInt_shorter in Hi.
  set (fraction := match s1 with String c r => _ | EmptyString => _ end).
  assert ((String.length fraction.2 ≤ String.length s1)%nat) as Hf.
  { subst fraction. destruct s1 as [|c1 r1]; [done|]. destruct (is_char 46 c1); [|done].
    destruct (leadingFraction 0 f1 false r1) as [[f scale] s2] eqn:Hf. apply leadingFraction_shorter in Hf. simpl. lia. }
  destruct fraction as [[[f scale] post] s2]. simpl in Hf. destruct (_ && _); [done|].
  destruct (leadingUnit s2) as [u r] eqn:Hu. apply leadingUnit_split in Hu. destruct (String.eqb_spec u ""); [done|].
  destruct (unitMap u); [|done]. destruct (scaled _ _ _ _ _); [done|]. intros [= _ <-].
  rewrite Hu, string_length_app in Hf. destruct u; [done|]. simpl in *. lia.
Qed.

(** The loop ends: the length of the text is fuel enough, and more changes nothing. *)
Lemma components_fuel orig fuel fuel' d s :
  (String.length s ≤ fuel)%nat → (String.length s ≤ fuel')%nat → components orig fuel d s = components orig fuel' d s.
Proof.
  revert fuel' d s. induction fuel as [|fuel IH]; intros [|fuel'] d [|c s]; cbn [components String.length]; try done; try lia.
  intros Hf Hf'. destruct (component orig (String c s)) as [e|[n rest]] eqn:Hc; [done|]. apply component_shorter in Hc. simpl in *.
  destruct (two63 <? _)%Z; [done|]. apply IH; lia.
Qed.

(** ** Whole numbers of a unit *)

Lemma is_digit_val c : is_digit c = true → digit_val c = Some (digit c) ∧ (0 ≤ digit c < 10)%Z.
Proof. by destruct c as [[] [] [] [] [] [] [] []]. Qed.

Lemma parse_digits_above w : ∀ x n, (0 ≤ x)%Z → parse_digits 10 w x = Some n → (x ≤ n)%Z.
Proof.
  induction w as [|c w IH]; simpl; intros x n Hx; [by intros [= <-]|].
  destruct (digit_val c) as [d|] eqn:Hd; [|done]. apply digit_val_nonneg in Hd.
  destruct (_ <? _)%Z; [|done]. intros Hn%IH; lia.
Qed.

(** The unit that follows does not begin with a digit. *)
Definition stops (u : string) : Prop := match u with String c _ => is_digit c = false | EmptyString => True end.

Lemma leadingInt_digits w u : ∀ x n,
  stops u → all_digits w = true → (0 ≤ x ≤ two63)%Z → parse_digits 10 w x = Some n →
  leadingInt x (w +:+ u) = if (two63 <? n)%Z then None else Some (n, u).
Proof.
  induction w as [|c w IH]; intros x n Hu Hw Hx Hn; cbn [all_digits parse_digits] in *.
  - injection Hn as ->. rewrite string_app_nil_l. destruct (Z.ltb_spec two63 n); [lia|].
    destruct u as [|c u]; [done|]. simpl in *. by rewrite Hu.
  - apply andb_true_iff in Hw as [Hc Hw]. destruct (is_digit_val c Hc) as [Hd Hr]. rewrite Hd in Hn.
    destruct (Z.ltb_spec (digit c) 10); [|lia]. rewrite string_app_cons. cbn [leadingInt]. rewrite Hc. cbn [negb].
    assert (two63 / 10 = 922337203685477580)%Z as -> by done. unfold two63 in *.
    pose proof (parse_digits_above w (x * 10 + digit c) n ltac:(lia) Hn).
    destruct (Z.ltb_spec 922337203685477580 x); [by rewrite (proj2 (Z.ltb_lt _ _)) by lia|].
    destruct (Z.ltb_spec 9223372036854775808 (x * 10 + digit c)); [by rewrite (proj2 (Z.ltb_lt _ _)) by lia|].
    apply IH; [done|done|lia|done].
Qed.

(** What [unitMap] names is a unit on its own. *)
Lemma unitMap_unit u unit : unitMap u = Some unit →
  (0 < unit ≤ 3600 * second)%Z ∧ stops u ∧ leadingUnit u = (u, "") ∧ ∃ c r, u = String c r ∧ is_char 46 c = false.
Proof.
  unfold unitMap. intros Hu.
  repeat match type of Hu with
  | context [String.eqb u ?t] => destruct (String.eqb_spec u t) as [->|]; cbn [orb] in Hu
  end; simplify_eq; try done; (split; [done|split; [by vm_compute|split; [by vm_compute|eexists _, _; by split]]]).
Qed.

(** A whole number of a unit is read as that many, unless they do not fit. *)
Lemma ParseDuration_whole n u unit :
  (0 ≤ n)%Z → unitMap u = Some unit →
  let text := pretty n +:+ u in
  ParseDuration text = if (n * unit <? two63)%Z then Ok (n * unit)%Z else Err (invalid text).
Proof.
  intros Hn Hu text. destruct (unitMap_unit u unit Hu) as (Hpos & Hstop & Hlead & c & r & Hcr & Hdot).
  assert (∃ c0 r0, pretty n = String c0 r0 ∧ all_digits (pretty n) = true ∧ parse_digits 10 (pretty n) 0 = Some n)
    as (c0 & r0 & Hp & Hall & Hval).
  { destruct (decide (n = 0)%Z) as [->|]; [by eexists _, _|].
    destruct (pretty_numeral n) as [(c0 & r0 & Hp & Hc0 & Hr0) Hval]; [lia|]. exists c0, r0.
    rewrite Z2N.id in Hval by lia. split_and!; [done| |done]. rewrite Hp. simpl. rewrite Hr0.
    destruct (first_digit c0 Hc0) as (-> & _). done. }
  assert (is_digit c0 = true) as Hc0 by (rewrite Hp in Hall; simpl in Hall; by apply andb_true_iff in Hall as [? _]).
  assert (text = String c0 (r0 +:+ u)) as Htext by (unfold text; by rewrite Hp, string_app_cons).
  assert (leadingInt 0 text = if (two63 <? n)%Z then None else Some (n, u)) as Hint.
  { apply leadingInt_digits; [done|done|unfold two63; lia|done]. }
  assert (String.length u < String.length text)%nat as Hlen.
  { unfold text. rewrite string_length_app, Hp. simpl. lia. }
  assert (component text text = if (n * unit <=? two63)%Z then Ok ((n * unit)%Z, "") else Err (invalid text)) as Hcomp.
  { unfold component. rewrite Htext at 1. rewrite Hc0, orb_true_r. cbn [negb]. rewrite Hint.
    destruct (Z.ltb_spec two63 n); [rewrite (proj2 (Z.leb_gt _ _)) by nia; by rewrite Htext|].
    rewrite Hcr, Hdot, <- Hcr. unfold len. rewrite (proj2 (Z.eqb_neq _ _)) by lia. cbn [negb andb].
    rewrite Hlead. rewrite Hcr at 1. cbn [String.eqb]. rewrite Hu. unfold scaled. cbn [Z.ltb Z.compare].
    pose proof (Z.mul_div_le two63 unit ltac:(lia)). pose proof (Z.mul_succ_div_gt two63 unit ltac:(lia)).
    destruct (Z.ltb_spec (two63 / unit) n); [rewrite (proj2 (Z.leb_gt _ _)) by nia|rewrite (proj2 (Z.leb_le _ _)) by nia];
      by rewrite <- ?Htext. }
  assert (unsigned text false text = if (n * unit <? two63)%Z then Ok (n * unit)%Z else Err (invalid text)) as Hun.
  { unfold unsigned. assert (String.eqb text "0" = false) as ->.
    { apply String.eqb_neq. intros Heq. rewrite Heq in Hlen. rewrite Hcr in Hlen. simpl in Hlen. lia. }
    assert (String.eqb text "" = false) as -> by by rewrite Htext.
    assert (String.length text = S (String.length (r0 +:+ u))) as -> by by rewrite Htext.
    assert (∀ k, components text (S k) 0 text = let? next := component text text in
      let d := u64_add 0 next.1 in if (two63 <? d)%Z then Err (invalid text) else components text k d next.2) as ->
      by (intros; by rewrite Htext).
    rewrite Hcomp.
    destruct (Z.leb_spec (n * unit) two63); [|cbn [result_bind]; destruct (Z.ltb_spec (n * unit) two63); [unfold two63 in *; lia|done]]. cbn [result_bind fst snd].
    assert (0 ≤ n * unit)%Z by nia. rewrite u64_add_small by (unfold two63, two64 in *; lia).
    rewrite Z.add_0_l. destruct (Z.ltb_spec two63 (n * unit)); [lia|].
    assert (∀ k, components text k (n * unit) "" = Ok (n * unit)%Z) as -> by (by intros []). cbn [result_bind].
    unfold two63 in *. destruct (Z.ltb_spec (n * unit) 9223372036854775808).
    - by rewrite (proj2 (Z.ltb_ge _ _)) by lia.
    - by rewrite (proj2 (Z.ltb_lt _ _)) by lia. }
  transitivity (if is_char 45 c0 then unsigned text true (r0 +:+ u)
                else if is_char 43 c0 then unsigned text false (r0 +:+ u) else unsigned text false text);
    [by rewrite Htext|].
  assert (is_char 45 c0 = false ∧ is_char 43 c0 = false) as [-> ->]; [|exact Hun].
  clear -Hc0. by destruct c0 as [[] [] [] [] [] [] [] []].
Qed.
