(* ===== verification/Config.v ===== *)
(** * Configuration — internal/config/config.go

    The settings, what is filled into them before use, and the checks made before any
    part is built.  The other files assume bounds of what they are configured with; a
    configuration that passes [Validate] provides them. *)

From S2P Require Import Prelude GoStrings GoJson Evm JsonRpc Head World Upstream Chain RequestCache.
From S2P Require Import Transform Router Gateway Serve Subscriptions QuickNode Duration.
From Stdlib Require Import Ascii.

(** ** Settings

    Those another part reads are in the record of that part. *)

(* go: config/config.go:103-112 UpstreamConfig *)
Record UpstreamConfig := mkUpstreamConfig {
  up_ID : string;
  up_HTTPURL : string;
  up_HTTPURLEnv : string;
  up_WebsocketURL : string;
  up_WebsocketURLEnv : string;
  up_Headers : gmap string string;
  up_HeaderEnvs : gmap string string;
  up_MaxConcurrency : Z
}.

(* go: config/config.go:88-101 ChainConfig *)
Record ChainSettings := mkChainSettings {
  ch_QuickNodeNetwork : string;
  ch_Config : ChainConfig;
  ch_BlockTime : Z;
  ch_WebsocketIdleTimeout : Z;
  ch_Upstreams : list UpstreamConfig
}.

(* go: config/config.go:61-68 ServerConfig *)
Record ServerSettings := mkServerSettings {
  sc_Config : ServerConfig;
  sc_ListenAddress : string;
  sc_AdminAddress : string;
  sc_WebsocketQueueSize : Z
}.

(* go: config/config.go:70-76 RedisConfig *)
Record RedisConfig := mkRedisConfig {
  rd_URLEnv : string;
  rd_URL : string;
  rd_KeyPrefix : string;
  rd_LeaderTTL : Z;
  rd_StreamMaxLength : Z
}.

(* go: config/config.go:78-86 DatadogConfig *)
Record DatadogConfig := mkDatadogConfig {
  dd_Enabled : bool;
  dd_StatsdAddress : string;
  dd_AgentAddress : string;
  dd_Service : string;
  dd_Environment : string;
  dd_Version : string;
  dd_ProfilingEnabled : bool
}.

(* go: config/config.go:44-50 QuickNodeConfig *)
Record QuickNodeConfig := mkQuickNodeConfig {
  qc_HTTPURL : string;
  qc_HTTPURLEnv : string;
  qc_ID : string;
  qc_MaxConcurrency : Z;
  qc_WebsocketDisabled : bool
}.

(* go: config/config.go:33-41 Config *)
Record Config := mkConfig {
  Server : ServerSettings;
  Redis : RedisConfig;
  Datadog : DatadogConfig;
  Cache : CacheConfig;
  Chains : list ChainSettings;
  QuickNode : option QuickNodeConfig;
  ConfigClients : list string
}.

Definition with_upstreams (chain : ChainSettings) (upstreams : list UpstreamConfig) : ChainSettings :=
  mkChainSettings (ch_QuickNodeNetwork chain) (ch_Config chain) (ch_BlockTime chain)
    (ch_WebsocketIdleTimeout chain) upstreams.

Definition with_chains (cfg : Config) (chains : list ChainSettings) : Config :=
  mkConfig (Server cfg) (Redis cfg) (Datadog cfg) (Cache cfg) chains (QuickNode cfg) (ConfigClients cfg).

Definition chain_name (chain : ChainSettings) : string := cfg_Name (ch_Config chain).

(** A loop that stops at the first error. *)
Fixpoint traverse {E A B} (f : A → result E B) (l : list A) : result E (list B) :=
  match l with
  | [] => Ok []
  | x :: rest => let? y := f x in let? ys := traverse f rest in Ok (y :: ys)
  end.

(** ** Values from the environment *)

Section environment.
  (** [os.Getenv]. *)
  Variable getenv : string → string.

  (** The order in which a map is ranged over. *)
  Variable range_order : gmap string string → list (string * string).

  (** A setting, or the value of its environment variable if only that is named. *)
Definition env_value (value env : string) (empty : goerror) : result goerror string :=
  if String.eqb value "" && negb (String.eqb env "") then
    if String.eqb (getenv env) "" then Err empty else Ok (getenv env)
  else Ok value.

Fixpoint env_headers (empty : string → goerror) (envs : list (string * string))
    (headers : gmap string string) : result goerror (gmap string string) :=
  match envs with
  | [] => Ok headers
  | (header, env) :: rest =>
      if String.eqb (getenv env) "" then Err (empty env)
      else env_headers empty rest (<[header := getenv env]> headers)
  end.

Definition env_upstream (chain : string) (up : UpstreamConfig) : result goerror UpstreamConfig :=
  let empty env text :=
    ErrNew ("chain " +:+ quoted chain +:+ " upstream " +:+ quoted (up_ID up)
            +:+ ": environment variable " +:+ env +:+ text) in
  let? http := env_value (up_HTTPURL up) (up_HTTPURLEnv up) (empty (up_HTTPURLEnv up) " for http url is empty") in
  let? websocket := env_value (up_WebsocketURL up) (up_WebsocketURLEnv up)
                      (empty (up_WebsocketURLEnv up) " for websocket url is empty") in
  let? headers := env_headers (λ env, empty env " is empty") (range_order (up_HeaderEnvs up)) (up_Headers up) in
  Ok (mkUpstreamConfig (up_ID up) http (up_HTTPURLEnv up) websocket (up_WebsocketURLEnv up) headers
        (up_HeaderEnvs up) (up_MaxConcurrency up)).

Definition env_chain (chain : ChainSettings) : result goerror ChainSettings :=
  let? upstreams := traverse (env_upstream (chain_name chain)) (ch_Upstreams chain) in
  Ok (with_upstreams chain upstreams).

Definition env_quicknode (qn : option QuickNodeConfig) : result goerror (option QuickNodeConfig) :=
  match qn with
  | None => Ok None
  | Some qn =>
      let? url := env_value (qc_HTTPURL qn) (qc_HTTPURLEnv qn)
                    (ErrNew ("environment variable " +:+ qc_HTTPURLEnv qn +:+ " for QuickNode http url is empty")) in
      Ok (Some (mkQuickNodeConfig url (qc_HTTPURLEnv qn) (qc_ID qn) (qc_MaxConcurrency qn)
                  (qc_WebsocketDisabled qn)))
  end.

  (* go: config/config.go:220-261 Config.getEnvironmentValues *)
Definition getEnvironmentValues (cfg : Config) : result goerror Config :=
  let redis := Redis cfg in
  let? qn := env_quicknode (QuickNode cfg) in
  let? url := env_value (rd_URL redis) (rd_URLEnv redis)
                (ErrNew ("environment variable " +:+ rd_URLEnv redis +:+ " for redis url is empty")) in
  let? chains := traverse env_chain (Chains cfg) in
  Ok (mkConfig (Server cfg)
        (mkRedisConfig (rd_URLEnv redis) url (rd_KeyPrefix redis) (rd_LeaderTTL redis) (rd_StreamMaxLength redis))
        (Datadog cfg) (Cache cfg) chains qn (ConfigClients cfg)).
End environment.

(** ** Upstreams of a QuickNode account *)

Section quicknode.
  Context `{NetUrl}.

  (** The service, if QuickNode is configured. *)
Definition quicknode_service (qn : option QuickNodeConfig)
    : result goerror (option (QuickNodeConfig * QuickNode.Service)) :=
  match qn with
  | None => Ok None
  | Some qn =>
      match QuickNode.NewService (qc_HTTPURL qn) with
      | Err e => Err (Errorf "configure QuickNode: " e "")
      | Ok endpoints =>
          if (qc_MaxConcurrency qn <? 0)%Z then Err (ErrNew "QuickNode max_concurrency must be positive")
          else Ok (Some (qn, endpoints))
      end
  end.

Definition quicknode_upstream (qn : QuickNodeConfig) (family : string) (urls : Endpoints) : UpstreamConfig :=
  mkUpstreamConfig (if String.eqb (qc_ID qn) "" then "quicknode" else qc_ID qn) (ep_HTTPURL urls) ""
    (if String.eqb family "evm" && negb (qc_WebsocketDisabled qn) then ep_WebsocketURL urls else "") ""
    ∅ ∅ (qc_MaxConcurrency qn).

Definition quicknode_chain (endpoints : option (QuickNodeConfig * QuickNode.Service)) (chain : ChainSettings)
    : result goerror ChainSettings :=
  if String.eqb (ch_QuickNodeNetwork chain) "" then Ok chain
  else
    let prefix := "chain " +:+ quoted (chain_name chain) +:+ ": " in
    match endpoints with
    | None => Err (ErrNew (prefix +:+ "quicknode_network requires quicknode configuration"))
    | Some (qn, endpoints) =>
        match GetEndpoints endpoints (ch_QuickNodeNetwork chain) with
        | Err e => Err (Errorf prefix e "")
        | Ok urls =>
            Ok (with_upstreams chain
                  (ch_Upstreams chain ++ [quicknode_upstream qn (cfg_Family (ch_Config chain)) urls]))
        end
    end.

  (* go: config/config.go:263-297 Config.addQuickNodeUpstreams *)
Definition addQuickNodeUpstreams (cfg : Config) : result goerror Config :=
  let? endpoints := quicknode_service (QuickNode cfg) in
  let? chains := traverse (quicknode_chain endpoints) (Chains cfg) in
  Ok (with_chains cfg chains).
End quicknode.

(** ** Defaults *)

(** A zero setting is an absent one. *)
Definition or_default (v d : Z) : Z := if (v =? 0)%Z then d else v.
Definition or_text (v d : string) : string := if String.eqb v "" then d else v.

Definition minute : Z := 60 * second.

(** [int64] arithmetic wraps. *)
Definition int64 (z : Z) : Z := ((z + 9223372036854775808) mod two64 - 9223372036854775808)%Z.

Definition default_upstream (up : UpstreamConfig) : UpstreamConfig :=
  mkUpstreamConfig (up_ID up) (up_HTTPURL up) (up_HTTPURLEnv up) (up_WebsocketURL up) (up_WebsocketURLEnv up)
    (up_Headers up) (up_HeaderEnvs up) (or_default (up_MaxConcurrency up) 256).

Definition default_chain (chain : ChainSettings) : ChainSettings :=
  let c := ch_Config chain in
  let blockTime := or_default (ch_BlockTime chain) (12 * second) in
  let maxHeadAge := or_default (cfg_MaxHeadAge c) (int64 (2 * blockTime)) in
  mkChainSettings (ch_QuickNodeNetwork chain)
    (mkChainConfig (cfg_Name c) (cfg_Family c) (cfg_ChainID c) (cfg_GenesisHash c)
       (or_default (cfg_PollInterval c) (2 * second))
       (or_default (cfg_HeadRequestTimeout c) (2 * second)) maxHeadAge
       (or_default (cfg_ReorgDepth c) 64))
    blockTime
    (or_default (ch_WebsocketIdleTimeout chain) (int64 (maxHeadAge - Z.quot maxHeadAge 4)))
    (default_upstream <$> ch_Upstreams chain).

(* go: config/config.go:143-218 Config.applyDefaults *)
Definition applyDefaults (cfg : Config) : Config :=
  let server := Server cfg in
  let redis := Redis cfg in
  let datadog := Datadog cfg in
  let cache := Cache cfg in
  mkConfig
    (mkServerSettings
       (mkServerConfig (or_default (cfg_RequestTimeout (sc_Config server)) (5 * second))
          (or_default (cfg_MaxBodyBytes (sc_Config server)) 10485760)
          (or_default (cfg_MaxBatchSize (sc_Config server)) 100))
       (or_text (sc_ListenAddress server) ":8080") (or_text (sc_AdminAddress server) "127.0.0.1:8081")
       (or_default (sc_WebsocketQueueSize server) 256))
    (mkRedisConfig (rd_URLEnv redis) (rd_URL redis) (or_text (rd_KeyPrefix redis) "rpc-proxy")
       (or_default (rd_LeaderTTL redis) (5 * second)) (or_default (rd_StreamMaxLength redis) 4096))
    (mkDatadogConfig (dd_Enabled datadog) (or_text (dd_StatsdAddress datadog) "127.0.0.1:8125")
       (or_text (dd_AgentAddress datadog) "127.0.0.1:8126") (or_text (dd_Service datadog) "rpc-proxy")
       (dd_Environment datadog) (dd_Version datadog) (dd_ProfilingEnabled datadog))
    (mkCacheConfig (Disabled cache) (or_default (MaxEntries cache) 4096)
       (or_default (MaxBytes cache) 67108864) (or_default (MaxEntryBytes cache) 1048576)
       (or_default (TTL cache) (5 * minute)))
    (default_chain <$> Chains cfg) (QuickNode cfg) (ConfigClients cfg).

(** ** Validation *)

(** [^[a-z][a-z0-9_-]{0,63}$] *)
Definition is_lower (c : ascii) : bool := in_range 97 122 c.

Fixpoint label_rest (s : string) : bool :=
  match s with
  | EmptyString => true
  | String c r =>
      (is_lower c || in_range 48 57 c || is_char 95 c || is_char 45 c) && label_rest r
  end.

Definition client_label (s : string) : bool :=
  match s with
  | EmptyString => false
  | String c r => is_lower c && label_rest r && (len r <=? 63)%Z
  end.

Section validate.
  Context `{NetUrl}.

Definition problem (condition : bool) (e : goerror) : list goerror := if condition then [e] else [].

  (** The problems of a list of named things: each is checked with its index and
      whether its name has been seen before. *)
Fixpoint check_each {A} (name : A → string) (check : nat → bool → A → list goerror) (i : nat)
    (seen : list string) (l : list A) : list goerror :=
  match l with
  | [] => []
  | x :: rest =>
      check i (bool_decide (name x ∈ seen)) x ++ check_each name check (S i) (name x :: seen) rest
  end.

Definition check_client (_ : nat) (seen : bool) (client : string) : list goerror :=
  problem (negb (client_label client) || String.eqb client "anonymous" || String.eqb client "unknown" || seen)
    (ErrNew ("client " +:+ quoted client +:+ " must be a unique lowercase label of 1-64 characters; "
             +:+ "anonymous and unknown are reserved")).

Definition has_scheme (url : string) (schemes : list string) : bool :=
  match url_ParseRequestURI url with Ok u => bool_decide (u_Scheme u ∈ schemes) | Err _ => false end.

Definition check_upstream (chain : string) (_ : nat) (seen : bool) (up : UpstreamConfig) : list goerror :=
  let of_upstream text :=
    ErrNew ("chain " +:+ quoted chain +:+ " upstream " +:+ quoted (up_ID up) +:+ text) in
  problem (String.eqb (up_ID up) "" || seen)
    (ErrNew ("chain " +:+ quoted chain +:+ " has an empty or duplicate upstream id"))
  ++ problem (up_MaxConcurrency up <=? 0)%Z (of_upstream ": max_concurrency must be positive")
  ++ problem (negb (has_scheme (up_HTTPURL up) ["http"; "https"])) (of_upstream " has invalid http url")
  ++ problem (negb (String.eqb (up_WebsocketURL up) "")
              && negb (has_scheme (up_WebsocketURL up) ["ws"; "wss"]))
       (of_upstream " has invalid websocket url").

Definition check_chain (i : nat) (seen : bool) (chain : ChainSettings) : list goerror :=
  let c := ch_Config chain in
  let evm := String.eqb (cfg_Family c) "evm" in
  let prefix := "chain " +:+ quoted (cfg_Name c) +:+ ": " in
  let of_chain text := ErrNew (prefix +:+ text) in
  problem (String.eqb (cfg_Name c) "" || seen)
    (ErrNew ("chain " +:+ pretty (Z.of_nat i) +:+ " has an empty or duplicate name"))
  ++ problem (negb evm && negb (String.eqb (cfg_Family c) "solana")) (of_chain "family must be evm or solana")
  ++ (if evm then
        match ParseEVMQuantity (cfg_ChainID c) with
        | Err e => [Errorf (prefix +:+ "invalid chain_id: ") (quantity_goerror e) ""]
        | Ok _ => []
        end
      else [])
  ++ problem (String.eqb (cfg_Family c) "solana" && String.eqb (cfg_GenesisHash c) "")
       (of_chain "genesis_hash is required")
  ++ problem ((ch_BlockTime chain <=? 0)%Z || (cfg_PollInterval c <=? 0)%Z || (cfg_MaxHeadAge c <=? 0)%Z
              || (cfg_ReorgDepth c <=? 0)%Z)
       (of_chain "timing values and reorg_depth must be positive")
  ++ problem (cfg_HeadRequestTimeout c <=? 0)%Z (of_chain "head_request_timeout must be positive")
  ++ problem (evm && ((ch_WebsocketIdleTimeout chain <=? 0)%Z
                      || (cfg_MaxHeadAge c <=? ch_WebsocketIdleTimeout chain)%Z))
       (of_chain "websocket_idle_timeout must be positive and less than max_head_age")
  ++ problem (bool_decide (ch_Upstreams chain = [])) (of_chain "at least one upstream is required")
  ++ check_each up_ID (check_upstream (cfg_Name c)) 0 [] (ch_Upstreams chain).

Definition check_cache (cache : CacheConfig) : list goerror :=
  problem ((MaxEntries cache <=? 0)%Z || (MaxBytes cache <=? 0)%Z || (MaxEntryBytes cache <=? 0)%Z
           || (MaxBytes cache <? MaxEntryBytes cache)%Z || (TTL cache <=? 0)%Z)
    (ErrNew "cache limits and ttl must be positive; max_entry_bytes must not exceed max_bytes").

Definition check_server (server : ServerSettings) : list goerror :=
  let c := sc_Config server in
  problem (cfg_RequestTimeout c <=? 0)%Z (ErrNew "server request_timeout must be positive")
  ++ problem ((cfg_MaxBodyBytes c <=? 0)%Z || (cfg_MaxBatchSize c <=? 0)%Z || (100 <? cfg_MaxBatchSize c)%Z
              || (sc_WebsocketQueueSize server <=? 0)%Z)
       (ErrNew "server limits must be positive and max_batch_size must not exceed 100").

Definition check_redis (redis : RedisConfig) : list goerror :=
  problem ((rd_LeaderTTL redis <=? 0)%Z || (rd_StreamMaxLength redis <=? 0)%Z)
    (ErrNew "redis leader_ttl and stream_max_length must be positive")
  ++ problem (String.eqb (rd_URL redis) "") (ErrNew "redis url is required")
  ++ match url_ParseRequestURI (rd_URL redis) with
     | Err e => [Errorf "invalid redis url: " e ""]
     | Ok parsed => problem (negb (bool_decide (u_Scheme parsed ∈ ["redis"; "rediss"; "unix"])))
                      (ErrNew "redis url must use redis, rediss, or unix scheme")
     end.

Definition problems (cfg : Config) : list goerror :=
  check_each id check_client 0 [] (ConfigClients cfg)
  ++ check_cache (Cache cfg) ++ check_server (Server cfg) ++ check_redis (Redis cfg)
  ++ problem (bool_decide (Chains cfg = [])) (ErrNew "at least one chain is required")
  ++ check_each chain_name check_chain 0 [] (Chains cfg).

  (** All problems joined; [errors.Join] of nothing is nil. *)
  (* go: config/config.go:300-388 Config.Validate *)
Definition Config_Validate (cfg : Config) : option goerror :=
  if decide (problems cfg = []) then None else Some (ErrJoin (problems cfg)).
End validate.

(** ** Loading *)

(** The decoder of gopkg.in/yaml.v3 on the contents of a file: the settings, given how a
    scalar is read as a duration, and whether no other document follows ([io.EOF]). *)
Class YamlDecoder := {
  yaml_Decode : (string → result goerror Z) → string → result goerror Config;
  yaml_at_end : string → bool
}.

(** What follows the decoding of the file. *)
Definition completed `{NetUrl} (getenv : string → string) (range_order : gmap string string → list (string * string))
    (cfg : Config) : result goerror Config :=
  let? cfg := getEnvironmentValues getenv range_order cfg in
  let? cfg := addQuickNodeUpstreams cfg in
  let cfg := applyDefaults cfg in
  match Config_Validate cfg with Some e => Err e | None => Ok cfg end.

(** From what reading the file returned. *)
(* go: config/config.go:115-141 Load *)
Definition Load `{NetUrl, YamlDecoder} (getenv : string → string)
    (range_order : gmap string string → list (string * string)) (file : result goerror string)
    : result goerror Config :=
  match file with
  | Err e => Err (Errorf "read config: " e "")
  | Ok contents =>
      match yaml_Decode Duration_UnmarshalYAML contents with
      | Err e => Err (Errorf "parse config: " e "")
      | Ok cfg =>
          if negb (yaml_at_end contents) then Err (ErrNew "config must contain exactly one YAML document")
          else completed getenv range_order cfg
      end
  end.

(** The durations of the settings. *)
Definition chain_durations (chain : ChainSettings) : list Z :=
  let c := ch_Config chain in
  [ch_BlockTime chain; cfg_PollInterval c; cfg_HeadRequestTimeout c; ch_WebsocketIdleTimeout chain; cfg_MaxHeadAge c].

Definition durations (cfg : Config) : list Z :=
  [TTL (Cache cfg); cfg_RequestTimeout (sc_Config (Server cfg)); rd_LeaderTTL (Redis cfg)]
  ++ (Chains cfg ≫= chain_durations).

(** A duration is absent, and then zero, or what its scalar is read as. *)
Class YamlLaws `{YamlDecoder} := {
  yaml_durations (P : Z → Prop) unmarshal contents cfg :
    P 0%Z → (∀ s d, unmarshal s = Ok d → P d) → yaml_Decode unmarshal contents = Ok cfg →
    Forall P (durations cfg)
}.

(* go: upstream/client.go:78-100 NewClient *)
Definition NewClient (range_order : gmap string string → list (string * string)) (chain family : string)
    (up : UpstreamConfig) : Client :=
  mkClient (up_ID up) (up_HTTPURL up) (up_WebsocketURL up) (range_order (up_Headers up)) family chain.

(* go: chain/runtime.go:83-90 NewRuntime *)
Definition NewRuntime (range_order : gmap string string → list (string * string)) (chain : ChainSettings)
    : Runtime :=
  let c := ch_Config chain in
  mkRuntime c (NewClient range_order (cfg_Name c) (cfg_Family c) <$> ch_Upstreams chain).

(** ** Valid settings *)

Section valid.
  Context `{NetUrl}.

Definition url_valid (url : string) (schemes : list string) : Prop :=
  ∃ u, url_ParseRequestURI url = Ok u ∧ u_Scheme u ∈ schemes.

Record upstream_valid (up : UpstreamConfig) : Prop := mkUpstreamValid {
  uv_id : up_ID up ≠ "";
  uv_concurrency : (0 < up_MaxConcurrency up)%Z;
  uv_http : url_valid (up_HTTPURL up) ["http"; "https"];
  uv_websocket : up_WebsocketURL up = "" ∨ url_valid (up_WebsocketURL up) ["ws"; "wss"]
}.

  (** The chain has the identity its family is checked by. *)
Definition identity_valid (c : ChainConfig) : Prop :=
  cfg_Family c = "evm" ∧ is_ok (ParseEVMQuantity (cfg_ChainID c)) = true ∨
  cfg_Family c = "solana" ∧ cfg_GenesisHash c ≠ "".

Record chain_valid (chain : ChainSettings) : Prop := mkChainValid {
  cv_name : chain_name chain ≠ "";
  cv_identity : identity_valid (ch_Config chain);
  cv_timing : (0 < ch_BlockTime chain ∧ 0 < cfg_PollInterval (ch_Config chain) ∧
    0 < cfg_MaxHeadAge (ch_Config chain) ∧ 0 < cfg_HeadRequestTimeout (ch_Config chain))%Z;
  cv_depth : (0 < cfg_ReorgDepth (ch_Config chain))%Z;
  cv_idle : cfg_Family (ch_Config chain) = "evm" →
    (0 < ch_WebsocketIdleTimeout chain < cfg_MaxHeadAge (ch_Config chain))%Z;
  cv_some : ch_Upstreams chain ≠ [];
  cv_ids : NoDup (up_ID <$> ch_Upstreams chain);
  cv_upstreams : ∀ up, up ∈ ch_Upstreams chain → upstream_valid up
}.

Record config_valid (cfg : Config) : Prop := mkConfigValid {
  gv_clients : NoDup (ConfigClients cfg);
  gv_labels : ∀ client, client ∈ ConfigClients cfg →
    client_label client = true ∧ client ≠ "anonymous" ∧ client ≠ "unknown";
  gv_cache : config_ok (Cache cfg) ∧ (0 < TTL (Cache cfg))%Z;
  gv_timeout : (0 < cfg_RequestTimeout (sc_Config (Server cfg)))%Z;
  gv_server : (0 < cfg_MaxBodyBytes (sc_Config (Server cfg)) ∧
    0 < cfg_MaxBatchSize (sc_Config (Server cfg)) ≤ 100 ∧ 0 < sc_WebsocketQueueSize (Server cfg))%Z;
  gv_redis : (0 < rd_LeaderTTL (Redis cfg) ∧ 0 < rd_StreamMaxLength (Redis cfg))%Z;
  gv_store : rd_URL (Redis cfg) ≠ "" ∧ url_valid (rd_URL (Redis cfg)) ["redis"; "rediss"; "unix"];
  gv_some : Chains cfg ≠ [];
  gv_names : NoDup (chain_name <$> Chains cfg);
  gv_chains : ∀ chain, chain ∈ Chains cfg → chain_valid chain
}.
End valid.

(** ** Lemmas on the checks *)

Lemma problem_nil b e : problem b e = [] ↔ b = false.
Proof. by destruct b. Qed.

(** Nothing to report: every item passes its check, and the names are distinct if a
    name seen before is a problem. *)
Lemma check_each_nil {A} (name : A → string) check (P : A → Prop) l :
  (∀ i x, check i true x ≠ []) → (∀ i x, (check i false x = []) ↔ P x) → ∀ i seen,
  check_each name check i seen l = [] ↔
    NoDup (name <$> l) ∧ ∀ x, x ∈ l → (name x ∉ seen) ∧ P x.
Proof.
  intros Hdup Hcheck. induction l as [|x l IH]; intros i seen; simpl.
  { split; [|done]. intros _. split; [constructor|]. by intros x Hx%elem_of_nil. }
  rewrite app_nil, IH, NoDup_cons. split.
  - intros [Hx [Hnd Hall]]. destruct (bool_decide (name x ∈ seen)) eqn:Hs; [by apply Hdup in Hx|].
    apply bool_decide_eq_false in Hs. apply Hcheck in Hx. split; [split; [|done]|].
    + intros Hin. apply list_elem_of_fmap in Hin as (y & Hy & Hin). apply Hall in Hin as [Hin _].
      apply Hin. rewrite <- Hy. by left.
    + intros y Hy. apply elem_of_cons in Hy as [->|Hy]; [done|]. apply Hall in Hy as [Hy HP].
      split; [|done]. intros Hys. apply Hy. by right.
  - intros [[Hx Hnd] Hall]. destruct (Hall x ltac:(by left)) as [Hs HP].
    rewrite bool_decide_eq_false_2 by done. split; [by apply Hcheck|]. split; [done|].
    intros y Hy. destruct (Hall y ltac:(by right)) as [Hys HPy]. split; [|done].
    intros Hin. apply elem_of_cons in Hin as [Heq|?]; [|done]. apply Hx. rewrite <- Heq. by apply list_elem_of_fmap_2.
Qed.

Section checks.
  Context `{NetUrl}.

Lemma has_scheme_spec url schemes : has_scheme url schemes = true ↔ url_valid url schemes.
Proof.
  unfold has_scheme, url_valid. destruct (url_ParseRequestURI url) as [|u].
  - split; [done|]. by intros (? & ? & _).
  - rewrite bool_decide_eq_true. split; [eauto|]. by intros (? & [= <-] & ?).
Qed.

Lemma check_upstream_nil chain i up : check_upstream chain i false up = [] ↔ upstream_valid up.
Proof.
  unfold check_upstream. rewrite !app_nil, !problem_nil, orb_false_r, andb_false_iff, !negb_false_iff,
    !has_scheme_spec, Z.leb_gt, String.eqb_eq, String.eqb_neq.
  split; [intros (?&?&?&?); by split|]. by intros [].
Qed.

Lemma check_upstream_seen chain i up : check_upstream chain i true up ≠ [].
Proof. unfold check_upstream. by rewrite orb_true_r. Qed.

Lemma family_cases c : (negb (String.eqb (cfg_Family c) "evm") && negb (String.eqb (cfg_Family c) "solana")) = false
  ↔ cfg_Family c = "evm" ∨ cfg_Family c = "solana".
Proof. by rewrite andb_false_iff, !negb_false_iff, !String.eqb_eq. Qed.
Lemma check_client_nil i client : check_client i false client = [] ↔
  client_label client = true ∧ client ≠ "anonymous" ∧ client ≠ "unknown".
Proof.
  unfold check_client. rewrite problem_nil, !orb_false_iff, negb_false_iff, !String.eqb_neq.
  intuition.
Qed.

Lemma check_client_seen i client : check_client i true client ≠ [].
Proof. unfold check_client. by rewrite !orb_true_r. Qed.

  (** The family and the identity that goes with it. *)
Lemma identity_checks c prefix : let evm := String.eqb (cfg_Family c) "evm" in
  let of_chain text := ErrNew (prefix +:+ text) in
  problem (negb evm && negb (String.eqb (cfg_Family c) "solana")) (of_chain "family must be evm or solana") = [] ∧
  (if evm then
     match ParseEVMQuantity (cfg_ChainID c) with
     | Err e => [Errorf (prefix +:+ "invalid chain_id: ") (quantity_goerror e) ""]
     | Ok _ => []
     end
   else []) = [] ∧
  problem (String.eqb (cfg_Family c) "solana" && String.eqb (cfg_GenesisHash c) "")
    (of_chain "genesis_hash is required") = [] ↔ identity_valid c.
Proof.
  cbv zeta. rewrite !problem_nil, family_cases, andb_false_iff, !String.eqb_neq. unfold identity_valid.
  destruct (String.eqb_spec (cfg_Family c) "evm") as [->|Hne].
  - destruct (ParseEVMQuantity _); simpl; intuition congruence.
  - intuition congruence.
Qed.

Lemma check_chain_nil i chain : check_chain i false chain = [] ↔ chain_valid chain.
Proof.
  unfold check_chain. rewrite !app_nil.
  rewrite (check_each_nil up_ID _ upstream_valid (ch_Upstreams chain) (check_upstream_seen _) (check_upstream_nil _)).
  pose proof (identity_checks (ch_Config chain) ("chain " +:+ quoted (cfg_Name (ch_Config chain)) +:+ ": ")) as Hid.
  cbv zeta in Hid. rewrite !problem_nil in *.
  assert ((String.eqb (cfg_Family (ch_Config chain)) "evm"
           && ((ch_WebsocketIdleTimeout chain <=? 0)%Z
               || (cfg_MaxHeadAge (ch_Config chain) <=? ch_WebsocketIdleTimeout chain)%Z)) = false
    ↔ (cfg_Family (ch_Config chain) = "evm" →
       (0 < ch_WebsocketIdleTimeout chain < cfg_MaxHeadAge (ch_Config chain))%Z)) as Hidle.
  { rewrite andb_false_iff, orb_false_iff, !Z.leb_gt, String.eqb_neq.
    destruct (decide (cfg_Family (ch_Config chain) = "evm")); intuition lia. }
  rewrite !orb_false_iff, !Z.leb_gt, bool_decide_eq_false, String.eqb_neq, Hidle. split.
  - intros ((Hname & _) & Hf & Hp & Hg & Ht & Hh & Hi & Hs & Hnd & Hups).
    assert (identity_valid (ch_Config chain)) by by apply Hid.
    split; [done|done|tauto|tauto|done|done|done|]. intros up Hup. by apply Hups.
  - intros [Hname [Hf [Hp Hg]]%Hid Ht Hd Hi Hs Hnd Hups]. split_and!; try done; try tauto.
    intros up Hup. split; [apply not_elem_of_nil|auto].
Qed.

Lemma check_chain_seen i chain : check_chain i true chain ≠ [].
Proof. unfold check_chain. by rewrite orb_true_r. Qed.
End checks.

(** ** Lemmas on loading *)

Lemma Config_Validate_spec `{NetUrl} cfg : Config_Validate cfg = None ↔ config_valid cfg.
Proof.
  transitivity (problems cfg = []); [unfold Config_Validate; by destruct (decide (problems cfg = []))|].
  unfold problems. rewrite !app_nil.
  rewrite (check_each_nil id _ _ (ConfigClients cfg) check_client_seen check_client_nil), list_fmap_id.
  rewrite (check_each_nil chain_name _ _ (Chains cfg) check_chain_seen check_chain_nil).
  unfold check_cache, check_server, check_redis. rewrite !app_nil, !problem_nil, !orb_false_iff, !Z.leb_gt, !Z.ltb_ge,
    bool_decide_eq_false, String.eqb_neq.
  assert (match url_ParseRequestURI (rd_URL (Redis cfg)) with
    | Err e => [Errorf "invalid redis url: " e ""]
    | Ok parsed => problem (negb (bool_decide (u_Scheme parsed ∈ ["redis"; "rediss"; "unix"])))
                     (ErrNew "redis url must use redis, rediss, or unix scheme")
    end = [] ↔ url_valid (rd_URL (Redis cfg)) ["redis"; "rediss"; "unix"]) as Hurl.
  { rewrite <- has_scheme_spec. unfold has_scheme. destruct (url_ParseRequestURI _); [done|].
    by rewrite problem_nil, negb_false_iff. }
  rewrite Hurl. unfold config_ok. split.
  - intros ((Hnd & Hcl) & Hcache & (Ht & Hsv) & (Hr & Hu & Hs) & Hsome & Hnames & Hch).
    split; try done; try lia; [intros c Hc; by apply Hcl|unfold config_ok; lia|intros c Hc; by apply Hch].
  - intros [Hnd Hcl Hcache Ht Hsv Hr [Hu Hs] Hsome Hnames Hch]. unfold config_ok in Hcache.
    split_and!; try done; try lia;
      (intros x Hx; split; [apply not_elem_of_nil|auto]).
Qed.

Lemma or_default_idem v d : or_default (or_default v d) d = or_default v d.
Proof. unfold or_default. destruct (Z.eqb_spec v 0); [by destruct (Z.eqb_spec d 0)|]. by apply Z.eqb_neq in n as ->. Qed.

Lemma or_text_idem v d : or_text (or_text v d) d = or_text v d.
Proof.
  unfold or_text. destruct (String.eqb_spec v ""); [by destruct (String.eqb_spec d "")|].
  by apply String.eqb_neq in n as ->.
Qed.

Lemma default_chain_idem chain : default_chain (default_chain chain) = default_chain chain.
Proof.
  unfold default_chain. simpl. rewrite !or_default_idem. f_equal.
  rewrite <- list_fmap_compose. apply list_fmap_ext. intros i up _. unfold default_upstream. simpl.
  by rewrite or_default_idem.
Qed.

Lemma applyDefaults_idem cfg : applyDefaults (applyDefaults cfg) = applyDefaults cfg.
Proof.
  unfold applyDefaults. simpl. rewrite !or_default_idem, !or_text_idem. f_equal.
  rewrite <- list_fmap_compose. apply list_fmap_ext. intros i chain _. apply default_chain_idem.
Qed.

Lemma traverse_Forall2 {E A B} (f : A → result E B) (l : list A) (l' : list B) :
  traverse f l = Ok l' → Forall2 (λ x y, f x = Ok y) l l'.
Proof.
  revert l'. induction l as [|x l IH]; intros l'; simpl; [intros [= <-]; constructor|].
  intros (y & Hy & (ys & Hys & [= <-])%result_bind_Ok)%result_bind_Ok. constructor; auto.
Qed.

(** What loading keeps of an upstream: identity and limits, and every URL and header
    that is set in the file. *)
Definition upstream_kept (up up' : UpstreamConfig) : Prop :=
  up_ID up' = up_ID up ∧
  (up_HTTPURL up ≠ "" → up_HTTPURL up' = up_HTTPURL up) ∧
  (up_WebsocketURL up ≠ "" → up_WebsocketURL up' = up_WebsocketURL up) ∧
  (up_MaxConcurrency up ≠ 0%Z → up_MaxConcurrency up' = up_MaxConcurrency up) ∧
  ∀ header value, up_Headers up !! header = Some value → up_HeaderEnvs up !! header = None →
    up_Headers up' !! header = Some value.

Section loading.
  Context `{NetUrl}.
  Variable getenv : string → string.
  Variable range_order : gmap string string → list (string * string).
  Hypothesis range_perm : ∀ m, range_order m ≡ₚ map_to_list m.

Lemma env_value_set value env e v : env_value getenv value env e = Ok v → value ≠ "" → v = value.
Proof. unfold env_value. intros Hv Hne. apply String.eqb_neq in Hne. rewrite Hne in Hv. by injection Hv. Qed.

Lemma env_headers_kept empty envs headers headers' header value :
  env_headers getenv empty envs headers = Ok headers' →
  header ∉ envs.*1 → headers !! header = Some value → headers' !! header = Some value.
Proof.
  revert headers. induction envs as [|[h env] envs IH]; intros headers; simpl; [by intros [= <-]|].
  destruct (String.eqb _ _); [done|]. intros Hrun Hnot. apply not_elem_of_cons in Hnot as [Hne Hnot].
  intros Hh. apply (IH _ Hrun Hnot). by rewrite lookup_insert_ne by congruence.
Qed.

Lemma env_upstream_kept chain up up' : env_upstream getenv range_order chain up = Ok up' →
  upstream_kept up (default_upstream up').
Proof using range_perm.
  unfold env_upstream.
  intros (http & Hhttp & (ws & Hws & (hs & Hhs & [= <-])%result_bind_Ok)%result_bind_Ok)%result_bind_Ok.
  split_and!; simpl; [done|by eapply env_value_set|by eapply env_value_set| |].
  - unfold or_default. by intros ->%Z.eqb_neq.
  - intros header value Hh Hno. eapply env_headers_kept; [exact Hhs| |done].
    rewrite range_perm. intros Hin. apply list_elem_of_fmap in Hin as ([h env] & -> & Hin).
    apply elem_of_map_to_list in Hin. simpl in Hno. congruence.
Qed.
  (** What is added to a chain's upstreams: one of the QuickNode account for a chain
      that names a network, nothing otherwise. *)
Definition added_upstreams (qn : option QuickNodeConfig) (chain : ChainSettings)
    (added : list UpstreamConfig) : Prop :=
  if String.eqb (ch_QuickNodeNetwork chain) "" then added = []
  else ∃ q s e up, qn = Some q ∧ QuickNode.NewService (qc_HTTPURL q) = Ok s ∧
    GetEndpoints s (ch_QuickNodeNetwork chain) = Ok e ∧ added = [up] ∧ up_HTTPURL up = ep_HTTPURL e ∧
    (up_WebsocketURL up = "" ∨ up_WebsocketURL up = ep_WebsocketURL e).

Definition chain_kept (qn : option QuickNodeConfig) (chain chain' : ChainSettings) : Prop :=
  chain_name chain' = chain_name chain ∧
  cfg_Family (ch_Config chain') = cfg_Family (ch_Config chain) ∧
  cfg_ChainID (ch_Config chain') = cfg_ChainID (ch_Config chain) ∧
  cfg_GenesisHash (ch_Config chain') = cfg_GenesisHash (ch_Config chain) ∧
  ∃ ups added, ch_Upstreams chain' = ups ++ added ∧
    Forall2 upstream_kept (ch_Upstreams chain) ups ∧ added_upstreams qn chain added.

Lemma quicknode_service_spec qn endpoints : quicknode_service qn = Ok endpoints →
  ∀ q s, endpoints = Some (q, s) → qn = Some q ∧ QuickNode.NewService (qc_HTTPURL q) = Ok s.
Proof.
  unfold quicknode_service. destruct qn as [qn|]; [|by intros [= <-]].
  destruct (NewService _) as [|s'] eqn:Hs; [done|]. destruct (_ <? _)%Z; [done|].
  intros [= <-] q s [= <- <-]. done.
Qed.

Lemma quicknode_chain_kept qn endpoints chain chain' :
  quicknode_service qn = Ok endpoints → quicknode_chain endpoints chain = Ok chain' →
  ∃ added, chain' = with_upstreams chain (ch_Upstreams chain ++ added) ∧
    added_upstreams qn chain (default_upstream <$> added).
Proof.
  intros Hqn. unfold quicknode_chain, added_upstreams.
  destruct (String.eqb (ch_QuickNodeNetwork chain) "").
  { intros [= <-]. exists []. rewrite app_nil_r. by destruct chain. }
  destruct endpoints as [[q s]|]; [|done].
  destruct (quicknode_service_spec _ _ Hqn _ _ eq_refl) as [-> Hs].
  destruct (GetEndpoints _ _) as [|urls] eqn:Hurls; [done|]. intros [= <-].
  eexists [_]. split; [done|]. exists q, s, urls. eexists. split_and!; [done..|].
  simpl. destruct (_ && _); auto.
Qed.

Lemma chain_loaded qn endpoints chain chain1 chain2 :
  quicknode_service qn = Ok endpoints → env_chain getenv range_order chain = Ok chain1 →
  quicknode_chain endpoints chain1 = Ok chain2 → chain_kept qn chain (default_chain chain2).
Proof using range_perm.
  intros Hqn (ups & Hups%traverse_Forall2 & [= <-])%result_bind_Ok Hchain.
  destruct (quicknode_chain_kept _ _ _ _ Hqn Hchain) as (added & -> & Hadded).
  unfold chain_kept, chain_name. simpl. split_and!; [done..|].
  eexists (default_upstream <$> ups), (default_upstream <$> added). rewrite fmap_app.
  split_and!; [done| |done]. apply Forall2_fmap_r. eapply Forall2_impl; [exact Hups|].
  intros up up' Hup. exact (env_upstream_kept _ _ _ Hup).
Qed.
(** The durations of the file are [int64], and so is what replaces those that are absent. *)
Lemma int64_range z : int64_wf (int64 z).
Proof using Type.
  unfold int64_wf, int64, two63. pose proof (Z.mod_pos_bound (z + 9223372036854775808) two64 ltac:(done)).
  unfold two64 in *. lia.
Qed.

Lemma or_default_wf v d : int64_wf v → int64_wf d → int64_wf (or_default v d).
Proof using Type. unfold or_default. by destruct (_ =? _)%Z. Qed.

Lemma default_chain_durations chain :
  Forall int64_wf (chain_durations chain) → Forall int64_wf (chain_durations (default_chain chain)).
Proof using Type.
  unfold chain_durations. rewrite !Forall_cons. intros (? & ? & ? & ? & ? & _). simpl.
  assert (∀ z, (0 ≤ z ≤ 12 * second)%Z → int64_wf z) as Hs by (unfold int64_wf, two63, second; lia).
  split_and!; try done; apply or_default_wf; try done; first [apply int64_range|by apply Hs].
Qed.

Lemma applyDefaults_durations cfg : Forall int64_wf (durations cfg) → Forall int64_wf (durations (applyDefaults cfg)).
Proof using Type.
  unfold durations. rewrite !Forall_app, !Forall_cons. intros [(? & ? & ? & _) Hc]. simpl.
  assert (∀ z, (0 ≤ z ≤ 300 * second)%Z → int64_wf z) as Hs by (unfold int64_wf, two63, second; lia).
  split; [split_and!; try done; (apply or_default_wf; [done|by apply Hs])|].
  rewrite Forall_bind in Hc. rewrite Forall_bind, Forall_fmap. eapply Forall_impl; [exact Hc|].
  intros chain. apply default_chain_durations.
Qed.

Lemma loaded_durations endpoints chains chains1 chains2 :
  traverse (env_chain getenv range_order) chains = Ok chains1 → traverse (quicknode_chain endpoints) chains1 = Ok chains2 →
  (chains2 ≫= chain_durations) = (chains ≫= chain_durations).
Proof using Type.
  intros H1%traverse_Forall2 H2%traverse_Forall2.
  assert (∀ c c1 c2, env_chain getenv range_order c = Ok c1 → quicknode_chain endpoints c1 = Ok c2 →
    chain_durations c2 = chain_durations c) as Heq.
  { intros c c1 c2 (ups & _ & [= <-])%result_bind_Ok. unfold quicknode_chain.
    destruct (String.eqb _ _); [by intros [= <-]|]. destruct endpoints as [[q s]|]; [|done].
    destruct (GetEndpoints _ _); [done|]. by intros [= <-]. }
  revert chains2 H2. induction H1 as [|c c1 l l1 Hc _ IH]; intros chains2 H2; inversion H2; [done|]; subst.
  cbn [mbind list_bind]. erewrite Heq by done. f_equal. by apply IH.
Qed.
End loading.

Lemma completed_sound `{NetUrl} getenv range_order cfg cfg' :
  (∀ m, range_order m ≡ₚ map_to_list m) → Forall int64_wf (durations cfg) →
  completed getenv range_order cfg = Ok cfg' →
  config_valid cfg' ∧ applyDefaults cfg' = cfg' ∧ Forall int64_wf (durations cfg') ∧
  Forall2 (chain_kept (QuickNode cfg')) (Chains cfg) (Chains cfg') ∧
  ∀ chain, chain ∈ Chains cfg' →
    let r := NewRuntime range_order chain in
    NoDup (cl_ID <$> rt_Upstreams r) ∧ ∀ c, c ∈ rt_Upstreams r → cl_Chain c = cfg_Name (rt_Config r).
Proof.
  intros Hrange Hdur. unfold completed, getEnvironmentValues, addQuickNodeUpstreams.
  intros (cfg1 & Henv & (cfg2 & Hqn & Hload)%result_bind_Ok)%result_bind_Ok.
  apply result_bind_Ok in Henv as (qn & _ & (url & _ & (chains & Hchains & [= <-])%result_bind_Ok)%result_bind_Ok).
  apply result_bind_Ok in Hqn as (endpoints & Hep & (chains' & Hchains' & [= <-])%result_bind_Ok). simpl in *.
  destruct (Config_Validate _) eqn:Hv; [done|]. injection Hload as <-. apply Config_Validate_spec in Hv.
  split_and!; [done|apply applyDefaults_idem| | |].
  - apply applyDefaults_durations. unfold durations in *. simpl. by rewrite (loaded_durations _ _ _ _ _ _ Hchains Hchains').
  - simpl. apply Forall2_fmap_r. apply traverse_Forall2 in Hchains, Hchains'.
    eapply Forall2_trans; [|exact Hchains|exact Hchains'].
    intros chain chain1 chain2 H1 H2. exact (chain_loaded _ _ Hrange _ _ _ _ _ Hep H1 H2).
  - intros chain Hin. apply (gv_chains _ Hv) in Hin as Hc. simpl. split.
    + rewrite <- list_fmap_compose. apply (cv_ids _ Hc).
    + intros c Hc'. apply list_elem_of_fmap in Hc' as (up & -> & _). done.
Qed.

(** * Properties *)

(** C35: loading the configuration gives settings every part can rely on.
    [Validate] reports nothing exactly if the settings are valid: distinct client
    labels, cache and server limits in range, a store URL, distinct chains with a
    family, its identity, positive timings and distinct upstreams with usable URLs.
    If [Load] returns settings, they come from a file with one document; they are
    valid, the defaults are all filled in, no duration overflows an [int64], every
    chain of the file is there in order with its identity and its upstreams, which
    keep the URLs, headers and limits given in the file, and a chain that names a
    QuickNode network has one upstream more, of the configured account; and the
    runtime of a chain has clients with distinct identifiers that carry its name. *)
Theorem load_sound `{NetUrl, YamlLaws} getenv range_order file :
  (∀ m, range_order m ≡ₚ map_to_list m) →
  (∀ cfg, Config_Validate cfg = None ↔ config_valid cfg) ∧
  ∀ cfg', Load getenv range_order file = Ok cfg' →
    ∃ contents cfg, file = Ok contents ∧ yaml_Decode Duration_UnmarshalYAML contents = Ok cfg ∧
    yaml_at_end contents = true ∧
    config_valid cfg' ∧ applyDefaults cfg' = cfg' ∧ Forall int64_wf (durations cfg') ∧
    Forall2 (chain_kept (QuickNode cfg')) (Chains cfg) (Chains cfg') ∧
    ∀ chain, chain ∈ Chains cfg' →
      let r := NewRuntime range_order chain in
      NoDup (cl_ID <$> rt_Upstreams r) ∧ ∀ c, c ∈ rt_Upstreams r → cl_Chain c = cfg_Name (rt_Config r).
Proof.
  intros Hrange. split; [apply Config_Validate_spec|]. unfold Load. intros cfg'.
  destruct file as [e|contents]; [done|]. destruct (yaml_Decode _ contents) as [e|cfg] eqn:Hdec; [done|].
  destruct (yaml_at_end contents) eqn:Hend; [|done]. intros Hload. exists contents, cfg. do 3 (split; [done|]).
  apply (yaml_durations int64_wf) in Hdec; [|by unfold int64_wf, two63; lia|].
  2:{ intros s d. unfold Duration_UnmarshalYAML. destruct (ParseDuration s) as [e|d'] eqn:Hp; [done|].
      intros [= <-]. by eapply ParseDuration_range. }
  exact (completed_sound _ _ _ _ Hrange Hdec Hload).
Qed.

(** ** A configuration

    Two chains on one QuickNode account, one of them with an upstream of its own whose
    URL is in the environment. *)

Definition demo_getenv (name : string) : string :=
  if String.eqb name "FALLBACK_URL" then "https://fallback.example.invalid/rpc" else "".

Definition demo_chain (name family id genesis network : string) (ups : list UpstreamConfig) : ChainSettings :=
  mkChainSettings network (mkChainConfig name family id genesis 0 0 0 0) 0 0 ups.

Definition demo_settings (timeout : Z) : Config :=
  mkConfig (mkServerSettings (mkServerConfig timeout 0 0) "" "" 0)
    (mkRedisConfig "" "redis://localhost:6379/0" "" 0 0)
    (mkDatadogConfig false "" "" "" "" "" false) (mkCacheConfig false 0 0 0 0)
    [ demo_chain "ethereum" "evm" "0x1" "" "mainnet"
        [mkUpstreamConfig "fallback" "" "FALLBACK_URL" "" "" ∅ ∅ 0];
      demo_chain "solana" "solana" "" "example-genesis" "solana-mainnet" [] ]
    (Some (mkQuickNodeConfig demo_url "" "" 42 false)) ["wallet"; "indexer"].

Definition demo_config : Config := demo_settings 2500000000.

(** A decoder that reads one file. *)
#[export] Instance demo_yaml : YamlDecoder := {
  yaml_Decode unmarshal contents := let? timeout := unmarshal "2.5s" in Ok (demo_settings timeout);
  yaml_at_end contents := String.eqb contents "demo"
}.

#[export] Instance demo_yaml_laws : YamlLaws.
Proof.
  split. intros P unmarshal contents cfg H0 Hp. simpl. intros (t & Ht & [= <-])%result_bind_Ok.
  apply Hp in Ht. repeat (apply Forall_cons_2; [done|]). done.
Qed.

Definition loaded : result goerror Config := Load demo_getenv map_to_list (Ok "demo").

Definition loaded_urls : result goerror (list (list string)) :=
  match loaded with
  | Err e => Err e
  | Ok cfg => Ok ((λ chain, up_HTTPURL <$> ch_Upstreams chain) <$> Chains cfg)
  end.

Lemma load_sound_witness :
  loaded_urls = Ok [ ["https://fallback.example.invalid/rpc"; "https://example.quiknode.pro/token/?key=shared"];
                     ["https://example.solana-mainnet.quiknode.pro/token/?key=shared"] ] ∧
  ∃ cfg', loaded = Ok cfg' ∧ config_valid cfg' ∧ Forall int64_wf (durations cfg').
Proof.
  split; [vm_compute; reflexivity|].
  destruct (load_sound demo_getenv map_to_list (Ok "demo") ltac:(reflexivity)) as [_ Hload].
  destruct loaded as [e|cfg'] eqn:Hl; [exfalso; vm_compute in Hl; discriminate|].
  destruct (Hload cfg' Hl) as (_ & _ & _ & _ & _ & Hv & _ & Hd & _). exists cfg'.
  split; [reflexivity|]. split; [exact Hv|exact Hd].
Defined.
