(* ===== verification/Telemetry.v ===== *)
(** * Telemetry — internal/telemetry/telemetry.go

    Metrics, traces and profiles are optional.  What is started is stopped again, a
    metric that cannot be submitted is counted and nothing else, and the texts of log
    lines and of errors leave the process redacted ([Redaction.v]).  The Datadog clients
    and the output are a parameter. *)

From S2P Require Import Prelude GoStrings GoJson JsonRpc Head MemoryStore World Redaction Upstream Chain Config.

(** ** The attributes of a log line *)

Inductive attr_value :=
| AttrError (err : goerror)
| AttrString (text : string)
| AttrOther.

(** An error becomes its text, and a text is redacted, so that of an error is twice. *)
(* go: telemetry/telemetry.go:88-98 credentialRedactor.replaceAttr *)
Definition replaceAttr (value : attr_value) : attr_value :=
  let value := match value with AttrError err => AttrString (redact (error_text err)) | value => value end in
  match value with AttrString text => AttrString (redact text) | value => value end.

(** ** Log lines *)

Definition LevelDebug : Z := -4.
Definition LevelInfo : Z := 0.
Definition LevelWarn : Z := 4.
Definition LevelError : Z := 8.

(** A handler of [log/slog]: the level from which on it writes, and what becomes of every
    value. *)
Record Logger := mkLogger {
  lg_Level : Z;
  lg_ReplaceAttr : attr_value → attr_value
}.

(* go: telemetry/telemetry.go:66-73 NewLogger *)
Definition NewLogger : Logger := mkLogger LevelInfo replaceAttr.

Record log_line := mkLogLine {
  ll_level : Z;
  ll_msg : attr_value;
  ll_attrs : list (string * attr_value)
}.

(** What the handler makes of a record, its message included. *)
Definition handle_record (l : Logger) (level : Z) (msg : string) (attrs : list (string * attr_value))
    : option log_line :=
  if (level <? lg_Level l)%Z then None
  else Some (mkLogLine level (lg_ReplaceAttr l (AttrString msg)) (prod_map id (lg_ReplaceAttr l) <$> attrs)).

(** ** The collectors *)

Inductive collector := Statsd | Tracer | Profiler.

#[export] Instance collector_eq_dec : EqDecision collector.
Proof. solve_decision. Defined.

Inductive metric := MCount | MGauge | MDistribution.

(** The counters of a telemetry service. *)
Record TelemetryState := mkTelemetryState { activeHTTP : Z; metricErrs : Z }.

(** The clients of Datadog: the StatsD client with its tags, the tracer and the profiler
    of a service, and the spans of a trace, of which a context has the identifiers of
    its trace and its own; and the output of the logger.  Measurements are given before
    their conversion to float64. *)
Class Collectors (W : Type) := {
  statsd_New : string → list string → W → option goerror * W;
  statsd_Close : W → option goerror * W;
  statsd_Send : metric → string → Z → list string → W → option goerror * W;
  tracer_Start : DatadogConfig → W → W;
  tracer_Stop : W → W;
  profiler_Start : DatadogConfig → W → option goerror * W;
  profiler_Stop : W → W;
  span_Start : Context → string → list (string * string) → W → Context * nat * W;
  span_SetTag : nat → string → string → W → W;
  span_Finish : nat → W → W;
  tracer_SpanFromContext : Context → W → option (string * Z);
  stdout_Write : log_line → W → W;
  telemetry_state : W → TelemetryState;
  set_telemetry_state : TelemetryState → W → W
}.

(** Which of its clients a service has started. *)
(* go: telemetry/telemetry.go:21-28 Telemetry *)
Record Telemetry := mkTelemetry { stats : bool; trace : bool; profile : bool }.

(** A sum of int64 values. *)
Definition i64_wrap (n : Z) : Z := ((n + 9223372036854775808) mod two64 - 9223372036854775808)%Z.

Section telemetry.
  Context {W : Type} `{World W, Collectors W}.

Definition service_tags (c : DatadogConfig) : list string :=
  ["service:" +:+ dd_Service c; "env:" +:+ dd_Environment c; "version:" +:+ dd_Version c].

  (* go: telemetry/telemetry.go:35-64 NewTelemetry *)
Definition NewTelemetry (configuration : DatadogConfig) (w : W) : result goerror Telemetry * W :=
  if negb (dd_Enabled configuration) then (Ok (mkTelemetry false false false), w)
  else
    let* (err, w) := statsd_New (dd_StatsdAddress configuration) (service_tags configuration) w in
    match err with
    | Some err => (Err (Errorf "create dogstatsd client: " err ""), w)
    | None =>
        let w := tracer_Start configuration w in
        if negb (dd_ProfilingEnabled configuration) then (Ok (mkTelemetry true true false), w)
        else
          let* (err, w) := profiler_Start configuration w in
          match err with
          | Some err =>
              let* (closeErr, w) := statsd_Close w in
              let w := tracer_Stop w in
              let started := Errorf "start datadog profiler: " err "" in
              match closeErr with
              | Some closeErr => (Err (ErrJoin [started; Errorf "close dogstatsd client: " closeErr ""]), w)
              | None => (Err started, w)
              end
          | None => (Ok (mkTelemetry true true true), w)
          end
    end.

  (* go: telemetry/telemetry.go:100-115 Telemetry.Close *)
Definition Close (t : Telemetry) (w : W) : option goerror * W :=
  let w := if profile t then profiler_Stop w else w in
  let w := if trace t then tracer_Stop w else w in
  if stats t then
    let* (err, w) := statsd_Close w in
    ((λ err, ErrJoin [Errorf "close dogstatsd client: " err ""]) <$> err, w)
  else (None, w).

  (** A failed submission is only counted. *)
Definition submit (kind : metric) (t : Telemetry) (name : string) (measurement : Z) (tags : list string)
    (w : W) : W :=
  if stats t then
    let* (err, w) := statsd_Send kind name measurement tags w in
    match err with
    | Some _ =>
        let s := telemetry_state w in
        set_telemetry_state (mkTelemetryState (activeHTTP s) (u64_add (metricErrs s) 1)) w
    | None => w
    end
  else w.

  (* go: telemetry/telemetry.go:117-124 Telemetry.Count *)
Definition Count : Telemetry → string → Z → list string → W → W := submit MCount.

  (* go: telemetry/telemetry.go:126-133 Telemetry.Gauge *)
Definition Gauge : Telemetry → string → Z → list string → W → W := submit MGauge.

  (* go: telemetry/telemetry.go:135-142 Telemetry.Distribution *)
Definition Distribution : Telemetry → string → Z → list string → W → W := submit MDistribution.

  (** The new value of the counter is what is published. *)
Definition add_active (t : Telemetry) (n : Z) (w : W) : W :=
  let s := telemetry_state w in
  let active := i64_wrap (activeHTTP s + n) in
  Gauge t "requests.active" active [] (set_telemetry_state (mkTelemetryState active (metricErrs s)) w).

  (* go: telemetry/telemetry.go:144-145 Telemetry.HTTPStarted *)
Definition HTTPStarted (t : Telemetry) : W → W := add_active t 1.

  (* go: telemetry/telemetry.go:147-148 Telemetry.HTTPFinished *)
Definition HTTPFinished (t : Telemetry) : W → W := add_active t (-1).

  (* go: telemetry/telemetry.go:185-186 Telemetry.MetricSubmissionErrors *)
Definition MetricSubmissionErrors (w : W) : Z := metricErrs (telemetry_state w).

  (* go: telemetry/telemetry.go:182-183 Telemetry.Redact *)
Definition Redact (message : string) : string := redact message.

  (** [slog.Logger.Log] *)
Definition Log (l : Logger) (level : Z) (msg : string) (attrs : list (string * attr_value)) (w : W) : W :=
  match handle_record l level msg attrs with Some line => stdout_Write line w | None => w end.

  (** ** Spans *)

  (** The tags that are pairs, [strings.Cut] at the first colon. *)
Definition cut_tag (tag : string) : option (string * string) :=
  match Index tag ":" with
  | Some i => Some (take_bytes i tag, drop_bytes (S i) tag)
  | None => None
  end.

  (** The derived context, and the span to finish if there is one; its start. *)
  (* go: telemetry/telemetry.go:153-166 Telemetry.Span *)
Definition Span (t : Telemetry) (ctx : Context) (name : string) (tags : list string) (w : W)
    : Context * option (nat * Z) * W :=
  if negb (trace t) then (ctx, None, w)
  else
    let* (next, span, w) := span_Start ctx name (omap cut_tag tags) w in
    (next, Some (span, now w), w).

  (** The completion callback; the duration is given in microseconds, before it is
      divided into milliseconds. *)
  (* go: telemetry/telemetry.go:166-179 Telemetry.Span *)
Definition finish_span (span : option (nat * Z)) (err : option goerror) (extra : list string) (w : W) : W :=
  match span with
  | None => w
  | Some (span, started) =>
      let w := foldl (λ w '(name, value), span_SetTag span name value w) w (omap cut_tag extra) in
      let w := match err with
               | Some err => span_SetTag span "error" (Redact (error_text err)) w
               | None => w
               end in
      let w := span_SetTag span "duration_ms" (pretty (Z.quot (now w - started) 1000)) w in
      span_Finish span w
  end.

  (** The identifiers that join a log line to its trace. *)
  (* go: telemetry/telemetry.go:188-198 Telemetry.TraceAttrs *)
Definition TraceAttrs (t : Telemetry) (ctx : Context) (w : W) : list (string * attr_value) :=
  if negb (trace t) then []
  else
    match tracer_SpanFromContext ctx w with
    | None => []
    | Some (trace_id, span_id) => [("dd.trace_id", AttrString trace_id); ("dd.span_id", AttrString (pretty span_id))]
    end.
End telemetry.

(** ** What a log line shows *)

(** A value of a log line: a text without secrets, or neither a text nor an error. *)
Definition value_clean (v : attr_value) : Prop :=
  match v with
  | AttrError _ => False
  | AttrString text => everywhere no_url text ∧ everywhere no_secret text
  | AttrOther => True
  end.

Lemma replaceAttr_clean v : value_clean (replaceAttr v).
Proof. destruct v as [err|text|]; [exact (redact_clean _)|exact (redact_clean _)|done]. Qed.

(** That the text of an error is redacted twice makes no difference. *)
Lemma replaceAttr_error err : replaceAttr (AttrError err) = AttrString (redact (error_text err)).
Proof. change (replaceAttr (AttrError err)) with (AttrString (redact (redact (error_text err)))). by rewrite redact_idem. Qed.

Lemma handle_record_clean level msg attrs line : handle_record NewLogger level msg attrs = Some line →
  (LevelInfo ≤ level)%Z ∧ ll_level line = level ∧ value_clean (ll_msg line) ∧
  (ll_attrs line).*1 = attrs.*1 ∧ Forall (λ '(_, v), value_clean v) (ll_attrs line).
Proof.
  unfold handle_record, NewLogger. simpl. destruct (Z.ltb_spec level LevelInfo); [done|]. intros [= <-]. simpl.
  split; [done|]. split; [done|]. split; [exact (redact_clean msg)|]. split.
  - rewrite <- list_fmap_compose. apply list_fmap_ext. by intros i [k v].
  - rewrite Forall_fmap, Forall_forall. intros [k v] _. apply replaceAttr_clean.
Qed.

(** ** What is started is stopped *)

(** [up c] tells that a collector runs; only starting and stopping it changes that, and
    a start that fails leaves it as it was. *)
Class CollectorLaws (W : Type) `{Collectors W} := {
  up : collector → W → bool;
  up_statsd_New address tags w err w' c : statsd_New address tags w = (err, w') →
    up c w' = if decide (c = Statsd ∧ err = None) then true else up c w;
  up_statsd_Close w err w' c : statsd_Close w = (err, w') →
    up c w' = if decide (c = Statsd) then false else up c w;
  up_tracer_Start cfg w c : up c (tracer_Start cfg w) = if decide (c = Tracer) then true else up c w;
  up_tracer_Stop w c : up c (tracer_Stop w) = if decide (c = Tracer) then false else up c w;
  up_profiler_Start cfg w err w' c : profiler_Start cfg w = (err, w') →
    up c w' = if decide (c = Profiler ∧ err = None) then true else up c w;
  up_profiler_Stop w c : up c (profiler_Stop w) = if decide (c = Profiler) then false else up c w
}.

Section released.
  Context {W : Type} `{World W, CollectorLaws W}.

Definition started (t : Telemetry) (c : collector) : bool :=
  match c with Statsd => stats t | Tracer => trace t | Profiler => profile t end.

(** A service that starts runs what it says; one that does not runs nothing. *)
Lemma NewTelemetry_started cfg w res w' : (∀ c, up c w = false) → NewTelemetry cfg w = (res, w') →
  match res with
  | Ok t => ∀ c, up c w' = started t c
  | Err _ => ∀ c, up c w' = false
  end.
Proof using Type*.
  intros Hw. unfold NewTelemetry. destruct (negb (dd_Enabled cfg)); [intros [= <- <-] []; simpl; by rewrite Hw|].
  destruct (statsd_New _ _ w) as [[e|] w1] eqn:Hn.
  { intros [= <- <-] c. rewrite (up_statsd_New _ _ _ _ _ c Hn), decide_False; [done|by intros [_ ?]]. }
  pose proof (λ c, up_statsd_New _ _ _ _ _ c Hn) as H1'. destruct (negb _).
  { intros [= <- <-] []; rewrite up_tracer_Start, ?H1'; simpl; by rewrite ?Hw. }
  destruct (profiler_Start cfg _) as [[e|] w2] eqn:Hp; pose proof (λ c, up_profiler_Start _ _ _ _ c Hp) as H2'.
  - destruct (statsd_Close w2) as [ce w3] eqn:Hc. pose proof (λ c, up_statsd_Close _ _ _ c Hc) as H3'.
    assert (∀ c, up c (tracer_Stop w3) = false) as Hall.
    { intros []; rewrite up_tracer_Stop, ?H3', ?H2', ?up_tracer_Start, ?H1'; simpl; by rewrite ?Hw. }
    destruct ce; by intros [= <- <-].
  - intros [= <- <-] []; rewrite H2', ?up_tracer_Start, ?H1'; simpl; by rewrite ?Hw.
Qed.

Lemma Close_stopped t w err w' : (∀ c, up c w = started t c) → Close t w = (err, w') → ∀ c, up c w' = false.
Proof using Type*.
  intros Hw. unfold Close. set (w1 := if profile t then _ else _). set (w2 := if trace t then _ else _).
  assert (∀ c, up c w2 = if decide (c = Statsd) then stats t else false) as Hw2.
  { intros c. unfold w2, w1. pose proof (Hw Statsd); pose proof (Hw Tracer); pose proof (Hw Profiler).
    destruct t as [[] [] []], c; simpl in *; rewrite ?up_tracer_Stop, ?up_profiler_Stop; simpl; congruence. }
  clearbody w2. destruct (stats t).
  - destruct (statsd_Close w2) as [e w3] eqn:Hc. intros [= _ <-] c. rewrite (up_statsd_Close _ _ _ c Hc), Hw2.
    by case_decide.
  - intros [= _ <-] c. rewrite Hw2. by case_decide.
Qed.
End released.

(** ** A telemetry agent

    The clients start unless the agent refuses them; a metric of an agent that runs is
    kept. *)

Record Agent := mkDatadog {
  dg_refuses : collector → bool;
  dg_up : collector → bool;
  dg_sent : list (metric * string * Z * list string);
  dg_lines : list log_line;
  dg_state : TelemetryState
}.

Definition with_up (c : collector) (b : bool) (d : Agent) : Agent :=
  mkDatadog (dg_refuses d) (λ c', if decide (c' = c) then b else dg_up d c') (dg_sent d) (dg_lines d) (dg_state d).

Definition new_agent (refuses : collector → bool) : Agent :=
  mkDatadog refuses (λ _, false) [] [] (mkTelemetryState 0 0).

Section agents.
  Context {X : Type}.

Definition agent (w : Sim (ChainWorld (Agent * X))) : Agent := (cw_rest (sim_state w)).1.

Definition with_agent (f : Agent → Agent) (w : Sim (ChainWorld (Agent * X)))
    : Sim (ChainWorld (Agent * X)) :=
  let s := sim_state w in
  with_sim_state (mkChainWorld (cw_clients s) (cw_runtimes s) (f (cw_rest s).1, (cw_rest s).2)) w.

Definition start_client (c : collector) (w : Sim (ChainWorld (Agent * X)))
    : option goerror * Sim (ChainWorld (Agent * X)) :=
  if dg_refuses (agent w) c then (Some (ErrNew "refused"), w) else (None, with_agent (with_up c true) w).

#[export] Instance agent_collectors : Collectors (Sim (ChainWorld (Agent * X))) := {
  statsd_New _ _ := start_client Statsd;
  statsd_Close w := (None, with_agent (with_up Statsd false) w);
  statsd_Send kind name n tags w :=
    (None, with_agent (λ d, mkDatadog (dg_refuses d) (dg_up d) (dg_sent d ++ [(kind, name, n, tags)]) (dg_lines d)
      (dg_state d)) w);
  tracer_Start _ := with_agent (with_up Tracer true);
  tracer_Stop := with_agent (with_up Tracer false);
  profiler_Start _ := start_client Profiler;
  profiler_Stop := with_agent (with_up Profiler false);
  span_Start ctx _ _ w := (ctx, 0%nat, w);
  span_SetTag _ _ _ w := w;
  span_Finish _ w := w;
  tracer_SpanFromContext _ _ := Some ("00000000000000000000000000000001", 2%Z);
  stdout_Write line :=
    with_agent (λ d, mkDatadog (dg_refuses d) (dg_up d) (dg_sent d) (dg_lines d ++ [line]) (dg_state d));
  telemetry_state w := dg_state (agent w);
  set_telemetry_state s := with_agent (λ d, mkDatadog (dg_refuses d) (dg_up d) (dg_sent d) (dg_lines d) s)
}.

Lemma start_client_up c w err w' c' : start_client c w = (err, w') →
  dg_up (agent w') c' = if decide (c' = c ∧ err = None) then true else dg_up (agent w) c'.
Proof.
  unfold start_client. destruct (dg_refuses _ _); intros [= <- <-]; simpl; repeat case_decide; naive_solver.
Qed.

#[export] Program Instance agent_laws : CollectorLaws (Sim (ChainWorld (Agent * X))) := {
  up c w := dg_up (agent w) c
}.
Next Obligation. intros ?? w err w' c. apply start_client_up. Qed.
Next Obligation. by intros w err w' c [= _ <-]. Qed.
Next Obligation. done. Qed.
Next Obligation. done. Qed.
Next Obligation. intros ? w err w' c. apply start_client_up. Qed.
Next Obligation. done. Qed.
End agents.
