(* ===== verification/Endpoints.v ===== *)
(** * The public endpoints — internal/gateway/router.go, clients.go and websocket.go

    What the two handlers of the public listener do before and after a request or a
    session: the chain is taken from the path, the client is labelled, and each method
    is counted under labels that the configuration bounds. *)

From S2P Require Import Prelude GoStrings GoJson JsonRpc Head MemoryStore World Upstream Chain RequestCache.
From S2P Require Import Receipts Coordinator Transform Router Gateway Serve Subscriptions Websocket QuickNode Config.
From S2P Require Import Redaction Telemetry.

(** ** The gateway *)

(** [strings.TrimPrefix] *)
Definition TrimPrefix (s prefix : string) : string :=
  if HasPrefix s prefix then drop_bytes (String.length prefix) s else s.

(** What the gateway keeps: [gw_receipts] are the inclusion verifiers of its EVM chains,
    those [Gateway.receipts_of] gives a request. *)
(* go: gateway/router.go:28-36 Gateway *)
Record Gateway := mkGateway {
  gw_config : Config;
  gw_runtimes : gmap string Runtime;
  gw_receipts : gmap string ReceiptService
}.

(* go: gateway/router.go:59-75 NewGateway *)
Definition NewGateway (config : Config) (runtimes : gmap string Runtime) : Gateway :=
  mkGateway config runtimes
    ((λ r, NewReceiptService true (cfg_ReorgDepth (rt_Config r))) <$>
       filter (λ '(_, r), cfg_Family (rt_Config r) = "evm") runtimes).

(** The chain is a segment of the path, or what follows the prefix of the handler. *)
Definition chain_of (prefix pathValue path : string) : string :=
  if String.eqb pathValue "" then TrimPrefix path prefix else pathValue.

(** ** Counting methods *)

(* go: gateway/clients.go:12-17 clientMethod *)
Record clientMethod := mkClientMethod {
  cm_client : string;
  cm_transport : string;
  cm_runtime : Runtime;
  cm_request : Request
}.

Definition method_label (usage : clientMethod) : string :=
  if bool_decide (Validate (cm_request usage) = None)
  then metricMethod (req_Method (cm_request usage)) (cfg_Family (rt_Config (cm_runtime usage)))
  else "invalid".

Definition method_tags (usage : clientMethod) : list string :=
  let c := rt_Config (cm_runtime usage) in
  ["client:" +:+ cm_client usage; "chain:" +:+ cfg_Name c; "family:" +:+ cfg_Family c;
   "method:" +:+ method_label usage; "transport:" +:+ cm_transport usage].

Definition method_attributes (usage : clientMethod) : list (string * attr_value) :=
  let c := rt_Config (cm_runtime usage) in
  [("client", AttrString (cm_client usage)); ("chain", AttrString (cfg_Name c));
   ("family", AttrString (cfg_Family c)); ("method", AttrString (method_label usage));
   ("transport", AttrString (cm_transport usage))].

Section endpoints.
  Context {W : Type} `{World W, Clients W, Runtimes W, SingleFlight W, Caches W, HeadStore W, HeadStream W, Collectors W}.
  Variable t : Telemetry.
  Variable logger : Logger.

  (* go: gateway/clients.go:34-48 Gateway.recordClientMethod *)
Definition recordClientMethod (ctx : Context) (usage : clientMethod) (w : W) : W :=
  let w := Count t "client.method" 1 (method_tags usage) w in
  Log logger LevelInfo "rpc method requested" (method_attributes usage ++ TraceAttrs t ctx w) w.

  (** ** RPC *)

  (* go: gateway/router.go:78-86 Gateway.RPCHandler *)
Definition RPCHandler range_order sha256_hex fuel unmarshal_error schedule (gateway : Gateway)
    (call : HttpCall) (pathValue path : string) (w : W) : HttpReply * W :=
  ServeRPC range_order sha256_hex fuel unmarshal_error schedule (sc_Config (Server (gw_config gateway)))
    (gw_runtimes gateway) call (chain_of "/rpc/" pathValue path) w.

  (** ** WebSocket *)

Inductive ws_outcome :=
| NoSession (reply : HttpReply)
| NotAccepted
| Session (client : string) (cn : connection).

  (** [accept] upgrades the connection; a session counts when it opens and when it ends. *)
  (* go: gateway/websocket.go:36-63 Gateway.WebsocketHandler *)
Definition WebsocketHandler unmarshal_error (gateway : Gateway) (ctx : Context)
    (accept : W → bool * W) (pathValue path header query : string) (events : list ws_event) (w : W)
    : ws_outcome * W :=
  let chainName := chain_of "/ws/" pathValue path in
  let missing := mkReply 404 [("Content-Type", "text/plain; charset=utf-8"); ("X-Content-Type-Options", "nosniff")]
                   (PlainText ("websocket newHeads is available only for configured EVM chains" +:+ newline)) in
  match gw_runtimes gateway !! chainName with
  | None => (NoSession missing, w)
  | Some r =>
      if negb (String.eqb (cfg_Family (rt_Config r)) "evm") then (NoSession missing, w)
      else
        let* (accepted, w) := accept w in
        if negb accepted then (NotAccepted, w)
        else
          let client := getClient (ConfigClients (gw_config gateway)) header query in
          let count state := Count t "ws.connection" 1
                               ["chain:" +:+ chainName; "state:" +:+ state; "client:" +:+ client] in
          let capacity := Z.to_nat (sc_WebsocketQueueSize (Server (gw_config gateway))) in
          let* (cn, w) := ws_run capacity unmarshal_error r ctx (events ++ [Disconnect]) (count "opened" w) in
          (Session client cn, count "closed" w)
  end.
End endpoints.

(** ** The labels there are *)

Definition client_labels (clients : list string) : list string := ["anonymous"; "unknown"] ++ clients.

Definition method_labels : list string :=
  ["invalid"; "write"; "unknown"; "eth_subscribe"; "eth_unsubscribe";
   "eth_getBalance"; "eth_getTransactionCount"; "eth_getCode"; "eth_call"; "eth_getStorageAt"; "eth_getProof";
   "eth_getBlockByNumber"; "eth_getBlockTransactionCountByNumber"; "eth_getTransactionByBlockNumberAndIndex";
   "eth_getUncleByBlockNumberAndIndex"; "eth_getUncleCountByBlockNumber";
   "eth_chainId"; "net_version"; "web3_clientVersion"; "eth_getBlockByHash"; "eth_getBlockTransactionCountByHash";
   "eth_getTransactionByBlockHashAndIndex"; "eth_getUncleByBlockHashAndIndex"; "eth_getUncleCountByBlockHash";
   "eth_blockNumber"; "eth_getLogs"; "eth_feeHistory"; "eth_getTransactionReceipt";
   "getBlockHeight"; "getEpochInfo"; "getLatestBlockhash"; "getSlot"; "getSlotLeader";
   "getStakeMinimumDelegation"; "getTransactionCount"; "getAccountInfo"; "getBalance"; "getFeeForMessage";
   "getMultipleAccounts"; "getProgramAccounts"; "getSignaturesForAddress"; "isBlockhashValid";
   "simulateTransaction"; "getTokenAccountsByDelegate"; "getTokenAccountsByOwner";
   "getGenesisHash"; "getVersion"; "getBlock"; "getBlockCommitment"; "getBlockTime"; "getHealth"; "getEpochSchedule"].

Definition transports : list string := ["http"; "websocket"].

(** Every combination of labels the counter of methods can have. *)
Definition series (clients : list string) (runtimes : list Runtime) : list (list string) :=
  client ← client_labels clients; r ← runtimes; method ← method_labels; transport ← transports;
  let c := rt_Config r in
  [["client:" +:+ client; "chain:" +:+ cfg_Name c; "family:" +:+ cfg_Family c; "method:" +:+ method;
    "transport:" +:+ transport]].

Lemma length_bind_const {A B} (f : A → list B) n l :
  (∀ x, length (f x) = n) → length (l ≫= f) = (length l * n)%nat.
Proof. intros Hf. induction l as [|x l IH]; [done|]. cbn. by rewrite length_app, Hf, IH. Qed.

Lemma series_length clients runtimes :
  length (series clients runtimes) =
    ((2 + length clients) * (length runtimes * (length method_labels * 2)))%nat.
Proof.
  unfold series. erewrite length_bind_const; [reflexivity|]. intros client.
  apply length_bind_const. intros r. apply length_bind_const. done.
Qed.

Lemma one_of_elem method l : one_of method l = true → method ∈ l.
Proof.
  unfold one_of. intros (x & Hin & ->%String.eqb_eq)%existsb_exists. by apply list_elem_of_In.
Qed.

Lemma getClient_label clients header query : getClient clients header query ∈ client_labels clients.
Proof.
  unfold getClient, client_labels. destruct (String.eqb _ ""); [by left|].
  case_bool_decide; [by do 2 right|by right; left].
Qed.

(** A method tested by name is one of the labels. *)
Lemma tested_method method l :
  Forall (λ m, m ∈ method_labels) l → one_of method l = true → method ∈ method_labels.
Proof. intros Hl Hm%one_of_elem. by apply (proj1 (Forall_forall _ _) Hl). Qed.

Ltac a_label := apply (bool_decide_unpack _); vm_compute; reflexivity.

Ltac known_methods := apply (bool_decide_unpack (Forall _ _)); vm_compute; reflexivity.

Lemma state_method method : is_Some (getEVMStateBlockIndex method) → method ∈ method_labels.
Proof.
  unfold getEVMStateBlockIndex. intros [n Hn]. revert Hn.
  destruct (one_of method ["eth_getBalance"; _; _; _]) eqn:H1; [intros _; eapply tested_method, H1; known_methods|].
  destruct (one_of method ["eth_getStorageAt"; _]) eqn:H2; [intros _; eapply tested_method, H2; known_methods|done].
Qed.

Lemma block_method method : is_Some (getEVMBlockMethod method) → method ∈ method_labels.
Proof.
  unfold getEVMBlockMethod. intros [m Hm]. revert Hm.
  repeat match goal with
  | |- context [String.eqb method ?x] => destruct (String.eqb_spec method x) as [->|]; [intros _; a_label|]
  end. by intros.
Qed.

Lemma solana_method method : is_Some (getSolanaConfigIndex method) → method ∈ method_labels.
Proof.
  unfold getSolanaConfigIndex. intros [n Hn]. revert Hn.
  destruct (one_of method ("getBlockHeight" :: _)) eqn:H1; [intros _; eapply tested_method, H1; known_methods|].
  destruct (one_of method ("getAccountInfo" :: _)) eqn:H2; [intros _; eapply tested_method, H2; known_methods|].
  destruct (one_of method ("getTokenAccountsByDelegate" :: _)) eqn:H3; [intros _; eapply tested_method, H3; known_methods|done].
Qed.

Lemma metricMethod_label method family : metricMethod method family ∈ method_labels.
Proof.
  unfold metricMethod. set (other := if isWriteMethod method family then _ else _).
  assert (other ∈ method_labels) as Hother by (unfold other; destruct (isWriteMethod _ _); a_label).
  destruct (String.eqb family "evm").
  - destruct (String.eqb method "eth_subscribe" || String.eqb method "eth_unsubscribe") eqn:Hs.
    { apply orb_prop in Hs as [->%String.eqb_eq| ->%String.eqb_eq]; a_label. }
    case_bool_decide; [by apply state_method|]. case_bool_decide; [by apply block_method|].
    destruct (_ || String.eqb method "eth_getTransactionReceipt") eqn:Hm; [|done].
    unfold isEVMHeadNeutralMethod, isEVMExplicitHashMethod in Hm.
    repeat match type of Hm with _ || _ = true => apply orb_prop in Hm as [Hm|Hm] end; try (apply String.eqb_eq in Hm as ->; a_label);
      eapply tested_method, Hm; known_methods.
  - destruct (_ || isSolanaHeadNeutralMethod method) eqn:Hm; [|done].
    apply orb_prop in Hm as [Hm|Hm]; [apply bool_decide_eq_true in Hm; by apply solana_method|].
    eapply tested_method, Hm; known_methods.
Qed.

Lemma method_label_known usage : method_label usage ∈ method_labels.
Proof. unfold method_label. case_bool_decide; [apply metricMethod_label|a_label]. Qed.

(** The fields that are counted and logged. *)
Definition method_fields (usage : clientMethod) : list (string * string) :=
  let c := rt_Config (cm_runtime usage) in
  [("client", cm_client usage); ("chain", cfg_Name c); ("family", cfg_Family c); ("method", method_label usage);
   ("transport", cm_transport usage)].

Lemma recordClientMethod_line `{Collectors W} t ctx usage (w : W) : ∃ line,
  recordClientMethod t NewLogger ctx usage w =
    stdout_Write line (submit MCount t "client.method" 1 (method_tags usage) w) ∧
  method_tags usage = ((λ '(k, v), k +:+ ":" +:+ v) <$> method_fields usage) ∧
  (∃ ids, ll_attrs line = (prod_map id (λ v, AttrString (redact v)) <$> method_fields usage) ++ ids ∧
     (ids.*1 = [] ∨ ids.*1 = ["dd.trace_id"; "dd.span_id"])) ∧
  Forall (λ '(_, v), value_clean v) (ll_attrs line).
Proof.
  unfold recordClientMethod, Log, Count. set (w1 := submit _ _ _ _ _ w).
  destruct (handle_record NewLogger LevelInfo "rpc method requested" (method_attributes usage ++ TraceAttrs t ctx w1))
    as [line|] eqn:Hl; [|done].
  exists line. split; [done|]. split; [done|]. pose proof (handle_record_clean _ _ _ _ Hl) as (_ & _ & _ & _ & Hclean).
  split; [|done]. injection Hl as <-. simpl. eexists. split; [done|].
  unfold TraceAttrs. destruct (negb (trace t)); [by left|]. destruct (tracer_SpanFromContext ctx w1) as [[]|]; [by right|by left].
Qed.

(** * Properties *)

(** C40: clients cannot make metrics grow.  Whatever the header, the query and the method
    of a request are, the counter of methods gets one of a fixed list of label
    combinations, of which there are [(2 + clients) * chains * methods * 2]: a client or
    a method that is not known is counted under a class.  The line of the log has the
    same fields, whether metrics are sent or not, followed by nothing or by the
    identifiers of the trace, and no value of it shows a secret. *)
Theorem method_labels_bounded `{Collectors W} t ctx gateway runtimes header query usage (w : W) :
  cm_client usage = getClient (ConfigClients (gw_config gateway)) header query →
  cm_runtime usage ∈ runtimes → cm_transport usage ∈ transports →
  let all := series (ConfigClients (gw_config gateway)) runtimes in
  (∃ tags line, tags ∈ all ∧
     recordClientMethod t NewLogger ctx usage w = stdout_Write line (submit MCount t "client.method" 1 tags w) ∧
     tags = (λ '(k, v), k +:+ ":" +:+ v) <$> method_fields usage ∧
     (∃ ids, ll_attrs line = (prod_map id (λ v, AttrString (redact v)) <$> method_fields usage) ++ ids ∧
        (ids.*1 = [] ∨ ids.*1 = ["dd.trace_id"; "dd.span_id"])) ∧
     Forall (λ '(_, v), value_clean v) (ll_attrs line)) ∧
  length all = ((2 + length (ConfigClients (gw_config gateway))) *
                (length runtimes * (length method_labels * 2)))%nat ∧
  (method_label usage = req_Method (cm_request usage) ∨ method_label usage ∈ ["invalid"; "write"; "unknown"]).
Proof.
  intros Hc Hr Ht all. split_and!; [|apply series_length|].
  - destruct (recordClientMethod_line t ctx usage w) as (line & Hrec & Hline).
    exists (method_tags usage), line. split; [|done]. unfold all, series, method_tags.
    apply list_elem_of_bind. exists (cm_client usage). split; [|rewrite Hc; apply getClient_label].
    apply list_elem_of_bind. exists (cm_runtime usage). split; [|done].
    apply list_elem_of_bind. exists (method_label usage). split; [|apply method_label_known].
    apply list_elem_of_bind. exists (cm_transport usage). split; [|done]. by apply list_elem_of_singleton.
  - unfold method_label, metricMethod. case_bool_decide; [|right; by left].
    repeat case_match; try (by left); right; a_label.
Qed.

(** ** A client with a label of its own *)

Definition demo_usage : clientMethod :=
  mkClientMethod (getClient ["wallet"] "wallet" "") "http" (mkRuntime (mkChainConfig "eth" "evm" "0x1" "" 0 0 0 8) [])
    (mkRequest "2.0" "1" "eth_secretMethod" "").

Lemma method_labels_bounded_witness :
  method_tags demo_usage =
    ["client:wallet"; "chain:eth"; "family:evm"; "method:unknown"; "transport:http"] ∧
  length (series ["wallet"; "indexer"] [cm_runtime demo_usage]) = ((2 + 2) * (1 * (length method_labels * 2)))%nat.
Proof.
  split; [vm_compute; reflexivity|].
  destruct (method_labels_bounded (W := Sim (ChainWorld (Agent * unit))) (mkTelemetry true false false) Background
    (NewGateway (with_chains Config.demo_config []) ∅) [cm_runtime demo_usage] "wallet" ""
    demo_usage (mkSim 0 (λ _, Err ErrCanceled) (mkChainWorld ∅ ∅ (new_agent (λ _, false), tt)))) as (_ & Hlen & _).
  - vm_compute. reflexivity.
  - by left.
  - by left.
  - exact Hlen.
Defined.
