(* ===== verification/Admin.v ===== *)
(** * The administration endpoints — internal/gateway/admin.go

    The private listener tells whether the process lives, whether it can answer every
    chain right now, and what it knows of its chains and providers.  The status page
    holds no credentials and no headers; its encoding is left as data. *)

From S2P Require Import Prelude GoStrings GoJson Evm JsonRpc Head MemoryStore World Redaction Upstream Chain.
From S2P Require Import RequestCache Coordinator Receipts Transform Router Gateway Serve Config Telemetry.

(** ** Status of a runtime *)

(* go: chain/runtime.go:40-45 Status *)
Record RuntimeStatus := mkRuntimeStatus {
  rs_Name : string;
  rs_Family : string;
  rs_Validation : gmap string string;
  rs_Upstreams : list Status
}.

(* go: gateway/admin.go:67-71 chainStatus *)
Record chainStatus := mkChainStatus {
  cs_Runtime : RuntimeStatus;
  cs_Heads : gmap string Head;
  cs_Error : string
}.

(** An answer of an endpoint: [http.Error] ends its text with a line feed. *)
Record answer := mkAnswer { an_Status : Z; an_Body : string }.

Definition unavailable (reason : string) : answer := mkAnswer 503 (reason +:+ newline).

(** [Ping] of the store interface. *)
Class StorePing (W : Type) := { store_Ping : Context → W → option store_error * W }.

Section admin.
  Context {W : Type} `{World W, Clients W, Runtimes W, HeadStore W, StorePing W, Collectors W}.

  (* go: chain/runtime.go:257-269 Runtime.Status *)
Definition Runtime_Status (r : Runtime) (w : W) : RuntimeStatus :=
  let name := cfg_Name (rt_Config r) in
  mkRuntimeStatus name (cfg_Family (rt_Config r)) (validation (runtime_state name w))
    ((λ c, Client_Status (now w) c (state_of c w)) <$> rt_Upstreams r).

  (** ** Readiness *)

  (* go: gateway/admin.go:41-44 Gateway.ready *)
Definition required (r : Runtime) : list string :=
  if String.eqb (cfg_Family (rt_Config r)) "solana" then [Processed; Confirmed; Finalized] else [Latest].

  (** Why a commitment is not ready. *)
  (* go: gateway/admin.go:45-55 Gateway.ready *)
Definition check_commitment (r : Runtime) (snapshot : Snapshot) (now : Z) (commitment : string) : option string :=
  let* (acceptedHead, ok) := Get snapshot commitment in
  let maxAge := cfg_MaxHeadAge (rt_Config r) in
  if ReorgPending acceptedHead then Some "reorg recovery in progress"
  else if negb ok || IsZero acceptedHead || (0 <? maxAge)%Z && (maxAge <? now - ObservedAt acceptedHead)%Z
  then Some "accepted head is stale"
  else None.

Fixpoint first_some {A} (f : A → option string) (l : list A) : option string :=
  match l with
  | [] => None
  | x :: l => match f x with Some reason => Some reason | None => first_some f l end
  end.

  (** Why a chain is not ready. *)
  (* go: gateway/admin.go:33-59 Gateway.ready *)
Definition check_chain (ctx : Context) (name : string) (r : Runtime) (w : W) : option string * W :=
  let* (snapshot, w) := store_Snapshot name w in
  match snapshot with
  | Err _ => (Some "head store unavailable", w)
  | Ok snapshot =>
      match first_some (check_commitment r snapshot (now w)) (required r) with
      | Some reason => (Some reason, w)
      | None =>
          if bool_decide (Candidates r (String.eqb (cfg_Family (rt_Config r)) "evm") w = [])
          then (Some "no eligible upstream", w)
          else (None, w)
      end
  end.

Fixpoint check_chains (ctx : Context) (runtimes : list (string * Runtime)) (w : W) : option string * W :=
  match runtimes with
  | [] => (None, w)
  | (name, r) :: rest =>
      let* (reason, w) := check_chain ctx name r w in
      match reason with
      | Some reason => (Some reason, w)
      | None => check_chains ctx rest w
      end
  end.

  (** [runtimes] in the order of ranging over the map. *)
  (* go: gateway/admin.go:26-64 Gateway.ready *)
Definition ready (runtimes : list (string * Runtime)) (ctx : Context) (w : W) : answer * W :=
  let* (err, w) := store_Ping ctx w in
  match err with
  | Some _ => (unavailable "head store unavailable", w)
  | None =>
      let* (reason, w) := check_chains ctx runtimes w in
      match reason with
      | Some reason => (unavailable reason, w)
      | None => (mkAnswer 200 ("ready" +:+ newline), w)
      end
  end.

  (** ** The status page *)

  (** An EVM chain shows its latest head only; no head shows its block header. *)
  (* go: gateway/admin.go:78-84 Gateway.status *)
Definition shown_heads (r : Runtime) (heads : gmap string Head) : gmap string Head :=
  let shown := if String.eqb (cfg_Family (rt_Config r)) "evm"
               then filter (λ '(commitment, _), commitment = Latest) heads else heads in
  with_Header "" <$> shown.

  (* go: gateway/admin.go:73-87 Gateway.status *)
Definition chain_status (name : string) (r : Runtime) (w : W) : chainStatus * W :=
  let runtime := Runtime_Status r w in
  let* (snapshot, w) := store_Snapshot name w in
  (match snapshot with
   | Err e => mkChainStatus runtime ∅ (Redact (store_error_text e))
   | Ok snapshot => mkChainStatus runtime (shown_heads r (sn_Heads snapshot)) ""
   end, w).

Fixpoint statuses (runtimes : list (string * Runtime)) (w : W) : gmap string chainStatus * W :=
  match runtimes with
  | [] => (∅, w)
  | (name, r) :: rest =>
      let* (status, w) := chain_status name r w in
      let* (more, w) := statuses rest w in
      (<[name := status]> more, w)
  end.

  (** The chains, and the number of failed metric submissions. *)
  (* go: gateway/admin.go:66-93 Gateway.status *)
Definition status (runtimes : list (string * Runtime)) (w : W) : gmap string chainStatus * Z * W :=
  let* (chains, w) := statuses runtimes w in
  (chains, MetricSubmissionErrors w, w).

  (** ** The handler *)

Inductive admin_reply :=
  | Text (a : answer)
  | StatusPage (chains : gmap string chainStatus) (errors : Z).

  (** The routes of the mux; other methods are refused and other paths unknown. *)
  (* go: gateway/admin.go:12-24 Gateway.AdminHandler *)
Definition AdminHandler (runtimes : list (string * Runtime)) (method path : string) (ctx : Context) (w : W)
    : admin_reply * W :=
  let known := bool_decide (path ∈ ["/health/live"; "/health/ready"; "/status"]) in
  if negb known then (Text (mkAnswer 404 ("404 page not found" +:+ newline)), w)
  else if negb (String.eqb method "GET" || String.eqb method "HEAD")
  then (Text (mkAnswer 405 ("Method Not Allowed" +:+ newline)), w)
  else if String.eqb path "/health/live" then (Text (mkAnswer 200 ("ok" +:+ newline)), w)
  else if String.eqb path "/health/ready" then let* (a, w) := ready runtimes ctx w in (Text a, w)
  else let* (chains, errors, w) := status runtimes w in (StatusPage chains errors, w).
End admin.

(** ** What readiness means *)

Definition commitment_ready (r : Runtime) (snapshot : Snapshot) (now : Z) (commitment : string) : Prop :=
  ∃ h, sn_Heads snapshot !! commitment = Some h ∧ IsZero h = false ∧ ReorgPending h = false ∧
    ((0 < cfg_MaxHeadAge (rt_Config r))%Z → (now - ObservedAt h ≤ cfg_MaxHeadAge (rt_Config r))%Z).

Lemma check_commitment_spec r snapshot now c :
  check_commitment r snapshot now c = None ↔ commitment_ready r snapshot now c.
Proof.
  unfold check_commitment, commitment_ready, Get. destruct (sn_Heads snapshot !! c) as [h|]; simpl.
  2: { split; [done|by intros (h & ? & _)]. }
  destruct (ReorgPending h) eqn:Hp; [split; [done|intros (? & [= <-] & _ & ? & _); congruence]|].
  destruct (IsZero h) eqn:Hz; simpl; [split; [done|intros (? & [= <-] & ? & _); congruence]|].
  destruct (Z.ltb_spec 0 (cfg_MaxHeadAge (rt_Config r))); simpl.
  - destruct (Z.ltb_spec (cfg_MaxHeadAge (rt_Config r)) (now - ObservedAt h)%Z).
    + split; [done|]. intros (? & [= <-] & _ & _ & Ha). specialize (Ha ltac:(done)). lia.
    + split; [|done]. intros _. exists h. split_and!; [done..|lia].
  - split; [|done]. intros _. exists h. split_and!; [done..|lia].
Qed.

Lemma first_some_None {A} (f : A → option string) l : first_some f l = None ↔ ∀ x, x ∈ l → f x = None.
Proof.
  induction l as [|x l IH]; simpl; [split; [by intros _ x ?%elem_of_nil|done]|].
  destruct (f x) eqn:Hf.
  - split; [done|]. intros Hall. specialize (Hall x ltac:(by left)). congruence.
  - rewrite IH. split; [intros Hall y [->|Hy]%elem_of_cons; [done|by apply Hall]|].
    intros Hall y Hy. apply Hall. by right.
Qed.

Section readiness.
  Context {W : Type} `{World W, Clients W, Runtimes W, HeadStore W, StorePing W, Collectors W}.

(** A chain that can answer: what the store shows is fresh, and a provider is left. *)
Definition chain_ready (r : Runtime) (snapshot : Snapshot) (w : W) : Prop :=
  (∀ c, c ∈ required r → commitment_ready r snapshot (now w) c) ∧
  Candidates r (String.eqb (cfg_Family (rt_Config r)) "evm") w ≠ [].

(** All chains, each read after the one before it. *)
Fixpoint all_ready (runtimes : list (string * Runtime)) (w : W) : Prop :=
  match runtimes with
  | [] => True
  | (name, r) :: rest =>
      ∃ snapshot w1, store_Snapshot name w = (Ok snapshot, w1) ∧ chain_ready r snapshot w1 ∧ all_ready rest w1
  end.

Lemma check_chain_spec ctx name r w reason w' : check_chain ctx name r w = (reason, w') →
  reason = None ↔ ∃ snapshot, store_Snapshot name w = (Ok snapshot, w') ∧ chain_ready r snapshot w'.
Proof using Type.
  unfold check_chain, chain_ready. destruct (store_Snapshot name w) as [[e|sn] w1].
  { intros [= <- <-]. split; [done|by intros (? & ? & _)]. }
  destruct (first_some _ _) eqn:Hf.
  - intros [= <- <-]. split; [done|]. intros (sn' & [= <-] & Hall & _).
    enough (first_some (check_commitment r sn (now w1)) (required r) = None) by congruence.
    apply first_some_None. intros c Hc. by apply check_commitment_spec, Hall.
  - pose proof (proj1 (first_some_None _ _) Hf) as Hall. case_bool_decide as Hc; intros [= <- <-].
    + split; [done|]. by intros (? & [= <-] & _ & ?).
    + split; [|done]. intros _. exists sn. split_and!; [done| |done]. intros c Hin.
      by apply check_commitment_spec, Hall.
Qed.

Lemma check_chains_spec ctx runtimes w reason w' : check_chains ctx runtimes w = (reason, w') →
  reason = None ↔ all_ready runtimes w.
Proof using Type.
  revert w. induction runtimes as [|[name r] rest IH]; intros w; simpl; [by intros [= <- _]|].
  destruct (check_chain ctx name r w) as [reason1 w1] eqn:Hc. pose proof (check_chain_spec _ _ _ _ _ _ Hc) as Hs.
  destruct reason1 as [reason1|].
  - intros [= <- _]. split; [done|]. intros (sn & w2 & Hsn & Hr & _).
    enough (Some reason1 = None) by done. apply Hs. exists sn.
    assert (w2 = w1) as <-; [|done]. unfold check_chain in Hc. rewrite Hsn in Hc. by repeat case_match; simplify_eq.
  - destruct (proj1 Hs eq_refl) as (sn & Hsn & Hr). intros Hrest. rewrite (IH _ Hrest). split.
    + intros Ha. by exists sn, w1.
    + intros (sn' & w2 & Hsn' & _ & Ha). congruence.
Qed.

(** What a ready chain promises to the requests made for the snapshot: no guard
    refuses them. *)
Definition served (r : Runtime) (snapshot : Snapshot) (w : W) : Prop :=
  ∃ h, sn_Heads snapshot !! Latest = Some h ∧ (∀ p, reorg_guard r snapshot p = None) ∧
    ∀ p, pq_target p = Some h → ObservedAt h ≠ 0%Z → age_guard r p (now w) = None.

Lemma ready_served r snapshot w :
  cfg_Family (rt_Config r) = "evm" → chain_ready r snapshot w → served r snapshot w.
Proof using Type.
  intros Hf [Hall _]. assert (required r = [Latest]) as Hr by (unfold required; by rewrite Hf). rewrite Hr in Hall.
  destruct (Hall Latest ltac:(by apply list_elem_of_singleton)) as (h & Hh & Hz & Hp & Hage). exists h. split; [done|]. split.
  - intros p. unfold reorg_guard, Get. rewrite Hh, Hz, Hp. simpl. by destruct (_ && _).
  - intros p Ht Ho. unfold age_guard. rewrite Ht. destruct (Z.ltb_spec 0 (cfg_MaxHeadAge (rt_Config r))).
    + unfold time_IsZero. destruct (Z.eqb_spec (ObservedAt h) 0); [done|].
      destruct (Z.ltb_spec (cfg_MaxHeadAge (rt_Config r)) (now w - ObservedAt h)%Z); [lia|]. by rewrite andb_false_r.
    + by rewrite andb_false_r.
Qed.

Lemma all_ready_in runtimes w name r : all_ready runtimes w → (name, r) ∈ runtimes →
  ∃ w0 snapshot w1, store_Snapshot name w0 = (Ok snapshot, w1) ∧ chain_ready r snapshot w1.
Proof using Type.
  revert w. induction runtimes as [|[n r0] rest IH]; intros w; simpl; [by intros _ ?%elem_of_nil|].
  intros (sn & w1 & Hsn & Hr & Hrest) [[= -> ->]|Hin]%elem_of_cons; [by eauto|by eapply IH].
Qed.
End readiness.

(** * Properties *)

(** C24: an instance reports that it is ready exactly when it can serve every chain.  It
    answers 200 if the store answers, every commitment a family needs is in the store,
    is not under recovery and is fresh, and a provider is eligible; else 503.  And no
    guard refuses a request for the latest head it saw of an EVM chain. *)
Theorem readiness `{World W, Clients W, Runtimes W, HeadStore W, StorePing W, Collectors W}
    runtimes ctx (w : W) a w' :
  ready runtimes ctx w = (a, w') →
  (an_Status a = 200%Z ↔ ∃ w1, store_Ping ctx w = (None, w1) ∧ all_ready runtimes w1) ∧
  (an_Status a = 200%Z ∨ an_Status a = 503%Z) ∧
  (an_Status a = 200%Z → ∀ name r, (name, r) ∈ runtimes → cfg_Family (rt_Config r) = "evm" →
     ∃ w0 snapshot w1, store_Snapshot name w0 = (Ok snapshot, w1) ∧ served r snapshot w1 ∧
       Candidates r true w1 ≠ []).
Proof.
  unfold ready. destruct (store_Ping ctx w) as [[e|] w1] eqn:Hping.
  { intros [= <- _]. split_and!; [split; [done|by intros (? & ? & _)]|by right|done]. }
  destruct (check_chains ctx runtimes w1) as [reason w2] eqn:Hc.
  pose proof (check_chains_spec _ _ _ _ _ Hc) as Hs. destruct reason as [reason|].
  - intros [= <- _]. split_and!; [|by right|done]. split; [done|]. intros (w3 & [= <-] & Ha).
    apply Hs in Ha. done.
  - intros [= <- _]. pose proof (proj1 Hs eq_refl) as Ha. split_and!; [|by left|].
    + split; [|done]. intros _. by exists w1.
    + intros _ name r Hin Hf. destruct (all_ready_in _ _ _ _ Ha Hin) as (w0 & sn & w3 & Hsn & Hr).
      exists w0, sn, w3. split; [done|]. split; [by apply ready_served|]. destruct Hr as [_ Hcand].
      by rewrite Hf in Hcand.
Qed.

(** ** A ready instance *)

#[export] Instance sim_ping (S : Type) : StorePing (Sim S) := { store_Ping _ w := (None, w) }.

Definition admin_client : Client := mkClient "up" "http://up" "" [] "evm" "eth".

Definition admin_runtime : Runtime := mkRuntime (mkChainConfig "eth" "evm" "0x1" "" 0 0 1000 8) [admin_client].

Definition admin_world (m : MemoryStore) : Sim (ChainWorld (Agent * MemoryStore)) :=
  mkSim 100 (λ _, Err ErrCanceled)
    (mkChainWorld {[ client_key admin_client := mkClientState 0 zero_health true ∅ ∅ ]}
       {[ "eth" := mkRuntimeState {[ "up" := true ]} ∅ ∅ ]} (new_agent (λ _, false), m)).

Definition demo_ready (m : MemoryStore) : answer * Sim (ChainWorld (Agent * MemoryStore)) :=
  ready [("eth", admin_runtime)] Background (admin_world m).

(** While a reorg is recovered, the instance is not ready. *)
Example not_ready_in_recovery :
  (demo_ready (MemoryStore.exec (OpBeginReorg 7 "eth" "a:1") demo_store)).1 =
    unavailable "reorg recovery in progress".
Proof. vm_compute. reflexivity. Qed.

Lemma readiness_witness :
  (demo_ready demo_store).1 = mkAnswer 200 ("ready" +:+ newline) ∧
  ∃ (w0 w1 : Sim (ChainWorld (Agent * MemoryStore))) snapshot,
    store_Snapshot "eth" w0 = (Ok snapshot, w1) ∧ served admin_runtime snapshot w1.
Proof.
  assert ((demo_ready demo_store).1 = mkAnswer 200 ("ready" +:+ newline)) as Hr by (vm_compute; reflexivity).
  split; [exact Hr|].
  destruct (readiness [("eth", admin_runtime)] Background (admin_world demo_store) (demo_ready demo_store).1
    (demo_ready demo_store).2) as (_ & _ & Hs).
  - apply surjective_pairing.
  - destruct (Hs ltac:(rewrite Hr; reflexivity) "eth" admin_runtime) as (w0 & sn & w1 & Hsn & Hserved & _);
      [by left|reflexivity|]. exists w0, w1, sn. split; [exact Hsn|exact Hserved].
Defined.
