(* ===== verification/Main.v ===== *)
(** * The process — cmd/rpc-proxy/main.go

    The process reads its configuration, starts telemetry and the client of the head
    store, checks that the store answers, validates the providers of every chain and
    starts a coordinator for it, then listens until it is told to stop or a listener
    fails.  What it has opened it closes on every way out. *)

From S2P Require Import Prelude GoStrings GoJson JsonRpc Head MemoryStore World Redis RedisStore SharedStore RedisSim.
From S2P Require Import Redaction Upstream Chain Validation RequestCache Receipts Serve Activity QuickNode Config Telemetry Endpoints.

(** ** What the process starts *)

(** [coordinator.Options], without the services all coordinators share. *)
(* go: coordinator/coordinator.go:46-53 Options *)
Record CoordinatorOptions := mkCoordinatorOptions {
  co_Runtime : Runtime;
  co_Owner : string;
  co_LeaderTTL : Z
}.

Inductive handler := PublicMux (g : Gateway) | AdminMux (g : Gateway).

(** An [http.Server]; a timeout of zero is none. *)
Record HttpServer := mkHttpServer {
  hs_Addr : string;
  hs_Handler : handler;
  hs_ReadHeaderTimeout : Z;
  hs_ReadTimeout : Z;
  hs_WriteTimeout : Z;
  hs_IdleTimeout : Z;
  hs_MaxHeaderBytes : Z
}.

(** Why the process stops serving; [closed] if the error is [http.ErrServerClosed]. *)
Inductive serve_event := Interrupted | ServerEnded (closed : bool) (err : goerror).

(** The operating system and the HTTP server.  [go_Run] starts [Coordinator.Run] and
    [go_ListenAndServe] a listener in goroutines of their own. *)
Class Host (W : Type) := {
  os_ReadFile : string → W → result goerror string * W;
  os_Getenv : W → string → string;
  os_Hostname : W → result goerror string * W;
  os_Getpid : W → Z;
  signal_NotifyContext : W → Context * W;
  signal_stop : W → W;
  go_Run : CoordinatorOptions → Context → W → W;
  go_ListenAndServe : HttpServer → W → W;
  wait_servers : Context → W → serve_event * W;
  server_Shutdown : HttpServer → Context → W → option goerror * W
}.

Section main.
  Context {W R : Type} `{World W, Clients W, Runtimes W, Caches W, Collectors W, Host W}.
  Context `{Redis.Redis R, RedisClient W R}.
  Variable schedule : nat → list nat.
  Variable range_order : gmap string string → list (string * string).

  (* go: cmd/rpc-proxy/main.go:118-127 getInstanceID *)
Definition getInstanceID (w : W) : result goerror string * W :=
  let* (hostname, w) := os_Hostname w in
  match hostname with
  | Err e => (Err (Errorf "read coordinator hostname: " e ""), w)
  | Ok hostname =>
      if String.eqb hostname "" then (Err (ErrNew "coordinator hostname is empty"), w)
      else (Ok (hostname +:+ "-" +:+ pretty (os_Getpid w)), w)
  end.

  (** A chain whose providers fail validation starts all the same. *)
  (* go: cmd/rpc-proxy/main.go:69-84 run *)
Definition start_chain (cfg : Config) (owner : string) (ctx : Context) (chain : ChainSettings) (w : W)
    : Runtime * W :=
  let r := NewRuntime range_order chain in
  let validationCtx := WithTimeout ctx (cfg_RequestTimeout (sc_Config (Server cfg))) w in
  let* (_, w) := Runtime_Validate schedule r validationCtx w in
  (r, go_Run (mkCoordinatorOptions r owner (rd_LeaderTTL (Redis cfg))) ctx w).

Fixpoint start_chains (cfg : Config) (owner : string) (ctx : Context) (chains : list ChainSettings)
    (runtimes : gmap string Runtime) (w : W) : gmap string Runtime * W :=
  match chains with
  | [] => (runtimes, w)
  | chain :: rest =>
      let* (r, w) := start_chain cfg owner ctx chain w in
      start_chains cfg owner ctx rest (<[chain_name chain := r]> runtimes) w
  end.

Definition publicServer (cfg : Config) (proxy : Gateway) : HttpServer :=
  mkHttpServer (sc_ListenAddress (Server cfg)) (PublicMux proxy) (5 * second) 0 0 (90 * second) 1048576.

Definition adminServer (cfg : Config) (proxy : Gateway) : HttpServer :=
  mkHttpServer (sc_AdminAddress (Server cfg)) (AdminMux proxy) (2 * second) (5 * second) (5 * second) (30 * second) 65536.

  (** Listens until the context ends or a listener fails. *)
  (* go: cmd/rpc-proxy/main.go:85-116 run *)
Definition serve (cfg : Config) (ctx : Context) (runtimes : gmap string Runtime) (w : W) : option goerror * W :=
  let w := set_cache_service (RequestCache.NewService (Cache cfg) (cfg_RequestTimeout (sc_Config (Server cfg)))) w in
  let proxy := NewGateway cfg runtimes in
  let w := go_ListenAndServe (publicServer cfg proxy) w in
  let w := go_ListenAndServe (adminServer cfg proxy) w in
  let* (ended, w) := wait_servers ctx w in
  match ended with
  | ServerEnded false err => (Some err, signal_stop w)
  | _ =>
      let shutdownCtx := WithTimeout Background (10 * second) w in
      let* (public, w) := server_Shutdown (publicServer cfg proxy) shutdownCtx w in
      let* (admin, w) := server_Shutdown (adminServer cfg proxy) shutdownCtx w in
      let errors := option_list public ++ option_list admin in
      (if decide (errors = []) then None else Some (ErrJoin errors), w)
  end.

  (** With the store's client open. *)
  (* go: cmd/rpc-proxy/main.go:58-116 run *)
Definition run_connected (cfg : Config) (tel : Telemetry) (w : W) : option goerror * W :=
  let* (ctx, w) := signal_NotifyContext w in
  let* (err, w) :=
    let* (ping, w) := RedisStore.Ping (R := R) ctx w in
    match ping with
    | Some err => (Some (Errorf "connect to redis: " err ""), Count tel "redis.failure" 1 ["operation:startup_ping"] w)
    | None =>
        let* (owner, w) := getInstanceID w in
        match owner with
        | Err err => (Some err, w)
        | Ok owner =>
            let* (runtimes, w) := start_chains cfg owner ctx (Chains cfg) ∅ w in
            serve cfg ctx runtimes w
        end
    end in
  (err, signal_stop w).

  (** With telemetry started. *)
  (* go: cmd/rpc-proxy/main.go:48-57 run *)
Definition run_measured (cfg : Config) (tel : Telemetry) (w : W) : option goerror * W :=
  let storeOptions := mkRedisStoreOptions (rd_URL (Redis cfg)) (rd_KeyPrefix (Redis cfg)) (rd_StreamMaxLength (Redis cfg)) in
  match NewRedisStore (W := W) (R := R) storeOptions with
  | Err err => (Some (Errorf "create head store: " err ""), w)
  | Ok _ =>
      let* (err, w) := run_connected cfg tel w in
      let* (_, w) := RedisStore.Close (R := R) w in
      (err, w)
  end.

Definition load `{NetUrl, YamlDecoder} (configPath : string) (w : W) : result goerror Config * W :=
  let* (contents, w) := os_ReadFile configPath w in
  (Load (os_Getenv w) range_order contents, w).

  (** The deferred calls run when what they close was opened, the last one first. *)
  (* go: cmd/rpc-proxy/main.go:34-116 run *)
Definition run `{NetUrl, YamlDecoder} (configPath : string) (w : W) : option goerror * W :=
  let* (cfg, w) := load configPath w in
  match cfg with
  | Err err => (Some (Errorf "load configuration: " err ""), w)
  | Ok cfg =>
      let* (tel, w) := NewTelemetry (Datadog cfg) w in
      match tel with
      | Err err => (Some (Errorf "start telemetry: " err ""), w)
      | Ok tel =>
          let* (err, w) := run_measured cfg tel w in
          let* (_, w) := Telemetry.Close tel w in
          (err, w)
      end
  end.

  (** The status the process exits with. *)
  (* go: cmd/rpc-proxy/main.go:24-32 main *)
Definition main `{NetUrl, YamlDecoder} (configPath : string) (w : W) : Z * W :=
  let* (err, w) := run configPath w in
  (match err with Some _ => 1%Z | None => 0%Z end, w).
End main.

(** ** What the process has started *)

(** The store clients it has closed, the coordinators it has started and the listeners
    it has opened. *)
Record process := mkProcess {
  pr_closed : nat;
  pr_coordinators : list CoordinatorOptions;
  pr_listeners : list HttpServer
}.

(** [process_of w] changes only through the operations that its fields are named
    after; and only those of [CollectorLaws] start or stop a collector. *)
Class ProcessLaws (W R : Type) `{World W, Clients W, Runtimes W, SingleFlight W, Caches W, CollectorLaws W, Host W,
    Redis.Redis R, RedisClient W R} := {
  process_of : W → process;
  kept (w w' : W) := (∀ c, up c w' = up c w) ∧ process_of w' = process_of w;
  pl_activity :: Activity kept;
  pl_cache c w : kept w (set_cache_service c w);
  pl_state s w : kept w (set_telemetry_state s w);
  pl_send kind name n tags w err w' : statsd_Send kind name n tags w = (err, w') → kept w w';
  pl_write line w : kept w (stdout_Write line w);
  pl_statsd_New address tags w err w' : statsd_New address tags w = (err, w') → process_of w' = process_of w;
  pl_statsd_Close w err w' : statsd_Close w = (err, w') → process_of w' = process_of w;
  pl_tracer_Start cfg w : process_of (tracer_Start cfg w) = process_of w;
  pl_tracer_Stop w : process_of (tracer_Stop w) = process_of w;
  pl_profiler_Start cfg w err w' : profiler_Start cfg w = (err, w') → process_of w' = process_of w;
  pl_profiler_Stop w : process_of (profiler_Stop w) = process_of w;
  pl_read path w res w' : os_ReadFile path w = (res, w') → kept w w';
  pl_host w res w' : os_Hostname w = (res, w') → kept w w';
  pl_notify w ctx w' : signal_NotifyContext w = (ctx, w') → kept w w';
  pl_stop w : kept w (signal_stop w);
  pl_ping ctx w res w' : redis_Ping R ctx w = (res, w') → kept w w';
  pl_wait ctx w ended w' : wait_servers ctx w = (ended, w') → kept w w';
  pl_shutdown server ctx w err w' : server_Shutdown server ctx w = (err, w') → kept w w';
  pl_close w err w' : redis_Close R w = (err, w') → (∀ c, up c w' = up c w) ∧
    process_of w' = let p := process_of w in mkProcess (S (pr_closed p)) (pr_coordinators p) (pr_listeners p);
  pl_run options ctx w : let w' := go_Run options ctx w in (∀ c, up c w' = up c w) ∧
    process_of w' = let p := process_of w in mkProcess (pr_closed p) (pr_coordinators p ++ [options]) (pr_listeners p);
  pl_listen server w : let w' := go_ListenAndServe server w in (∀ c, up c w' = up c w) ∧
    process_of w' = let p := process_of w in mkProcess (pr_closed p) (pr_coordinators p) (pr_listeners p ++ [server])
}.

Section started.
  Context {W R : Type} `{ProcessLaws W R}.
  Variable schedule : nat → list nat.
  Variable range_order : gmap string string → list (string * string).

(** [w'] is [w] after [f] has happened to what was started. *)
Definition moved (f : process → process) (w w' : W) : Prop :=
  (∀ c, up c w' = up c w) ∧ process_of w' = f (process_of w).

Lemma moved_kept f w w' w'' : moved f w w' → kept w' w'' → moved f w w''.
Proof using Type. intros [Hu Hp] [Hu' Hp']. split; [intros c; by rewrite Hu'|by rewrite Hp']. Qed.

Lemma kept_moved f w w' w'' : kept w w' → moved f w' w'' → moved f w w''.
Proof using Type. intros [Hu Hp] [Hu' Hp']. split; [intros c; by rewrite Hu'|by rewrite Hp', Hp]. Qed.

Lemma moved_moved f g w w' w'' : moved f w w' → moved g w' w'' → moved (λ p, g (f p)) w w''.
Proof using Type. intros [Hu Hp] [Hu' Hp']. split; [intros c; by rewrite Hu'|by rewrite Hp', Hp]. Qed.

Lemma submit_kept kind t name n tags w : kept w (submit kind t name n tags w).
Proof using Type.
  unfold submit. destruct (stats t); [|reflexivity]. destruct (statsd_Send _ _ _ _ w) as [err w1] eqn:Hs.
  apply pl_send in Hs. destruct err; [|done]. etrans; [exact Hs|apply pl_state].
Qed.

Lemma NewTelemetry_process cfg w res w' : NewTelemetry cfg w = (res, w') → process_of w' = process_of w.
Proof using Type.
  unfold NewTelemetry. destruct (negb _); [by intros [= _ <-]|].
  destruct (statsd_New _ _ w) as [err w1] eqn:Hn. apply pl_statsd_New in Hn. rewrite <- Hn.
  destruct err; [by intros [= _ <-]|]. rewrite <- (pl_tracer_Start cfg w1). generalize (tracer_Start cfg w1) as w2.
  intros w2. destruct (negb _); [by intros [= _ <-]|].
  destruct (profiler_Start cfg w2) as [err w3] eqn:Hp. apply pl_profiler_Start in Hp. rewrite <- Hp.
  destruct err; [|by intros [= _ <-]]. destruct (statsd_Close w3) as [err w4] eqn:Hc. apply pl_statsd_Close in Hc.
  rewrite <- Hc, <- (pl_tracer_Stop w4). destruct err; by intros [= _ <-].
Qed.

Lemma Close_process t w err w' : Telemetry.Close t w = (err, w') → process_of w' = process_of w.
Proof using Type.
  unfold Close. set (w1 := if profile t then _ else _). set (w2 := if trace t then _ else _).
  assert (process_of w2 = process_of w) as <-.
  { unfold w2, w1. destruct (trace t), (profile t); by rewrite ?pl_tracer_Stop, ?pl_profiler_Stop. }
  destruct (stats t); [|by intros [= _ <-]]. destruct (statsd_Close w2) as [e w3] eqn:Hc. intros [= _ <-].
  by apply pl_statsd_Close in Hc.
Qed.

(** The coordinators of the chains, and the listeners. *)
Definition launches (cfg : Config) (owner : string) (chains : list ChainSettings) : list CoordinatorOptions :=
  (λ chain, mkCoordinatorOptions (NewRuntime range_order chain) owner (rd_LeaderTTL (Config.Redis cfg))) <$> chains.

Definition runtimes_of (chains : list ChainSettings) (runtimes : gmap string Runtime) : gmap string Runtime :=
  foldl (λ m chain, <[chain_name chain := NewRuntime range_order chain]> m) runtimes chains.

Definition servers (cfg : Config) : list HttpServer :=
  let proxy := NewGateway cfg (runtimes_of (Chains cfg) ∅) in [publicServer cfg proxy; adminServer cfg proxy].

Definition add_coordinators (l : list CoordinatorOptions) (p : process) : process :=
  mkProcess (pr_closed p) (pr_coordinators p ++ l) (pr_listeners p).

Definition add_listeners (l : list HttpServer) (p : process) : process :=
  mkProcess (pr_closed p) (pr_coordinators p) (pr_listeners p ++ l).

Definition add_closed (p : process) : process := mkProcess (S (pr_closed p)) (pr_coordinators p) (pr_listeners p).

Lemma moved_ext f g w w' : (∀ p, f p = g p) → moved f w w' → moved g w w'.
Proof using Type. intros Heq [Hu Hp]. split; [done|]. by rewrite Hp. Qed.

Lemma start_chains_moved cfg owner ctx chains : ∀ runtimes w runtimes' w',
  start_chains schedule range_order cfg owner ctx chains runtimes w = (runtimes', w') →
  runtimes' = runtimes_of chains runtimes ∧ moved (add_coordinators (launches cfg owner chains)) w w'.
Proof using Type.
  induction chains as [|chain chains IH]; intros runtimes w runtimes' w'; simpl.
  { intros [= <- <-]. split; [done|]. split; [done|]. unfold add_coordinators. rewrite app_nil_r. by destruct (process_of w). }
  unfold start_chain. destruct (Runtime_Validate _ _ _ w) as [err w1] eqn:Hv. apply (Runtime_Validate_active kept) in Hv.
  intros [-> Hm]%IH. split; [done|].
  pose proof (pl_run (mkCoordinatorOptions (NewRuntime range_order chain) owner (rd_LeaderTTL (Config.Redis cfg))) ctx w1) as Hr.
  eapply moved_ext; [|eapply (kept_moved _ _ _ _ Hv), (moved_moved (add_coordinators [_])), Hm; exact Hr].
  intros p. unfold add_coordinators, launches. simpl. by rewrite <- app_assoc.
Qed.

Lemma serve_moved cfg ctx w err w' :
  serve cfg ctx (runtimes_of (Chains cfg) ∅) w = (err, w') → moved (add_listeners (servers cfg)) w w'.
Proof using Type.
  unfold serve. set (w1 := set_cache_service _ w). set (proxy := NewGateway _ _).
  set (w2 := go_ListenAndServe _ w1). set (w3 := go_ListenAndServe _ w2).
  assert (moved (add_listeners (servers cfg)) w w3) as Hm.
  { eapply (kept_moved _ _ w1); [apply pl_cache|].
    eapply moved_ext; [|eapply (moved_moved (add_listeners [_]) (add_listeners [_])); [exact (pl_listen _ w1)|exact (pl_listen _ w2)]].
    intros p. unfold add_listeners. simpl. by rewrite <- app_assoc. }
  clearbody w3. destruct (wait_servers ctx w3) as [ended w4] eqn:Hwait. apply pl_wait in Hwait.
  assert (moved (add_listeners (servers cfg)) w w4) as Hm4 by by eapply moved_kept.
  assert (∀ ctx res w5, (let* (public, w) := server_Shutdown (publicServer cfg proxy) ctx w4 in
      let* (admin, w) := server_Shutdown (adminServer cfg proxy) ctx w in
      let errors := option_list public ++ option_list admin in
      (if decide (errors = []) then None else Some (ErrJoin errors), w)) = (res, w5) →
    moved (add_listeners (servers cfg)) w w5) as Hshut.
  { intros ctx' res w5. destruct (server_Shutdown _ _ w4) as [e1 w6] eqn:H1'. apply pl_shutdown in H1'.
    destruct (server_Shutdown _ _ w6) as [e2 w7] eqn:H2'. apply pl_shutdown in H2'. intros [= _ <-].
    eapply moved_kept; [exact Hm4|]. by etrans. }
  destruct ended as [|[|] e]; [apply Hshut|apply Hshut|]. intros [= _ <-]. eapply moved_kept; [exact Hm4|apply pl_stop].
Qed.

Lemma getInstanceID_kept w res w' : getInstanceID w = (res, w') →
  kept w w' ∧ ∀ owner, res = Ok owner → owner ≠ "".
Proof using Type.
  unfold getInstanceID. destruct (os_Hostname w) as [[e|host] w1] eqn:Hh; apply pl_host in Hh; [by intros [= <- <-]|].
  destruct (String.eqb_spec host ""); intros [= <- <-]; (split; [done|]); intros owner; [done|].
  intros [= <-]. by destruct host.
Qed.

(** A store that answered, and everything started. *)
Definition all_started (cfg : Config) (w w' : W) : Prop :=
  ∃ owner ctx w1 w2, redis_Ping R ctx w1 = (None, w2) ∧ owner ≠ "" ∧
    moved (λ p, add_listeners (servers cfg) (add_coordinators (launches cfg owner (Chains cfg)) p)) w w'.

Lemma run_connected_moved cfg tel w err w' : run_connected (R := R) schedule range_order cfg tel w = (err, w') →
  (kept w w' ∧ err ≠ None) ∨ all_started cfg w w'.
Proof using Type.
  unfold run_connected, RedisStore.Ping. destruct (signal_NotifyContext w) as [ctx w1] eqn:Hn. apply pl_notify in Hn.
  destruct (redis_Ping R ctx w1) as [[e|] w2] eqn:Hp; pose proof (pl_ping _ _ _ _ Hp) as Hping.
  { intros [= <- <-]. left. split; [|done]. etrans; [exact Hn|]. etrans; [exact Hping|].
    etrans; [apply submit_kept|apply pl_stop]. }
  destruct (getInstanceID w2) as [[e|owner] w3] eqn:Hid; apply getInstanceID_kept in Hid as [Hid Howner].
  { intros [= <- <-]. left. split; [|done]. etrans; [exact Hn|]. etrans; [exact Hping|]. etrans; [exact Hid|apply pl_stop]. }
  destruct (start_chains _ _ _ _ _ _ _ w3) as [runtimes w4] eqn:Hs. apply start_chains_moved in Hs as [-> Hs].
  destruct (serve cfg ctx _ w4) as [err1 w5] eqn:Hserve. apply serve_moved in Hserve. intros [= _ <-]. right.
  exists owner, ctx, w1, w2. split; [done|]. split; [by apply Howner|].
  eapply moved_kept; [|apply pl_stop]. eapply (kept_moved _ _ w3); [etrans; [exact Hn|]; by etrans|].
  by eapply moved_moved.
Qed.

Lemma load_valid `{NetUrl, YamlDecoder} path w cfg w' :
  load range_order path w = (Ok cfg, w') → kept w w' ∧ Config_Validate cfg = None.
Proof using Type.
  unfold load, Load. destruct (os_ReadFile path w) as [contents w1] eqn:Hr. apply pl_read in Hr.
  destruct contents as [e|contents]; [done|]. destruct (yaml_Decode _ contents) as [e|cfg0]; [done|].
  destruct (negb _); [done|]. intros [= Hl <-]. split; [done|]. unfold completed in Hl.
  destruct (getEnvironmentValues _ _ _) as [e|cfg1]; simpl in Hl; [done|].
  destruct (addQuickNodeUpstreams _) as [e|cfg2]; simpl in Hl; [done|].
  by destruct (Config_Validate (applyDefaults cfg2)) eqn:Hv; simplify_eq.
Qed.
End started.

(** * Properties *)


(** ** A process that is told to stop *)

Abbreviation HostSim := (Sim (ChainWorld (Agent * (RequestCache.Service * process)))).

Definition host_rest (w : HostSim) : RequestCache.Service * process := (cw_rest (sim_state w)).2.

Definition with_rest (s : RequestCache.Service * process) (w : HostSim) : HostSim :=
  let c := sim_state w in
  with_sim_state (mkChainWorld (cw_clients c) (cw_runtimes c) ((cw_rest c).1, s)) w.

Definition with_process (f : process → process) (w : HostSim) : HostSim :=
  with_rest ((host_rest w).1, f (host_rest w).2) w.

#[local] Instance host_cache : Caches HostSim := {
  cache_service w := (host_rest w).1;
  set_cache_service s w := with_rest (s, (host_rest w).2) w
}.

#[local] Instance host_redis : RedisClient HostSim keyspace := {
  redis_do A s ctx w := (Err ErrCanceled, w);
  redis_Ping ctx w := (None, w);
  redis_Close w := (None, with_process add_closed w);
  redis_ParseURL url := None;
  redis_error rp := ErrNew "redis: unexpected type";
  redis_ParseInt s := Err (ErrNew "invalid syntax")
}.

#[local] Instance demo_host : Host HostSim := {
  os_ReadFile _ w := (Ok "demo", w);
  os_Getenv _ := demo_getenv;
  os_Hostname w := (Ok "node", w);
  os_Getpid _ := 7%Z;
  signal_NotifyContext w := (Background, w);
  signal_stop w := w;
  go_Run options _ := with_process (add_coordinators [options]);
  go_ListenAndServe server := with_process (add_listeners [server]);
  wait_servers _ w := (Interrupted, w);
  server_Shutdown _ _ w := (None, w)
}.

#[local] Program Instance host_laws : ProcessLaws HostSim keyspace := { process_of w := (host_rest w).2 }.
Next Obligation.
  split.
  - split; [by intros w|]. intros w1 w2 w3 [Hu Hp] [Hu' Hp']. split; [intros c; by rewrite Hu', Hu|by rewrite Hp', Hp].
  - by intros req ctx w r w' [= _ <-].
  - by intros k ctx w r w' [= _ <-].
  - done.
  - done.
  - done.
  - intros A group key f w r shared w' Hf. simpl. destruct (f w) as [r1 w1] eqn:H1. intros [= _ _ <-]. by eapply Hf.
  - intros d ctx w r w'. simpl. destruct (match ctx_deadline ctx with Some _ => _ | None => _ end); by intros [= _ <-].
Qed.
Solve Obligations with (simpl; unfold start_client; intros; repeat case_match; by simplify_eq/=).

Definition host_world : HostSim :=
  mkSim 0 (λ _, Err ErrCanceled)
    (mkChainWorld ∅ ∅ (new_agent (λ _, false), (RequestCache.NewService (mkCacheConfig true 0 0 0 0) 0, mkProcess 0 [] []))).

Definition demo_main : Z * HostSim := main (R := keyspace) (seq 0) map_to_list "rpc-proxy.yaml" host_world.

